(* ===== verification/_CoqProject ===== *)
-Q . S2P
Prelude.v
Word.v
FixedSizeBuffer.v
Ops.v
Rv32.v
IsaDecode.v
Csr.v
IsaBus.v
Breakpoint.v
IsaModel.v
IsaInv.v
IsaSafe.v
IsaRoundtrip.v
IsaRefine.v
IsaReach.v
IsaTrap.v
IsaCsr.v
IsaDevices.v
IsaProps.v
ElfLoader.v
Dff.v
Fifo.v
FifoSpec.v
FifoTrace.v
Rat.v
RatSpec.v
AgeSpec.v
FreeList.v
FreeListTrace.v
CycleBoot.v
CycleDecode.v
CycleDecodeSpec.v
CycleProps.v
FifoWindow.v
CyclePack.v
LoadStore.v
LoadStoreSpec.v
CycleCsr.v
CycleExec.v
CycleExecSpec.v
CycleExecProps.v
Predict.v
PredictSpec.v
Ras.v
RasSpec.v
Rob.v
RenameInv.v
RegsInv.v
CycleRename.v
CycleCommit.v
CycleRenameSpec.v
CycleCommitSpec.v
PredictProps.v
CycleOrderProps.v
CycleBus.v
CycleLsu.v
CycleBusSpec.v
MemorySpec.v
MemoryTrace.v
MemoryProps.v
CycleDispatch.v
CycleIssue.v
CycleLsuIssue.v
CycleReadreg.v
CycleFetch.v
CycleModel.v
CycleStart.v
MainLoop.v
CycleFetchSpec.v
CycleDispatchSpec.v
CycleFrontProps.v
CycleFlush.v
CycleRecovery.v
CycleRecoveryProps.v
CycleWholeProps.v
CycleType.v
CycleIssueSpec.v
CycleReadregSpec.v
CycleIssueProps.v
MainLoopProps.v
