(* ===== verification/Prelude.v ===== *)
(** * DreamCoreV2: a verification development of the processor model

    The program under src/model/model is a simulator of an RV32IM core.  It
    holds two models of the same machine: the ISA model (src/isa_model,
    include/isa_model), which executes one instruction per step, and the cycle
    model (src/cycle_model, include/cycle_model), an out-of-order,
    four-wide superscalar pipeline, clocked flip-flop by flip-flop.  The main
    program runs both and compares what they commit.  This development models
    both, from the flip-flop to the clock cycle of the whole machine, and the
    main loop that runs them in lock step, and proves what makes the parts
    correct.

    *** How the code is modelled

    Every definition is executable.  A C++ object is a record, a method a
    function from the object to the object, and a call that can fail returns an
    [outcome]: [Abort] is a failed [verify], [Undef] undefined behaviour
    (an array access out of range, a union member that was not written, a null
    object), [Hang] a loop the thread cannot leave.  Machine words are [Z] with
    the wrap-around written out (Word.v: [u32], [add32], [shl32], ...).  A
    flip-flop has a current and a new value (Dff.v); what
    [dff_base::sync_all] does to all of them at the end of a cycle is the [sync]
    of each component.  Loops over a queue carry fuel, the size of the queue;
    all other recursion is structural.  Shared objects (a CSR with two owners,
    the devices on a bus) live in a store and are named by their key; the stages
    of the pipeline, which hold pointers to the same components, get a view of
    them in a record, and what they changed is put back ([cycle_model.put_...]).
    The feedback packs, members that [run] writes before it reads them, are
    values of one cycle.

    *** The ISA model

    - Word.v, Ops.v: integers and bit helpers of include/common.h; operations.
    - IsaDecode.v: [isa_model::decode].  IsaModel.v: constructor, [load],
      [reset], [fetch], [execute] with its six units, [interrupt_sync], [run].
    - Csr.v: every CSR class with its filter, and the CSR file.  IsaBus.v: bus,
      RAM, CLINT, interrupt interface.  Breakpoint.v: src/breakpoint.cpp.
    - Rv32.v is the specification: an abstract RV32IM machine, written from the
      instruction set and not from the code, and [encode].  IsaRefine.v: the
      model refines it; IsaRoundtrip.v: decoding what was encoded; IsaInv.v,
      IsaSafe.v, IsaReach.v: the type invariant of every reachable state, by
      induction on the steps; IsaTrap.v, IsaCsr.v, IsaDevices.v: traps,
      interrupts, CSR instructions, bus.  The theorems are in IsaProps.v.

    *** The components of the cycle model

    - Dff.v: flip-flop, port, one-element queue.  Fifo.v: the clocked ring
      buffer, of which every queue of the pipeline is an instance.  FifoSpec.v
      relates it to a list with the elements that are visible, popped and fresh
      in a cycle ([repr_at]); FifoTrace.v to any sequence of operations;
      FifoWindow.v is what the producer sees of it.
    - Rat.v: alias table, checkpoint, register file, age comparison.  RatSpec.v:
      the table as a finite map; AgeSpec.v: ages as a counter in program order.
    - FreeList.v, FreeListTrace.v: the free list and the place of each physical
      register.  CycleBoot.v: how [reset] builds the three.
    - RenameInv.v: the invariant that ties alias tables, free list and reorder
      buffer together.  RegsInv.v: that of the register file, the age and the
      oldest bit of each register against the retired map and the entries.
    - Rob.v: reorder buffer and issue queue.  LoadStore.v, LoadStoreSpec.v: store
      buffer, retired store buffer, load queue.  Ras.v, RasSpec.v: return address
      stack, wait table, memory attributes.  Predict.v, PredictSpec.v: the
      branch predictors behind a type class.  CycleCsr.v: CSRs and interrupts.
    - CycleBus.v: the buses with memory and CLINT behind them.  CycleBusSpec.v,
      MemorySpec.v, MemoryTrace.v: memory and retired store buffer as one array
      of bytes, over any number of cycles.

    *** The stages, in the order of the pipeline

    - CycleFetch.v: fetch1.cpp, fetch2.cpp.  CycleDecode.v: decode.cpp.
      CycleRename.v: rename.cpp.  CycleDispatch.v: dispatch.cpp.  CycleIssue.v:
      integer_issue.cpp.  CycleLsuIssue.v: lsu_issue.cpp.  CycleReadreg.v: the
      two register read stages.  CycleExec.v: alu, mul, div, csr, the
      computation of bru, and wb.cpp.  CycleLsu.v: lu, sau, sdu and the rollback
      of bru and sau.  CycleCommit.v: commit.cpp.  CyclePack.v: the packs
      between them.
    - CycleModel.v: the members of [cycle_model] and [run], one cycle, stage by
      stage in the order of the source, with the arbitration between the
      branch unit, the store address unit and commit.  CycleStart.v:
      constructor and [reset].
    - The contract of each stage is in the file named like it with Spec:
      CycleDecodeSpec.v, CycleRenameSpec.v, CycleCommitSpec.v,
      CycleExecSpec.v, CycleFetchSpec.v, CycleDispatchSpec.v, CycleIssueSpec.v,
      CycleReadregSpec.v; CycleType.v types the micro-operations; CycleRecovery.v
      is about the rollback of a mispredicted branch, over all components it
      touches; CycleFlush.v is about the whole machine.

    *** Around the models

    - ElfLoader.v: elf_loader.cpp, [load_elf] on the contents of a file, beside
      a specification of valid files in unbounded integers.
    - FixedSizeBuffer.v: fixed_size_buffer.h, the history of PCs.
    - MainLoop.v: main.cpp and the commands of network_command.cpp.  [control]
      has the flags that pause and resume the simulation, [debugger] the
      commands that look at the machine, and [lockstep] one turn of the main
      loop in the mode config.h selects: the cycle model runs one clock
      ([run_traced], which is [cycle_model.run] with the feedback and the CSR
      reads of the cycle as results), the ISA model executes what was retired
      ([retire_all]), counters, CLINT and interrupts are copied ([sync_csr],
      [sync_clint], [sync_state]), and the states are compared ([compare]).
      [main_run] is the loop of [run] around it: breakpoints, the pause, the exit
      codes and the retire timeout.

    *** What the theorems show

    - IsaProps.v: n steps of the ISA model are n steps of the abstract machine;
      no reachable state has undefined behaviour (the memories are arrays: an
      access outside of one is [Undef]); traps, interrupts and CSR
      accesses do what the privileged architecture says, error paths included.
    - CycleProps.v: the queue behaves like a queue; ages order like the program;
      a physical register is always in exactly one place; renaming and its
      rollback are inverse; the decode stage agrees with the ISA model and moves
      instructions in order.
    - CycleExecProps.v: the execute units compute what the ISA model computes
      (each with its own definitions); a division ends in time or is flushed, as
      long as no other one reaches the divider before; forwarding between stores
      and loads.
    - CycleOrderProps.v: rename and commit work in program order, keep the
      renaming invariant, and exceptions are precise.
    - CycleRecoveryProps.v: a checkpoint has the state of the renaming
      components behind its branch, and a mispredicted branch takes them back to
      exactly that state.
    - CycleFrontProps.v: fetch packs follow the predictions; dispatch loses and
      reorders nothing and serialises CSR instructions, mret and fences.
      CycleIssueProps.v: the union of sub-operations is read as it was written;
      the oldest ready instruction is issued, readiness being specified apart
      from the tests of the code; operands are bypassed correctly.
    - PredictProps.v: predictors are safe, recover their history, and agree with
      the branch unit on targets; the return address stack follows a list of
      runs, and is a stack until a push finds it full.
    - MemoryProps.v: loads see the stores before them, byte by byte, and the
      retired stores drain in bounded time.
    - CycleWholeProps.v: the reachable states; in any reachable state a flush by commit empties the
      whole pipeline, leaves the committed state alone and restarts the fetch.
    - ElfLoader.v, FixedSizeBuffer.v: of the files that hold their tables and
      whose segments do not overflow 32 bits, the loader accepts exactly the
      valid ones and places their segments (a file that fills the RAM then aborts
      in [load]); the history has the most recent elements.
    - MainLoopProps.v: the comparison reports exactly the differences in x1 to
      x31, in nineteen CSRs and in the first character to be sent (it sees
      neither the memory nor the other CSRs); the ISA model follows the retired
      instructions and stops at the first pc that differs; the debugger's
      commands pause where they say; without a controller the exit status tells
      how the program finished.  [models_agree] is a checked run, not a theorem
      about all programs: 115 turns of the loop on one program with a loop, store
      forwarding, a division, a call, CSR instructions and a trap.

    *** Bounds and fuel

    Queues have fewer than 2^30 elements (the pointers are 32 bit and their
    distance is taken modulo twice the size).  [free_list.restore] refills at
    most twice the size of the queue.  The loops over the four instructions of a
    pack have fuel 4, the width.  A walk over a queue has its size as fuel, a
    scan of the alias table the number of physical registers.  The drain of the
    retired store buffer is bounded by the latency of the memory, 10 cycles, and
    the number of stores.  Each bound is a lemma of the file that uses it.

    *** Not modelled

    The command line, the threads and sockets of the network, the trace
    database, reading files and all printing and JSON output: host input and
    output around the modelled calls.  Of the main loop the two modes
    with one model only are left out.  Vendored libraries and the
    test programs are not part of the simulator.

    *** What is left

    That a cycle of the whole machine keeps the invariants the stages are proved
    against (each stage and the recovery keep them; what is left is their
    composition over [cycle_model.run]), and from there that the comparison of
    the two models never fails, on any program. *)

From Stdlib Require Export ZArith Lia Bool ZifyBool.
From stdpp Require Export base tactics gmap list strings.
From coqutil Require Export Datatypes.RecordSetters.
Export RecordSetters.OCamlLikeNotations.
#[global] Open Scope Z_scope.
#[global] Arguments constant {_} _ _ /.

(** ** Outcomes of C++ code

    [Abort] is a failed [verify]/[verify_only] (the macro of
    include/common.h calls [abort()]), [Hang] a loop the calling thread
    cannot leave by itself (the spin loops of the character FIFO) and [Undef]
    undefined behaviour (an inactive union member, an index outside of an
    array, a null object). *)
Inductive outcome (A : Type) : Type :=
| Ok (a : A)
| Abort
| Hang
| Undef.
Arguments Ok {A} a.
Arguments Abort {A}.
Arguments Hang {A}.
Arguments Undef {A}.

#[global] Instance outcome_ret : MRet outcome := @Ok.
#[global] Instance outcome_bind : MBind outcome := fun A B f x =>
  match x with
  | Ok a => f a
  | Abort => Abort
  | Hang => Hang
  | Undef => Undef
  end.

Definition is_ok {A} (x : outcome A) : bool :=
  match x with Ok _ => true | _ => false end.

Definition verify (cond : bool) : outcome unit := if cond then Ok tt else Abort.

Definition of_option {A} (o : option A) : outcome A :=
  match o with Some a => Ok a | None => Undef end.

Lemma bind_Ok {A B} (x : outcome A) (f : A -> outcome B) b :
  (x ≫= f) = Ok b -> exists a, x = Ok a /\ f a = Ok b.
Proof. destruct x; cbn; intros H; try discriminate. eauto. Qed.

Lemma verify_Ok c u : verify c = Ok u -> c = true.
Proof. destruct c; cbn; congruence. Qed.

Lemma of_option_Ok {A} (o : option A) a : of_option o = Ok a -> o = Some a.
Proof. destruct o; cbn; congruence. Qed.

(** [inv_ok] takes a successful computation apart, bind by bind. *)
Ltac inv_ok_step :=
  match goal with
  | H : mbind _ _ = Ok _ |- _ =>
      apply bind_Ok in H; let x := fresh "x" in let Hx := fresh "Hx" in
      destruct H as (x & Hx & H)
  | H : verify _ = Ok _ |- _ => apply verify_Ok in H
  | H : of_option _ = Ok _ |- _ => apply of_option_Ok in H
  | H : Ok _ = Ok _ |- _ => injection H as H; try subst
  | H : mret _ = Ok _ |- _ => injection H as H; try subst
  | H : Abort = Ok _ |- _ => discriminate H
  | H : Hang = Ok _ |- _ => discriminate H
  | H : Undef = Ok _ |- _ => discriminate H
  | x : (_ * _)%type |- _ => destruct x
  | u : unit |- _ => destruct u
  end.
Ltac inv_ok := repeat (inv_ok_step; cbn beta iota in * ).

(** [safe P x]: [x] has no undefined behaviour, and a result satisfies [P]. *)
Definition safe {A} (P : A -> Prop) (x : outcome A) : Prop :=
  match x with
  | Ok a => P a
  | Abort | Hang => True
  | Undef => False
  end.

Section safe.
Context {A B : Type}.

Lemma safe_Ok (P : A -> Prop) a : P a -> safe P (Ok a).
Proof. done. Qed.

Lemma safe_bind (P : A -> Prop) (Q : B -> Prop) (x : outcome A) (f : A -> outcome B) :
  safe P x -> (forall a, P a -> safe Q (f a)) -> safe Q (x ≫= f).
Proof. destruct x; cbn; auto. Qed.

Lemma safe_mono (P Q : A -> Prop) x : safe P x -> (forall a, P a -> Q a) -> safe Q x.
Proof. destruct x; cbn; auto. Qed.

Lemma safe_verify (Q : B -> Prop) c (f : unit -> outcome B) :
  (c = true -> safe Q (f tt)) -> safe Q (verify c ≫= f).
Proof. destruct c; cbn; auto. Qed.

Lemma safe_inv (P : A -> Prop) x a : safe P x -> x = Ok a -> P a.
Proof. intros H ->. exact H. Qed.
End safe.
Create HintDb safe.
#[export] Hint Resolve safe_Ok : safe.

(** Evaluates a closed decidable proposition. *)
Ltac decide_closed := apply (bool_decide_unpack _); vm_compute; exact I.

(** ** Lists used as arrays: an access outside of the array is [Undef]. *)
Definition arr_get {A} (l : list A) (i : Z) : outcome A :=
  if (i <? 0) then Undef else of_option (l !! Z.to_nat i).

Definition arr_set {A} (l : list A) (i : Z) (x : A) : outcome (list A) :=
  if (0 <=? i) && (i <? Z.of_nat (length l)) then Ok (<[Z.to_nat i := x]> l)
  else Undef.

Definition zlen {A} (l : list A) : Z := Z.of_nat (length l).

Section arrays.
Context {A : Type}.
Implicit Types (l : list A) (i j : Z) (x y : A).

Lemma arr_get_Some l i x : arr_get l i = Ok x <-> 0 <= i /\ l !! Z.to_nat i = Some x.
Proof.
  unfold arr_get. destruct (i <? 0) eqn:E; [split; [discriminate | lia] |].
  split; intros H.
  - apply of_option_Ok in H. split; [lia | done].
  - destruct H as [_ ->]. done.
Qed.

Lemma arr_get_ok l i : 0 <= i < zlen l -> exists x, arr_get l i = Ok x.
Proof.
  unfold zlen. intros H.
  destruct (lookup_lt_is_Some_2 l (Z.to_nat i)) as [x Hx]; [lia |].
  exists x. apply arr_get_Some. split; [lia | done].
Qed.

Lemma arr_get_range l i x : arr_get l i = Ok x -> 0 <= i < zlen l.
Proof.
  intros [H0 H]%arr_get_Some. apply lookup_lt_Some in H. unfold zlen. lia.
Qed.

Lemma arr_set_ok l i x :
  0 <= i < zlen l -> arr_set l i x = Ok (<[Z.to_nat i := x]> l).
Proof.
  unfold arr_set, zlen. intros H.
  replace ((0 <=? i) && (i <? Z.of_nat (length l))) with true by lia. done.
Qed.

Lemma arr_set_inv l i x l' :
  arr_set l i x = Ok l' -> 0 <= i < zlen l /\ l' = <[Z.to_nat i := x]> l.
Proof.
  unfold arr_set, zlen.
  destruct ((0 <=? i) && (i <? Z.of_nat (length l))) eqn:E; [| discriminate].
  intros [= <-]. split; [lia | done].
Qed.

Lemma zlen_insert l i x : zlen (<[Z.to_nat i := x]> l) = zlen l.
Proof. unfold zlen. by rewrite length_insert. Qed.

Lemma arr_set_zlen l i x l' : arr_set l i x = Ok l' -> zlen l' = zlen l.
Proof. intros [_ ->]%arr_set_inv. apply zlen_insert. Qed.

Lemma arr_get_set l i x l' j :
  arr_set l i x = Ok l' -> arr_get l' j = if j =? i then Ok x else arr_get l j.
Proof.
  intros [Hi ->]%arr_set_inv. unfold arr_get. unfold zlen in Hi.
  destruct (j =? i) eqn:E.
  - assert (j = i) as -> by lia.
    replace (i <? 0) with false by lia.
    rewrite list_lookup_insert_eq; [done | lia].
  - destruct (j <? 0) eqn:Ej; [done |].
    rewrite list_lookup_insert_ne; [done | lia].
Qed.

Lemma arr_get_insert l i x j :
  0 <= i < zlen l ->
  arr_get (<[Z.to_nat i := x]> l) j = if j =? i then Ok x else arr_get l j.
Proof. intros H. eapply arr_get_set. by apply arr_set_ok. Qed.
End arrays.
