(* ===== verification/Word.v ===== *)
(** * Machine integers and the bit helpers of include/common.h

    A [uint32_t] is a [Z] in [0, 2^32); every operation that can leave the
    range is followed by the wrap-around [u32].  [i32] is the value of the cast
    to [int32_t] (two's complement). *)

From S2P Require Import Prelude.

Definition two32 : Z := 4294967296.
Definition two64 : Z := 18446744073709551616.

Definition u8 (x : Z) : Z := x mod 256.
Definition u16 (x : Z) : Z := x mod 65536.
Definition u32 (x : Z) : Z := x mod two32.
Definition u64 (x : Z) : Z := x mod two64.

Definition i8 (x : Z) : Z := if x <? 128 then x else x - 256.
Definition i32 (x : Z) : Z := if x <? 2147483648 then x else x - two32.

Definition add32 (x y : Z) : Z := u32 (x + y).
Definition sub32 (x y : Z) : Z := u32 (x - y).
Definition not32 (x : Z) : Z := u32 (Z.lnot x).
Definition shl32 (x n : Z) : Z := u32 (Z.shiftl x n).
Definition b2z (b : bool) : Z := if b then 1 else 0.

Definition is_u8 (x : Z) : Prop := 0 <= x < 256.
Definition is_u16 (x : Z) : Prop := 0 <= x < 65536.
Definition is_u32 (x : Z) : Prop := 0 <= x < two32.
Definition is_u64 (x : Z) : Prop := 0 <= x < two64.

(** Each [is_uN] unfolds for [lia]; [div_lia] also explains [/] and [mod]. *)
Ltac div_lia := Z.div_mod_to_equations; lia.
Ltac word_unfold :=
  unfold is_u8, is_u16, is_u32, is_u64, two32, two64 in *.
Ltac word_lia := word_unfold; lia.

Definition is_align (x access_size : Z) : bool :=
  Z.land x (sub32 access_size 1) =? 0.

Definition sign_extend (imm imm_length : Z) : outcome Z :=
  verify ((0 <? imm_length) && (imm_length <? 32)) ;;
  let sign_bit := Z.shiftr imm (imm_length - 1) in
  Ok (Z.lor (if sign_bit =? 0 then 0
             else shl32 (sub32 (shl32 sign_bit (32 - imm_length)) 1) imm_length)
            imm).

(** ** Ranges *)
Lemma u8_range x : is_u8 (u8 x).
Proof. by apply Z.mod_pos_bound. Qed.
Lemma u16_range x : is_u16 (u16 x).
Proof. by apply Z.mod_pos_bound. Qed.
Lemma u32_range x : is_u32 (u32 x).
Proof. by apply Z.mod_pos_bound. Qed.
Lemma u64_range x : is_u64 (u64 x).
Proof. by apply Z.mod_pos_bound. Qed.

Create HintDb word.
#[export] Hint Resolve u8_range u16_range u32_range u64_range : word.

Lemma u32_small x : is_u32 x -> u32 x = x.
Proof. unfold is_u32, u32. intros. by apply Z.mod_small. Qed.
Lemma u64_small x : is_u64 x -> u64 x = x.
Proof. unfold is_u64, u64. intros. by apply Z.mod_small. Qed.
Lemma u32_u32 x : u32 (u32 x) = u32 x.
Proof. apply u32_small, u32_range. Qed.

Lemma add32_range x y : is_u32 (add32 x y).
Proof. apply u32_range. Qed.
Lemma sub32_range x y : is_u32 (sub32 x y).
Proof. apply u32_range. Qed.
Lemma not32_range x : is_u32 (not32 x).
Proof. apply u32_range. Qed.
Lemma shl32_range x n : is_u32 (shl32 x n).
Proof. apply u32_range. Qed.
#[export] Hint Resolve add32_range sub32_range not32_range shl32_range : word.

Lemma u32_0 : is_u32 0.
Proof. word_lia. Qed.
Lemma b2z_u32 b : is_u32 (b2z b).
Proof. destruct b; cbn; word_lia. Qed.
Lemma if_u32 (b : bool) x y : is_u32 x -> is_u32 y -> is_u32 (if b then x else y).
Proof. by destruct b. Qed.
#[export] Hint Resolve u32_0 b2z_u32 if_u32 : word.

(** ** Bit operations stay in range *)
Lemma testbit_high n x i : 0 <= n -> 0 <= x < 2 ^ n -> n <= i -> Z.testbit x i = false.
Proof.
  intros Hn Hx Hi. rewrite <- (Z.mod_small x (2 ^ n)) by done.
  apply Z.mod_pow2_bits_high. lia.
Qed.

Lemma bits_range n x :
  0 <= n -> 0 <= x -> (forall i, n <= i -> Z.testbit x i = false) -> 0 <= x < 2 ^ n.
Proof.
  intros Hn Hx Hb. split; [done |].
  assert (x = x mod 2 ^ n) as ->; [| apply Z.mod_pos_bound; lia].
  apply Z.bits_inj'. intros i Hi. destruct (decide (i < n)).
  - by rewrite Z.mod_pow2_bits_low by lia.
  - rewrite Z.mod_pow2_bits_high by lia. apply Hb. lia.
Qed.

Lemma land_range_r n x y : 0 <= n -> 0 <= y < 2 ^ n -> 0 <= Z.land x y < 2 ^ n.
Proof.
  intros Hn Hy. apply bits_range; [done | apply Z.land_nonneg; lia |].
  intros i Hi. rewrite Z.land_spec, (testbit_high n y) by lia. apply andb_false_r.
Qed.

Lemma lor_range n x y :
  0 <= n -> 0 <= x < 2 ^ n -> 0 <= y < 2 ^ n -> 0 <= Z.lor x y < 2 ^ n.
Proof.
  intros Hn Hx Hy. apply bits_range; [done | apply Z.lor_nonneg; lia |].
  intros i Hi. rewrite Z.lor_spec, (testbit_high n x), (testbit_high n y) by lia. done.
Qed.

Lemma lxor_range n x y :
  0 <= n -> 0 <= x < 2 ^ n -> 0 <= y < 2 ^ n -> 0 <= Z.lxor x y < 2 ^ n.
Proof.
  intros Hn Hx Hy. apply bits_range; [done | apply Z.lxor_nonneg; lia |].
  intros i Hi. rewrite Z.lxor_spec, (testbit_high n x), (testbit_high n y) by lia. done.
Qed.

Lemma land_u32_l x y : is_u32 x -> 0 <= y -> is_u32 (Z.land x y).
Proof.
  intros Hx Hy. rewrite Z.land_comm. apply (land_range_r 32); [lia | done].
Qed.
Lemma land_u32 x y : is_u32 x -> is_u32 y -> is_u32 (Z.land x y).
Proof. intros Hx Hy. apply land_u32_l; [done | word_lia]. Qed.
Lemma lor_u32 x y : is_u32 x -> is_u32 y -> is_u32 (Z.lor x y).
Proof. apply (lor_range 32). lia. Qed.
Lemma lxor_u32 x y : is_u32 x -> is_u32 y -> is_u32 (Z.lxor x y).
Proof. apply (lxor_range 32). lia. Qed.
Lemma shiftr_u32 x n : is_u32 x -> 0 <= n -> is_u32 (Z.shiftr x n).
Proof.
  intros Hx Hn. rewrite Z.shiftr_div_pow2 by done. word_unfold.
  assert (0 < 2 ^ n) by lia. split; [apply Z.div_pos; lia |].
  apply Z.div_lt_upper_bound; [lia | nia].
Qed.
#[export] Hint Resolve land_u32 lor_u32 lxor_u32 shiftr_u32 : word.

(** ** Fields: [(x >> lo) & (2^w - 1)] is division and remainder *)
Lemma land_ones_mod x w m : 0 <= w -> m = 2 ^ w - 1 -> Z.land x m = x mod 2 ^ w.
Proof.
  intros Hw ->. rewrite <- Z.land_ones by done.
  by rewrite Z.ones_equiv, Z.sub_1_r.
Qed.

Lemma field_div_mod x lo w m :
  0 <= lo -> 0 <= w -> m = 2 ^ w - 1 ->
  Z.land (Z.shiftr x lo) m = (x / 2 ^ lo) mod 2 ^ w.
Proof.
  intros. by rewrite Z.shiftr_div_pow2, (land_ones_mod _ w) by done.
Qed.

Lemma lor_shiftl_add a b n : 0 <= n -> 0 <= a < 2 ^ n -> Z.lor a (Z.shiftl b n) = a + b * 2 ^ n.
Proof.
  intros Hn Ha. rewrite <- Z.shiftl_mul_pow2 by done.
  rewrite <- Z.lxor_lor, Z.add_nocarry_lxor; [done | |].
  all: apply Z.bits_inj'; intros i Hi; rewrite Z.land_spec, Z.bits_0.
  all: destruct (decide (i < n));
    [ rewrite Z.shiftl_spec_low by done; apply andb_false_r
    | rewrite (testbit_high n a) by lia; done ].
Qed.

Lemma shiftl_range n k x : 0 <= n -> 0 <= x < 2 ^ k -> 0 <= Z.shiftl x n < 2 ^ (n + k).
Proof.
  intros Hn Hx. rewrite Z.shiftl_mul_pow2 by done.
  destruct (decide (0 <= k)) as [Hk|Hk].
  - rewrite Z.pow_add_r by done. nia.
  - rewrite Z.pow_neg_r in Hx by lia. lia.
Qed.

(** A mask [2^w - 1] bounds what it lets through. *)
Lemma mask_range w x m : 0 <= w -> m = 2 ^ w - 1 -> 0 <= Z.land x m < 2 ^ w.
Proof. intros Hw ->. rewrite (land_ones_mod _ w) by done. by apply Z.mod_pos_bound; lia. Qed.

Lemma range_weaken n k x : n <= k -> 0 <= x < 2 ^ n -> 0 <= x < 2 ^ k.
Proof.
  intros Hn Hx. assert (2 ^ n <= 2 ^ k) by (apply Z.pow_le_mono_r; lia). lia.
Qed.

(** ** Sign extension *)

(** The mathematical value of a [len]-bit two's complement field. *)
Definition sext (len x : Z) : Z := if x <? 2 ^ (len - 1) then x else x - 2 ^ len.

Lemma sext_range len x :
  0 < len -> 0 <= x < 2 ^ len -> - 2 ^ (len - 1) <= sext len x < 2 ^ (len - 1).
Proof.
  intros Hl Hx. assert (2 ^ len = 2 * 2 ^ (len - 1)).
  { rewrite <- Z.pow_succ_r by lia. f_equal. lia. }
  unfold sext. destruct (x <? 2 ^ (len - 1)) eqn:E; lia.
Qed.

(** [sign_extend] of a field of the given width is the [uint32_t]
    representation of its two's complement value. *)
Lemma sign_extend_sext imm len :
  0 < len < 32 -> 0 <= imm < 2 ^ len -> sign_extend imm len = Ok (u32 (sext len imm)).
Proof.
  intros Hl Hi. unfold sign_extend.
  replace ((0 <? len) && (len <? 32)) with true by lia.
  cbn [verify]. unfold mbind, outcome_bind. f_equal.
  assert (H2 : 2 ^ len = 2 * 2 ^ (len - 1)).
  { rewrite <- Z.pow_succ_r by lia. f_equal. lia. }
  assert (H32 : two32 = 2 ^ len * 2 ^ (32 - len)).
  { rewrite <- Z.pow_add_r by lia. by replace (len + (32 - len)) with 32 by lia. }
  assert (0 < 2 ^ (len - 1)) by lia. assert (0 < 2 ^ (32 - len)) by lia.
  rewrite Z.shiftr_div_pow2 by lia. unfold sext.
  destruct (imm <? 2 ^ (len - 1)) eqn:E.
  - rewrite Z.div_small by lia. cbn [Z.eqb]. rewrite Z.lor_0_l.
    rewrite u32_small; [done |]. unfold is_u32. nia.
  - assert (imm / 2 ^ (len - 1) = 1) as ->.
    { symmetry. apply (Z.div_unique _ _ _ (imm - 2 ^ (len - 1))); lia. }
    cbn [Z.eqb]. unfold sub32, shl32. rewrite Z.shiftl_1_l.
    assert (Hlt : 2 ^ (32 - len) < two32).
    { unfold two32. apply (Z.pow_lt_mono_r 2 _ 32); lia. }
    rewrite (u32_small (2 ^ (32 - len))) by (unfold is_u32; lia).
    rewrite (u32_small (2 ^ (32 - len) - 1)) by (unfold is_u32; lia).
    assert (Hs : is_u32 (Z.shiftl (2 ^ (32 - len) - 1) len)).
    { rewrite Z.shiftl_mul_pow2 by lia. unfold is_u32. nia. }
    rewrite (u32_small _ Hs), Z.lor_comm, lor_shiftl_add by lia.
    unfold u32. replace (imm - 2 ^ len) with (imm + (2 ^ (32 - len) - 1) * 2 ^ len + (-1) * two32) by nia.
    rewrite Z.shiftl_mul_pow2 in Hs by lia. unfold is_u32 in Hs.
    rewrite Z.mod_add by (unfold two32; lia). rewrite Z.mod_small; nia.
Qed.

Lemma i32_range x : is_u32 x -> -2147483648 <= i32 x < 2147483648.
Proof. unfold i32. word_unfold. destruct (x <? 2147483648) eqn:E; lia. Qed.

Lemma u32_i32 x : is_u32 x -> u32 (i32 x) = x.
Proof.
  unfold i32, u32, is_u32. intros H. destruct (x <? 2147483648) eqn:E.
  - by apply Z.mod_small.
  - replace (x - two32) with (x + (-1) * two32) by lia.
    rewrite Z.mod_add by (unfold two32; lia). by apply Z.mod_small.
Qed.

Lemma i32_u32 x : -2147483648 <= x < 2147483648 -> i32 (u32 x) = x.
Proof.
  unfold i32, u32, two32. intros H. destruct (decide (0 <= x)).
  - rewrite Z.mod_small by lia. by replace (x <? 2147483648) with true by lia.
  - assert (x mod 4294967296 = x + 4294967296) as ->.
    { symmetry. apply (Z.mod_unique _ _ (-1)); lia. }
    replace (x + 4294967296 <? 2147483648) with false by lia. lia.
Qed.

Lemma u32_add_l x y : u32 (u32 x + y) = u32 (x + y).
Proof. unfold u32. by rewrite Zplus_mod_idemp_l. Qed.
Lemma u32_add_r x y : u32 (x + u32 y) = u32 (x + y).
Proof. unfold u32. by rewrite Zplus_mod_idemp_r. Qed.
