(* ===== verification/FixedSizeBuffer.v ===== *)
(** * The history buffer (include/fixed_size_buffer.h)

    A ring of [size] cells with 32 bit pointers that drops its oldest element
    when a push finds it full.  The cells of [new T\[size\]] have no value
    before they are written ([None]); reading one, or an index outside of the
    array, is [Undef], as is a [%] by zero.

    The specification is a list: [push] appends and keeps the last [size - 1]
    elements. *)

From S2P Require Import Prelude Word.

Module fixed_size_buffer.
Section fixed_size_buffer.
Context {A : Type}.

Record buffer_t := mk {
  buffer : list (option A);
  size : Z;
  rptr : Z;
  wptr : Z
}.

Definition clear (b : buffer_t) : buffer_t := { b with rptr := 0; wptr := 0 }.
Definition new (sz : Z) : buffer_t :=
  clear (mk (replicate (Z.to_nat sz) None) sz 0 0).

Definition is_empty (b : buffer_t) : bool := rptr b =? wptr b.

(** [%] on [uint32_t]. *)
Definition rem32 (x y : Z) : outcome Z := if y =? 0 then Undef else Ok (x mod y).
Definition count (b : buffer_t) : outcome Z :=
  rem32 (sub32 (add32 (wptr b) (size b)) (rptr b)) (size b).
Definition is_full (b : buffer_t) : outcome bool :=
  n ← count b; Ok (n =? sub32 (size b) 1).

Definition pop (b : buffer_t) : buffer_t :=
  if negb (is_empty b) then
    let b := { b with rptr ::= add32 1 } in
    if size b <=? rptr b then { b with rptr := 0 } else b
  else b.

Definition push (x : A) (b : buffer_t) : outcome buffer_t :=
  is_full b ≫= fun full : bool =>
  let b := if full then pop b else b in
  l ← arr_set (buffer b) (wptr b) (Some x);
  let b := { b with buffer := l; wptr ::= add32 1 } in
  Ok (if size b <=? wptr b then { b with wptr := 0 } else b).

Definition get (index : Z) (b : buffer_t) : outcome A :=
  i ← rem32 (add32 (rptr b) index) (size b);
  c ← arr_get (buffer b) i;
  of_option c.
End fixed_size_buffer.
#[global] Arguments buffer_t : clear implicits.
End fixed_size_buffer.
Abbreviation fixed_size_buffer_t := fixed_size_buffer.buffer_t.

(** ** Specification *)
Module recent.
(** The last [n] elements, oldest first. *)
Definition last_n {A} (n : nat) (l : list A) : list A := drop (length l - n) l.
Definition push {A} (n : nat) (l : list A) (x : A) : list A := last_n n (l ++ [x]).
End recent.

Section spec.
Import fixed_size_buffer.
Context {A : Type}.
Implicit Types (b : fixed_size_buffer_t A) (l : list A).

(** [b] holds the list [l], oldest element first. *)
Record buffers b l : Prop := {
  h_size : 2 <= size b < 2147483648;
  h_cells : zlen (buffer b) = size b;
  h_rptr : 0 <= rptr b < size b;
  h_count : zlen l < size b;
  h_wptr : wptr b = (rptr b + zlen l) mod size b;
  h_elems : forall k x, l !! k = Some x ->
    buffer b !! Z.to_nat ((rptr b + Z.of_nat k) mod size b) = Some (Some x)
}.

Lemma mod_wrap a s : 0 <= a < 2 * s -> a mod s = if a <? s then a else a - s.
Proof. intros H. case_match; [apply Z.mod_small; lia |]. symmetry. apply (Z.mod_unique a s 1); lia. Qed.

(** The buffer's [x = x + 1; if(x >= size) x = 0]. *)
Lemma step_wrap b x :
  0 <= x < size b -> size b < two32 ->
  (if size b <=? add32 1 x then 0 else add32 1 x) = (x + 1) mod size b.
Proof.
  intros H Hs. unfold add32. rewrite u32_small by word_lia.
  rewrite mod_wrap by lia. repeat case_match; lia.
Qed.

Lemma new_holds sz : 2 <= sz < 2147483648 -> buffers (new sz) [].
Proof.
  intros H. split; cbn; unfold zlen; rewrite ?length_replicate, ?Z.mod_0_l by lia; cbn;
    (done || lia).
Qed.

Lemma clear_holds b l : buffers b l -> buffers (clear b) [].
Proof.
  destruct b. intros []. cbn in *.
  split; cbn; unfold zlen in *; rewrite ?Z.mod_0_l by lia; cbn; (done || lia).
Qed.

Lemma wptr_range b l : buffers b l -> 0 <= wptr b < size b.
Proof. intros []. rewrite h_wptr0. apply Z.mod_pos_bound. lia. Qed.

Lemma zlen_pos l : 0 <= zlen l.
Proof. unfold zlen. lia. Qed.

Lemma count_spec b l : buffers b l -> count b = Ok (zlen l).
Proof.
  intros H. pose proof (wptr_range b l H). pose proof (zlen_pos l).
  destruct H as [Hs _ Hr Hc Hw _].
  unfold count, rem32. replace (size b =? 0) with false by lia. f_equal.
  unfold add32, sub32. rewrite (u32_small (wptr b + size b)) by (unfold is_u32; unfold two32 in *; lia).
  rewrite (u32_small (_ - _)) by (unfold is_u32; unfold two32 in *; lia).
  rewrite Hw, (mod_wrap (rptr b + zlen l)) by lia.
  rewrite mod_wrap by (case_match; lia). repeat case_match; lia.
Qed.

Lemma pop_spec b x l : buffers b (x :: l) -> buffers (pop b) l /\ buffer (pop b) = buffer b
  /\ wptr (pop b) = wptr b /\ size (pop b) = size b.
Proof.
  intros H. pose proof (wptr_range b _ H) as Hwr. pose proof (zlen_pos l).
  destruct H as [Hs Hl Hr Hc Hw He]. 
  assert (Hz : zlen (x :: l) = 1 + zlen l) by (unfold zlen; cbn [length]; lia).
  rewrite Hz in Hc.
  assert (Hpop : pop b = { b with rptr := (rptr b + 1) mod size b }).
  { unfold pop, is_empty. replace (rptr b =? wptr b) with false.
    2: { rewrite Hw, Hz, mod_wrap by lia. symmetry. case_match; lia. }
    cbn [negb]. rewrite <- step_wrap by word_lia. destruct b. cbn. by case_match. }
  rewrite Hpop. split; [| by destruct b]. destruct b as [c s r w]. cbn in *.
  split; cbn; [done | done | apply Z.mod_pos_bound; lia | unfold zlen in *; lia | |].
  - rewrite Zplus_mod_idemp_l, Hw, Hz. f_equal. lia.
  - intros k y Hk. rewrite Zplus_mod_idemp_l. specialize (He (S k) y Hk).
    rewrite <- He. do 3 f_equal. lia.
Qed.

(** Writing the cell at [wptr] of a buffer that is not full. *)
Lemma add_spec b l x :
  buffers b l -> zlen l < size b - 1 ->
  exists c, arr_set (buffer b) (wptr b) (Some x) = Ok c /\
    buffers { b with buffer := c; wptr := (wptr b + 1) mod size b } (l ++ [x]).
Proof.
  intros H Hlen. pose proof (wptr_range b _ H) as Hwr. pose proof (zlen_pos l).
  destruct H as [Hs Hl Hr Hc Hw He]. rewrite arr_set_ok by lia. eexists. split; [done |].
  destruct b as [c s r w]. cbn in *.
  assert (Hz : zlen (l ++ [x]) = zlen l + 1) by (unfold zlen; rewrite length_app; cbn; lia).
  split; cbn; [done | by rewrite zlen_insert | done | lia | |].
  - rewrite Hz, Hw, Zplus_mod_idemp_l. f_equal. lia.
  - intros k y Hk. apply lookup_app_Some in Hk as [Hk | [Hk1 Hk2]].
    + pose proof (lookup_lt_Some _ _ _ Hk). rewrite list_lookup_insert_ne; [by apply He |].
      unfold zlen in *. rewrite Hw, !mod_wrap by lia. repeat case_match; lia.
    + apply list_lookup_singleton_Some in Hk2 as [Hk2 <-].
      replace (r + Z.of_nat k) with (r + zlen l) by (unfold zlen; lia).
      rewrite <- Hw. rewrite list_lookup_insert_eq; [done |]. unfold zlen in *. lia.
Qed.

Lemma push_unfold b l x :
  buffers b l -> push x b =
    (let b := if zlen l =? size b - 1 then pop b else b in
     c ← arr_set (buffer b) (wptr b) (Some x);
     let b := { b with buffer := c; wptr ::= add32 1 } in
     Ok (if size b <=? wptr b then { b with wptr := 0 } else b)).
Proof.
  intros H. unfold push, is_full. rewrite (count_spec b l H). cbn [mbind outcome_bind].
  destruct H. unfold sub32. by rewrite u32_small by word_lia.
Qed.

Lemma push_room b l x :
  buffers b l -> zlen l < size b - 1 ->
  exists b', (c ← arr_set (buffer b) (wptr b) (Some x);
     let b := { b with buffer := c; wptr ::= add32 1 } in
     Ok (if size b <=? wptr b then { b with wptr := 0 } else b)) = Ok b' /\
    size b' = size b /\ buffers b' (l ++ [x]).
Proof.
  intros H Hl. destruct (add_spec b l x H Hl) as (c & -> & Hc). cbn [mbind outcome_bind].
  pose proof (wptr_range b _ H). destruct H as [Hs _ _ _ _ _].
  eexists. split; [done |]. rewrite <- step_wrap in Hc by word_lia. destruct b as [c0 s r w].
  cbn in *. by case_match.
Qed.

Lemma push_spec b l x :
  buffers b l -> exists b', push x b = Ok b' /\ size b' = size b /\
    buffers b' (recent.push (Z.to_nat (size b - 1)) l x).
Proof.
  intros H. rewrite (push_unfold b l x H). pose proof (h_size _ _ H). pose proof (h_count _ _ H).
  unfold recent.push, recent.last_n. rewrite length_app. cbn [length].
  destruct (zlen l =? size b - 1) eqn:E.
  - destruct l as [|y l]; [unfold zlen in E; cbn in E; lia |].
    destruct (pop_spec b y l H) as (Hp & _ & _ & Hsz).
    replace (_ - _)%nat with 1%nat by (unfold zlen in *; cbn [length] in *; lia).
    cbn [drop app]. destruct (push_room (pop b) l x Hp) as (b' & Hb' & Hsz' & Hh).
    { unfold zlen in *. cbn [length] in *. lia. }
    exists b'. split; [exact Hb' |]. split; [congruence | done].
  - replace (_ - _)%nat with 0%nat by (unfold zlen in *; lia). rewrite drop_0.
    apply push_room; [done | lia].
Qed.

Lemma get_spec b l i x :
  buffers b l -> l !! i = Some x -> get (Z.of_nat i) b = Ok x.
Proof.
  intros [Hs Hl Hr Hc Hw He] Hi. pose proof (lookup_lt_Some _ _ _ Hi).
  unfold get, rem32. replace (size b =? 0) with false by lia. cbn [mbind outcome_bind].
  unfold add32. rewrite u32_small by (unfold zlen in *; word_lia).
  specialize (He i x Hi). pose proof (Z.mod_pos_bound (rptr b + Z.of_nat i) (size b)) as Hm.
  assert (arr_get (buffer b) ((rptr b + Z.of_nat i) mod size b) = Ok (Some x)) as ->
    by (apply arr_get_Some; split; [lia | exact He]).
  done.
Qed.

(** *** Sequences of operations *)
Fixpoint pushes (xs : list A) b : outcome (fixed_size_buffer_t A) :=
  match xs with [] => Ok b | x :: xs => b ← push x b; pushes xs b end.

Lemma pushes_spec b l xs :
  buffers b l -> exists b', pushes xs b = Ok b' /\ size b' = size b /\
    buffers b' (foldl (recent.push (Z.to_nat (size b - 1))) l xs).
Proof.
  revert b l. induction xs as [|x xs IH]; intros b l H; [by exists b |].
  destruct (push_spec b l x H) as (b1 & E1 & S1 & H1). cbn [pushes foldl].
  rewrite E1. cbn [mbind outcome_bind].
  destruct (IH b1 _ H1) as (b2 & E2 & S2 & H2). rewrite S1 in *. by exists b2.
Qed.

Lemma last_n_length n l : length (recent.last_n n l) = (length l `min` n)%nat.
Proof. unfold recent.last_n. rewrite length_drop. lia. Qed.

Lemma recent_history n xs : foldl (recent.push (A:=A) n) [] xs = recent.last_n n xs.
Proof.
  induction xs as [|x xs IH] using rev_ind; [done |].
  rewrite foldl_snoc, IH. unfold recent.push, recent.last_n.
  rewrite !length_app, length_drop. cbn [length].
  rewrite <- (drop_app_le xs [x] (length xs - n)) by lia. rewrite drop_drop. f_equal. lia.
Qed.
End spec.

(** ** C36
    The history buffer keeps the most recent elements: after [clear] and any
    number of pushes no operation is undefined, [count] is the number of pushes,
    at most [size - 1], and [get i] is the [i]-th of the last [size - 1]
    elements, oldest first. *)
Theorem history_of_pushes {A} (b : fixed_size_buffer_t A) (l xs : list A) :
  buffers b l ->
  let kept := recent.last_n (Z.to_nat (fixed_size_buffer.size b - 1)) xs in
  exists b', pushes xs (fixed_size_buffer.clear b) = Ok b' /\ buffers b' kept /\
    fixed_size_buffer.count b' = Ok (Z.min (zlen xs) (fixed_size_buffer.size b - 1)) /\
    forall i x, kept !! i = Some x -> fixed_size_buffer.get (Z.of_nat i) b' = Ok x.
Proof.
  intros H kept. destruct (pushes_spec _ _ xs (clear_holds b l H)) as (b' & E & S & Hb').
  rewrite recent_history in Hb'. pose proof (h_size _ _ H).
  exists b'. split_and!; [done | done | | intros; by eapply get_spec].
  rewrite (count_spec _ _ Hb'). unfold zlen. rewrite last_n_length. f_equal.
  change (fixed_size_buffer.size (fixed_size_buffer.clear b)) with (fixed_size_buffer.size b).
  lia.
Qed.

(** The PC history of main.cpp, of ten cells, after twelve instructions. *)
Lemma history_of_pushes_witness :
  exists b', pushes (Z.of_nat <$> seq 0 12) (fixed_size_buffer.clear (fixed_size_buffer.new 10)) = Ok b' /\
    fixed_size_buffer.count b' = Ok 9 /\ fixed_size_buffer.get 0 b' = Ok 3.
Proof.
  destruct (history_of_pushes (fixed_size_buffer.new 10) [] (Z.of_nat <$> seq 0 12))
    as (b' & E & _ & C & G); [apply new_holds; split; reflexivity || discriminate |].
  exists b'. split; [exact E | split; [exact C |]]. apply (G 0%nat). reflexivity.
Defined.
