(* ===== verification/Ops.v ===== *)
(** * Operation enumerations

    The enumerations that include/isa_model/isa_model.h and
    include/cycle_model/pipeline/pipeline_common.h declare with the same
    members, once, and the exception and interrupt numbers of
    include/common.h.  Each lives in a module of its name without [_t], so
    that [alu_op.add] reads like [alu_op_t::add]. *)

From S2P Require Import Prelude.

Module arg_src.
Inductive arg_src_t :=
    | reg | imm | disable.
#[global] Instance arg_src_t_eq_dec : EqDecision arg_src_t.
Proof. solve_decision. Defined.
End arg_src.
Abbreviation arg_src_t := arg_src.arg_src_t.


Module op.
Inductive op_t :=
    | add | addi | _and | andi | auipc | csrrc | csrrci | csrrs | csrrsi
    | csrrw | csrrwi | ebreak | ecall | fence | fence_i | lui | _or |
    ori | sll | slli | slt | slti | sltiu | sltu | sra | srai | srl |
    srli | sub | _xor | xori | beq | bge | bgeu | blt | bltu | bne | jal
    | jalr | div | divu | rem | remu | lb | lbu | lh | lhu | lw | sb |
    sh | sw | mul | mulh | mulhsu | mulhu | mret.
#[global] Instance op_t_eq_dec : EqDecision op_t.
Proof. solve_decision. Defined.
End op.
Abbreviation op_t := op.op_t.

Module alu_op.
Inductive alu_op_t :=
    | add | _and | auipc | ebreak | ecall | fence | fence_i | lui | _or
    | sll | slt | sltu | sra | srl | sub | _xor.
#[global] Instance alu_op_t_eq_dec : EqDecision alu_op_t.
Proof. solve_decision. Defined.
End alu_op.
Abbreviation alu_op_t := alu_op.alu_op_t.

Module bru_op.
Inductive bru_op_t :=
    | beq | bge | bgeu | blt | bltu | bne | jal | jalr | mret.
#[global] Instance bru_op_t_eq_dec : EqDecision bru_op_t.
Proof. solve_decision. Defined.
End bru_op.
Abbreviation bru_op_t := bru_op.bru_op_t.

Module div_op.
Inductive div_op_t :=
    | div | divu | rem | remu.
#[global] Instance div_op_t_eq_dec : EqDecision div_op_t.
Proof. solve_decision. Defined.
End div_op.
Abbreviation div_op_t := div_op.div_op_t.

Module lsu_op.
Inductive lsu_op_t :=
    | lb | lbu | lh | lhu | lw | sb | sh | sw.
#[global] Instance lsu_op_t_eq_dec : EqDecision lsu_op_t.
Proof. solve_decision. Defined.
End lsu_op.
Abbreviation lsu_op_t := lsu_op.lsu_op_t.

Module mul_op.
Inductive mul_op_t :=
    | mul | mulh | mulhsu | mulhu.
#[global] Instance mul_op_t_eq_dec : EqDecision mul_op_t.
Proof. solve_decision. Defined.
End mul_op.
Abbreviation mul_op_t := mul_op.mul_op_t.

Module csr_op.
Inductive csr_op_t :=
    | csrrc | csrrs | csrrw.
#[global] Instance csr_op_t_eq_dec : EqDecision csr_op_t.
Proof. solve_decision. Defined.
End csr_op.
Abbreviation csr_op_t := csr_op.csr_op_t.

Module riscv_exception.
Inductive riscv_exception_t :=
    | instruction_address_misaligned | instruction_access_fault |
    illegal_instruction | breakpoint | load_address_misaligned |
    load_access_fault | store_amo_address_misaligned |
    store_amo_access_fault | environment_call_from_u_mode |
    environment_call_from_s_mode | reserved_10 |
    environment_call_from_m_mode | instruction_page_fault |
    load_page_fault | reserved_14 | store_amo_page_fault.
#[global] Instance riscv_exception_t_eq_dec : EqDecision riscv_exception_t.
Proof. solve_decision. Defined.

(** [static_cast<uint32_t>] of the enumerator. *)
Definition to_uint32 (x : riscv_exception_t) : Z :=
  match x with
  | instruction_address_misaligned => 0
  | instruction_access_fault => 1
  | illegal_instruction => 2
  | breakpoint => 3
  | load_address_misaligned => 4
  | load_access_fault => 5
  | store_amo_address_misaligned => 6
  | store_amo_access_fault => 7
  | environment_call_from_u_mode => 8
  | environment_call_from_s_mode => 9
  | reserved_10 => 10
  | environment_call_from_m_mode => 11
  | instruction_page_fault => 12
  | load_page_fault => 13
  | reserved_14 => 14
  | store_amo_page_fault => 15
  end.

Lemma exception_number_range x : 0 <= to_uint32 x < 16.
Proof. destruct x; cbn; lia. Qed.
End riscv_exception.
Abbreviation riscv_exception_t := riscv_exception.riscv_exception_t.

Module riscv_interrupt.
Inductive riscv_interrupt_t :=
    | user_software | supervisor_software | reserved_software |
    machine_software | user_timer | supervisor_timer | reserved_timer |
    machine_timer | user_external | supervisor_external |
    reserved_external | machine_external.
#[global] Instance riscv_interrupt_t_eq_dec : EqDecision riscv_interrupt_t.
Proof. solve_decision. Defined.

(** [static_cast<uint32_t>] of the enumerator. *)
Definition to_uint32 (x : riscv_interrupt_t) : Z :=
  match x with
  | user_software => 0
  | supervisor_software => 1
  | reserved_software => 2
  | machine_software => 3
  | user_timer => 4
  | supervisor_timer => 5
  | reserved_timer => 6
  | machine_timer => 7
  | user_external => 8
  | supervisor_external => 9
  | reserved_external => 10
  | machine_external => 11
  end.

Lemma interrupt_number_range x : 0 <= to_uint32 x < 16.
Proof. destruct x; cbn; lia. Qed.
End riscv_interrupt.
Abbreviation riscv_interrupt_t := riscv_interrupt.riscv_interrupt_t.

