(* ===== verification/Rv32.v ===== *)
(** * An abstract RV32IM machine

    The specification the ISA model is measured against: the instructions of
    the base set and of the M extension with mathematical immediates, their
    32-bit encodings, and their effect on pc, registers and memory, stated
    with integer arithmetic only. *)

From S2P Require Import Prelude Word.

Module rv32.
Inductive cond := Beq | Bne | Blt | Bge | Bltu | Bgeu.
Inductive load_kind := Lb | Lh | Lw | Lbu | Lhu.
Inductive store_kind := Sb | Sh | Sw.
Inductive imm_op := Addi | Slti | Sltiu | Xori | Ori | Andi.
Inductive shift_op := Slli | Srli | Srai.
Inductive reg_op :=
| Add | Sub | Sll | Slt | Sltu | Xor | Srl | Sra | Or | And
| Mul | Mulh | Mulhsu | Mulhu | Div | Divu | Rem | Remu.

Inductive instr :=
| Lui (rd imm20 : Z)
| Auipc (rd imm20 : Z)
| Jal (rd off : Z)
| Jalr (rd rs1 imm : Z)
| Branch (c : cond) (rs1 rs2 off : Z)
| Load (k : load_kind) (rd rs1 imm : Z)
| Store (k : store_kind) (rs1 rs2 imm : Z)
| OpImm (o : imm_op) (rd rs1 imm : Z)
| ShiftImm (o : shift_op) (rd rs1 shamt : Z)
| Op (o : reg_op) (rd rs1 rs2 : Z)
| Fence (pred_succ : Z)
| FenceI.

(** ** Encoding *)

(** The six fields of the R format, least significant first. *)
Definition pack (op rd f3 rs1 rs2 f7 : Z) : Z :=
  op + rd * 2 ^ 7 + f3 * 2 ^ 12 + rs1 * 2 ^ 15 + rs2 * 2 ^ 20 + f7 * 2 ^ 25.

Definition encode_I (op rd f3 rs1 imm : Z) : Z :=
  pack op rd f3 rs1 (imm mod 32) (imm / 32 mod 128).
Definition encode_S (op f3 rs1 rs2 imm : Z) : Z :=
  pack op (imm mod 32) f3 rs1 rs2 (imm / 32 mod 128).
(** imm[4:1|11] in the rd field, imm[12|10:5] in funct7. *)
Definition encode_B (op f3 rs1 rs2 off : Z) : Z :=
  pack op (2 * (off / 2 mod 16) + off / 2 ^ 11 mod 2) f3 rs1 rs2
       (off / 32 mod 64 + 64 * (off / 2 ^ 12 mod 2)).
Definition encode_U (op rd imm20 : Z) : Z :=
  pack op rd (imm20 mod 8) (imm20 / 8 mod 32) (imm20 / 256 mod 32) (imm20 / 8192 mod 128).
(** imm[20|10:1|11|19:12]. *)
Definition encode_J (op rd off : Z) : Z :=
  pack op rd (off / 2 ^ 12 mod 8) (off / 2 ^ 15 mod 32)
       (2 * (off / 2 mod 16) + off / 2 ^ 11 mod 2)
       (off / 32 mod 64 + 64 * (off / 2 ^ 20 mod 2)).

Definition cond_f3 (c : cond) : Z :=
  match c with Beq => 0 | Bne => 1 | Blt => 4 | Bge => 5 | Bltu => 6 | Bgeu => 7 end.
Definition load_f3 (k : load_kind) : Z :=
  match k with Lb => 0 | Lh => 1 | Lw => 2 | Lbu => 4 | Lhu => 5 end.
Definition store_f3 (k : store_kind) : Z := match k with Sb => 0 | Sh => 1 | Sw => 2 end.
Definition imm_f3 (o : imm_op) : Z :=
  match o with Addi => 0 | Slti => 2 | Sltiu => 3 | Xori => 4 | Ori => 6 | Andi => 7 end.
Definition shift_f3 (o : shift_op) : Z := match o with Slli => 1 | Srli => 5 | Srai => 5 end.
Definition shift_f7 (o : shift_op) : Z := match o with Srai => 0x20 | _ => 0 end.
Definition reg_f3 (o : reg_op) : Z :=
  match o with
  | Add | Sub | Mul => 0
  | Sll | Mulh => 1
  | Slt | Mulhsu => 2
  | Sltu | Mulhu => 3
  | Xor | Div => 4
  | Srl | Sra | Divu => 5
  | Or | Rem => 6
  | And | Remu => 7
  end.
Definition reg_f7 (o : reg_op) : Z :=
  match o with
  | Sub | Sra => 0x20
  | Mul | Mulh | Mulhsu | Mulhu | Div | Divu | Rem | Remu => 0x01
  | _ => 0
  end.

Definition encode (i : instr) : Z :=
  match i with
  | Lui rd imm20 => encode_U 0x37 rd imm20
  | Auipc rd imm20 => encode_U 0x17 rd imm20
  | Jal rd off => encode_J 0x6f rd off
  | Jalr rd rs1 imm => encode_I 0x67 rd 0 rs1 imm
  | Branch c rs1 rs2 off => encode_B 0x63 (cond_f3 c) rs1 rs2 off
  | Load k rd rs1 imm => encode_I 0x03 rd (load_f3 k) rs1 imm
  | Store k rs1 rs2 imm => encode_S 0x23 (store_f3 k) rs1 rs2 imm
  | OpImm o rd rs1 imm => encode_I 0x13 rd (imm_f3 o) rs1 imm
  | ShiftImm o rd rs1 shamt => pack 0x13 rd (shift_f3 o) rs1 shamt (shift_f7 o)
  | Op o rd rs1 rs2 => pack 0x33 rd (reg_f3 o) rs1 rs2 (reg_f7 o)
  | Fence ps => pack 0x0f 0 0 0 (ps mod 32) (ps / 32 mod 8)
  | FenceI => pack 0x0f 0 1 0 0 0
  end.

(** ** Well-formed instructions *)
Definition reg_ok (r : Z) : Prop := 0 <= r < 32.
Definition imm12_ok (i : Z) : Prop := -2048 <= i < 2048.

Definition instr_ok (i : instr) : Prop :=
  match i with
  | Lui rd imm20 | Auipc rd imm20 => reg_ok rd /\ 0 <= imm20 < 2 ^ 20
  | Jal rd off => reg_ok rd /\ -2 ^ 20 <= off < 2 ^ 20 /\ off mod 2 = 0
  | Jalr rd rs1 imm => reg_ok rd /\ reg_ok rs1 /\ imm12_ok imm
  | Branch _ rs1 rs2 off =>
      reg_ok rs1 /\ reg_ok rs2 /\ -4096 <= off < 4096 /\ off mod 2 = 0
  | Load _ rd rs1 imm => reg_ok rd /\ reg_ok rs1 /\ imm12_ok imm
  | Store _ rs1 rs2 imm => reg_ok rs1 /\ reg_ok rs2 /\ imm12_ok imm
  | OpImm _ rd rs1 imm => reg_ok rd /\ reg_ok rs1 /\ imm12_ok imm
  | ShiftImm _ rd rs1 shamt => reg_ok rd /\ reg_ok rs1 /\ 0 <= shamt < 32
  | Op _ rd rs1 rs2 => reg_ok rd /\ reg_ok rs1 /\ reg_ok rs2
  | Fence ps => 0 <= ps < 256
  | FenceI => True
  end.

(** ** State and semantics *)
Record arch := mk { pc : Z; reg : Z -> Z; mem : Z -> Z }.

Definition arch_equiv (a b : arch) : Prop :=
  pc a = pc b /\ (forall r, reg_ok r -> reg a r = reg b r) /\ (forall x, mem a x = mem b x).

Definition wrap (x : Z) : Z := x mod 2 ^ 32.
(** The signed reading of a register. *)
Definition signed (x : Z) : Z := sext 32 x.

Definition set_reg (rd v : Z) (a : arch) : arch :=
  mk (pc a) (λ r, if (r =? rd) && negb (rd =? 0) then v else reg a r) (mem a).
Definition set_pc (v : Z) (a : arch) : arch := mk v (reg a) (mem a).
Definition next (a : arch) : arch := set_pc (wrap (pc a + 4)) a.

Definition taken (c : cond) (x y : Z) : bool :=
  match c with
  | Beq => x =? y
  | Bne => negb (x =? y)
  | Blt => signed x <? signed y
  | Bge => signed y <=? signed x
  | Bltu => x <? y
  | Bgeu => y <=? x
  end.

Definition alu (o : reg_op) (x y : Z) : Z :=
  match o with
  | Add => wrap (x + y)
  | Sub => wrap (x - y)
  | Sll => wrap (x * 2 ^ (y mod 32))
  | Slt => if signed x <? signed y then 1 else 0
  | Sltu => if x <? y then 1 else 0
  | Xor => Z.lxor x y
  | Srl => x / 2 ^ (y mod 32)
  | Sra => wrap (signed x / 2 ^ (y mod 32))
  | Or => Z.lor x y
  | And => Z.land x y
  | Mul => wrap (x * y)
  | Mulh => wrap (signed x * signed y / 2 ^ 32)
  | Mulhsu => wrap (signed x * y / 2 ^ 32)
  | Mulhu => x * y / 2 ^ 32
  | Div => if y =? 0 then 2 ^ 32 - 1 else wrap (Z.quot (signed x) (signed y))
  | Divu => if y =? 0 then 2 ^ 32 - 1 else x / y
  | Rem => if y =? 0 then x else wrap (Z.rem (signed x) (signed y))
  | Remu => if y =? 0 then x else x mod y
  end.

Definition imm_reg_op (o : imm_op) : reg_op :=
  match o with
  | Addi => Add | Slti => Slt | Sltiu => Sltu | Xori => Xor | Ori => Or | Andi => And
  end.
Definition shift_reg_op (o : shift_op) : reg_op :=
  match o with Slli => Sll | Srli => Srl | Srai => Sra end.

(** Little-endian loads and stores. *)
Definition load2 (f : Z -> Z) (x : Z) : Z := f x + 2 ^ 8 * f (x + 1).
Definition load4 (f : Z -> Z) (x : Z) : Z :=
  f x + 2 ^ 8 * f (x + 1) + 2 ^ 16 * f (x + 2) + 2 ^ 24 * f (x + 3).
Definition load (k : load_kind) (f : Z -> Z) (x : Z) : Z :=
  match k with
  | Lb => wrap (sext 8 (f x))
  | Lbu => f x
  | Lh => wrap (sext 16 (load2 f x))
  | Lhu => load2 f x
  | Lw => load4 f x
  end.
Definition width (k : store_kind) : Z := match k with Sb => 1 | Sh => 2 | Sw => 4 end.
Definition load_width (k : load_kind) : Z :=
  match k with Lb | Lbu => 1 | Lh | Lhu => 2 | Lw => 4 end.
(** Byte [y - x] of [v] goes to address [y]. *)
Definition store (n : Z) (x v : Z) (f : Z -> Z) : Z -> Z :=
  λ y, if (x <=? y) && (y <? x + n) then v / 2 ^ (8 * (y - x)) mod 256 else f y.

Definition exec (i : instr) (a : arch) : arch :=
  match i with
  | Lui rd imm20 => set_reg rd (imm20 * 2 ^ 12) (next a)
  | Auipc rd imm20 => set_reg rd (wrap (pc a + imm20 * 2 ^ 12)) (next a)
  | Jal rd off => set_reg rd (wrap (pc a + 4)) (set_pc (wrap (pc a + off)) a)
  | Jalr rd rs1 imm =>
      let t := wrap (reg a rs1 + imm) in
      set_reg rd (wrap (pc a + 4)) (set_pc (t - t mod 2) a)
  | Branch c rs1 rs2 off =>
      if taken c (reg a rs1) (reg a rs2) then set_pc (wrap (pc a + off)) a else next a
  | Load k rd rs1 imm => set_reg rd (load k (mem a) (wrap (reg a rs1 + imm))) (next a)
  | Store k rs1 rs2 imm =>
      let a' := next a in
      mk (pc a') (reg a')
         (store (width k) (wrap (reg a rs1 + imm)) (reg a rs2) (mem a))
  | OpImm o rd rs1 imm => set_reg rd (alu (imm_reg_op o) (reg a rs1) (wrap imm)) (next a)
  | ShiftImm o rd rs1 shamt =>
      set_reg rd (alu (shift_reg_op o) (reg a rs1) shamt) (next a)
  | Op o rd rs1 rs2 => set_reg rd (alu o (reg a rs1) (reg a rs2)) (next a)
  | Fence _ | FenceI => next a
  end.

(** The memory accesses of an instruction: address and width. *)
Definition access (i : instr) (a : arch) : option (Z * Z) :=
  match i with
  | Load k _ rs1 imm => Some (wrap (reg a rs1 + imm), load_width k)
  | Store k rs1 _ imm => Some (wrap (reg a rs1 + imm), width k)
  | _ => None
  end.
End rv32.
