(* ===== verification/IsaDecode.v ===== *)
(** * The decoder of the ISA model: [isa_model::decode] (src/isa_model/isa_model.cpp)

    The local variables the function cuts out of the instruction word are the
    record [fields]; every [case] of its [switch(opcode)] is a definition, and
    [decode] is the switch. *)

From S2P Require Import Prelude Word Ops.

(** [op_unit_t] and [isa_state_t] of include/isa_model/isa_model.h. *)
Module op_unit.
Inductive op_unit_t := alu | bru | csr | div | mul | lsu.
#[global] Instance op_unit_t_eq_dec : EqDecision op_unit_t.
Proof. solve_decision. Defined.
End op_unit.
Abbreviation op_unit_t := op_unit.op_unit_t.

Module isa_state.

(** The anonymous union [sub_op]: the constructor is the member written last. *)
Inductive sub_op_t :=
| sub_alu_op (o : alu_op_t)
| sub_bru_op (o : bru_op_t)
| sub_div_op (o : div_op_t)
| sub_lsu_op (o : lsu_op_t)
| sub_mul_op (o : mul_op_t)
| sub_csr_op (o : csr_op_t).
#[global] Instance sub_op_t_eq_dec : EqDecision sub_op_t.
Proof. solve_decision. Defined.

Record isa_state_t := mk {
  value : Z;
  valid : bool;
  pc : Z;
  imm : Z;
  has_exception : bool;
  exception_id : riscv_exception_t;
  exception_value : Z;
  rs1 : Z;
  arg1_src : arg_src_t;
  src1_value : Z;
  rs2 : Z;
  arg2_src : arg_src_t;
  src2_value : Z;
  rd : Z;
  rd_enable : bool;
  rd_value : Z;
  csr : Z;
  op : op_t;
  op_unit : op_unit_t;
  sub_op : sub_op_t
}.

(** The default member initialisers. *)
Definition init : isa_state_t :=
  mk 0 false 0 0 false riscv_exception.instruction_address_misaligned 0
     0 arg_src.reg 0 0 arg_src.reg 0 0 false 0 0 op.add op_unit.alu
     (sub_alu_op alu_op.add).

(** Reading a union member other than the one written last is undefined. *)
Definition get_alu_op (s : sub_op_t) : outcome alu_op_t :=
  match s with sub_alu_op o => Ok o | _ => Undef end.
Definition get_bru_op (s : sub_op_t) : outcome bru_op_t :=
  match s with sub_bru_op o => Ok o | _ => Undef end.
Definition get_div_op (s : sub_op_t) : outcome div_op_t :=
  match s with sub_div_op o => Ok o | _ => Undef end.
Definition get_lsu_op (s : sub_op_t) : outcome lsu_op_t :=
  match s with sub_lsu_op o => Ok o | _ => Undef end.
Definition get_mul_op (s : sub_op_t) : outcome mul_op_t :=
  match s with sub_mul_op o => Ok o | _ => Undef end.
Definition get_csr_op (s : sub_op_t) : outcome csr_op_t :=
  match s with sub_csr_op o => Ok o | _ => Undef end.
End isa_state.
Abbreviation isa_state_t := isa_state.isa_state_t.

(** ** Fields of the instruction word *)
Module fields.
Record fields_t := mk {
  opcode : Z; rd : Z; funct3 : Z; rs1 : Z; rs2 : Z; funct7 : Z;
  imm_i : Z; imm_s : Z; imm_b : Z; imm_u : Z; imm_j : Z;
  fm : Z   (* [(op_data >> 28) & 0x0f], the test of the fence case *)
}.

Definition of_word (op_data : Z) : fields_t :=
  let b lo m := Z.land (Z.shiftr op_data lo) m in
  {| opcode := Z.land op_data 0x7f;
     rd := b 7 0x1f;
     funct3 := b 12 0x07;
     rs1 := b 15 0x1f;
     rs2 := b 20 0x1f;
     funct7 := b 25 0x7f;
     imm_i := b 20 0xfff;
     imm_s := Z.lor (b 7 0x1f) (Z.shiftl (b 25 0x7f) 5);
     imm_b := Z.lor (Z.lor (Z.lor (Z.shiftl (b 8 0x0f) 1) (Z.shiftl (b 25 0x3f) 5))
                           (Z.shiftl (b 7 0x01) 11)) (Z.shiftl (b 31 0x01) 12);
     imm_u := Z.land op_data (not32 0xfff);
     imm_j := Z.lor (Z.lor (Z.lor (Z.shiftl (b 12 0xff) 12) (Z.shiftl (b 20 0x01) 11))
                           (Z.shiftl (b 21 0x3ff) 1)) (Z.shiftl (b 31 0x01) 20);
     fm := b 28 0x0f |}.
End fields.
Abbreviation fields_t := fields.fields_t.

Module isa_decode.
Import isa_state.

(** [isa_state.valid = false]. *)
Definition invalid (s : isa_state_t) : isa_state_t := { s with valid := false }.

(** Lines before the switch. *)
Definition prepare (s : isa_state_t) : isa_state_t :=
  { s with value := 0;
           valid := negb (has_exception s);
           imm := 0;
           rs1 := 0;
           arg1_src := arg_src.reg;
           rs2 := 0;
           rd := 0;
           rd_enable := false;
           csr := 0;
           op := op.add;
           op_unit := op_unit.alu;
           sub_op := sub_alu_op alu_op.add }.

(** [op] and [sub_op] are set together in every inner switch. *)
Definition set_op (o : op_t) (so : sub_op_t) (s : isa_state_t) : isa_state_t :=
  { s with op := o; sub_op := so }.

Definition set_unit (o : op_t) (u : op_unit_t) (so : sub_op_t) (s : isa_state_t) :
  isa_state_t := { s with op := o; op_unit := u; sub_op := so }.

Definition no_args (s : isa_state_t) : isa_state_t :=
  { s with arg1_src := arg_src.disable; arg2_src := arg_src.disable }.

Section cases.
Variable f : fields_t.

Definition case_lui (s : isa_state_t) : outcome isa_state_t :=
  let s := no_args (set_unit op.lui op_unit.alu (sub_alu_op alu_op.lui) s) in
  Ok { s with imm := fields.imm_u f; rd := fields.rd f; rd_enable := true }.

Definition case_auipc (s : isa_state_t) : outcome isa_state_t :=
  let s := no_args (set_unit op.auipc op_unit.alu (sub_alu_op alu_op.auipc) s) in
  Ok { s with imm := fields.imm_u f; rd := fields.rd f; rd_enable := true }.

Definition case_jal (s : isa_state_t) : outcome isa_state_t :=
  let s := no_args (set_unit op.jal op_unit.bru (sub_bru_op bru_op.jal) s) in
  i ← sign_extend (fields.imm_j f) 21;
  Ok { s with imm := i; rd := fields.rd f; rd_enable := true }.

Definition case_jalr (s : isa_state_t) : outcome isa_state_t :=
  let s := set_unit op.jalr op_unit.bru (sub_bru_op bru_op.jalr) s in
  i ← sign_extend (fields.imm_i f) 12;
  Ok { s with arg1_src := arg_src.reg; rs1 := fields.rs1 f;
              arg2_src := arg_src.disable; imm := i;
              rd := fields.rd f; rd_enable := true }.

Definition case_branch (s : isa_state_t) : outcome isa_state_t :=
  i ← sign_extend (fields.imm_b f) 13;
  let s := { s with op_unit := op_unit.bru; arg1_src := arg_src.reg; rs1 := fields.rs1 f;
                    arg2_src := arg_src.reg; rs2 := fields.rs2 f; imm := i } in
  Ok (let c := fields.funct3 f in
      if c =? 0x0 then set_op op.beq (sub_bru_op bru_op.beq) s
      else if c =? 0x1 then set_op op.bne (sub_bru_op bru_op.bne) s
      else if c =? 0x4 then set_op op.blt (sub_bru_op bru_op.blt) s
      else if c =? 0x5 then set_op op.bge (sub_bru_op bru_op.bge) s
      else if c =? 0x6 then set_op op.bltu (sub_bru_op bru_op.bltu) s
      else if c =? 0x7 then set_op op.bgeu (sub_bru_op bru_op.bgeu) s
      else invalid s).

Definition case_load (s : isa_state_t) : outcome isa_state_t :=
  i ← sign_extend (fields.imm_i f) 12;
  let s := { s with op_unit := op_unit.lsu; arg1_src := arg_src.reg; rs1 := fields.rs1 f;
                    arg2_src := arg_src.disable; imm := i;
                    rd := fields.rd f; rd_enable := true } in
  Ok (let c := fields.funct3 f in
      if c =? 0x0 then set_op op.lb (sub_lsu_op lsu_op.lb) s
      else if c =? 0x1 then set_op op.lh (sub_lsu_op lsu_op.lh) s
      else if c =? 0x2 then set_op op.lw (sub_lsu_op lsu_op.lw) s
      else if c =? 0x4 then set_op op.lbu (sub_lsu_op lsu_op.lbu) s
      else if c =? 0x5 then set_op op.lhu (sub_lsu_op lsu_op.lhu) s
      else invalid s).

Definition case_store (s : isa_state_t) : outcome isa_state_t :=
  i ← sign_extend (fields.imm_s f) 12;
  let s := { s with op_unit := op_unit.lsu; arg1_src := arg_src.reg; rs1 := fields.rs1 f;
                    arg2_src := arg_src.reg; rs2 := fields.rs2 f; imm := i } in
  Ok (let c := fields.funct3 f in
      if c =? 0x0 then set_op op.sb (sub_lsu_op lsu_op.sb) s
      else if c =? 0x1 then set_op op.sh (sub_lsu_op lsu_op.sh) s
      else if c =? 0x2 then set_op op.sw (sub_lsu_op lsu_op.sw) s
      else invalid s).

Definition case_op_imm (s : isa_state_t) : outcome isa_state_t :=
  i ← sign_extend (fields.imm_i f) 12;
  let s := { s with op_unit := op_unit.alu; arg1_src := arg_src.reg; rs1 := fields.rs1 f;
                    arg2_src := arg_src.imm; imm := i;
                    rd := fields.rd f; rd_enable := true } in
  Ok (let c := fields.funct3 f in
      let f7 := fields.funct7 f in
      if c =? 0x0 then set_op op.addi (sub_alu_op alu_op.add) s
      else if c =? 0x2 then set_op op.slti (sub_alu_op alu_op.slt) s
      else if c =? 0x3 then set_op op.sltiu (sub_alu_op alu_op.sltu) s
      else if c =? 0x4 then set_op op.xori (sub_alu_op alu_op._xor) s
      else if c =? 0x6 then set_op op.ori (sub_alu_op alu_op._or) s
      else if c =? 0x7 then set_op op.andi (sub_alu_op alu_op._and) s
      else if c =? 0x1 then
        if f7 =? 0x00 then set_op op.slli (sub_alu_op alu_op.sll) s
        else invalid s
      else if c =? 0x5 then
        if f7 =? 0x00 then set_op op.srli (sub_alu_op alu_op.srl) s
        else if f7 =? 0x20 then set_op op.srai (sub_alu_op alu_op.sra) s
        else invalid s
      else invalid s).

Definition case_op (s : isa_state_t) : outcome isa_state_t :=
  let s := { s with op_unit := op_unit.alu; arg1_src := arg_src.reg; rs1 := fields.rs1 f;
                    arg2_src := arg_src.reg; rs2 := fields.rs2 f;
                    rd := fields.rd f; rd_enable := true } in
  Ok (let c := fields.funct3 f in
      let f7 := fields.funct7 f in
      if c =? 0x0 then
        if f7 =? 0x00 then set_op op.add (sub_alu_op alu_op.add) s
        else if f7 =? 0x20 then set_op op.sub (sub_alu_op alu_op.sub) s
        else if f7 =? 0x01 then set_unit op.mul op_unit.mul (sub_mul_op mul_op.mul) s
        else invalid s
      else if c =? 0x1 then
        if f7 =? 0x00 then set_op op.sll (sub_alu_op alu_op.sll) s
        else if f7 =? 0x01 then set_unit op.mulh op_unit.mul (sub_mul_op mul_op.mulh) s
        else invalid s
      else if c =? 0x2 then
        if f7 =? 0x00 then set_op op.slt (sub_alu_op alu_op.slt) s
        else if f7 =? 0x01 then set_unit op.mulhsu op_unit.mul (sub_mul_op mul_op.mulhsu) s
        else invalid s
      else if c =? 0x3 then
        if f7 =? 0x00 then set_op op.sltu (sub_alu_op alu_op.sltu) s
        else if f7 =? 0x01 then set_unit op.mulhu op_unit.mul (sub_mul_op mul_op.mulhu) s
        else invalid s
      else if c =? 0x4 then
        if f7 =? 0x00 then set_op op._xor (sub_alu_op alu_op._xor) s
        else if f7 =? 0x01 then set_unit op.div op_unit.div (sub_div_op div_op.div) s
        else invalid s
      else if c =? 0x5 then
        if f7 =? 0x00 then set_op op.srl (sub_alu_op alu_op.srl) s
        else if f7 =? 0x20 then set_op op.sra (sub_alu_op alu_op.sra) s
        else if f7 =? 0x01 then set_unit op.divu op_unit.div (sub_div_op div_op.divu) s
        else invalid s
      else if c =? 0x6 then
        if f7 =? 0x00 then set_op op._or (sub_alu_op alu_op._or) s
        else if f7 =? 0x01 then set_unit op.rem op_unit.div (sub_div_op div_op.rem) s
        else invalid s
      else if c =? 0x7 then
        if f7 =? 0x00 then set_op op._and (sub_alu_op alu_op._and) s
        else if f7 =? 0x01 then set_unit op.remu op_unit.div (sub_div_op div_op.remu) s
        else invalid s
      else invalid s).

Definition case_fence (s : isa_state_t) : outcome isa_state_t :=
  Ok (let c := fields.funct3 f in
      let rd_rs1_zero := (fields.rd f =? 0x00) && (fields.rs1 f =? 0x00) in
      if c =? 0x0 then
        if rd_rs1_zero && (fields.fm f =? 0x00) then
          { no_args (set_unit op.fence op_unit.alu (sub_alu_op alu_op.fence) s)
            with imm := fields.imm_i f }
        else invalid s
      else if c =? 0x1 then
        if rd_rs1_zero && (fields.imm_i f =? 0x00) then
          no_args (set_unit op.fence_i op_unit.alu (sub_alu_op alu_op.fence_i) s)
        else invalid s
      else invalid s).

(** ecall, ebreak and mret: funct3 is 0. *)
Definition case_system_priv (s : isa_state_t) : isa_state_t :=
  if (fields.rd f =? 0x00) && (fields.rs1 f =? 0x00) then
    let f7 := fields.funct7 f in
    let r2 := fields.rs2 f in
    if f7 =? 0x00 then
      if r2 =? 0x00 then no_args (set_unit op.ecall op_unit.alu (sub_alu_op alu_op.ecall) s)
      else if r2 =? 0x01 then
        no_args (set_unit op.ebreak op_unit.alu (sub_alu_op alu_op.ebreak) s)
      else invalid s
    else if f7 =? 0x18 then
      if r2 =? 0x02 then no_args (set_unit op.mret op_unit.bru (sub_bru_op bru_op.mret) s)
      else invalid s
    else invalid s
  else invalid s.

Definition set_csr_reg (o : op_t) (co : csr_op_t) (s : isa_state_t) : isa_state_t :=
  { set_unit o op_unit.csr (sub_csr_op co) s with
    arg1_src := arg_src.reg; rs1 := fields.rs1 f; arg2_src := arg_src.disable;
    csr := fields.imm_i f; rd := fields.rd f; rd_enable := true }.

Definition set_csr_imm (o : op_t) (co : csr_op_t) (s : isa_state_t) : isa_state_t :=
  { set_unit o op_unit.csr (sub_csr_op co) s with
    arg1_src := arg_src.imm; imm := fields.rs1 f; arg2_src := arg_src.disable;
    csr := fields.imm_i f; rd := fields.rd f; rd_enable := true }.

Definition case_system (s : isa_state_t) : outcome isa_state_t :=
  Ok (let c := fields.funct3 f in
      if c =? 0x0 then case_system_priv s
      else if c =? 0x1 then set_csr_reg op.csrrw csr_op.csrrw s
      else if c =? 0x2 then set_csr_reg op.csrrs csr_op.csrrs s
      else if c =? 0x3 then set_csr_reg op.csrrc csr_op.csrrc s
      else if c =? 0x5 then set_csr_imm op.csrrwi csr_op.csrrw s
      else if c =? 0x6 then set_csr_imm op.csrrsi csr_op.csrrs s
      else if c =? 0x7 then set_csr_imm op.csrrci csr_op.csrrc s
      else invalid s).

(** [switch(opcode)]. *)
Definition switch_opcode (s : isa_state_t) : outcome isa_state_t :=
  let opcode := fields.opcode f in
  if opcode =? 0x37 then case_lui s
  else if opcode =? 0x17 then case_auipc s
  else if opcode =? 0x6f then case_jal s
  else if opcode =? 0x67 then case_jalr s
  else if opcode =? 0x63 then case_branch s
  else if opcode =? 0x03 then case_load s
  else if opcode =? 0x23 then case_store s
  else if opcode =? 0x13 then case_op_imm s
  else if opcode =? 0x33 then case_op s
  else if opcode =? 0x0f then case_fence s
  else if opcode =? 0x73 then case_system s
  else Ok (invalid s).
End cases.

Definition decode (s : isa_state_t) : outcome isa_state_t :=
  switch_opcode (fields.of_word (value s)) (prepare s).
End isa_decode.

(** [addi x1, x2, -1] and an illegal branch encoding. *)
Example decode_addi :
  (isa_decode.decode { isa_state.init with isa_state.value := 0xfff10093 })
  = Ok { isa_decode.prepare isa_state.init with
         isa_state.arg2_src := arg_src.imm; isa_state.rs1 := 2;
         isa_state.imm := 0xffffffff; isa_state.rd := 1;
         isa_state.rd_enable := true; isa_state.op := op.addi }.
Proof. reflexivity. Qed.
