(* ===== verification/Csr.v ===== *)
(** * Control and status registers

    [csr_base] and its subclasses (include/isa_model/component/csr/),
    the [csrfile] (include/isa_model/component/csrfile.h) and the static
    objects of include/isa_model/csr_inst.h.

    CSR objects are shared: [csr_inst::mepc] and the entry 0x341 of the CSR
    file are one object.  The store of a model is therefore a heap of objects
    keyed by their [get_name()], and both the static members and the entries of
    [csr_map_table] are names in that heap. *)

From S2P Require Import Prelude Word.

(** ** One register: [csr_base] *)
Module csr_base.
(** The subclasses, by the [filter] and [read] they override. *)
Inductive csr_class_t :=
| plain | mcounteren | mepc | mie | mip | mstatus | mstatush | mtvec | pmp | charfifo.
#[global] Instance csr_class_t_eq_dec : EqDecision csr_class_t.
Proof. solve_decision. Defined.

Record csr_base_t := mk {
  name : string;
  init_value : Z;
  value : Z;
  cls : csr_class_t
}.

(** The constructor [csr_base(name, init_value)] of a subclass. *)
Definition new (n : string) (c : csr_class_t) (v : Z) : csr_base_t := mk n v v c.

(** The overrides of [filter] that have no side effect. *)
Definition filter (c : csr_class_t) (value : Z) : Z :=
  match c with
  | plain => value
  | mcounteren => Z.land value 0x07
  | mepc => Z.land value (not32 0x03)
  | mie => Z.land value 0x888
  | mip => Z.land value 0x888
  | mstatus => Z.land value 0x88
  | mstatush => 0
  | mtvec => Z.land value (not32 0x03)
  | pmp => 0
  | charfifo => 0
  end.

Definition reset (o : csr_base_t) : csr_base_t := { o with value := init_value o }.
Definition load (v : Z) (o : csr_base_t) : csr_base_t := { o with value := v }.
Definition get_value (o : csr_base_t) : Z := value o.
Definition write (v : Z) (o : csr_base_t) : csr_base_t :=
  { o with value := filter (cls o) v }.
Definition read (o : csr_base_t) : Z := value o.

Definition setbit (bit : Z) (v : bool) (o : csr_base_t) : csr_base_t :=
  write (Z.lor (Z.land (read o) (not32 (Z.shiftl 1 bit))) (Z.shiftl (b2z v) bit)) o.
Definition getbit (bit : Z) (o : csr_base_t) : bool :=
  negb (Z.land (read o) (Z.shiftl 1 bit) =? 0).
End csr_base.
Abbreviation csr_base_t := csr_base.csr_base_t.

(** ** The subclasses with named bits *)
Module mstatus.
Definition new : csr_base_t := csr_base.new "mstatus" csr_base.mstatus 0.
Definition set_mie (v : bool) (o : csr_base_t) : csr_base_t := csr_base.setbit 3 v o.
Definition get_mie (o : csr_base_t) : bool := csr_base.getbit 3 o.
Definition set_mpie (v : bool) (o : csr_base_t) : csr_base_t := csr_base.setbit 7 v o.
Definition get_mpie (o : csr_base_t) : bool := csr_base.getbit 7 o.
End mstatus.

Module mie.
Definition new : csr_base_t := csr_base.new "mie" csr_base.mie 0.
Definition get_msie (o : csr_base_t) : bool := csr_base.getbit 3 o.
Definition get_mtie (o : csr_base_t) : bool := csr_base.getbit 7 o.
Definition get_meie (o : csr_base_t) : bool := csr_base.getbit 11 o.
End mie.

Module mip.
Definition new : csr_base_t := csr_base.new "mip" csr_base.mip 0.
Definition set_msip (v : bool) (o : csr_base_t) : csr_base_t := csr_base.setbit 3 v o.
Definition set_mtip (v : bool) (o : csr_base_t) : csr_base_t := csr_base.setbit 7 v o.
Definition set_meip (v : bool) (o : csr_base_t) : csr_base_t := csr_base.setbit 11 v o.
End mip.

(** ** The store of objects *)
Module csr_env.
(** [send_fifo] and [rev_fifo] are the two character queues shared with the
    network thread, as sequences of bytes; the oldest character is first. *)
Record csr_env_t := mk {
  objs : gmap string csr_base_t;
  send_fifo : list Z;
  rev_fifo : list Z
}.

Definition CHARFIFO_SEND_FIFO_SIZE : Z := 1024.

(** The virtual [csr->read()]: [charfifo] shows the oldest received character
    (a signed [char] promoted to [int]); every other class returns [value]. *)
Definition read (n : string) (e : csr_env_t) : outcome Z :=
  match objs e !! n with
  | None => Undef
  | Some o =>
      match csr_base.cls o with
      | csr_base.charfifo =>
          Ok (match rev_fifo e with
              | [] => 0
              | ch :: _ => Z.lor 0x80000000 (u32 (i8 ch))
              end)
      | _ => Ok (csr_base.read o)
      end
  end.

(** [charfifo::filter]: with bit 31 the oldest received character is dropped,
    without it the low byte is sent; the thread spins while [send_fifo] is full. *)
Definition charfifo_filter (value : Z) (e : csr_env_t) : outcome csr_env_t :=
  if Z.testbit value 31 then
    Ok match rev_fifo e with [] => e | _ :: q => { e with rev_fifo := q } end
  else if zlen (send_fifo e) <? CHARFIFO_SEND_FIFO_SIZE then
    Ok { e with send_fifo := send_fifo e ++ [Z.land value 0xff] }
  else Hang.

(** The virtual [csr->write(value)]. *)
Definition write (n : string) (value : Z) (e : csr_env_t) : outcome csr_env_t :=
  match objs e !! n with
  | None => Undef
  | Some o =>
      e ← match csr_base.cls o with
          | csr_base.charfifo => charfifo_filter value e
          | _ => Ok e
          end;
      Ok { e with objs ::= insert n (csr_base.write value o) }
  end.

Definition reset_obj (n : string) (e : csr_env_t) : outcome csr_env_t :=
  match objs e !! n with
  | None => Undef
  | Some o => Ok { e with objs ::= insert n (csr_base.reset o) }
  end.
End csr_env.
Abbreviation csr_env_t := csr_env.csr_env_t.

(** ** The CSR file *)
Module csrfile.
Record csr_item_t := mk_item { readonly : bool; csr : string }.

(** [csr_map_table] has 4096 entries; an entry that is not [enable]d is absent. *)
Record csrfile_t := mk { csr_map_table : gmap Z csr_item_t }.
Definition table_size : Z := 4096.

Definition new : csrfile_t := mk ∅.

Definition enabled (addr : Z) (t : csrfile_t) : bool :=
  match csr_map_table t !! addr with Some _ => true | None => false end.

Definition item (addr : Z) (t : csrfile_t) : outcome csr_item_t :=
  of_option (csr_map_table t !! addr).

Definition map (addr : Z) (ro : bool) (n : string) (t : csrfile_t) : outcome csrfile_t :=
  verify (addr <? table_size) ;;
  verify (negb (enabled addr t)) ;;
  Ok { t with csr_map_table ::= insert addr (mk_item ro n) }.

(** The loop of [reset()] over the table, in the order of the addresses. *)
Fixpoint reset_from (fuel : nat) (i : Z) (t : csrfile_t) (e : csr_env_t) : outcome csr_env_t :=
  match fuel with
  | O => Ok e
  | S fuel =>
      e ← match csr_map_table t !! i with
          | Some it => csr_env.reset_obj (csr it) e
          | None => Ok e
          end;
      reset_from fuel (i + 1) t e
  end.
Definition reset (t : csrfile_t) (e : csr_env_t) : outcome csr_env_t :=
  reset_from (Z.to_nat table_size) 0 t e.

Definition write_sys (addr value : Z) (t : csrfile_t) (e : csr_env_t) : outcome csr_env_t :=
  verify (addr <? table_size) ;;
  verify (enabled addr t) ;;
  it ← item addr t;
  csr_env.write (csr it) value e.

Definition read_sys (addr : Z) (t : csrfile_t) (e : csr_env_t) : outcome Z :=
  verify (addr <? table_size) ;;
  verify (enabled addr t) ;;
  it ← item addr t;
  csr_env.read (csr it) e.

Definition write_check (addr value : Z) (t : csrfile_t) : bool :=
  if (table_size <=? addr) || negb (enabled addr t) then false
  else match csr_map_table t !! addr with
       | Some it => if readonly it then false else true
       | None => false
       end.

Definition write (addr value : Z) (t : csrfile_t) (e : csr_env_t) :
  outcome (bool * csr_env_t) :=
  if negb (write_check addr value t) then Ok (false, e)
  else it ← item addr t;
       e ← csr_env.write (csr it) value e;
       Ok (true, e).

(** [read(addr, &value)]: [None] is the result [false], which leaves [*value]. *)
Definition read (addr : Z) (t : csrfile_t) (e : csr_env_t) : outcome (option Z) :=
  if (table_size <=? addr) || negb (enabled addr t) then Ok None
  else it ← item addr t;
       v ← csr_env.read (csr it) e;
       Ok (Some v).
End csrfile.
Abbreviation csrfile_t := csrfile.csrfile_t.

(** ** Addresses and static objects *)
Definition CSR_FINISH : Z := 0x804.

(** Everything the constructor of [isa_model] maps, in its order: address,
    read-only flag and object. *)
Definition csr_map_list : list (Z * bool * csr_base_t) :=
  let n := csr_base.new in let p := csr_base.plain in
  [ (0xf11, true, n "mvendorid" p 0x00000000);
    (0xf12, true, n "marchid" p 0x19981001);
    (0xf13, true, n "mimpid" p 0x20220201);
    (0xf14, true, n "mhartid" p 0x00000000);
    (0xf15, true, n "mconfigptr" p 0x00000000);
    (0x300, false, mstatus.new);
    (0x301, false, n "misa" p 0x40001100);
    (0x304, false, mie.new);
    (0x305, false, n "mtvec" csr_base.mtvec 0x00000000);
    (0x306, false, n "mcounteren" csr_base.mcounteren 0x00000000);
    (0x310, false, n "mstatush" csr_base.mstatush 0x00000000);
    (0x340, false, n "mscratch" p 0x00000000);
    (0x341, false, n "mepc" csr_base.mepc 0x00000000);
    (0x342, false, n "mcause" p 0x00000000);
    (0x343, false, n "mtval" p 0x00000000);
    (0x344, false, mip.new);
    (0x800, false, n "charfifo" csr_base.charfifo 0x00000000);
    (0x804, false, n "finish" p 0xFFFFFFFF);
    (0xB00, false, n "mcycle" p 0x00000000);
    (0xB02, false, n "minstret" p 0x00000000);
    (0xB80, false, n "mcycleh" p 0x00000000);
    (0xB82, false, n "minstreth" p 0x00000000);
    (0xB03, true, n "branchnum" p 0x00000000);
    (0xB83, true, n "branchnumh" p 0x00000000);
    (0xB04, true, n "branchpredicted" p 0x00000000);
    (0xB84, true, n "branchpredictedh" p 0x00000000);
    (0xB05, true, n "branchhit" p 0x00000000);
    (0xB85, true, n "branchhith" p 0x00000000);
    (0xB06, true, n "branchmiss" p 0x00000000);
    (0xB86, true, n "branchmissh" p 0x00000000) ].

(** [std::to_string] of the register numbers below 100. *)
Definition digit (d : nat) : string :=
  String (Ascii.ascii_of_nat (48 + d)) EmptyString.
Definition to_string (i : nat) : string :=
  if (i <? 10)%nat then digit i
  else String.append (digit (i / 10)) (digit (i mod 10)).

Definition pmpcfg_new (i : nat) : csr_base_t :=
  csr_base.new (String.append "pmpcfg" (to_string i)) csr_base.pmp 0.
Definition pmpaddr_new (i : nat) : csr_base_t :=
  csr_base.new (String.append "pmpaddr" (to_string i)) csr_base.pmp 0.

(** The two loops of the constructor. *)
Definition pmp_map_list : list (Z * bool * csr_base_t) :=
  ((λ i, (0x3A0 + Z.of_nat i, false, pmpcfg_new i)) <$> seq 0 16) ++
  ((λ i, (0x3B0 + Z.of_nat i, false, pmpaddr_new i)) <$> seq 0 64).

Definition map_step (x : Z * bool * csr_base_t) (te : csrfile_t * csr_env_t) :
  outcome (csrfile_t * csr_env_t) :=
  let '(addr, ro, o) := x in
  let '(t, e) := te in
  t ← csrfile.map addr ro (csr_base.name o) t;
  Ok (t, { e with csr_env.objs ::= insert (csr_base.name o) o }).

Fixpoint map_all (l : list (Z * bool * csr_base_t)) (te : csrfile_t * csr_env_t) :
  outcome (csrfile_t * csr_env_t) :=
  match l with
  | [] => Ok te
  | x :: l => te ← map_step x te; map_all l te
  end.

(** ** Facts *)

(** Every filter is a projection onto the legal values of its register. *)
Lemma filter_idem c v : csr_base.filter c (csr_base.filter c v) = csr_base.filter c v.
Proof.
  destruct c; cbn [csr_base.filter]; try done.
  all: rewrite <- Z.land_assoc, Z.land_diag; done.
Qed.

Lemma filter_u32 c v : is_u32 v -> is_u32 (csr_base.filter c v).
Proof.
  intros Hv. destruct c; cbn [csr_base.filter]; auto with word.
  all: apply land_u32_l; [done | vm_compute; discriminate].
Qed.
