(* ===== verification/IsaBus.v ===== *)
(** * The bus of the ISA model and its slaves

    include/isa_model/component/slave_base.h, slave/memory.h, slave/clint.h,
    interrupt_interface.h and bus.h.

    The bus holds shared pointers to its slaves: the CLINT it serves is the
    object [isa_model] also ticks.  A slave pointer is therefore a name
    ([slave_ref]) and the objects live in the record [devices]. *)

From S2P Require Import Prelude Word Ops Csr.

(** The first instruction, of both models: include/config.h *)
Definition INIT_PC : Z := 0x80000000.

(** ** Interrupt interface *)
Module interrupt_interface.
Record interrupt_interface_t := mk { meip : bool; msip : bool; mtip : bool }.
Definition new : interrupt_interface_t := mk false false false.

(** [reset()] has an empty body: the pending flags keep their values. *)
Definition reset (i : interrupt_interface_t) : interrupt_interface_t := i.

Definition set_pending (cause : riscv_interrupt_t) (pending : bool)
  (i : interrupt_interface_t) : outcome interrupt_interface_t :=
  match cause with
  | riscv_interrupt.machine_external => Ok { i with meip := pending }
  | riscv_interrupt.machine_software => Ok { i with msip := pending }
  | riscv_interrupt.machine_timer => Ok { i with mtip := pending }
  | _ => Abort
  end.

Definition set_meip (v : bool) (i : interrupt_interface_t) := { i with meip := v }.
Definition set_msip (v : bool) (i : interrupt_interface_t) := { i with msip := v }.
Definition set_mtip (v : bool) (i : interrupt_interface_t) := { i with mtip := v }.

(** [get_cause(&cause)]: [None] is the result [false]. *)
Definition get_cause (i : interrupt_interface_t) (e : csr_env_t) :
  outcome (option riscv_interrupt_t) :=
  mie_v ← csr_env.read "mie" e;
  let mie_o := csr_base.load mie_v mie.new in
  mstatus_v ← csr_env.read "mstatus" e;
  let mstatus_o := csr_base.load mstatus_v mstatus.new in
  Ok (if negb (mstatus.get_mie mstatus_o) then None
      else if meip i && mie.get_meie mie_o then Some riscv_interrupt.machine_external
      else if msip i && mie.get_msie mie_o then Some riscv_interrupt.machine_software
      else if mtip i && mie.get_mtie mie_o then Some riscv_interrupt.machine_timer
      else None).

Definition has_interrupt (i : interrupt_interface_t) (e : csr_env_t) : outcome bool :=
  mie_v ← csr_env.read "mie" e;
  let mie_o := csr_base.load mie_v mie.new in
  mstatus_v ← csr_env.read "mstatus" e;
  let mstatus_o := csr_base.load mstatus_v mstatus.new in
  Ok (mstatus.get_mie mstatus_o &&
      ((meip i && mie.get_meie mie_o) || (msip i && mie.get_msie mie_o)
       || (mtip i && mie.get_mtie mie_o))).

(** [run()]: the pending flags become the bits of mip. *)
Definition run (i : interrupt_interface_t) (e : csr_env_t) : outcome csr_env_t :=
  v ← csr_env.read "mip" e;
  let o := csr_base.load v mip.new in
  let o := mip.set_meip (meip i) o in
  let o := mip.set_msip (msip i) o in
  let o := mip.set_mtip (mtip i) o in
  csr_env.write "mip" (csr_base.get_value o) e.
End interrupt_interface.
Abbreviation interrupt_interface_t := interrupt_interface.interrupt_interface_t.

(** ** Memory slave: an array of [size] bytes *)
Module memory.
(** [mem] lists the bytes that are not zero or were written; a byte that is
    absent is 0, as after [memset(mem, 0, size)]. *)
Record memory_t := mk { size : Z; mem : gmap Z Z }.

Definition get (m : memory_t) (a : Z) : Z := default 0 (mem m !! a).
Definition put (a v : Z) (m : memory_t) : memory_t := { m with mem ::= insert a v }.

Definition _init (size : Z) : memory_t := mk size ∅.
Definition _reset (m : memory_t) : memory_t := { m with mem := ∅ }.

(** The little-endian stores and loads through [uint8_t *], [uint16_t *] and
    [uint32_t *]. *)
Definition store8 (addr value : Z) (m : memory_t) : memory_t := put addr (u8 value) m.
Definition store16 (addr value : Z) (m : memory_t) : memory_t :=
  put (addr + 1) (u8 (Z.shiftr value 8)) (put addr (u8 value) m).
Definition store32 (addr value : Z) (m : memory_t) : memory_t :=
  put (addr + 3) (u8 (Z.shiftr value 24))
    (put (addr + 2) (u8 (Z.shiftr value 16))
      (put (addr + 1) (u8 (Z.shiftr value 8)) (put addr (u8 value) m))).
Definition load8 (addr : Z) (m : memory_t) : Z := get m addr.
Definition load16 (addr : Z) (m : memory_t) : Z :=
  get m addr + Z.shiftl (get m (addr + 1)) 8.
Definition load32 (addr : Z) (m : memory_t) : Z :=
  get m addr + Z.shiftl (get m (addr + 1)) 8 + Z.shiftl (get m (addr + 2)) 16
  + Z.shiftl (get m (addr + 3)) 24.

(** An access that leaves [mem[0]] to [mem[size - 1]] is undefined. *)
Definition in_array (addr access_size : Z) (m : memory_t) : bool :=
  (0 <=? addr) && (addr + access_size <=? size m).
Definition in_bounds {A} (addr access_size : Z) (m : memory_t) (x : A) : outcome A :=
  if in_array addr access_size m then Ok x else Undef.
Definition _write8 (addr value : Z) (m : memory_t) : outcome memory_t :=
  in_bounds addr 1 m (store8 addr value m).
Definition _write16 (addr value : Z) (m : memory_t) : outcome memory_t :=
  in_bounds addr 2 m (store16 addr value m).
Definition _write32 (addr value : Z) (m : memory_t) : outcome memory_t :=
  in_bounds addr 4 m (store32 addr value m).
Definition _read8 (addr : Z) (m : memory_t) : outcome Z := in_bounds addr 1 m (load8 addr m).
Definition _read16 (addr : Z) (m : memory_t) : outcome Z := in_bounds addr 2 m (load16 addr m).
Definition _read32 (addr : Z) (m : memory_t) : outcome Z := in_bounds addr 4 m (load32 addr m).
End memory.
Abbreviation memory_t := memory.memory_t.

(** ** Core local interruptor *)
Module clint.
Record clint_t := mk {
  size : Z;
  msip : bool;
  mtimecmp : Z;
  mtime : Z;
  mtime_changed : bool
}.

Definition MSIP_ADDR : Z := 0x0.
Definition MTIMECMP_ADDR : Z := 0x4000.
Definition MTIME_ADDR : Z := 0xBFF8.

Definition _reset (c : clint_t) : clint_t :=
  { c with msip := false; mtimecmp := 0; mtime := 0; mtime_changed := false }.
Definition new : clint_t := mk 0 false 0 0 false.

(** Byte and half-word accesses: empty bodies. *)
Definition _write8 (addr value : Z) (c : clint_t) : clint_t := c.
Definition _write16 (addr value : Z) (c : clint_t) : clint_t := c.
Definition _read8 (addr : Z) (c : clint_t) : Z := 0.
Definition _read16 (addr : Z) (c : clint_t) : Z := 0.

Definition set_lo (x v : Z) : Z := Z.lor (Z.land x 0xFFFFFFFF00000000) v.
Definition set_hi (x v : Z) : Z := Z.lor (Z.land x 0xFFFFFFFF) (u64 (Z.shiftl v 32)).

Definition _write32 (addr value : Z) (c : clint_t) : clint_t :=
  if addr =? MSIP_ADDR then { c with msip := negb (Z.land value 0x01 =? 0) }
  else if addr =? MTIMECMP_ADDR then { c with mtimecmp := set_lo (mtimecmp c) value }
  else if addr =? MTIMECMP_ADDR + 4 then { c with mtimecmp := set_hi (mtimecmp c) value }
  else if addr =? MTIME_ADDR then { c with mtime := set_lo (mtime c) value }
  else if addr =? MTIME_ADDR + 4 then { c with mtime := set_hi (mtime c) value }
  else c.

Definition _read32 (addr : Z) (c : clint_t) : Z :=
  if addr =? MSIP_ADDR then b2z (msip c)
  else if addr =? MTIMECMP_ADDR then Z.land (mtimecmp c) 0xFFFFFFFF
  else if addr =? MTIMECMP_ADDR + 4 then u32 (Z.shiftr (mtimecmp c) 32)
  else if addr =? MTIME_ADDR then Z.land (mtime c) 0xFFFFFFFF
  else if addr =? MTIME_ADDR + 4 then u32 (Z.shiftr (mtime c) 32)
  else 0.

Definition set_mtime (v : Z) (c : clint_t) : clint_t :=
  { c with mtime := v; mtime_changed := true }.
Definition set_mtimecmp (v : Z) (c : clint_t) : clint_t := { c with mtimecmp := v }.
Definition set_msip (v : Z) (c : clint_t) : clint_t := { c with msip := negb (v =? 0) }.

Definition run (c : clint_t) (i : interrupt_interface_t) :
  outcome (clint_t * interrupt_interface_t) :=
  let c := if negb (mtime_changed c)
           then { c with mtime := u64 (mtime c + 1); mtime_changed := false }
           else c in
  i ← interrupt_interface.set_pending riscv_interrupt.machine_timer
        (mtimecmp c <=? mtime c) i;
  i ← interrupt_interface.set_pending riscv_interrupt.machine_software (msip c) i;
  Ok (c, i).
End clint.
Abbreviation clint_t := clint.clint_t.

(** ** Slaves behind the virtual interface of [slave_base] *)
Module slave_base.
Inductive slave_ref := ref_memory | ref_clint.
#[global] Instance slave_ref_eq_dec : EqDecision slave_ref.
Proof. solve_decision. Defined.

Record devices_t := mk { dev_memory : memory_t; dev_clint : clint_t }.

Definition size (r : slave_ref) (d : devices_t) : Z :=
  match r with
  | ref_memory => memory.size (dev_memory d)
  | ref_clint => clint.size (dev_clint d)
  end.

(** [init(size)] stores the size and calls the virtual [_init]. *)
Definition init (sz : Z) (r : slave_ref) (d : devices_t) : devices_t :=
  match r with
  | ref_memory => { d with dev_memory := memory._init sz }
  | ref_clint => { d with dev_clint ::= λ c, { c with clint.size := sz } }
  end.

Definition check (sz addr access_size : Z) : outcome unit :=
  verify (Z.land addr (access_size - 1) =? 0) ;;
  verify (addr <? sz) ;;
  verify (access_size <=? sz - addr).

Definition check_align (addr access_size : Z) : bool :=
  Z.land addr (access_size - 1) =? 0.
Definition check_boundary (sz addr access_size : Z) : bool :=
  (addr <? sz) && (access_size <=? sz - addr).

(** [write8], [write16] and [write32]: the checks, then the override. *)
Definition write8 (r : slave_ref) (addr value : Z) (d : devices_t) : outcome devices_t :=
  check (size r d) addr 1 ;;
  match r with
  | ref_memory => m ← memory._write8 addr value (dev_memory d); Ok { d with dev_memory := m }
  | ref_clint => Ok { d with dev_clint ::= clint._write8 addr value }
  end.
Definition write16 (r : slave_ref) (addr value : Z) (d : devices_t) : outcome devices_t :=
  check (size r d) addr 2 ;;
  match r with
  | ref_memory => m ← memory._write16 addr value (dev_memory d); Ok { d with dev_memory := m }
  | ref_clint => Ok { d with dev_clint ::= clint._write16 addr value }
  end.
Definition write32 (r : slave_ref) (addr value : Z) (d : devices_t) : outcome devices_t :=
  check (size r d) addr 4 ;;
  match r with
  | ref_memory => m ← memory._write32 addr value (dev_memory d); Ok { d with dev_memory := m }
  | ref_clint => Ok { d with dev_clint ::= clint._write32 addr value }
  end.

Definition read8 (r : slave_ref) (addr : Z) (d : devices_t) : outcome Z :=
  check (size r d) addr 1 ;;
  match r with
  | ref_memory => memory._read8 addr (dev_memory d)
  | ref_clint => Ok (clint._read8 addr (dev_clint d))
  end.
Definition read16 (r : slave_ref) (addr : Z) (d : devices_t) : outcome Z :=
  check (size r d) addr 2 ;;
  match r with
  | ref_memory => memory._read16 addr (dev_memory d)
  | ref_clint => Ok (clint._read16 addr (dev_clint d))
  end.
Definition read32 (r : slave_ref) (addr : Z) (d : devices_t) : outcome Z :=
  check (size r d) addr 4 ;;
  match r with
  | ref_memory => memory._read32 addr (dev_memory d)
  | ref_clint => Ok (clint._read32 addr (dev_clint d))
  end.
End slave_base.
Abbreviation slave_ref := slave_base.slave_ref.
Abbreviation devices_t := slave_base.devices_t.

(** ** The bus *)
Module bus.
Record slave_info_t := mk_slave_info {
  base : Z;
  size : Z;
  slave : slave_ref;
  support_fetch : bool
}.
Record error_msg_t := mk_error_msg {
  err_addr : Z; err_size : Z; err_value : Z; is_write : bool; is_fetch : bool
}.
Record bus_t := mk {
  slave_info_list : list slave_info_t;
  error_msg_queue : list error_msg_t
}.
Definition new : bus_t := mk [] [].

(** [base + size] is a [uint32_t] sum. *)
Definition limit (s : slave_info_t) : Z := add32 (base s) (size s).

Definition contains (addr : Z) (s : slave_info_t) : bool :=
  (base s <=? addr) && (addr <? limit s).

Definition overlaps (b sz : Z) (s : slave_info_t) : bool :=
  ((base s <=? b) && (b <? limit s)) || ((b <? base s) && (base s <? add32 b sz)).

Definition check_addr_override (b sz : Z) (t : bus_t) : bool :=
  existsb (overlaps b sz) (slave_info_list t).

Fixpoint find_in (i : Z) (l : list slave_info_t) (addr : Z) (fetch : bool) : Z :=
  match l with
  | [] => -1
  | s :: l =>
      if contains addr s && (negb fetch || support_fetch s) then i
      else find_in (i + 1) l addr fetch
  end.
Definition find_slave_info (addr : Z) (fetch : bool) (t : bus_t) : Z :=
  find_in 0 (slave_info_list t) addr fetch.

(** [get_slave_obj]: [None] is [nullptr]. *)
Definition get_slave_obj (addr : Z) (fetch : bool) (t : bus_t) : outcome (option slave_ref) :=
  let id := find_slave_info addr fetch t in
  if 0 <=? id then s ← arr_get (slave_info_list t) id; Ok (Some (slave s)) else Ok None.

Definition convert_to_slave_addr (addr : Z) (fetch : bool) (t : bus_t) : outcome Z :=
  let id := find_slave_info addr fetch t in
  if 0 <=? id then s ← arr_get (slave_info_list t) id; Ok (sub32 addr (base s)) else Ok addr.

Definition map (b sz : Z) (r : slave_ref) (fetch : bool) (t : bus_t) (d : devices_t) :
  outcome (bus_t * devices_t) :=
  verify (negb (check_addr_override b sz t)) ;;
  Ok ({ t with slave_info_list ::= λ l, l ++ [mk_slave_info b sz r fetch] },
      slave_base.init sz r d).

Definition check_align (addr access_size : Z) : bool := is_align addr access_size.

Definition push_error (m : error_msg_t) (t : bus_t) : bus_t :=
  { t with error_msg_queue ::= λ q, q ++ [m] }.

(** The common shape of the six accesses: find the slave, hand it the offset,
    or queue an error message. *)
Definition write8 (addr value : Z) (t : bus_t) (d : devices_t) : outcome (bus_t * devices_t) :=
  let value := u8 value in
  let id := find_slave_info addr false t in
  if 0 <=? id then
    s ← arr_get (slave_info_list t) id;
    d ← slave_base.write8 (slave s) (sub32 addr (base s)) value d;
    Ok (t, d)
  else Ok (push_error (mk_error_msg addr 1 value true false) t, d).
Definition write16 (addr value : Z) (t : bus_t) (d : devices_t) : outcome (bus_t * devices_t) :=
  let value := u16 value in
  let id := find_slave_info addr false t in
  if 0 <=? id then
    s ← arr_get (slave_info_list t) id;
    d ← slave_base.write16 (slave s) (sub32 addr (base s)) value d;
    Ok (t, d)
  else Ok (push_error (mk_error_msg addr 2 value true false) t, d).
Definition write32 (addr value : Z) (t : bus_t) (d : devices_t) : outcome (bus_t * devices_t) :=
  let id := find_slave_info addr false t in
  if 0 <=? id then
    s ← arr_get (slave_info_list t) id;
    d ← slave_base.write32 (slave s) (sub32 addr (base s)) value d;
    Ok (t, d)
  else Ok (push_error (mk_error_msg addr 4 value true false) t, d).

Definition read8 (addr : Z) (fetch : bool) (t : bus_t) (d : devices_t) : outcome (Z * bus_t) :=
  let id := find_slave_info addr fetch t in
  if 0 <=? id then
    s ← arr_get (slave_info_list t) id;
    v ← slave_base.read8 (slave s) (sub32 addr (base s)) d;
    Ok (v, t)
  else Ok (0, push_error (mk_error_msg addr 1 0 false fetch) t).
Definition read16 (addr : Z) (fetch : bool) (t : bus_t) (d : devices_t) : outcome (Z * bus_t) :=
  let id := find_slave_info addr fetch t in
  if 0 <=? id then
    s ← arr_get (slave_info_list t) id;
    v ← slave_base.read16 (slave s) (sub32 addr (base s)) d;
    Ok (v, t)
  else Ok (0, push_error (mk_error_msg addr 2 0 false fetch) t).
(** [read32] looks the slave up with [false] whatever [is_fetch] says. *)
Definition read32 (addr : Z) (fetch : bool) (t : bus_t) (d : devices_t) : outcome (Z * bus_t) :=
  let id := find_slave_info addr false t in
  if 0 <=? id then
    s ← arr_get (slave_info_list t) id;
    v ← slave_base.read32 (slave s) (sub32 addr (base s)) d;
    Ok (v, t)
  else Ok (0, push_error (mk_error_msg addr 4 0 false fetch) t).
End bus.
Abbreviation bus_t := bus.bus_t.
