(* ===== verification/Breakpoint.v ===== *)
(** * Breakpoints: src/breakpoint.cpp

    The file's static variables are the record [breakpoint_state_t]. *)

From S2P Require Import Prelude Word Csr.

Module breakpoint.
Inductive breakpoint_type_t := cycle | instruction_num | pc | csrw.
#[global] Instance breakpoint_type_t_eq_dec : EqDecision breakpoint_type_t.
Proof. solve_decision. Defined.

Record breakpoint_info_t := mk_info { type : breakpoint_type_t; value : Z }.

Record breakpoint_state_t := mk {
  breakpoint_info_list : list breakpoint_info_t;
  breakpoint_found : bool;
  breakpoint_csr_finish_found : bool;
  breakpoint_csr_finish_value : Z
}.
Definition init : breakpoint_state_t := mk [] false false 0.

Definition breakpoint_clear (s : breakpoint_state_t) : breakpoint_state_t :=
  { s with breakpoint_info_list := [] }.

Definition breakpoint_add (t : breakpoint_type_t) (v : Z) (s : breakpoint_state_t) :
  breakpoint_state_t := { s with breakpoint_info_list ::= λ l, l ++ [mk_info t v] }.

Definition breakpoint_remove (id : Z) (s : breakpoint_state_t) : breakpoint_state_t :=
  if id <? zlen (breakpoint_info_list s) then
    { s with breakpoint_info_list ::= delete (Z.to_nat id) }
  else s.

(** The body of the loop of [breakpoint_csr_trigger]: does this entry match? *)
Definition csrw_match (csr : Z) (b : breakpoint_info_t) : bool :=
  bool_decide (type b = csrw) && (value b =? csr).

Definition breakpoint_csr_trigger (csr v : Z) (write : bool) (s : breakpoint_state_t) :
  breakpoint_state_t :=
  if (csr =? CSR_FINISH) && write then
    { s with breakpoint_csr_finish_found := true;
             breakpoint_csr_finish_value := v;
             breakpoint_found := true }
  else if write && existsb (csrw_match csr) (breakpoint_info_list s) then
    { s with breakpoint_found := true }
  else s.

Definition breakpoint_get_finish (s : breakpoint_state_t) : option Z * breakpoint_state_t :=
  if breakpoint_csr_finish_found s then
    (Some (breakpoint_csr_finish_value s), { s with breakpoint_csr_finish_found := false })
  else (None, s).

Definition check_match (cyc inum : Z) (pcs : list Z) (b : breakpoint_info_t) : bool :=
  match type b with
  | cycle => cyc =? value b
  | instruction_num => inum =? value b
  | pc => existsb (λ p, p =? value b) pcs
  | csrw => false
  end.

Definition breakpoint_check (cyc inum : Z) (pcs : list Z) (s : breakpoint_state_t) :
  bool * breakpoint_state_t :=
  if breakpoint_found s then (true, { s with breakpoint_found := false })
  else (existsb (check_match cyc inum pcs) (breakpoint_info_list s), s).
End breakpoint.
Abbreviation breakpoint_state_t := breakpoint.breakpoint_state_t.
