(* ===== verification/IsaModel.v ===== *)
(** * The ISA model: [isa_model] (src/isa_model/isa_model.cpp)

    State passing: every member function takes the record of the members (and
    the static CSR objects and breakpoint variables it reaches) and returns the
    next one.  The configuration is the one of include/config.h:
    NEED_ISA_MODEL and NEED_ISA_AND_CYCLE_MODEL_COMPARE are defined,
    BRANCH_DUMP is not. *)

From S2P Require Import Prelude Word Ops IsaDecode Csr IsaBus Breakpoint.

(** ** Architectural registers: include/isa_model/component/regfile.h *)
Module regfile.
Record regfile_t := mk { size : Z; reg_data : list Z }.
Definition reset (r : regfile_t) : regfile_t :=
  { r with reg_data := replicate (Z.to_nat (size r)) 0 }.
Definition new (sz : Z) : regfile_t := reset (mk sz []).
Definition write (addr value : Z) (r : regfile_t) : outcome regfile_t :=
  verify (addr <? size r) ;;
  l ← arr_set (reg_data r) addr value;
  Ok { r with reg_data := l }.
Definition read (addr : Z) (r : regfile_t) : outcome Z :=
  verify (addr <? size r) ;;
  arr_get (reg_data r) addr.
End regfile.
Abbreviation regfile_t := regfile.regfile_t.

(** ** Constants of include/config.h *)
Definition ARCH_REG_NUM : Z := 32.
Definition MEMORY_BASE : Z := 0x80000000.
Definition MEMORY_SIZE : Z := 1048576.
Definition CLINT_BASE : Z := 0x20000000.
Definition CLINT_SIZE : Z := 0x10000.

Module isa_model.
Import isa_state.

Record isa_model_t := mk {
  cpu_clock_cycle : Z;
  committed_instruction_num : Z;
  branch_num : Z;
  branch_predicted : Z;
  branch_hit : Z;
  branch_miss : Z;
  pc : Z;
  commit_num : Z;
  bus : bus_t;
  csr_file : csrfile_t;
  interrupt_interface : interrupt_interface_t;
  arch_regfile : regfile_t;
  devices : devices_t;         (* [clint] and the memory behind the bus *)
  csr_env : csr_env_t;         (* the CSR objects and the character queues *)
  breakpoints : breakpoint_state_t
}.

(** Writes to a static CSR object, [csr_inst::n.write(v)]. *)
Definition csr_inst_write (n : string) (v : Z) (m : isa_model_t) : outcome isa_model_t :=
  e ← csr_env.write n v (csr_env m); Ok { m with csr_env := e }.
Definition csr_inst_read (n : string) (m : isa_model_t) : outcome Z :=
  csr_env.read n (csr_env m).

(** ** Construction and reset *)
Definition reset (m : isa_model_t) : outcome isa_model_t :=
  e ← csrfile.reset (csr_file m) (csr_env m);
  (* [bus.get_slave_obj(0x80000000, false)], cast to [memory *] *)
  o ← bus.get_slave_obj 0x80000000 false (bus m);
  d ← match o with
      | Some slave_base.ref_memory =>
          Ok { devices m with slave_base.dev_memory ::= memory._reset }
      | _ => Undef
      end;
  Ok { m with arch_regfile ::= regfile.reset;
              csr_env := e;
              interrupt_interface ::= interrupt_interface.reset;
              devices := { d with slave_base.dev_clint ::= clint._reset };
              cpu_clock_cycle := 0;
              committed_instruction_num := 0;
              branch_num := 1;
              branch_predicted := 0;
              branch_hit := 0;
              branch_miss := 0;
              pc := INIT_PC }.

(** The constructor: default members, the bus map, the CSR map, [reset()].
    [commit_num] is not touched by [reset()]. *)
Definition new (send rev : list Z) (bp : breakpoint_state_t) : outcome isa_model_t :=
  let d := slave_base.mk (memory.mk 0 ∅) clint.new in
  bd ← bus.map MEMORY_BASE MEMORY_SIZE slave_base.ref_memory true bus.new d;
  bd ← bus.map CLINT_BASE CLINT_SIZE slave_base.ref_clint false bd.1 bd.2;
  te ← map_all (csr_map_list ++ pmp_map_list) (csrfile.new, csr_env.mk ∅ send rev);
  reset (mk 0 0 0 0 0 0 INIT_PC 0 bd.1 te.1 interrupt_interface.new
            (regfile.new ARCH_REG_NUM) bd.2 te.2 bp).

(** [load(mem, size)]: the image is copied byte by byte through the bus. *)
Fixpoint load_from (i : Z) (buf : list Z) (m : isa_model_t) : outcome isa_model_t :=
  match buf with
  | [] => Ok m
  | b :: buf =>
      bd ← bus.write8 (add32 MEMORY_BASE i) b (bus m) (devices m);
      load_from (i + 1) buf { m with bus := bd.1; devices := bd.2 }
  end.
Definition load (buf : list Z) (m : isa_model_t) : outcome isa_model_t :=
  verify (zlen buf <? MEMORY_SIZE) ;; load_from 0 buf m.

(** ** Fetch *)
Definition fetch (s : isa_state_t) (m : isa_model_t) : outcome (isa_state_t * isa_model_t) :=
  let p := pc m in
  let s := { s with isa_state.pc := p;
                    value := 0;
                    has_exception := false;
                    exception_id := riscv_exception.instruction_access_fault;
                    exception_value := 0 } in
  let s := if negb (bus.check_align p 4) then
             { s with has_exception := true;
                      exception_id := riscv_exception.instruction_address_misaligned;
                      exception_value := p }
           else s in
  vb ← bus.read32 p true (bus m) (devices m);
  Ok ({ s with value := vb.1 }, { m with bus := vb.2; pc := add32 p 4 }).

(** ** Execute *)

(** Raise an exception with [exception_value = 0]. *)
Definition raise (id : riscv_exception_t) (v : Z) (s : isa_state_t) : isa_state_t :=
  { s with has_exception := true; exception_id := id; exception_value := v }.

Definition execute_alu (s : isa_state_t) : outcome isa_state_t :=
  if negb (has_exception s) then
    if valid s then
      o ← get_alu_op (sub_op s);
      let a := src1_value s in
      let b := src2_value s in
      let rd v := Ok { s with rd_value := v } in
      match o with
      | alu_op.add => rd (add32 a b)
      | alu_op._and => rd (Z.land a b)
      | alu_op.auipc => rd (add32 (imm s) (isa_state.pc s))
      | alu_op.ebreak =>
          Ok (raise riscv_exception.breakpoint 0 { s with rd_value := 0 })
      | alu_op.ecall =>
          Ok (raise riscv_exception.environment_call_from_m_mode 0 { s with rd_value := 0 })
      | alu_op.fence => rd 0
      | alu_op.fence_i => rd 0
      | alu_op.lui => rd (imm s)
      | alu_op._or => rd (Z.lor a b)
      | alu_op.sll => rd (shl32 a (Z.land b 0x1f))
      | alu_op.slt => rd (b2z (i32 a <? i32 b))
      | alu_op.sltu => rd (b2z (a <? b))
      | alu_op.sra => rd (u32 (Z.shiftr (i32 a) (Z.land b 0x1f)))
      | alu_op.srl => rd (Z.shiftr a (Z.land b 0x1f))
      | alu_op.sub => rd (sub32 a b)
      | alu_op._xor => rd (Z.lxor a b)
      end
    else Ok (raise riscv_exception.illegal_instruction 0 s)
  else Ok s.

(** [verify_only(isa_state.valid && !isa_state.has_exception)]. *)
Definition unit_entry (s : isa_state_t) : outcome unit :=
  verify (valid s && negb (has_exception s)).

(** The [mret] case of [execute_bru]: the jump target, and mstatus.mie from
    mstatus.mpie. *)
Definition bru_mret (m : isa_model_t) : outcome (Z * isa_model_t) :=
  next_pc ← csr_inst_read "mepc" m;
  v ← csr_inst_read "mstatus" m;
  let o := csr_base.load v mstatus.new in
  let o := mstatus.set_mie (mstatus.get_mpie o) o in
  m ← csr_inst_write "mstatus" (csr_base.get_value o) m;
  Ok (next_pc, m).

Definition execute_bru (s : isa_state_t) (m : isa_model_t) :
  outcome (isa_state_t * isa_model_t) :=
  unit_entry s ;;
  let bru_next_pc := add32 (isa_state.pc s) (imm s) in
  o ← get_bru_op (sub_op s);
  let a := src1_value s in
  let b := src2_value s in
  let link := { s with rd_value := add32 (isa_state.pc s) 4 } in
  let branch (bru_jump : bool) :=
    Ok (s, if bru_jump then { m with pc := bru_next_pc } else m) in
  match o with
  | bru_op.beq => branch (a =? b)
  | bru_op.bge => branch (i32 b <=? i32 a)
  | bru_op.bgeu => branch (b <=? a)
  | bru_op.blt => branch (i32 a <? i32 b)
  | bru_op.bltu => branch (a <? b)
  | bru_op.bne => branch (negb (a =? b))
  | bru_op.jal => Ok (link, { m with pc := bru_next_pc })
  | bru_op.jalr =>
      Ok (link, { m with pc := Z.land (add32 (imm s) a) (not32 0x01) })
  | bru_op.mret =>
      nm ← bru_mret m;
      Ok (s, { nm.2 with pc := nm.1 })
  end.

Definition csr_trigger (csr v : Z) (write : bool) (m : isa_model_t) : isa_model_t :=
  { m with breakpoints ::= breakpoint.breakpoint_csr_trigger csr v write }.

(** The value [execute_csr] writes back. *)
Definition csr_newvalue (o : csr_op_t) (csr_value src1 : Z) : Z :=
  match o with
  | csr_op.csrrc => Z.land csr_value (not32 src1)
  | csr_op.csrrs => Z.lor csr_value src1
  | csr_op.csrrw => src1
  end.

Definition execute_csr (s : isa_state_t) (m : isa_model_t) :
  outcome (isa_state_t * isa_model_t) :=
  unit_entry s ;;
  read_ret ← csrfile.read (csr s) (csr_file m) (csr_env m);
  let csr_value := default 0 read_ret in
  if rd_enable s && negb (rd s =? 0) && bool_decide (read_ret = None) then
    Ok (raise riscv_exception.illegal_instruction (value s) s, m)
  else
    let s := { s with rd_value := csr_value } in
    let m := csr_trigger (csr s) csr_value false m in
    if negb (bool_decide (arg1_src s = arg_src.reg) && (rs1 s =? 0)) then
      o ← get_csr_op (sub_op s);
      let csr_value := csr_newvalue o csr_value (src1_value s) in
      we ← csrfile.write (csr s) csr_value (csr_file m) (csr_env m);
      let m := { m with csr_env := we.2 } in
      if negb we.1 then Ok (raise riscv_exception.illegal_instruction (value s) s, m)
      else Ok (s, csr_trigger (csr s) csr_value true m)
    else Ok (s, m).

(** [(int32_t)a / (int32_t)b] and [%] truncate towards zero. *)
Definition execute_div (s : isa_state_t) : outcome isa_state_t :=
  unit_entry s ;;
  let a := src1_value s in
  let b := src2_value s in
  let overflow := (a =? 0x80000000) && (b =? 0xFFFFFFFF) in
  o ← get_div_op (sub_op s);
  Ok { s with rd_value :=
    match o with
    | div_op.div => if b =? 0 then 0xFFFFFFFF
                    else if overflow then 0x80000000
                    else u32 (Z.quot (i32 a) (i32 b))
    | div_op.divu => if b =? 0 then 0xFFFFFFFF else Z.div a b
    | div_op.rem => if b =? 0 then a
                    else if overflow then 0
                    else u32 (Z.rem (i32 a) (i32 b))
    | div_op.remu => if b =? 0 then a else Z.modulo a b
    end }.

(** The products are [int64_t] or [uint64_t]; the cast to [uint64_t] wraps. *)
Definition execute_mul (s : isa_state_t) : outcome isa_state_t :=
  unit_entry s ;;
  let a := src1_value s in
  let b := src2_value s in
  o ← get_mul_op (sub_op s);
  Ok { s with rd_value :=
    match o with
    | mul_op.mul => Z.land (u64 (i32 a * i32 b)) 0xffffffff
    | mul_op.mulh => Z.land (Z.shiftr (u64 (i32 a * i32 b)) 32) 0xffffffff
    | mul_op.mulhsu => Z.land (Z.shiftr (u64 (u64 (i32 a) * b)) 32) 0xffffffff
    | mul_op.mulhu => Z.land (Z.shiftr (u64 (a * b)) 32) 0xffffffff
    end }.

Definition execute_lsu (s : isa_state_t) (m : isa_model_t) :
  outcome (isa_state_t * isa_model_t) :=
  unit_entry s ;;
  let addr := add32 (src1_value s) (imm s) in
  let v := src2_value s in
  o ← get_lsu_op (sub_op s);
  let rd (v : Z) (b : bus_t) := Ok ({ s with rd_value := v }, { m with bus := b }) in
  let st (bd : bus_t * devices_t) := Ok (s, { m with bus := bd.1; devices := bd.2 }) in
  match o with
  | lsu_op.lb => vb ← bus.read8 addr false (bus m) (devices m);
                 v ← sign_extend vb.1 8; rd v vb.2
  | lsu_op.lbu => vb ← bus.read8 addr false (bus m) (devices m); rd vb.1 vb.2
  | lsu_op.lh => vb ← bus.read16 addr false (bus m) (devices m);
                 v ← sign_extend vb.1 16; rd v vb.2
  | lsu_op.lhu => vb ← bus.read16 addr false (bus m) (devices m); rd vb.1 vb.2
  | lsu_op.lw => vb ← bus.read32 addr false (bus m) (devices m); rd vb.1 vb.2
  | lsu_op.sb => bd ← bus.write8 addr (Z.land v 0xff) (bus m) (devices m); st bd
  | lsu_op.sh => bd ← bus.write16 addr (Z.land v 0xffff) (bus m) (devices m); st bd
  | lsu_op.sw => bd ← bus.write32 addr v (bus m) (devices m); st bd
  end.

(** The two operand switches at the start of [execute]. *)
Definition read_operands (s : isa_state_t) (m : isa_model_t) : outcome isa_state_t :=
  if valid s && negb (has_exception s) then
    s ← match arg1_src s with
        | arg_src.reg => v ← regfile.read (rs1 s) (arch_regfile m);
                         Ok { s with src1_value := v }
        | arg_src.imm => Ok { s with src1_value := imm s }
        | arg_src.disable => Ok s
        end;
    match arg2_src s with
    | arg_src.reg => v ← regfile.read (rs2 s) (arch_regfile m);
                     Ok { s with src2_value := v }
    | arg_src.imm => Ok { s with src2_value := imm s }
    | arg_src.disable => Ok s
    end
  else Ok s.

Definition dispatch (s : isa_state_t) (m : isa_model_t) :
  outcome (isa_state_t * isa_model_t) :=
  match isa_state.op_unit s with
  | op_unit.alu => s ← execute_alu s; Ok (s, m)
  | op_unit.bru => execute_bru s m
  | op_unit.csr => execute_csr s m
  | op_unit.div => s ← execute_div s; Ok (s, m)
  | op_unit.mul => s ← execute_mul s; Ok (s, m)
  | op_unit.lsu => execute_lsu s m
  end.

(** The end of [execute]: trap, or write the result back. *)
Definition writeback (s : isa_state_t) (m : isa_model_t) : outcome isa_model_t :=
  if has_exception s then
    m ← csr_inst_write "mepc" (isa_state.pc s) m;
    m ← csr_inst_write "mtval" (exception_value s) m;
    m ← csr_inst_write "mcause" (riscv_exception.to_uint32 (exception_id s)) m;
    v ← csr_inst_read "mtvec" m;
    Ok { m with pc := v }
  else if rd_enable s && negb (rd s =? 0) then
    r ← regfile.write (rd s) (rd_value s) (arch_regfile m);
    Ok { m with arch_regfile := r }
  else Ok m.

Definition execute (s : isa_state_t) (m : isa_model_t) : outcome isa_model_t :=
  s ← read_operands s m;
  sm ← dispatch s m;
  writeback sm.1 sm.2.

(** ** Interrupts *)

(** [interrupt_sync(has_interrupt, new_interrupt_id)]: [None] is
    [has_interrupt == false]. *)
Definition interrupt_sync (i : option riscv_interrupt_t) (m : isa_model_t) :
  outcome isa_model_t :=
  e ← interrupt_interface.run (interrupt_interface m) (csr_env m);
  let m := { m with csr_env := e } in
  match i with
  | None => Ok m
  | Some id =>
      m ← csr_inst_write "mepc" (pc m) m;
      m ← csr_inst_write "mtval" 0 m;
      m ← csr_inst_write "mcause" (Z.lor 0x80000000 (riscv_interrupt.to_uint32 id)) m;
      v ← csr_inst_read "mstatus" m;
      let o := csr_base.load v mstatus.new in
      let o := mstatus.set_mpie (mstatus.get_mie o) o in
      let o := mstatus.set_mie false o in
      m ← csr_inst_write "mstatus" (csr_base.get_value o) m;
      v ← csr_inst_read "mtvec" m;
      Ok { m with pc := v }
  end.

(** ** One instruction *)

(** The counters [run] copies into the performance CSRs: low and high word. *)
Definition counter_writes (m : isa_model_t) : list (string * Z) :=
  let lo x := Z.land x 0xffffffff in
  let hi x := u32 (Z.shiftr x 32) in
  [ ("mcycle", lo (cpu_clock_cycle m)); ("mcycleh", hi (cpu_clock_cycle m));
    ("minstret", lo (committed_instruction_num m));
    ("minstreth", hi (committed_instruction_num m));
    ("branchnum", lo (branch_num m)); ("branchnumh", hi (branch_num m));
    ("branchpredicted", lo (branch_predicted m));
    ("branchpredictedh", hi (branch_predicted m));
    ("branchhit", lo (branch_hit m)); ("branchhith", hi (branch_hit m));
    ("branchmiss", lo (branch_miss m)); ("branchmissh", hi (branch_miss m)) ]%string.

Fixpoint csr_inst_writes (l : list (string * Z)) (m : isa_model_t) : outcome isa_model_t :=
  match l with
  | [] => Ok m
  | (n, v) :: l => m ← csr_inst_write n v m; csr_inst_writes l m
  end.

(** [clint.run()], which also sets the pending flags. *)
Definition clint_run (m : isa_model_t) : outcome isa_model_t :=
  ci ← clint.run (slave_base.dev_clint (devices m)) (interrupt_interface m);
  Ok { m with devices ::= λ d, { d with slave_base.dev_clint := ci.1 };
              interrupt_interface := ci.2 }.

Definition count (m : isa_model_t) : isa_model_t :=
  { m with cpu_clock_cycle ::= λ x, u64 (x + 1);
           committed_instruction_num ::= λ x, u64 (x + 1);
           commit_num ::= λ x, u64 (x + 1) }.

Definition run (m : isa_model_t) : outcome isa_model_t :=
  sm ← fetch isa_state.init m;
  s ← isa_decode.decode sm.1;
  m ← execute s sm.2;
  m ← clint_run m;
  let m := count m in
  csr_inst_writes (counter_writes m) m.

Fixpoint run_n (n : nat) (m : isa_model_t) : outcome isa_model_t :=
  match n with
  | O => Ok m
  | S n => m ← run m; run_n n m
  end.
End isa_model.
Abbreviation isa_model_t := isa_model.isa_model_t.
