(* ===== verification/IsaInv.v ===== *)
(** * The type invariant of the ISA model

    [isa_wf] says that every member has a value of its C++ type, that the
    bus and the CSR file are the ones the constructor builds, that register x0
    holds 0 and that every CSR holds a value its filter lets through. *)

From S2P Require Import Prelude Word Ops IsaDecode Csr IsaBus Breakpoint IsaModel.

(** ** Register file *)
Definition regs_wf (r : regfile_t) : Prop :=
  regfile.size r = ARCH_REG_NUM /\ zlen (regfile.reg_data r) = ARCH_REG_NUM /\
  Forall is_u32 (regfile.reg_data r) /\ regfile.reg_data r !! 0%nat = Some 0.

(** ** Memory and CLINT *)
Definition mem_wf (m : memory_t) : Prop :=
  memory.size m = MEMORY_SIZE /\ map_Forall (λ _ v, is_u8 v) (memory.mem m).
Definition clint_wf (c : clint_t) : Prop :=
  clint.size c = CLINT_SIZE /\ is_u64 (clint.mtime c) /\ is_u64 (clint.mtimecmp c).
Definition dev_wf (d : devices_t) : Prop :=
  mem_wf (slave_base.dev_memory d) /\ clint_wf (slave_base.dev_clint d).

(** ** Bus *)
Definition slaves0 : list bus.slave_info_t :=
  [ bus.mk_slave_info MEMORY_BASE MEMORY_SIZE slave_base.ref_memory true;
    bus.mk_slave_info CLINT_BASE CLINT_SIZE slave_base.ref_clint false ].
Definition bus_wf (b : bus_t) : Prop := bus.slave_info_list b = slaves0.

(** ** Control and status registers *)
Definition csr_boot : outcome (csrfile_t * csr_env_t) :=
  map_all (csr_map_list ++ pmp_map_list) (csrfile.new, csr_env.mk ∅ [] []).
Definition csr_table0 : csrfile_t := Eval vm_compute in
  match csr_boot with Ok te => te.1 | _ => csrfile.new end.
Definition csr_objs0 : gmap string csr_base_t := Eval vm_compute in
  match csr_boot with Ok te => csr_env.objs te.2 | _ => ∅ end.

(** A register object: the class it was built with and a legal value. *)
Definition obj_wf (o0 o : csr_base_t) : Prop :=
  csr_base.cls o = csr_base.cls o0 /\ csr_base.init_value o = csr_base.init_value o0 /\
  is_u32 (csr_base.value o) /\
  csr_base.filter (csr_base.cls o) (csr_base.value o) = csr_base.value o.

Definition csr_wf (e : csr_env_t) : Prop :=
  map_relation (λ _, obj_wf) (λ _ _, False) (λ _ _, False) csr_objs0 (csr_env.objs e).

Definition isa_wf (m : isa_model_t) : Prop :=
  is_u32 (isa_model.pc m) /\ regs_wf (isa_model.arch_regfile m) /\
  bus_wf (isa_model.bus m) /\ dev_wf (isa_model.devices m) /\
  isa_model.csr_file m = csr_table0 /\ csr_wf (isa_model.csr_env m).

(** ** CSR store *)
Lemma csr_table0_objs :
  map_Forall (λ _ it, is_Some (csr_objs0 !! csrfile.csr it)) (csrfile.csr_map_table csr_table0).
Proof. apply (bool_decide_unpack _). vm_compute. exact I. Qed.

Lemma csr_objs0_wf : map_Forall (λ _ o, obj_wf o o) csr_objs0.
Proof.
  assert (H : map_Forall (λ _ o, (0 <=? csr_base.value o) && (csr_base.value o <? two32) &&
    (csr_base.filter (csr_base.cls o) (csr_base.value o) =? csr_base.value o) = true) csr_objs0).
  { apply (bool_decide_unpack _). vm_compute. exact I. }
  intros n o Ho. specialize (H n o Ho). cbn in H. unfold obj_wf, is_u32. split_and!; [done | done | lia | lia | lia].
Qed.

(** A fresh object holds its initial value. *)
Lemma csr_objs0_init : map_Forall (λ _ o, csr_base.value o = csr_base.init_value o) csr_objs0.
Proof. apply (bool_decide_unpack _). vm_compute. exact I. Qed.

#[global] Opaque csr_objs0 csr_table0.

Lemma csr_wf_lookup e n o0 :
  csr_wf e -> csr_objs0 !! n = Some o0 ->
  exists o, csr_env.objs e !! n = Some o /\ obj_wf o0 o.
Proof.
  intros He Hn. specialize (He n). rewrite Hn in He.
  destruct (csr_env.objs e !! n) as [o|]; cbn in He; [eauto | done].
Qed.

Lemma csr_wf_insert e n o0 o :
  csr_wf e -> csr_objs0 !! n = Some o0 -> obj_wf o0 o ->
  csr_wf { e with csr_env.objs ::= insert n o }.
Proof.
  intros He Hn Ho k. cbn. destruct (decide (n = k)) as [<-|Hk].
  - rewrite Hn, lookup_insert_eq. done.
  - rewrite lookup_insert_ne by done. apply He.
Qed.

Lemma csr_wf_fifos e s r :
  csr_wf e -> csr_wf (csr_env.mk (csr_env.objs e) s r).
Proof. done. Qed.

Lemma obj_wf_write o0 o v : obj_wf o0 o -> is_u32 v -> obj_wf o0 (csr_base.write v o).
Proof.
  intros (Hc & Hi & Hv & Hf) H. unfold obj_wf, csr_base.write. cbn.
  split_and!; [done | done | by apply filter_u32 | apply filter_idem].
Qed.

Lemma safe_csr_read e n :
  csr_wf e -> is_Some (csr_objs0 !! n) -> safe is_u32 (csr_env.read n e).
Proof.
  intros He [o0 Hn]. destruct (csr_wf_lookup e n o0 He Hn) as (o & Ho & Hw).
  unfold csr_env.read. rewrite Ho.
  destruct (csr_base.cls o); cbn; try (destruct Hw as (_ & _ & Hv & _); exact Hv).
  destruct (csr_env.rev_fifo e); cbn; [word_lia |].
  apply lor_u32; [word_lia | auto with word].
Qed.

Lemma charfifo_filter_objs v e :
  safe (λ e', csr_env.objs e' = csr_env.objs e) (csr_env.charfifo_filter v e).
Proof.
  unfold csr_env.charfifo_filter. destruct (Z.testbit v 31).
  - cbn. by destruct (csr_env.rev_fifo e).
  - by destruct (_ <? _).
Qed.

Lemma safe_csr_write e n v :
  csr_wf e -> is_Some (csr_objs0 !! n) -> is_u32 v -> safe csr_wf (csr_env.write n v e).
Proof.
  intros He [o0 Hn] Hv. destruct (csr_wf_lookup e n o0 He Hn) as (o & Ho & Hw).
  unfold csr_env.write. rewrite Ho.
  apply (safe_bind (λ e', csr_env.objs e' = csr_env.objs e)).
  - destruct (csr_base.cls o); try done. apply charfifo_filter_objs.
  - intros e' He'. cbn. apply (csr_wf_insert e' n o0); [| done |].
    + unfold csr_wf. by rewrite He'.
    + by apply obj_wf_write.
Qed.

(** Every name of [csr_inst] is in the heap. *)
Ltac csr_name := vm_compute; eexists; reflexivity.

(** ** Memory accesses *)
Lemma mem_get_u8 m a : mem_wf m -> is_u8 (memory.get m a).
Proof.
  intros [_ H]. unfold memory.get. destruct (memory.mem m !! a) as [v|] eqn:E; cbn.
  - exact (H a v E).
  - unfold is_u8. lia.
Qed.

Lemma mem_wf_put m a v : mem_wf m -> is_u8 v -> mem_wf (memory.put a v m).
Proof.
  intros [Hs H] Hv. split; [done |]. cbn. by apply map_Forall_insert_2.
Qed.

Lemma mem_wf_write8 m a v : mem_wf m -> mem_wf (memory.store8 a v m).
Proof. intros. apply mem_wf_put; [done | auto with word]. Qed.
Lemma mem_wf_write16 m a v : mem_wf m -> mem_wf (memory.store16 a v m).
Proof. intros. unfold memory.store16. repeat apply mem_wf_put; auto with word. Qed.
Lemma mem_wf_write32 m a v : mem_wf m -> mem_wf (memory.store32 a v m).
Proof. intros. unfold memory.store32. repeat apply mem_wf_put; auto with word. Qed.

Lemma mem_read16_u16 m a : mem_wf m -> is_u16 (memory.load16 a m).
Proof.
  intros Hm. pose proof (mem_get_u8 m a Hm). pose proof (mem_get_u8 m (a + 1) Hm).
  unfold memory.load16. rewrite Z.shiftl_mul_pow2 by lia. word_lia.
Qed.
Lemma mem_read32_u32 m a : mem_wf m -> is_u32 (memory.load32 a m).
Proof.
  intros Hm. pose proof (mem_get_u8 m a Hm). pose proof (mem_get_u8 m (a + 1) Hm).
  pose proof (mem_get_u8 m (a + 2) Hm). pose proof (mem_get_u8 m (a + 3) Hm).
  unfold memory.load32. rewrite !Z.shiftl_mul_pow2 by lia. word_lia.
Qed.

(** ** CLINT accesses *)
Lemma u64_bits x : 0 <= x -> (forall i, 64 <= i -> Z.testbit x i = false) -> is_u64 x.
Proof. intros H Hb. apply (bits_range 64); [lia | done | done]. Qed.

Lemma set_lo_u64 x v : is_u64 x -> is_u32 v -> is_u64 (clint.set_lo x v).
Proof.
  intros Hx Hv. apply (lor_range 64); [lia | | word_lia].
  apply (land_range_r 64); lia.
Qed.
Lemma set_hi_u64 x v : is_u64 (clint.set_hi x v).
Proof.
  apply (lor_range 64); [lia | | apply u64_range].
  apply (land_range_r 64); lia.
Qed.

Lemma clint_wf_write32 c a v : clint_wf c -> is_u32 v -> clint_wf (clint._write32 a v c).
Proof.
  intros (Hs & Ht & Hc) Hv. unfold clint._write32.
  repeat case_match; unfold clint_wf; cbn; split_and!;
    auto using set_lo_u64, set_hi_u64.
Qed.

Lemma clint_read32_u32 c a : clint_wf c -> is_u32 (clint._read32 a c).
Proof.
  intros (Hs & Ht & Hc). unfold clint._read32.
  repeat case_match; auto with word.
  all: apply (land_range_r 32); lia.
Qed.

(** ** Slaves *)
Lemma safe_check (P : unit -> Prop) sz a n :
  (a < sz -> n <= sz - a -> P tt) -> safe P (slave_base.check sz a n).
Proof.
  intros HP. unfold slave_base.check. apply safe_verify. intros _. apply safe_verify. intros H1.
  destruct (n <=? sz - a) eqn:H2; cbn; [| done]. apply HP; lia.
Qed.

(** An access behind the check stays in the array. *)
Lemma safe_in_bounds {A} (P : A -> Prop) a n m x :
  0 <= a -> n <= memory.size m - a -> P x -> safe P (memory.in_bounds a n m x).
Proof.
  intros H0 Hn Hx. unfold memory.in_bounds, memory.in_array.
  by replace ((0 <=? a) && (a + n <=? memory.size m)) with true by lia.
Qed.

Section slaves.
Context (d : devices_t) (Hd : dev_wf d).

Lemma dev_wf_mem f : (forall m, mem_wf m -> mem_wf (f m)) ->
  dev_wf { d with slave_base.dev_memory ::= f }.
Proof using Hd. destruct Hd. intros Hf. split; [by apply Hf | done]. Qed.
Lemma dev_wf_clint f : (forall c, clint_wf c -> clint_wf (f c)) ->
  dev_wf { d with slave_base.dev_clint ::= f }.
Proof using Hd. destruct Hd. intros Hf. split; [done | by apply Hf]. Qed.

Context (r : slave_ref) (x : Z) (Hx : 0 <= x).

Lemma safe_store n f :
  mem_wf f -> n <= memory.size (slave_base.dev_memory d) - x ->
  safe dev_wf (m ← memory.in_bounds x n (slave_base.dev_memory d) f; Ok (slave_base.mk m (slave_base.dev_clint d))).
Proof using Hd Hx.
  intros Hf Hn. apply (safe_bind mem_wf); [by apply safe_in_bounds |].
  intros m Hm. split; [exact Hm | apply Hd].
Qed.

(** An access of [n] bytes: to the memory, inside of it, or to the CLINT. *)
Lemma safe_access {A} (P : A -> Prop) n (f : outcome A) :
  (r = slave_base.ref_memory -> n <= memory.size (slave_base.dev_memory d) - x -> safe P f) ->
  (r = slave_base.ref_clint -> safe P f) ->
  safe P (slave_base.check (slave_base.size r d) x n ;; f).
Proof.
  intros Hm Hc. apply (safe_bind (λ _, n <= slave_base.size r d - x)); [by apply safe_check |].
  intros _ Hn. destruct r; [by apply Hm | by apply Hc].
Qed.

Lemma safe_slave_write8 v : safe dev_wf (slave_base.write8 r x v d).
Proof using Hd Hx.
  apply safe_access; intros ->; [| by apply dev_wf_clint].
  intros Hn. apply safe_store; [apply mem_wf_write8, Hd | done].
Qed.
Lemma safe_slave_write16 v : safe dev_wf (slave_base.write16 r x v d).
Proof using Hd Hx.
  apply safe_access; intros ->; [| by apply dev_wf_clint].
  intros Hn. apply safe_store; [apply mem_wf_write16, Hd | done].
Qed.
Lemma safe_slave_write32 v : is_u32 v -> safe dev_wf (slave_base.write32 r x v d).
Proof using Hd Hx.
  intros Hv. apply safe_access; intros ->.
  - intros Hn. apply safe_store; [apply mem_wf_write32, Hd | done].
  - apply dev_wf_clint. intros c Hc. by apply clint_wf_write32.
Qed.

Lemma safe_slave_read8 : safe is_u8 (slave_base.read8 r x d).
Proof using Hd Hx.
  apply safe_access; intros ->; [intros Hn; apply safe_in_bounds; [done | done | apply mem_get_u8, Hd] |].
  cbn. unfold clint._read8, is_u8. lia.
Qed.
Lemma safe_slave_read16 : safe is_u16 (slave_base.read16 r x d).
Proof using Hd Hx.
  apply safe_access; intros ->; [intros Hn; apply safe_in_bounds; [done | done | apply mem_read16_u16, Hd] |].
  cbn. unfold clint._read16, is_u16. lia.
Qed.
Lemma safe_slave_read32 : safe is_u32 (slave_base.read32 r x d).
Proof using Hd Hx.
  apply safe_access; intros ->; [intros Hn; apply safe_in_bounds; [done | done | apply mem_read32_u32, Hd] |].
  apply clint_read32_u32, Hd.
Qed.
End slaves.

(** ** Bus *)
Lemma sub32_nonneg x y : 0 <= sub32 x y.
Proof. apply u32_range. Qed.
Lemma find_in_range l i addr fetch :
  bus.find_in i l addr fetch = -1 \/ i <= bus.find_in i l addr fetch < i + zlen l.
Proof.
  revert i. induction l as [|s l IH]; intros i; cbn [bus.find_in]; [by left |].
  unfold zlen in *. cbn [length]. case_match; [lia |]. destruct (IH (i + 1)); lia.
Qed.

(** The shape shared by the accesses of [bus]. *)
Lemma safe_bus_access {A} (P : A -> Prop) t addr fetch
  (f : bus.slave_info_t -> outcome A) (y : outcome A) :
  (forall s, safe P (f s)) -> safe P y ->
  safe P (if 0 <=? bus.find_slave_info addr fetch t then
            s ← arr_get (bus.slave_info_list t) (bus.find_slave_info addr fetch t); f s
          else y).
Proof.
  intros Hf Hy. destruct (find_in_range (bus.slave_info_list t) 0 addr fetch) as [H|H].
  - unfold bus.find_slave_info. rewrite H. done.
  - unfold bus.find_slave_info. case_match; [| done].
    destruct (arr_get_ok (bus.slave_info_list t)
      (bus.find_in 0 (bus.slave_info_list t) addr fetch)) as [s Hs]; [lia |].
    rewrite Hs. apply Hf.
Qed.

Section bus.
Context (t : bus_t) (d : devices_t) (Ht : bus_wf t) (Hd : dev_wf d).

Lemma bus_wf_error m : bus_wf (bus.push_error m t).
Proof using Ht. exact Ht. Qed.

#[local] Abbreviation wrote := (λ bd : bus_t * devices_t, bus_wf bd.1 /\ dev_wf bd.2).

Lemma safe_bus_write8 a v : safe wrote (bus.write8 a v t d).
Proof using Ht Hd.
  apply safe_bus_access; [intros s | by split].
  apply (safe_bind dev_wf); [apply safe_slave_write8; auto using sub32_nonneg | by split].
Qed.
Lemma safe_bus_write16 a v : safe wrote (bus.write16 a v t d).
Proof using Ht Hd.
  apply safe_bus_access; [intros s | by split].
  apply (safe_bind dev_wf); [apply safe_slave_write16; auto using sub32_nonneg | by split].
Qed.
Lemma safe_bus_write32 a v : is_u32 v -> safe wrote (bus.write32 a v t d).
Proof using Ht Hd.
  intros Hv. apply safe_bus_access; [intros s | by split].
  apply (safe_bind dev_wf); [apply safe_slave_write32; auto using sub32_nonneg | by split].
Qed.

Lemma safe_bus_read8 a fe :
  safe (λ vb, is_u8 vb.1 /\ bus_wf vb.2) (bus.read8 a fe t d).
Proof using Ht Hd.
  apply safe_bus_access; [intros s | split; [done | done]].
  apply (safe_bind is_u8); [apply safe_slave_read8; auto using sub32_nonneg | by split].
Qed.
Lemma safe_bus_read16 a fe :
  safe (λ vb, is_u16 vb.1 /\ bus_wf vb.2) (bus.read16 a fe t d).
Proof using Ht Hd.
  apply safe_bus_access; [intros s | split; [done | done]].
  apply (safe_bind is_u16); [apply safe_slave_read16; auto using sub32_nonneg | by split].
Qed.
Lemma safe_bus_read32 a fe :
  safe (λ vb, is_u32 vb.1 /\ bus_wf vb.2) (bus.read32 a fe t d).
Proof using Ht Hd.
  apply safe_bus_access; [intros s | split; [done | done]].
  apply (safe_bind is_u32); [apply safe_slave_read32; auto using sub32_nonneg | by split].
Qed.
End bus.
