(* ===== verification/IsaSafe.v ===== *)
(** * Every instruction preserves the type invariant and is free of undefined
    behaviour *)

From S2P Require Import Prelude Word Ops IsaDecode Csr IsaBus Breakpoint IsaModel.
From S2P Require Import IsaInv.
Import isa_state.

(** ** Fields of an instruction word *)
Definition fields_wf (f : fields_t) : Prop :=
  0 <= fields.rd f < 32 /\ 0 <= fields.rs1 f < 32 /\ 0 <= fields.rs2 f < 32 /\
  0 <= fields.imm_i f < 2 ^ 12 /\ 0 <= fields.imm_s f < 2 ^ 12 /\
  0 <= fields.imm_b f < 2 ^ 13 /\ is_u32 (fields.imm_u f) /\
  0 <= fields.imm_j f < 2 ^ 21.

(** [bits_tac] bounds an expression built from masked fields. *)
Ltac bits_tac n :=
  first
    [ apply (mask_range n); [lia | reflexivity]
    | apply (lor_range n); [lia | bits_tac n | bits_tac n]
    | match goal with
      | |- 0 <= Z.shiftl (Z.land _ ?m) ?k < _ =>
          let w := eval vm_compute in (Z.log2 (m + 1)) in
          apply (range_weaken (k + w) n); [lia |];
          apply shiftl_range; [lia |]; apply (mask_range w); [lia | reflexivity]
      | |- 0 <= Z.land _ ?m < _ =>
          let w := eval vm_compute in (Z.log2 (m + 1)) in
          apply (range_weaken w n); [lia |]; apply (mask_range w); [lia | reflexivity]
      end ].

Lemma of_word_wf w : is_u32 w -> fields_wf (fields.of_word w).
Proof.
  intros Hw. unfold fields_wf, fields.of_word. cbn -[Z.pow Z.land Z.lor Z.shiftl Z.shiftr].
  repeat match goal with |- _ /\ _ => refine (conj _ _) | |- _ <= _ < _ => fail 1 end.
  all: first
    [ apply land_u32_l; [done | apply not32_range]
    | bits_tac 5 | bits_tac 12 | bits_tac 13 | bits_tac 21 ].
Qed.

(** ** Decoded instructions *)

(** The active union member is the one the selected unit reads. *)
Definition unit_ok (s : isa_state_t) : Prop :=
  match op_unit s, sub_op s with
  | op_unit.alu, sub_alu_op _ | op_unit.bru, sub_bru_op _ | op_unit.csr, sub_csr_op _
  | op_unit.div, sub_div_op _ | op_unit.mul, sub_mul_op _ | op_unit.lsu, sub_lsu_op _ => True
  | _, _ => valid s = false
  end.

Definition values_wf (s : isa_state_t) : Prop :=
  is_u32 (value s) /\ is_u32 (pc s) /\ is_u32 (exception_value s) /\
  is_u32 (src1_value s) /\ is_u32 (src2_value s) /\ is_u32 (rd_value s).

Definition core_wf (s : isa_state_t) : Prop :=
  values_wf s /\ is_u32 (imm s) /\ 0 <= rs1 s < 32 /\ 0 <= rs2 s < 32 /\
  0 <= rd s < 32 /\ is_u32 (csr s).

Definition decoded_wf (s : isa_state_t) : Prop := core_wf s /\ unit_ok s.

Lemma safe_sign_extend x len n :
  0 < len < 32 -> 0 <= x < 2 ^ len -> n = len -> safe is_u32 (sign_extend x n).
Proof. intros Hl Hx ->. rewrite sign_extend_sext by done. apply u32_range. Qed.

Lemma core_set_op o so s : core_wf s -> core_wf (isa_decode.set_op o so s).
Proof. by destruct s. Qed.
Lemma core_set_unit o u so s : core_wf s -> core_wf (isa_decode.set_unit o u so s).
Proof. by destruct s. Qed.
Lemma core_no_args s : core_wf s -> core_wf (isa_decode.no_args s).
Proof. by destruct s. Qed.
Lemma core_invalid s : core_wf s -> core_wf (isa_decode.invalid s).
Proof. by destruct s. Qed.
Lemma unit_ok_invalid s : unit_ok (isa_decode.invalid s).
Proof. destruct s. unfold unit_ok. cbn. by repeat case_match. Qed.
Create HintDb decode.
#[export] Hint Resolve core_set_op core_set_unit core_no_args core_invalid unit_ok_invalid
  : decode.

(** Split every test of a decoder case; every branch sets an operation of the
    right unit or marks the instruction invalid. *)
Ltac split_ifs :=
  repeat match goal with |- context [if ?b then _ else _] => destruct b end.

Section decode.
Context (f : fields_t) (s : isa_state_t) (Hf : fields_wf f) (Hs : core_wf s).

(** Once the immediate is sign-extended a case has no effect left. *)
Lemma decoded_imm x n (g : Z -> outcome isa_state_t) :
  0 < n < 32 -> 0 <= x < 2 ^ n -> (forall i, is_u32 i -> safe decoded_wf (g i)) ->
  safe decoded_wf (i ← sign_extend x n; g i).
Proof.
  intros Hn Hx Hg. apply (safe_bind is_u32); [| exact Hg].
  by apply (safe_sign_extend _ n).
Qed.

(** The record a case starts its inner switch from. *)
Ltac base :=
  destruct Hf as (? & ? & ? & ? & ? & ? & ? & ?); destruct Hs as (? & ? & ? & ? & ? & ?);
  destruct s; unfold core_wf in *; cbn in *; split_and!; try done; word_lia.
Ltac imm :=
  apply decoded_imm; [lia | apply Hf | intros i Hi].
Ltac switch b :=
  let Hb := fresh "Hb" in
  assert (Hb : core_wf b) by base;
  cbv beta zeta; cbn [safe]; split_ifs;
  (split; [auto with decode | first [exact I | apply unit_ok_invalid]]).

Lemma decoded_lui : safe decoded_wf (isa_decode.case_lui f s).
Proof using Hf Hs. split; [base | exact I]. Qed.
Lemma decoded_auipc : safe decoded_wf (isa_decode.case_auipc f s).
Proof using Hf Hs. split; [base | exact I]. Qed.
Lemma decoded_jal : safe decoded_wf (isa_decode.case_jal f s).
Proof using Hf Hs. imm. split; [base | exact I]. Qed.
Lemma decoded_jalr : safe decoded_wf (isa_decode.case_jalr f s).
Proof using Hf Hs. imm. split; [base | exact I]. Qed.
Lemma decoded_branch : safe decoded_wf (isa_decode.case_branch f s).
Proof using Hf Hs.
  imm. set (b := {s with op_unit := _; arg1_src := _; rs1 := _; arg2_src := _; rs2 := _; imm := _}).
  switch b.
Qed.
Lemma decoded_load : safe decoded_wf (isa_decode.case_load f s).
Proof using Hf Hs.
  imm. set (b := {s with op_unit := _; arg1_src := _; rs1 := _; arg2_src := _; imm := _;
                         rd := _; rd_enable := _}).
  switch b.
Qed.
Lemma decoded_store : safe decoded_wf (isa_decode.case_store f s).
Proof using Hf Hs.
  imm. set (b := {s with op_unit := _; arg1_src := _; rs1 := _; arg2_src := _; rs2 := _; imm := _}).
  switch b.
Qed.
Lemma decoded_op_imm : safe decoded_wf (isa_decode.case_op_imm f s).
Proof using Hf Hs.
  imm. set (b := {s with op_unit := _; arg1_src := _; rs1 := _; arg2_src := _; imm := _;
                         rd := _; rd_enable := _}).
  switch b.
Qed.
Lemma decoded_op : safe decoded_wf (isa_decode.case_op f s).
Proof using Hf Hs.
  unfold isa_decode.case_op.
  set (b := {s with op_unit := _; arg1_src := _; rs1 := _; arg2_src := _; rs2 := _;
                    rd := _; rd_enable := _}).
  switch b.
Qed.
Lemma decoded_fence : safe decoded_wf (isa_decode.case_fence f s).
Proof using Hf Hs.
  unfold isa_decode.case_fence.
  set (b := {isa_decode.no_args _ with imm := _}). switch b.
Qed.
Lemma decoded_system : safe decoded_wf (isa_decode.case_system f s).
Proof using Hf Hs.
  assert (Hr : forall o co, core_wf (isa_decode.set_csr_reg f o co s)) by (intros; base).
  assert (Hi : forall o co, core_wf (isa_decode.set_csr_imm f o co s)) by (intros; base).
  unfold isa_decode.case_system, isa_decode.case_system_priv. switch s.
Qed.
End decode.

Lemma decode_safe s :
  values_wf s -> safe decoded_wf (isa_decode.decode s).
Proof.
  intros Hv. unfold isa_decode.decode.
  assert (Hf : fields_wf (fields.of_word (value s))) by (apply of_word_wf, Hv).
  assert (Hs : core_wf (isa_decode.prepare s)).
  { destruct s. unfold core_wf, values_wf in *. cbn in *. split_and!; try apply Hv; word_lia. }
  unfold isa_decode.switch_opcode. cbv zeta. repeat case_match.
  all: auto using decoded_lui, decoded_auipc, decoded_jal, decoded_jalr, decoded_branch,
    decoded_load, decoded_store, decoded_op_imm, decoded_op, decoded_fence, decoded_system.
  split; [auto with decode | apply unit_ok_invalid].
Qed.

(** ** Execution units *)
Import isa_model.

Lemma decoded_rd v s : decoded_wf s -> is_u32 v -> decoded_wf { s with rd_value := v }.
Proof. destruct s. unfold decoded_wf, core_wf, values_wf. cbn. tauto. Qed.
Lemma decoded_raise id v s : decoded_wf s -> is_u32 v -> decoded_wf (raise id v s).
Proof. destruct s. unfold decoded_wf, core_wf, values_wf. cbn. tauto. Qed.
#[export] Hint Resolve decoded_rd decoded_raise : decode.

Lemma decoded_values s : decoded_wf s ->
  is_u32 (value s) /\ is_u32 (isa_state.pc s) /\ is_u32 (imm s) /\ is_u32 (src1_value s)
  /\ is_u32 (src2_value s).
Proof. intros [(Hv & Hi & _) _]. unfold values_wf in Hv. tauto. Qed.

Lemma mask5 x : 0 <= Z.land x 0x1f.
Proof. apply Z.land_nonneg. lia. Qed.

(** The union member of the selected unit is active. *)
Ltac active_member Hw Hv Hu :=
  let H := fresh in
  pose proof (proj2 Hw) as H; unfold unit_ok in H; rewrite Hu, ?Hv in H;
  match type of H with
  | match sub_op ?s with _ => _ end => destruct (sub_op s); try discriminate H; clear H
  end.

Lemma alu_safe s :
  decoded_wf s -> op_unit s = op_unit.alu -> safe decoded_wf (execute_alu s).
Proof.
  intros Hw Hu. unfold execute_alu.
  destruct (has_exception s); cbn [negb]; [done |].
  destruct (valid s) eqn:Hv; [| cbn [safe]; auto with decode word].
  destruct (decoded_values s Hw) as (H1 & H2 & H3 & H4 & H5).
  active_member Hw Hv Hu. cbn [get_alu_op].
  pose proof (mask5 (src2_value s)).
  destruct o; cbn [mbind outcome_bind safe]; auto 6 with decode word.
Qed.

Lemma unit_entry_bind {A} (P : A -> Prop) s (f : unit -> outcome A) :
  (valid s = true -> has_exception s = false -> safe P (f tt)) ->
  safe P (unit_entry s ≫= f).
Proof. intros H. apply safe_verify. intros E. apply H; [| apply negb_true_iff]; lia. Qed.

Lemma land32_u32 x : is_u32 (Z.land x 0xffffffff).
Proof. apply (mask_range 32); [lia | reflexivity]. Qed.
#[export] Hint Resolve land32_u32 : word.

Lemma udiv_u32 a b : is_u32 a -> is_u32 b -> is_u32 (a / b).
Proof.
  intros Ha Hb. destruct (decide (b = 0)) as [->|]; [rewrite Z.div_0_r; word_lia |].
  word_unfold. split; [apply Z.div_pos; lia |].
  apply Z.le_lt_trans with a; [| lia]. apply Z.div_le_upper_bound; nia.
Qed.
Lemma umod_u32 a b : is_u32 a -> is_u32 b -> is_u32 (a mod b).
Proof.
  intros Ha Hb. destruct (decide (b = 0)) as [->|]; [by rewrite Z.mod_0_r |].
  word_unfold. pose proof (Z.mod_pos_bound a b). lia.
Qed.
#[export] Hint Resolve udiv_u32 umod_u32 : word.
Lemma u32_ones : is_u32 0xFFFFFFFF. Proof. word_lia. Qed.
Lemma u32_min : is_u32 0x80000000. Proof. word_lia. Qed.
#[export] Hint Resolve u32_ones u32_min : word.

Lemma div_safe s : decoded_wf s -> op_unit s = op_unit.div -> safe decoded_wf (execute_div s).
Proof.
  intros Hw Hu. apply unit_entry_bind. intros Hv _.
  destruct (decoded_values s Hw) as (H1 & H2 & H3 & H4 & H5).
  active_member Hw Hv Hu. cbn [get_div_op mbind outcome_bind safe].
  apply decoded_rd; [done |]. destruct o; auto 6 with word.
Qed.

Lemma mul_safe s : decoded_wf s -> op_unit s = op_unit.mul -> safe decoded_wf (execute_mul s).
Proof.
  intros Hw Hu. apply unit_entry_bind. intros Hv _.
  active_member Hw Hv Hu. cbn [get_mul_op mbind outcome_bind safe].
  apply decoded_rd; [done |]. destruct o; auto with word.
Qed.

(** ** Steps on the whole model *)
Definition step_wf (sm : isa_state_t * isa_model_t) : Prop :=
  decoded_wf sm.1 /\ isa_wf sm.2.

Section model.
Context (m : isa_model_t) (Hm : isa_wf m).

Lemma isa_wf_pc v : is_u32 v -> isa_wf { m with pc := v }.
Proof using Hm. intros Hv. destruct m. unfold isa_wf in *. cbn in *. tauto. Qed.
Lemma isa_wf_csr e : csr_wf e -> isa_wf { m with csr_env := e }.
Proof using Hm. intros Hv. destruct m. unfold isa_wf in *. cbn in *. tauto. Qed.
Lemma isa_wf_bus b : bus_wf b -> isa_wf { m with bus := b }.
Proof using Hm. intros Hv. destruct m. unfold isa_wf in *. cbn in *. tauto. Qed.
Lemma isa_wf_bus_dev b d : bus_wf b -> dev_wf d -> isa_wf { m with bus := b; devices := d }.
Proof using Hm. intros Hv Hd. destruct m. unfold isa_wf in *. cbn in *. tauto. Qed.
Lemma isa_wf_regs r : regs_wf r -> isa_wf { m with arch_regfile := r }.
Proof using Hm. intros Hv. destruct m. unfold isa_wf in *. cbn in *. tauto. Qed.
Lemma isa_wf_trigger c v w : isa_wf (csr_trigger c v w m).
Proof using Hm. destruct m. exact Hm. Qed.
Lemma isa_wf_count : isa_wf (count m).
Proof using Hm. destruct m. exact Hm. Qed.

Lemma csr_inst_write_safe n v :
  is_Some (csr_objs0 !! n) -> is_u32 v -> safe isa_wf (csr_inst_write n v m).
Proof using Hm.
  intros Hn Hv. apply (safe_bind csr_wf); [| intros e He; by apply isa_wf_csr].
  apply safe_csr_write; [apply Hm | done | done].
Qed.
Lemma csr_inst_read_safe n :
  is_Some (csr_objs0 !! n) -> safe is_u32 (csr_inst_read n m).
Proof using Hm. intros Hn. apply safe_csr_read; [apply Hm | done]. Qed.

Lemma regfile_read_safe a : 0 <= a < 32 -> safe is_u32 (regfile.read a (arch_regfile m)).
Proof using Hm.
  destruct Hm as (_ & (Hs & Hl & Hf & _) & _). intros Ha.
  apply safe_verify. intros _.
  destruct (arr_get_ok (regfile.reg_data (arch_regfile m)) a) as [x Hx].
  { rewrite Hl. unfold ARCH_REG_NUM. lia. }
  rewrite Hx. cbn. apply arr_get_Some in Hx as [_ Hx].
  by eapply Forall_lookup_1 in Hx.
Qed.

(** A write to a register other than x0. *)
Lemma regfile_write_safe a v :
  0 < a < 32 -> is_u32 v -> safe regs_wf (regfile.write a v (arch_regfile m)).
Proof using Hm.
  destruct Hm as (_ & (Hs & Hl & Hf & H0) & _). intros Ha Hv.
  apply safe_verify. intros _.
  rewrite arr_set_ok by (rewrite Hl; unfold ARCH_REG_NUM; lia). cbn.
  unfold regs_wf. cbn. split_and!; [done | by rewrite zlen_insert | |].
  - by apply Forall_insert.
  - rewrite list_lookup_insert_ne by lia. done.
Qed.
End model.

Lemma operands_safe s m : step_wf (s, m) -> safe decoded_wf (read_operands s m).
Proof.
  intros [Hs Hm]. cbn in *. unfold read_operands.
  destruct (valid s && negb (has_exception s)); [| done].
  pose proof Hs as [(Hv & Hi & H1 & H2 & _) _].
  apply (safe_bind (λ s', decoded_wf s' /\ 0 <= rs2 s' < 32 /\ is_u32 (imm s'))).
  - destruct (arg1_src s); [| | done].
    + apply (safe_bind is_u32); [by apply regfile_read_safe |].
      intros v Hv'. destruct s. unfold decoded_wf, core_wf, values_wf in *. cbn in *. tauto.
    + destruct s. unfold decoded_wf, core_wf, values_wf in *. cbn in *. tauto.
  - intros s' (Hs' & H2' & Hi'). destruct (arg2_src s'); [| | done].
    + apply (safe_bind is_u32); [by apply regfile_read_safe |].
      intros v Hv'. destruct s'. unfold decoded_wf, core_wf, values_wf in *. cbn in *. tauto.
    + destruct s'. unfold decoded_wf, core_wf, values_wf in *. cbn in *. tauto.
Qed.

Lemma land_const_u32 x y : is_u32 y -> is_u32 (Z.land x y).
Proof. apply (land_range_r 32). lia. Qed.

Lemma set_mie_u32 b o : csr_base.cls o = csr_base.mstatus ->
  is_u32 (csr_base.get_value (mstatus.set_mie b o)).
Proof.
  destruct o. cbn. intros ->. apply land_const_u32. word_lia.
Qed.
Lemma set_mtip_u32 b o : csr_base.cls o = csr_base.mip ->
  is_u32 (csr_base.get_value (mip.set_mtip b o)).
Proof.
  destruct o. cbn. intros ->. apply land_const_u32. word_lia.
Qed.

Lemma bru_mret_safe m : isa_wf m -> safe (λ nm, is_u32 nm.1 /\ isa_wf nm.2) (bru_mret m).
Proof.
  intros Hm. apply (safe_bind is_u32); [apply csr_inst_read_safe; [done | csr_name] |].
  intros npc Hn. apply (safe_bind is_u32); [apply csr_inst_read_safe; [done | csr_name] |].
  intros v Hv. apply (safe_bind isa_wf); [| intros m' Hm'; by split].
  apply csr_inst_write_safe; [done | csr_name | by apply set_mie_u32].
Qed.

Lemma bru_safe s m : step_wf (s, m) -> op_unit s = op_unit.bru ->
  safe step_wf (execute_bru s m).
Proof.
  intros [Hs Hm] Hu. cbn in *. apply unit_entry_bind. intros Hv _.
  destruct (decoded_values s Hs) as (H1 & H2 & H3 & H4 & H5).
  cbv zeta. active_member Hs Hv Hu. cbn [get_bru_op mbind outcome_bind].
  assert (Hb : forall j : bool, safe step_wf (Ok (s,
    if j then { m with pc := add32 (isa_state.pc s) (imm s) } else m))).
  { intros j. split; [done |]. destruct j; cbn [snd]; [apply isa_wf_pc; auto with word | done]. }
  destruct o; try apply Hb.
  - split; cbn [fst snd]; [apply decoded_rd | apply isa_wf_pc]; auto with word.
  - split; cbn [fst snd]; [apply decoded_rd | apply isa_wf_pc]; auto with word.
  - apply (safe_bind (λ nm, is_u32 nm.1 /\ isa_wf nm.2)); [by apply bru_mret_safe |].
    intros nm [Hn Hm']. split; cbn [fst snd]; [done | by apply isa_wf_pc].
Qed.

Lemma csrfile_item_safe {A} (P : A -> Prop) addr m (f : csrfile.csr_item_t -> outcome A) :
  isa_wf m -> csrfile.enabled addr (csr_file m) = true ->
  (forall it, is_Some (csr_objs0 !! csrfile.csr it) -> safe P (f it)) ->
  safe P (csrfile.item addr (csr_file m) ≫= f).
Proof.
  intros (_ & _ & _ & _ & Ht & _) He Hf. unfold csrfile.item, csrfile.enabled in *.
  rewrite Ht in *. destruct (csrfile.csr_map_table csr_table0 !! addr) as [it|] eqn:E;
    [| discriminate].
  apply Hf. exact (csr_table0_objs addr it E).
Qed.

Lemma csrfile_read_safe addr m :
  isa_wf m -> safe (λ o, is_u32 (default 0 o)) (csrfile.read addr (csr_file m) (csr_env m)).
Proof.
  intros Hm. unfold csrfile.read.
  destruct (_ || _) eqn:E; [cbn; word_lia |].
  apply orb_false_iff in E as [_ E]. apply negb_false_iff in E.
  apply csrfile_item_safe; [done | done |]. intros it Hit.
  apply (safe_bind is_u32); [| done]. apply safe_csr_read; [apply Hm | done].
Qed.

Lemma csrfile_write_safe addr v m : isa_wf m -> is_u32 v ->
  safe (λ we, csr_wf we.2) (csrfile.write addr v (csr_file m) (csr_env m)).
Proof.
  intros Hm Hv. unfold csrfile.write, csrfile.write_check.
  destruct (_ || _) eqn:E; cbn [negb]; [apply Hm |].
  apply orb_false_iff in E as [_ E]. apply negb_false_iff in E.
  destruct (csrfile.csr_map_table _ !! addr) as [it0|]; cbn [negb]; [| apply Hm].
  destruct (csrfile.readonly it0); cbn [negb]; [apply Hm |].
  apply csrfile_item_safe; [done | done |]. intros it Hit.
  apply (safe_bind csr_wf); [| done]. apply safe_csr_write; [apply Hm | done | done].
Qed.

Lemma csr_newvalue_u32 o v a : is_u32 v -> is_u32 a -> is_u32 (csr_newvalue o v a).
Proof. intros. destruct o; cbn; auto with word. Qed.

Lemma csr_safe s m : step_wf (s, m) -> op_unit s = op_unit.csr ->
  safe step_wf (execute_csr s m).
Proof.
  intros [Hs Hm] Hu. cbn in *. apply unit_entry_bind. intros Hv _.
  apply (safe_bind (λ o, is_u32 (default 0 o))); [by apply csrfile_read_safe |].
  intros ro Hro. cbv zeta.
  destruct (decoded_values s Hs) as (H1 & H2 & H3 & H4 & H5).
  case_match; [by split; cbn [fst snd]; auto with decode |].
  set (s' := { s with rd_value := default 0 ro }).
  assert (Hs' : decoded_wf s') by (by apply decoded_rd).
  assert (Hv' : valid s' = true) by exact Hv.
  assert (Hu' : op_unit s' = op_unit.csr) by exact Hu.
  case_match; [| split; [done | by apply isa_wf_trigger]].
  active_member Hs' Hv' Hu'. cbn [get_csr_op mbind outcome_bind].
  eapply (safe_bind (λ we, csr_wf we.2)).
  - apply (csrfile_write_safe (csr s') _ (csr_trigger (csr s') (default 0 ro) false m)).
    + by apply isa_wf_trigger.
    + by apply csr_newvalue_u32.
  - intros we Hwe.
    assert (Hm' : isa_wf { csr_trigger (csr s') (default 0 ro) false m with csr_env := we.2 }).
    { apply isa_wf_csr; [by apply isa_wf_trigger | done]. }
    destruct (negb we.1); (split; cbn [fst snd]);
      [by apply decoded_raise | done | done | by apply isa_wf_trigger].
Qed.

Lemma u8_u32 x : is_u8 x -> is_u32 x.
Proof. word_lia. Qed.
Lemma u16_u32 x : is_u16 x -> is_u32 x.
Proof. word_lia. Qed.
#[export] Hint Resolve u8_u32 u16_u32 : word.

Section lsu.
Context (s : isa_state_t) (m : isa_model_t) (Hs : decoded_wf s) (Hm : isa_wf m).

Lemma loaded v b : is_u32 v -> bus_wf b ->
  safe step_wf (Ok ({ s with rd_value := v }, { m with bus := b })).
Proof using Hs Hm. intros Hv Hb. split; [by apply decoded_rd | by apply isa_wf_bus]. Qed.

Lemma stored (x : outcome (bus_t * devices_t)) :
  safe (λ bd, bus_wf bd.1 /\ dev_wf bd.2) x ->
  safe step_wf (bd ← x; Ok (s, { m with bus := bd.1; devices := bd.2 })).
Proof using Hs Hm.
  intros Hx. eapply safe_bind; [exact Hx |]. intros bd [Hb Hd].
  split; [done | by apply isa_wf_bus_dev].
Qed.
End lsu.

Lemma lsu_safe s m : step_wf (s, m) -> op_unit s = op_unit.lsu ->
  safe step_wf (execute_lsu s m).
Proof.
  intros [Hs Hm] Hu. cbn in *. apply unit_entry_bind. intros Hv _.
  destruct (decoded_values s Hs) as (_ & _ & H3 & H4 & H5).
  assert (Hb : bus_wf (bus m)) by apply Hm.
  assert (Hd : dev_wf (devices m)) by apply Hm.
  cbv zeta. active_member Hs Hv Hu. cbn [get_lsu_op mbind outcome_bind].
  destruct o.
  6-8: apply stored; auto using safe_bus_write8, safe_bus_write16, safe_bus_write32.
  all: eapply safe_bind;
    [first [by apply safe_bus_read8 | by apply safe_bus_read16 | by apply safe_bus_read32] |];
    intros vb [Hvb Hb'].
  1: eapply safe_bind; [apply (safe_sign_extend _ 8); [lia | exact Hvb | reflexivity] |];
    intros v Hv'.
  3: eapply safe_bind; [apply (safe_sign_extend _ 16); [lia | exact Hvb | reflexivity] |];
    intros v Hv'.
  all: apply loaded; auto with word.
Qed.

Lemma dispatch_safe s m : step_wf (s, m) -> safe step_wf (dispatch s m).
Proof.
  intros [Hs Hm]. unfold dispatch. destruct (op_unit s) eqn:Hu.
  - apply (safe_bind decoded_wf); [by apply alu_safe | by split].
  - by apply bru_safe.
  - by apply csr_safe.
  - apply (safe_bind decoded_wf); [by apply div_safe | by split].
  - apply (safe_bind decoded_wf); [by apply mul_safe | by split].
  - by apply lsu_safe.
Qed.

(** A chain of writes to static CSR objects. *)
Ltac csr_step :=
  eapply safe_bind; [apply csr_inst_write_safe; [eassumption | csr_name |] |].

Lemma writeback_safe s m : step_wf (s, m) -> safe isa_wf (writeback s m).
Proof.
  intros [Hs Hm]. cbn in *. unfold writeback.
  pose proof Hs as [((Hv & Hp & Hev & _ & _ & Hr) & _ & _ & _ & Hrd & _) _].
  destruct (has_exception s).
  - csr_step; [done |]. intros m1 Hm1. csr_step; [done |]. intros m2 Hm2.
    csr_step.
    { pose proof (riscv_exception.exception_number_range (exception_id s)). word_lia. }
    intros m3 Hm3. apply (safe_bind is_u32); [apply csr_inst_read_safe; [done | csr_name] |].
    intros v Hv3. by apply isa_wf_pc.
  - destruct (rd_enable s && negb (rd s =? 0)) eqn:E; [| done].
    apply (safe_bind regs_wf); [| intros r Hr'; by apply isa_wf_regs].
    apply regfile_write_safe; [done | lia | done].
Qed.

Lemma execute_safe s m : step_wf (s, m) -> safe isa_wf (execute s m).
Proof.
  intros Hsm. apply (safe_bind decoded_wf); [by apply operands_safe |].
  intros s' Hs'. apply (safe_bind step_wf).
  - apply dispatch_safe. split; [done | apply Hsm].
  - intros [s2 m2] H2. by apply writeback_safe.
Qed.

Lemma init_values : values_wf isa_state.init.
Proof. unfold values_wf. cbn. split_and!; word_lia. Qed.

Lemma fetch_safe m : isa_wf m ->
  safe (λ sm, values_wf sm.1 /\ isa_wf sm.2) (fetch isa_state.init m).
Proof.
  intros Hm. assert (Hpc : is_u32 (pc m)) by apply Hm.
  apply (safe_bind (λ vb, is_u32 vb.1 /\ bus_wf vb.2)).
  - apply safe_bus_read32; apply Hm.
  - intros vb [Hv Hb]. split; cbn [fst snd].
    + unfold values_wf. destruct (negb _); cbn; split_and!; auto with word.
    + destruct m. unfold isa_wf in *. cbn in *. split; [auto with word | tauto].
Qed.

Lemma clint_run_safe m : isa_wf m -> safe isa_wf (clint_run m).
Proof.
  intros Hm. unfold clint_run, clint.run.
  cbn [interrupt_interface.set_pending mbind outcome_bind safe].
  destruct m. unfold isa_wf, dev_wf, clint_wf in *. cbn in *.
  destruct Hm as (? & ? & ? & (? & ? & ? & ?) & ?).
  split_and!; try tauto; destruct (negb _); cbn; auto with word; tauto.
Qed.

Lemma counter_names m :
  Forall (λ nv, is_Some (csr_objs0 !! nv.1) /\ is_u32 nv.2) (counter_writes m).
Proof.
  unfold counter_writes. cbv zeta.
  repeat (apply Forall_cons; split; [split; cbn [fst snd]; [csr_name | auto with word] |]).
  apply Forall_nil. exact I.
Qed.

Lemma csr_inst_writes_safe l m :
  Forall (λ nv, is_Some (csr_objs0 !! nv.1) /\ is_u32 nv.2) l -> isa_wf m ->
  safe isa_wf (csr_inst_writes l m).
Proof.
  intros Hl. revert m. induction Hl as [|[n v] l [Hn Hv] Hl IH]; intros m Hm; [done |].
  apply (safe_bind isa_wf); [by apply csr_inst_write_safe | exact IH].
Qed.

Lemma run_safe m : isa_wf m -> safe isa_wf (run m).
Proof.
  intros Hm. apply (safe_bind (λ sm, values_wf sm.1 /\ isa_wf sm.2)); [by apply fetch_safe |].
  intros sm [Hs Hm1]. apply (safe_bind decoded_wf); [by apply decode_safe |].
  intros s Hd. apply (safe_bind isa_wf); [by apply execute_safe |].
  intros m2 Hm2. apply (safe_bind isa_wf); [by apply clint_run_safe |].
  intros m3 Hm3. apply csr_inst_writes_safe; [apply counter_names | by apply isa_wf_count].
Qed.

Lemma interrupt_run_safe i e : csr_wf e -> safe csr_wf (interrupt_interface.run i e).
Proof.
  intros He. apply (safe_bind is_u32); [apply safe_csr_read; [done | csr_name] |].
  intros v Hv. apply safe_csr_write; [done | csr_name | by apply set_mtip_u32].
Qed.

Lemma interrupt_sync_safe i m : isa_wf m -> safe isa_wf (interrupt_sync i m).
Proof.
  intros Hm. apply (safe_bind csr_wf); [apply interrupt_run_safe, Hm |].
  intros e He. pose proof (isa_wf_csr m Hm e He) as Hm'. cbv zeta.
  destruct i as [id|]; [| done].
  csr_step; [by apply Hm' |]. intros m1 Hm1.
  csr_step; [word_lia |]. intros m2 Hm2. csr_step.
  { apply lor_u32; [word_lia |].
    pose proof (riscv_interrupt.interrupt_number_range id). word_lia. }
  intros m3 Hm3. apply (safe_bind is_u32); [apply csr_inst_read_safe; [done | csr_name] |].
  intros v Hv. csr_step; [by apply set_mie_u32 |].
  intros m4 Hm4. apply (safe_bind is_u32); [apply csr_inst_read_safe; [done | csr_name] |].
  intros w Hw. by apply isa_wf_pc.
Qed.

(** ** Construction, reset and loading *)
Lemma obj_wf_reset n o0 o :
  csr_objs0 !! n = Some o0 -> obj_wf o0 o -> obj_wf o0 (csr_base.reset o).
Proof.
  intros Hn (Hc & Hi & _). pose proof (csr_objs0_wf n o0 Hn) as (_ & _ & Hv & Hf).
  pose proof (csr_objs0_init n o0 Hn) as H0. cbn in H0.
  destruct o. unfold obj_wf, csr_base.reset in *. cbn in *. subst. by rewrite <- H0.
Qed.

Lemma csrfile_reset_safe fuel i e :
  csr_wf e -> safe csr_wf (csrfile.reset_from fuel i csr_table0 e).
Proof.
  revert i e. induction fuel as [|fuel IH]; intros i e He; cbn [csrfile.reset_from]; [done |].
  apply (safe_bind csr_wf); [| intros e' He'; by apply IH].
  destruct (csrfile.csr_map_table csr_table0 !! i) as [it|] eqn:E; [| done].
  destruct (csr_table0_objs i it E) as [o0 Ho].
  destruct (csr_wf_lookup e _ o0 He Ho) as (o & Hl & Hw).
  unfold csr_env.reset_obj. rewrite Hl. cbn.
  apply (csr_wf_insert e _ o0); [done | done | by eapply obj_wf_reset].
Qed.

Lemma reset_safe m : isa_wf m -> safe isa_wf (reset m).
Proof.
  intros (Hpc & (Hs & Hl & Hf & H0) & Hb & Hd & Ht & He). unfold reset.
  apply (safe_bind csr_wf); [rewrite Ht; by apply csrfile_reset_safe |].
  intros e He'. unfold bus.get_slave_obj, bus.find_slave_info. rewrite Hb. cbn [safe].
  destruct m. unfold isa_wf, dev_wf, mem_wf, clint_wf, regs_wf, bus_wf in *. cbn in *.
  destruct Hd as [[Hms Hmm] (Hcs & _ & _)]. rewrite Hs.
  split_and!; try done; try word_lia; try apply map_Forall_empty.
  repeat constructor; word_lia.
Qed.

Lemma load_safe buf i m : isa_wf m -> safe isa_wf (load_from i buf m).
Proof.
  revert i m. induction buf as [|b buf IH]; intros i m Hm; cbn [load_from]; [done |].
  eapply safe_bind; [apply safe_bus_write8; apply Hm |].
  intros bd [Hb Hd]. apply IH. by apply isa_wf_bus_dev.
Qed.

(** The state the constructor hands to [reset]. *)
Definition boot (send rev : list Z) (bp : breakpoint_state_t) : isa_model_t :=
  isa_model.mk 0 0 0 0 0 0 INIT_PC 0 (bus.mk slaves0 []) csr_table0 interrupt_interface.new
    (regfile.new ARCH_REG_NUM)
    (slave_base.mk (memory.mk MEMORY_SIZE ∅) { clint.new with clint.size := CLINT_SIZE })
    (csr_env.mk csr_objs0 send rev) bp.

Lemma boot_map send rev :
  map_all (csr_map_list ++ pmp_map_list) (csrfile.new, csr_env.mk ∅ send rev)
  = Ok (csr_table0, csr_env.mk csr_objs0 send rev).
Proof. vm_compute. reflexivity. Qed.

Lemma new_boot send rev bp : isa_model.new send rev bp = reset (boot send rev bp).
Proof. unfold isa_model.new. rewrite boot_map. reflexivity. Qed.

Lemma boot_wf send rev bp : isa_wf (boot send rev bp).
Proof.
  unfold isa_wf, boot, bus_wf, dev_wf, mem_wf, clint_wf, regs_wf. cbn.
  split_and!; try done; try word_lia; try apply map_Forall_empty.
  - repeat constructor; word_lia.
  - intros n. cbn. destruct (csr_objs0 !! n) as [o|] eqn:E; cbn; [| done].
    exact (csr_objs0_wf n o E).
Qed.

Lemma new_safe send rev bp : safe isa_wf (isa_model.new send rev bp).
Proof. rewrite new_boot. apply reset_safe, boot_wf. Qed.
