(* ===== verification/IsaRoundtrip.v ===== *)
(** * Decoding what [rv32.encode] encodes *)

From S2P Require Import Prelude Word Ops Rv32 IsaDecode.
Import isa_state.

(** ** Fields of a packed word *)
Lemma lor_add_pow a b n : 0 <= n -> 0 <= a < 2 ^ n -> 0 <= b ->
  Z.lor a (Z.shiftl b n) = a + b * 2 ^ n.
Proof. intros. by apply lor_shiftl_add. Qed.

Lemma land_high w : is_u32 w -> Z.land w (not32 0xfff) = w - w mod 4096.
Proof.
  intros Hw. unfold is_u32, two32 in Hw.
  change (not32 0xfff) with (Z.shiftl (2 ^ 20 - 1) 12).
  assert (Hs : w = Z.lor (w mod 4096) (Z.shiftl (w / 4096) 12)).
  { rewrite lor_add_pow; div_lia. }
  apply Z.bits_inj'. intros i Hi. rewrite Z.land_spec.
  replace (w - w mod 4096) with (Z.shiftl (w / 4096) 12)
    by (rewrite Z.shiftl_mul_pow2 by lia; div_lia).
  destruct (decide (i < 12)).
  - rewrite !Z.shiftl_spec_low by lia. apply andb_false_r.
  - rewrite !Z.shiftl_spec by lia.
    change (2 ^ 20 - 1) with (Z.ones 20). change 4096 with (2 ^ 12).
    rewrite Z.div_pow2_bits by lia. replace (i - 12 + 12) with i by lia.
    destruct (decide (i < 32)).
    + rewrite Z.ones_spec_low by lia. apply andb_true_r.
    + rewrite Z.ones_spec_high by lia.
      rewrite (testbit_high 32 w i) by lia. done.
Qed.

Section pack.
Context (op rd f3 rs1 rs2 f7 : Z).
Context (Hop : 0 <= op < 128) (Hrd : 0 <= rd < 32) (Hf3 : 0 <= f3 < 8)
  (Hrs1 : 0 <= rs1 < 32) (Hrs2 : 0 <= rs2 < 32) (Hf7 : 0 <= f7 < 128).
Let w := rv32.pack op rd f3 rs1 rs2 f7.

Lemma pack_u32 : is_u32 w.
Proof. unfold w, rv32.pack. word_lia. Qed.

Lemma pack_field lo n m : 0 <= lo -> 0 <= n -> m = 2 ^ n - 1 ->
  Z.land (Z.shiftr w lo) m = (w / 2 ^ lo) mod 2 ^ n.
Proof. apply field_div_mod. Qed.

Lemma of_word_pack :
  fields.of_word w =
  fields.mk op rd f3 rs1 rs2 f7
    (rs2 + 32 * f7)
    (rd + 32 * f7)
    (2 * (rd / 2) + 32 * (f7 mod 64) + 2 ^ 11 * (rd mod 2) + 2 ^ 12 * (f7 / 64))
    (w - w mod 4096)
    (2 * (rs2 / 2) + 32 * (f7 mod 64) + 2 ^ 11 * (rs2 mod 2)
     + 2 ^ 12 * (f3 + 8 * rs1) + 2 ^ 20 * (f7 / 64))
    (f7 / 8).
Proof.
  pose proof pack_u32 as Hw. unfold fields.of_word.
  rewrite (land_high w Hw), (land_ones_mod w 7) by lia.
  rewrite !(pack_field 7 5), !(pack_field 12 3), !(pack_field 15 5), !(pack_field 20 5),
    !(pack_field 25 7), !(pack_field 20 12), !(pack_field 8 4), !(pack_field 25 6),
    !(pack_field 7 1), !(pack_field 31 1), !(pack_field 12 8), !(pack_field 20 1),
    !(pack_field 21 10), !(pack_field 28 4) by (lia || reflexivity).
  assert (Ef : w / 2 ^ 25 = f7) by (unfold w, rv32.pack; div_lia).
  assert (E20 : w / 2 ^ 20 = rs2 + 32 * f7) by (unfold w, rv32.pack; div_lia).
  assert (E15 : w / 2 ^ 15 = rs1 + 32 * (rs2 + 32 * f7)) by (unfold w, rv32.pack; div_lia).
  assert (E12 : w / 2 ^ 12 = f3 + 8 * (rs1 + 32 * (rs2 + 32 * f7))) by (unfold w, rv32.pack; div_lia).
  assert (E7 : w / 2 ^ 7 = rd + 32 * (f3 + 8 * (rs1 + 32 * (rs2 + 32 * f7)))) by (unfold w, rv32.pack; div_lia).
  assert (E8 : w / 2 ^ 8 = rd / 2 + 16 * (f3 + 8 * (rs1 + 32 * (rs2 + 32 * f7)))) by (unfold w, rv32.pack; div_lia).
  assert (E21 : w / 2 ^ 21 = rs2 / 2 + 16 * f7) by (unfold w, rv32.pack; div_lia).
  assert (E28 : w / 2 ^ 28 = f7 / 8) by (unfold w, rv32.pack; div_lia).
  assert (E31 : w / 2 ^ 31 = f7 / 64) by (unfold w, rv32.pack; div_lia).
  assert (E0 : w mod 2 ^ 7 = op) by (unfold w, rv32.pack; div_lia).
  rewrite Ef, E20, E15, E12, E7, E8, E21, E28, E31, E0.
  clear E0 E7 E8 E12 E15 E20 E21 E28 E31 Ef Hw. clearbody w.
  f_equal; try div_lia.
  - (* imm_s *)
    replace ((rd + 32 * (f3 + 8 * (rs1 + 32 * (rs2 + 32 * f7)))) mod 2 ^ 5) with rd by div_lia.
    rewrite (Z.mod_small f7), lor_add_pow by lia. lia.
  - (* imm_b *)
    replace ((rd / 2 + 16 * (f3 + 8 * (rs1 + 32 * (rs2 + 32 * f7)))) mod 2 ^ 4) with (rd / 2) by div_lia.
    replace ((rd + 32 * (f3 + 8 * (rs1 + 32 * (rs2 + 32 * f7)))) mod 2 ^ 1) with (rd mod 2) by div_lia.
    rewrite (Z.shiftl_mul_pow2 _ 1) by lia.
    rewrite (lor_add_pow _ _ 5), (lor_add_pow _ _ 11), (lor_add_pow _ _ 12) by div_lia.
    div_lia.
  - (* imm_j *)
    replace ((f3 + 8 * (rs1 + 32 * (rs2 + 32 * f7))) mod 2 ^ 8) with (f3 + 8 * rs1) by div_lia.
    replace ((rs2 + 32 * f7) mod 2 ^ 1) with (rs2 mod 2) by div_lia.
    replace ((rs2 / 2 + 16 * f7) mod 2 ^ 10) with (rs2 / 2 + 16 * (f7 mod 64)) by div_lia.
    rewrite (Z.shiftl_mul_pow2 (rs2 mod 2)) by lia.
    rewrite (Z.lor_comm (Z.shiftl (f3 + 8 * rs1) 12)), (lor_add_pow _ _ 12) by div_lia.
    replace (rs2 mod 2 * 2 ^ 11 + (f3 + 8 * rs1) * 2 ^ 12)
      with (Z.shiftl (rs2 mod 2 + 2 * (f3 + 8 * rs1)) 11)
      by (rewrite Z.shiftl_mul_pow2 by lia; lia).
    rewrite (Z.shiftl_mul_pow2 _ 1) by lia.
    rewrite (Z.lor_comm (Z.shiftl _ 11)), (lor_add_pow _ _ 11), (lor_add_pow _ _ 20)
      by div_lia.
    div_lia.
Qed.
End pack.

(** ** Immediates *)
Lemma wrap_u32 x : rv32.wrap x = u32 x.
Proof. reflexivity. Qed.

Lemma sext_mod len x :
  0 < len -> - 2 ^ (len - 1) <= x < 2 ^ (len - 1) -> sext len (x mod 2 ^ len) = x.
Proof.
  intros Hl Hx. assert (H2 : 2 ^ len = 2 * 2 ^ (len - 1)).
  { rewrite <- Z.pow_succ_r by lia. f_equal. lia. }
  unfold sext. destruct (decide (0 <= x)).
  - rewrite Z.mod_small by lia. by replace (x <? 2 ^ (len - 1)) with true by lia.
  - assert (x mod 2 ^ len = x + 2 ^ len) as ->.
    { symmetry. apply (Z.mod_unique _ _ (-1)); lia. }
    replace (x + 2 ^ len <? 2 ^ (len - 1)) with false by lia. lia.
Qed.

Lemma sign_extend_mod len x v :
  0 < len < 32 -> - 2 ^ (len - 1) <= x < 2 ^ (len - 1) -> v = x mod 2 ^ len ->
  sign_extend v len = Ok (rv32.wrap x).
Proof.
  intros Hl Hx ->. rewrite sign_extend_sext, sext_mod; try lia; [done |].
  apply Z.mod_pos_bound. lia.
Qed.

(** ** The decoder's view of an instruction *)
Module expected.
Import rv32.

Definition bru_of (c : cond) : op_t * bru_op_t :=
  match c with
  | Beq => (op.beq, bru_op.beq) | Bne => (op.bne, bru_op.bne)
  | Blt => (op.blt, bru_op.blt) | Bge => (op.bge, bru_op.bge)
  | Bltu => (op.bltu, bru_op.bltu) | Bgeu => (op.bgeu, bru_op.bgeu)
  end.
Definition load_of (k : load_kind) : op_t * lsu_op_t :=
  match k with
  | Lb => (op.lb, lsu_op.lb) | Lh => (op.lh, lsu_op.lh) | Lw => (op.lw, lsu_op.lw)
  | Lbu => (op.lbu, lsu_op.lbu) | Lhu => (op.lhu, lsu_op.lhu)
  end.
Definition store_of (k : store_kind) : op_t * lsu_op_t :=
  match k with
  | Sb => (op.sb, lsu_op.sb) | Sh => (op.sh, lsu_op.sh) | Sw => (op.sw, lsu_op.sw)
  end.
Definition imm_of (o : imm_op) : op_t * alu_op_t :=
  match o with
  | Addi => (op.addi, alu_op.add) | Slti => (op.slti, alu_op.slt)
  | Sltiu => (op.sltiu, alu_op.sltu) | Xori => (op.xori, alu_op._xor)
  | Ori => (op.ori, alu_op._or) | Andi => (op.andi, alu_op._and)
  end.
Definition shift_of (o : shift_op) : op_t * alu_op_t :=
  match o with
  | Slli => (op.slli, alu_op.sll) | Srli => (op.srli, alu_op.srl)
  | Srai => (op.srai, alu_op.sra)
  end.
Definition reg_of (o : reg_op) : op_t * op_unit_t * sub_op_t :=
  let a o so := (o, op_unit.alu, sub_alu_op so) in
  let m o so := (o, op_unit.mul, sub_mul_op so) in
  let d o so := (o, op_unit.div, sub_div_op so) in
  match o with
  | Add => a op.add alu_op.add | Sub => a op.sub alu_op.sub
  | Sll => a op.sll alu_op.sll | Slt => a op.slt alu_op.slt
  | Sltu => a op.sltu alu_op.sltu | Xor => a op._xor alu_op._xor
  | Srl => a op.srl alu_op.srl | Sra => a op.sra alu_op.sra
  | Or => a op._or alu_op._or | And => a op._and alu_op._and
  | Mul => m op.mul mul_op.mul | Mulh => m op.mulh mul_op.mulh
  | Mulhsu => m op.mulhsu mul_op.mulhsu | Mulhu => m op.mulhu mul_op.mulhu
  | Div => d op.div div_op.div | Divu => d op.divu div_op.divu
  | Rem => d op.rem div_op.rem | Remu => d op.remu div_op.remu
  end.

(** Operation, unit, union member, then operands, immediate and destination. *)
Definition result (o : op_t) (u : op_unit_t) (so : sub_op_t) (a1 : arg_src_t) (r1 : Z)
  (a2 : arg_src_t) (r2 : Z) (im : Z) (d : option Z) (s : isa_state_t) : isa_state_t :=
  { isa_decode.prepare s with
    isa_state.op := o; op_unit := u; sub_op := so;
    arg1_src := a1; isa_state.rs1 := r1; arg2_src := a2; isa_state.rs2 := r2;
    isa_state.imm := im; isa_state.rd := default 0 d;
    rd_enable := bool_decide (is_Some d) }.

Definition decoded (i : instr) : isa_state_t -> isa_state_t :=
  let R := arg_src.reg in let I := arg_src.imm in let N := arg_src.disable in
  match i with
  | Lui rd imm20 =>
      result op.lui op_unit.alu (sub_alu_op alu_op.lui) N 0 N 0 (imm20 * 2 ^ 12) (Some rd)
  | Auipc rd imm20 =>
      result op.auipc op_unit.alu (sub_alu_op alu_op.auipc) N 0 N 0 (imm20 * 2 ^ 12) (Some rd)
  | Jal rd off => result op.jal op_unit.bru (sub_bru_op bru_op.jal) N 0 N 0 (wrap off) (Some rd)
  | Jalr rd rs1 imm =>
      result op.jalr op_unit.bru (sub_bru_op bru_op.jalr) R rs1 N 0 (wrap imm) (Some rd)
  | Branch c rs1 rs2 off =>
      result (bru_of c).1 op_unit.bru (sub_bru_op (bru_of c).2) R rs1 R rs2 (wrap off) None
  | Load k rd rs1 imm =>
      result (load_of k).1 op_unit.lsu (sub_lsu_op (load_of k).2) R rs1 N 0 (wrap imm) (Some rd)
  | Store k rs1 rs2 imm =>
      result (store_of k).1 op_unit.lsu (sub_lsu_op (store_of k).2) R rs1 R rs2 (wrap imm) None
  | OpImm o rd rs1 imm =>
      result (imm_of o).1 op_unit.alu (sub_alu_op (imm_of o).2) R rs1 I 0 (wrap imm) (Some rd)
  | ShiftImm o rd rs1 sh =>
      result (shift_of o).1 op_unit.alu (sub_alu_op (shift_of o).2) R rs1 I 0
             (sh + 32 * shift_f7 o) (Some rd)
  | Op o rd rs1 rs2 =>
      result (reg_of o).1.1 (reg_of o).1.2 (reg_of o).2 R rs1 R rs2 0 (Some rd)
  | Fence ps => result op.fence op_unit.alu (sub_alu_op alu_op.fence) N 0 N 0 ps None
  | FenceI => result op.fence_i op_unit.alu (sub_alu_op alu_op.fence_i) N 0 N 0 0 None
  end.
End expected.

Lemma imm_i_eq imm : imm mod 32 + 32 * (imm / 32 mod 128) = imm mod 2 ^ 12.
Proof. div_lia. Qed.
Lemma imm_b_eq off : off mod 2 = 0 ->
  let rd := 2 * (off / 2 mod 16) + off / 2 ^ 11 mod 2 in
  let f7 := off / 32 mod 64 + 64 * (off / 2 ^ 12 mod 2) in
  2 * (rd / 2) + 32 * (f7 mod 64) + 2 ^ 11 * (rd mod 2) + 2 ^ 12 * (f7 / 64) = off mod 2 ^ 13.
Proof.
  intros H rd f7. assert (rd / 2 = off / 2 mod 16) as -> by (unfold rd; div_lia).
  assert (rd mod 2 = off / 2 ^ 11 mod 2) as -> by (unfold rd; div_lia).
  assert (f7 mod 64 = off / 32 mod 64) as -> by (unfold f7; div_lia).
  assert (f7 / 64 = off / 2 ^ 12 mod 2) as -> by (unfold f7; div_lia).
  div_lia.
Qed.
Lemma imm_j_eq off : off mod 2 = 0 ->
  let rs2 := 2 * (off / 2 mod 16) + off / 2 ^ 11 mod 2 in
  let f7 := off / 32 mod 64 + 64 * (off / 2 ^ 20 mod 2) in
  2 * (rs2 / 2) + 32 * (f7 mod 64) + 2 ^ 11 * (rs2 mod 2)
  + 2 ^ 12 * (off / 2 ^ 12 mod 8 + 8 * (off / 2 ^ 15 mod 32)) + 2 ^ 20 * (f7 / 64)
  = off mod 2 ^ 21.
Proof.
  intros H rs2 f7. assert (rs2 / 2 = off / 2 mod 16) as -> by (unfold rs2; div_lia).
  assert (rs2 mod 2 = off / 2 ^ 11 mod 2) as -> by (unfold rs2; div_lia).
  assert (f7 mod 64 = off / 32 mod 64) as -> by (unfold f7; div_lia).
  assert (f7 / 64 = off / 2 ^ 20 mod 2) as -> by (unfold f7; div_lia).
  div_lia.
Qed.

(** ** The round trip *)
Section roundtrip.
Import rv32.
Context (s : isa_state_t).

(** Every encoding packs six fields in range. *)
Lemma decode_pack o rd f3 rs1 rs2 f7 :
  value s = pack o rd f3 rs1 rs2 f7 ->
  0 <= o < 128 -> 0 <= rd < 32 -> 0 <= f3 < 8 -> 0 <= rs1 < 32 -> 0 <= rs2 < 32 ->
  0 <= f7 < 128 -> isa_decode.decode s =
  isa_decode.switch_opcode
    (fields.mk o rd f3 rs1 rs2 f7 (rs2 + 32 * f7) (rd + 32 * f7)
      (2 * (rd / 2) + 32 * (f7 mod 64) + 2 ^ 11 * (rd mod 2) + 2 ^ 12 * (f7 / 64))
      (pack o rd f3 rs1 rs2 f7 - pack o rd f3 rs1 rs2 f7 mod 4096)
      (2 * (rs2 / 2) + 32 * (f7 mod 64) + 2 ^ 11 * (rs2 mod 2)
       + 2 ^ 12 * (f3 + 8 * rs1) + 2 ^ 20 * (f7 / 64))
      (f7 / 8)) (isa_decode.prepare s).
Proof. intros Hv ??????. unfold isa_decode.decode. by rewrite Hv, of_word_pack. Qed.

Ltac field_range := unfold reg_ok, imm12_ok in *; div_lia.
(** [unpack] cuts the word into its fields, [run] evaluates the switches. *)
Ltac unpack Hv :=
  cbn [cond_f3 load_f3 store_f3 imm_f3 shift_f3 shift_f7 reg_f3 reg_f7] in Hv;
  rewrite (decode_pack _ _ _ _ _ _ Hv) by field_range.
Ltac run :=
  cbn -[sign_extend Z.add Z.sub Z.mul Z.div Z.modulo Z.pow pack wrap];
  unfold isa_decode.case_jal, isa_decode.case_jalr, isa_decode.case_branch,
    isa_decode.case_load, isa_decode.case_store, isa_decode.case_op_imm;
  cbn [fields.imm_i fields.imm_s fields.imm_b fields.imm_j].
Ltac extend n x :=
  rewrite (sign_extend_mod n x); [ | lia | field_range | done].
Ltac finish := destruct s; cbn -[wrap Z.mul Z.add]; reflexivity.

Lemma decode_encode i :
  instr_ok i -> value s = encode i -> isa_decode.decode s = Ok (expected.decoded i s).
Proof.
  destruct i as [rd im|rd im|rd off|rd r1 im|c r1 r2 off|k rd r1 im|k r1 r2 im|o rd r1 im
    |o rd r1 sh|o rd r1 r2|ps|]; cbn [instr_ok encode]; intros Hok Hv.
  - unfold encode_U in Hv. unpack Hv. run.
    replace (_ - _ mod 4096) with (im * 2 ^ 12) by (unfold pack, reg_ok in *; div_lia). finish.
  - unfold encode_U in Hv. unpack Hv. run.
    replace (_ - _ mod 4096) with (im * 2 ^ 12) by (unfold pack, reg_ok in *; div_lia). finish.
  - unfold encode_J in Hv. unpack Hv. run.
    rewrite imm_j_eq by apply Hok. extend 21 off; finish.
  - unfold encode_I in Hv. unpack Hv. run. rewrite imm_i_eq. extend 12 im; finish.
  - unfold encode_B in Hv. destruct c; unpack Hv; run;
      (rewrite imm_b_eq by apply Hok); extend 13 off; finish.
  - unfold encode_I in Hv. destruct k; unpack Hv; run; rewrite imm_i_eq;
      extend 12 im; finish.
  - unfold encode_S in Hv. destruct k; unpack Hv; run; rewrite imm_i_eq;
      extend 12 im; finish.
  - unfold encode_I in Hv. destruct o; unpack Hv; run; rewrite imm_i_eq;
      extend 12 im; finish.
  - destruct o; unpack Hv; run.
    all: rewrite sign_extend_sext by field_range; unfold sext.
    all: match goal with |- context [?x <? ?y] => replace (x <? y) with true by field_range end.
    all: rewrite u32_small by (unfold is_u32, two32; field_range); finish.
  - destruct o; unpack Hv; run; finish.
  - unpack Hv. run. replace (ps / 32 mod 8 / 8) with 0 by div_lia. run.
    replace (ps mod 32 + 32 * (ps / 32 mod 8)) with ps by div_lia. finish.
  - unpack Hv. run. finish.
Qed.
End roundtrip.
