(* ===== verification/IsaRefine.v ===== *)
(** * The ISA model implements the abstract RV32IM machine

    [arch_of] reads the architectural state off a model; [run] on a state that
    fetches an encoded instruction takes it where [rv32.exec] takes the
    abstract state. *)

From S2P Require Import Prelude Word Ops Rv32 IsaDecode Csr IsaBus Breakpoint.
From S2P Require Import IsaModel IsaInv IsaSafe IsaRoundtrip.
Import isa_state isa_model.

Definition ram (m : isa_model_t) : memory_t := slave_base.dev_memory (devices m).

Definition arch_of (m : isa_model_t) : rv32.arch :=
  rv32.mk (pc m) (λ r, default 0 (regfile.reg_data (arch_regfile m) !! Z.to_nat r))
    (λ x, memory.get (ram m) (x - MEMORY_BASE)).

(** An aligned access of [n] bytes inside the RAM. *)
Definition in_ram (x n : Z) : Prop :=
  x mod n = 0 /\ MEMORY_BASE <= x /\ x + n <= MEMORY_BASE + MEMORY_SIZE.

#[global] Instance arch_equiv_equivalence : Equivalence rv32.arch_equiv.
Proof.
  unfold rv32.arch_equiv. split.
  - by intros a.
  - intros a b (? & ? & ?). split_and!; intros; symmetry; auto.
  - intros a b c (-> & Hr & Hm) (-> & Hr' & Hm').
    split_and!; intros; [done | rewrite Hr; auto | by rewrite Hm].
Qed.

(** ** Memory *)
Lemma mem_get_arch m x : rv32.mem (arch_of m) x = memory.get (ram m) (x - MEMORY_BASE).
Proof. reflexivity. Qed.

Lemma read8_arch m x :
  memory.load8 (x - MEMORY_BASE) (ram m) = rv32.mem (arch_of m) x.
Proof. reflexivity. Qed.
Lemma read16_arch m x :
  memory.load16 (x - MEMORY_BASE) (ram m) = rv32.load2 (rv32.mem (arch_of m)) x.
Proof.
  unfold memory.load16, rv32.load2. rewrite !mem_get_arch, Z.shiftl_mul_pow2 by lia.
  replace (x + 1 - MEMORY_BASE) with (x - MEMORY_BASE + 1) by lia. lia.
Qed.
Lemma read32_arch m x :
  memory.load32 (x - MEMORY_BASE) (ram m) = rv32.load4 (rv32.mem (arch_of m)) x.
Proof.
  unfold memory.load32, rv32.load4. rewrite !mem_get_arch, !Z.shiftl_mul_pow2 by lia.
  replace (x + 1 - MEMORY_BASE) with (x - MEMORY_BASE + 1) by lia.
  replace (x + 2 - MEMORY_BASE) with (x - MEMORY_BASE + 2) by lia.
  replace (x + 3 - MEMORY_BASE) with (x - MEMORY_BASE + 3) by lia. lia.
Qed.

Lemma get_put a v b mem :
  memory.get (memory.put a v mem) b = if b =? a then v else memory.get mem b.
Proof.
  unfold memory.get, memory.put. cbn. destruct (b =? a) eqn:E.
  - assert (b = a) as -> by lia. by rewrite lookup_insert_eq.
  - by rewrite lookup_insert_ne by lia.
Qed.

Lemma byte_of v k : 0 <= k -> u8 (Z.shiftr v k) = v / 2 ^ k mod 256.
Proof. intros. unfold u8. by rewrite Z.shiftr_div_pow2. Qed.

(** The stores through byte, half-word and word pointers are [rv32.store]. *)
Section stores.
Context (mem : memory_t) (x v : Z).
Let f (y : Z) : Z := memory.get mem (y - MEMORY_BASE).
Ltac stores :=
  intros y; unfold memory.store8, memory.store16, memory.store32, rv32.store, f;
  rewrite !get_put, ?byte_of by lia;
  repeat match goal with
  | |- context [?a =? ?b] => destruct (Z.eqb_spec a b)
  end;
  match goal with |- _ = if ?c then _ else _ => destruct c eqn:? end; try lia;
  match goal with
  | |- _ = _ / 2 ^ (8 * ?d) mod _ =>
      first [ replace d with 0 by lia | replace d with 1 by lia
            | replace d with 2 by lia | replace d with 3 by lia ]
  | _ => idtac
  end; unfold u8; rewrite ?Z.div_1_r; try reflexivity.

Lemma write8_store y :
  memory.get (memory.store8 (x - MEMORY_BASE) v mem) (y - MEMORY_BASE) = rv32.store 1 x v f y.
Proof. revert y. stores. Qed.
Lemma write16_store y :
  memory.get (memory.store16 (x - MEMORY_BASE) v mem) (y - MEMORY_BASE) = rv32.store 2 x v f y.
Proof. revert y. stores. Qed.
Lemma write32_store y :
  memory.get (memory.store32 (x - MEMORY_BASE) v mem) (y - MEMORY_BASE) = rv32.store 4 x v f y.
Proof. revert y. stores. Qed.
End stores.

(** ** Accesses to the RAM through the bus *)
Section bus.
Context (m : isa_model_t) (Hm : isa_wf m) (x : Z).

Lemma ram_slave n :
  in_ram x n -> 0 < n ->
  bus.find_slave_info x false (bus m) = 0 /\
  arr_get (bus.slave_info_list (bus m)) 0 =
    Ok (bus.mk_slave_info MEMORY_BASE MEMORY_SIZE slave_base.ref_memory true) /\
  sub32 x MEMORY_BASE = x - MEMORY_BASE.
Proof using Hm.
  intros (_ & Hlo & Hhi) Hn. destruct Hm as (_ & _ & Hb & _).
  unfold bus_wf in Hb. unfold bus.find_slave_info. rewrite Hb.
  unfold MEMORY_BASE, MEMORY_SIZE in *. split_and!.
  - assert (Hc : bus.contains x
      (bus.mk_slave_info MEMORY_BASE MEMORY_SIZE slave_base.ref_memory true) = true).
    { unfold bus.contains. change (bus.limit _) with 0x80100000.
      cbn [bus.base]. unfold MEMORY_BASE. lia. }
    unfold slaves0. cbn [bus.find_in]. by rewrite Hc.
  - reflexivity.
  - unfold sub32. apply u32_small. word_lia.
Qed.

Lemma ram_check n :
  in_ram x n -> n = 1 \/ n = 2 \/ n = 4 ->
  slave_base.check (slave_base.size slave_base.ref_memory (devices m)) (x - MEMORY_BASE) n
  = Ok tt.
Proof using Hm.
  intros (Ha & Hlo & Hhi) Hn. destruct Hm as (_ & _ & _ & ((Hs & _) & _) & _).
  unfold slave_base.check. cbn [slave_base.size]. rewrite Hs.
  assert (H0 : Z.land (x - MEMORY_BASE) (n - 1) = 0).
  { destruct Hn as [-> | [-> | ->]].
    - apply Z.land_0_r.
    - rewrite (land_ones_mod _ 1) by lia. unfold MEMORY_BASE. div_lia.
    - rewrite (land_ones_mod _ 2) by lia. unfold MEMORY_BASE. div_lia. }
  rewrite H0. cbn [Z.eqb verify mbind outcome_bind].
  replace (x - MEMORY_BASE <? MEMORY_SIZE) with true by lia.
  replace (n <=? MEMORY_SIZE - (x - MEMORY_BASE)) with true by lia. done.
Qed.

Lemma ram_in_array {A} n (y : A) : in_ram x n ->
  memory.in_bounds (x - MEMORY_BASE) n (slave_base.dev_memory (devices m)) y = Ok y.
Proof using Hm.
  intros (_ & Hlo & Hhi). destruct Hm as (_ & _ & _ & ((Hs & _) & _) & _).
  unfold memory.in_bounds, memory.in_array. rewrite Hs.
  by replace ((0 <=? x - MEMORY_BASE) && (x - MEMORY_BASE + n <=? MEMORY_SIZE)) with true by lia.
Qed.

Ltac access n Hr :=
  destruct (ram_slave n Hr ltac:(lia)) as (Hf & Hs & Ho);
  unfold bus.read8, bus.read16, bus.read32, bus.write8, bus.write16, bus.write32;
  cbv zeta; rewrite Hf, Hs; cbn [Z.leb Z.compare mbind outcome_bind bus.slave bus.base]; rewrite Ho;
  unfold slave_base.read8, slave_base.read16, slave_base.read32,
    slave_base.write8, slave_base.write16, slave_base.write32;
  rewrite (ram_check n Hr) by lia; cbn [mbind outcome_bind];
  unfold memory._read8, memory._read16, memory._read32,
    memory._write8, memory._write16, memory._write32;
  rewrite (ram_in_array n) by exact Hr; cbn [mbind outcome_bind].

Lemma ram_read8 : in_ram x 1 ->
  bus.read8 x false (bus m) (devices m) = Ok (rv32.mem (arch_of m) x, bus m).
Proof using Hm. intros Hr. access 1 Hr. reflexivity. Qed.
Lemma ram_read16 : in_ram x 2 ->
  bus.read16 x false (bus m) (devices m) = Ok (rv32.load2 (rv32.mem (arch_of m)) x, bus m).
Proof using Hm. intros Hr. access 2 Hr. by rewrite <- read16_arch. Qed.
Lemma ram_read32 fe : in_ram x 4 ->
  bus.read32 x fe (bus m) (devices m) = Ok (rv32.load4 (rv32.mem (arch_of m)) x, bus m).
Proof using Hm. intros Hr. access 4 Hr. by rewrite <- read32_arch. Qed.

Lemma ram_write8 v : in_ram x 1 ->
  bus.write8 x v (bus m) (devices m) =
  Ok (bus m, { devices m with slave_base.dev_memory ::= memory.store8 (x - MEMORY_BASE) (u8 v) }).
Proof using Hm. intros Hr. access 1 Hr. reflexivity. Qed.
Lemma ram_write16 v : in_ram x 2 ->
  bus.write16 x v (bus m) (devices m) =
  Ok (bus m, { devices m with slave_base.dev_memory ::= memory.store16 (x - MEMORY_BASE) (u16 v) }).
Proof using Hm. intros Hr. access 2 Hr. reflexivity. Qed.
Lemma ram_write32 v : in_ram x 4 ->
  bus.write32 x v (bus m) (devices m) =
  Ok (bus m, { devices m with slave_base.dev_memory ::= memory.store32 (x - MEMORY_BASE) v }).
Proof using Hm. intros Hr. access 4 Hr. reflexivity. Qed.
End bus.

(** ** Steps that do not touch the architectural state *)
Lemma csr_write_total e n o0 v :
  csr_wf e -> csr_objs0 !! n = Some o0 -> csr_base.cls o0 <> csr_base.charfifo ->
  exists e', csr_env.write n v e = Ok e'.
Proof.
  intros He Hn Hc. destruct (csr_wf_lookup e n o0 He Hn) as (o & Ho & (Hcls & _)).
  unfold csr_env.write. rewrite Ho, Hcls. destruct (csr_base.cls o0); try done; eauto.
Qed.

(** A static CSR object other than the character FIFO. *)
Definition plain_csr (n : string) : Prop :=
  exists o0, csr_objs0 !! n = Some o0 /\ csr_base.cls o0 <> csr_base.charfifo.
Ltac plain_csr := eexists; split; [vm_compute; reflexivity | discriminate].

Lemma csr_inst_write_total n v m :
  isa_wf m -> plain_csr n -> is_u32 v ->
  exists m', csr_inst_write n v m = Ok m' /\ arch_of m' = arch_of m /\ isa_wf m'.
Proof.
  intros Hm (o0 & Hn & Hc) Hv.
  pose proof (csr_inst_write_safe m Hm n v ltac:(eauto) Hv) as Hs.
  destruct (csr_write_total (csr_env m) n o0 v) as [e' He']; [apply Hm | done | done |].
  unfold csr_inst_write in *. rewrite He' in *. cbn in Hs |- *. eauto.
Qed.

Lemma csr_inst_writes_total l m :
  Forall (λ nv, plain_csr nv.1 /\ is_u32 nv.2) l -> isa_wf m ->
  exists m', csr_inst_writes l m = Ok m' /\ arch_of m' = arch_of m /\ isa_wf m'.
Proof.
  intros Hl. revert m. induction Hl as [|[n v] l [Hn Hv] Hl IH]; intros m Hm; [eauto |].
  destruct (csr_inst_write_total n v m Hm Hn Hv) as (m1 & E1 & A1 & W1).
  destruct (IH m1 W1) as (m2 & E2 & A2 & W2).
  exists m2. cbn [csr_inst_writes]. rewrite E1. cbn. rewrite E2, A2, A1. auto.
Qed.

Lemma counter_plain m : Forall (λ nv, plain_csr nv.1 /\ is_u32 nv.2) (counter_writes m).
Proof.
  unfold counter_writes. cbv zeta.
  repeat (apply Forall_cons; split; [split; cbn [fst snd]; [plain_csr | auto with word] |]).
  apply Forall_nil. exact I.
Qed.

(** What [run] does after the instruction: clock, counters. *)
Definition tail (m : isa_model_t) : outcome isa_model_t :=
  m ← clint_run m;
  let m := count m in
  csr_inst_writes (counter_writes m) m.

Lemma tail_total m : isa_wf m -> exists m', tail m = Ok m' /\ arch_of m' = arch_of m /\ isa_wf m'.
Proof.
  intros Hm. pose proof (clint_run_safe m Hm) as Hc. unfold tail.
  unfold clint_run, clint.run in *.
  cbn [interrupt_interface.set_pending mbind outcome_bind safe] in *.
  match goal with |- context [count ?x] =>
    destruct (csr_inst_writes_total (counter_writes (count x)) (count x)) as (m' & E & A & W)
  end; [apply counter_plain | by apply isa_wf_count |].
  exists m'. rewrite E. auto.
Qed.

(** ** Registers *)
Lemma regfile_read_arch m r : isa_wf m -> rv32.reg_ok r ->
  regfile.read r (arch_regfile m) = Ok (rv32.reg (arch_of m) r).
Proof.
  intros Hm Hr. pose proof (regfile_read_safe m Hm r Hr) as Hs. revert Hs.
  destruct Hm as (_ & (Hsz & Hl & _) & _). unfold regfile.read, rv32.reg_ok in *.
  rewrite Hsz. replace (r <? ARCH_REG_NUM) with true by (unfold ARCH_REG_NUM; lia).
  cbn [verify mbind outcome_bind]. unfold arr_get. cbn.
  replace (r <? 0) with false by lia. by destruct (_ !! _).
Qed.

Lemma reg_arch_u32 m r : isa_wf m -> rv32.reg_ok r -> is_u32 (rv32.reg (arch_of m) r).
Proof.
  intros Hm Hr. pose proof (regfile_read_safe m Hm r Hr) as Hs.
  by rewrite (regfile_read_arch m r Hm Hr) in Hs.
Qed.

(** The result of a unit reaches the destination register. *)
Lemma writeback_arch s m :
  isa_wf m -> has_exception s = false -> rv32.reg_ok (rd s) -> is_u32 (rd_value s) ->
  exists m', writeback s m = Ok m' /\ isa_wf m' /\
    rv32.arch_equiv (arch_of m')
      (if rd_enable s then rv32.set_reg (rd s) (rd_value s) (arch_of m) else arch_of m).
Proof.
  intros Hm He Hrd Hv. unfold writeback. rewrite He.
  destruct (rd_enable s) eqn:Hen; cbn [andb]; [| exists m; by split_and!].
  destruct (rd s =? 0) eqn:Hz; cbn [negb].
  - exists m. split_and!; [done | done |]. split_and!; [done | | done].
    intros r _. cbn. rewrite Hz. by rewrite andb_false_r.
  - unfold rv32.reg_ok in Hrd.
    pose proof (regfile_write_safe m Hm (rd s) (rd_value s) ltac:(lia) Hv) as Hs. revert Hs.
    pose proof Hm as (_ & (Hsz & Hl & _) & _).
    unfold regfile.write. rewrite Hsz.
    replace (rd s <? ARCH_REG_NUM) with true by (unfold ARCH_REG_NUM; lia).
    cbn [verify mbind outcome_bind]. rewrite arr_set_ok by (rewrite Hl; unfold ARCH_REG_NUM; lia).
    cbn [mbind outcome_bind safe]. intros Hs. eexists. split; [reflexivity |].
    split; [by apply isa_wf_regs |].
    split_and!; [done | | done]. intros r Hr. unfold rv32.reg_ok in Hr. cbn. rewrite Hz.
    unfold zlen in Hl. unfold ARCH_REG_NUM in Hl.
    destruct (r =? rd s) eqn:E; cbn [andb negb].
    + assert (r = rd s) as -> by lia. by rewrite list_lookup_insert_eq by lia.
    + by rewrite list_lookup_insert_ne by lia.
Qed.

(** ** Arithmetic of the units *)
Section arith.
Context (a b : Z) (Ha : is_u32 a) (Hb : is_u32 b).

Lemma signed_i32 x : rv32.signed x = i32 x.
Proof. reflexivity. Qed.

Lemma mask5_mod x : Z.land x 0x1f = x mod 32.
Proof. by apply (land_ones_mod _ 5). Qed.

Lemma sll_spec : shl32 a (Z.land b 0x1f) = rv32.wrap (a * 2 ^ (b mod 32)).
Proof. unfold shl32. rewrite mask5_mod, Z.shiftl_mul_pow2 by div_lia. reflexivity. Qed.
Lemma srl_spec : Z.shiftr a (Z.land b 0x1f) = a / 2 ^ (b mod 32).
Proof. rewrite mask5_mod, Z.shiftr_div_pow2 by div_lia. reflexivity. Qed.
Lemma sra_spec :
  u32 (Z.shiftr (i32 a) (Z.land b 0x1f)) = rv32.wrap (rv32.signed a / 2 ^ (b mod 32)).
Proof. rewrite mask5_mod, Z.shiftr_div_pow2 by div_lia. reflexivity. Qed.

Lemma i32_mod x : exists k, i32 x = x + k * two32.
Proof. unfold i32. destruct (x <? _); [exists 0 | exists (-1)]; lia. Qed.

Lemma lo_word z : Z.land (u64 z) 0xffffffff = rv32.wrap z.
Proof.
  rewrite (land_ones_mod _ 32) by lia. unfold u64, rv32.wrap, two64.
  change 18446744073709551616 with (2 ^ 32 * 2 ^ 32). div_lia.
Qed.
Lemma hi_word z : Z.land (Z.shiftr (u64 z) 32) 0xffffffff = rv32.wrap (z / 2 ^ 32).
Proof.
  rewrite (field_div_mod _ 32 32) by lia. unfold u64, rv32.wrap, two64.
  change 18446744073709551616 with (2 ^ 32 * 2 ^ 32).
  rewrite Z.rem_mul_r by lia.
  rewrite (Z.mul_comm (2 ^ 32) (_ mod _)), Z.div_add by lia.
  rewrite (Z.div_small (z mod 2 ^ 32)) by (apply Z.mod_pos_bound; lia).
  by rewrite Z.add_0_l, Zmod_mod.
Qed.

Lemma mul_spec : Z.land (u64 (i32 a * i32 b)) 0xffffffff = rv32.wrap (a * b).
Proof.
  rewrite lo_word. destruct (i32_mod a) as [k ->]. destruct (i32_mod b) as [l ->].
  unfold rv32.wrap, two32. change 4294967296 with (2 ^ 32).
  replace ((a + k * 2 ^ 32) * (b + l * 2 ^ 32))
    with (a * b + (k * b + l * a + k * l * 2 ^ 32) * 2 ^ 32) by ring.
  apply Z_mod_plus_full.
Qed.
Lemma mulhsu_spec : Z.land (Z.shiftr (u64 (u64 (i32 a) * b)) 32) 0xffffffff
  = rv32.wrap (rv32.signed a * b / 2 ^ 32).
Proof.
  rewrite <- hi_word. unfold u64. by rewrite Zmult_mod_idemp_l.
Qed.
Lemma mulhu_spec : Z.land (Z.shiftr (u64 (a * b)) 32) 0xffffffff = a * b / 2 ^ 32.
Proof using Ha Hb.
  rewrite hi_word. apply Z.mod_small. unfold is_u32, two32 in *.
  split; [apply Z.div_pos; nia |]. apply Z.div_lt_upper_bound; nia.
Qed.

(** The overflow test is what the wrap-around gives anyway. *)
Lemma div_spec :
  (if b =? 0 then 0xFFFFFFFF
   else if (a =? 0x80000000) && (b =? 0xFFFFFFFF) then 0x80000000
   else u32 (Z.quot (i32 a) (i32 b))) = rv32.alu rv32.Div a b.
Proof.
  cbn [rv32.alu]. destruct (b =? 0) eqn:Eb; [done |].
  destruct (_ && _) eqn:E; [| done].
  assert (a = 0x80000000) as -> by lia. assert (b = 0xFFFFFFFF) as -> by lia. done.
Qed.
Lemma rem_spec :
  (if b =? 0 then a
   else if (a =? 0x80000000) && (b =? 0xFFFFFFFF) then 0
   else u32 (Z.rem (i32 a) (i32 b))) = rv32.alu rv32.Rem a b.
Proof.
  cbn [rv32.alu]. destruct (b =? 0) eqn:Eb; [done |].
  destruct (_ && _) eqn:E; [| done].
  assert (a = 0x80000000) as -> by lia. assert (b = 0xFFFFFFFF) as -> by lia. done.
Qed.

Lemma alu_u32 o : is_u32 (rv32.alu o a b).
Proof using Ha Hb.
  destruct o; cbn [rv32.alu]; repeat case_match;
    try solve [auto with word | apply u32_range | word_lia].
  - rewrite <- Z.shiftr_div_pow2 by div_lia. apply shiftr_u32; [done | div_lia].
  - rewrite <- mulhu_spec. apply land32_u32.
Qed.
End arith.

(** ** One decoded instruction *)

(** A decoded instruction with its operands read from [m]. *)
Definition operand (a : arg_src_t) (r im old : Z) (m : isa_model_t) : Z :=
  match a with
  | arg_src.reg => rv32.reg (arch_of m) r
  | arg_src.imm => im
  | arg_src.disable => old
  end.
Definition ready (o : op_t) (u : op_unit_t) (so : sub_op_t) (a1 : arg_src_t) (r1 : Z)
  (a2 : arg_src_t) (r2 : Z) (im : Z) (d : option Z) (s : isa_state_t) (m : isa_model_t) :
  isa_state_t :=
  { expected.result o u so a1 r1 a2 r2 im d s with
    src1_value := operand a1 r1 im (src1_value s) m;
    src2_value := operand a2 r2 im (src2_value s) m }.

Section exec.
Context (s : isa_state_t) (m : isa_model_t).
Context (Hs : has_exception s = false) (Hm : isa_wf m).

Lemma operands_ready o u so a1 r1 a2 r2 im d :
  rv32.reg_ok r1 -> rv32.reg_ok r2 ->
  read_operands (expected.result o u so a1 r1 a2 r2 im d s) m =
  Ok (ready o u so a1 r1 a2 r2 im d s m).
Proof using Hs Hm.
  intros H1 H2. pose proof (regfile_read_arch m r1 Hm H1) as E1.
  pose proof (regfile_read_arch m r2 Hm H2) as E2.
  unfold read_operands, ready, operand. destruct s. cbn in Hs. subst. cbn [expected.result].
  cbn -[regfile.read arch_of].
  destruct a1, a2; rewrite ?E1; cbn -[regfile.read arch_of]; rewrite ?E2; reflexivity.
Qed.

(** A unit that only computes a value. *)
Lemma execute_value o u so a1 r1 a2 r2 im d v :
  rv32.reg_ok r1 -> rv32.reg_ok r2 -> rv32.reg_ok d -> is_u32 v ->
  dispatch (ready o u so a1 r1 a2 r2 im (Some d) s m) m =
    Ok ({ ready o u so a1 r1 a2 r2 im (Some d) s m with rd_value := v }, m) ->
  exists m', execute (expected.result o u so a1 r1 a2 r2 im (Some d) s) m = Ok m' /\
    isa_wf m' /\ rv32.arch_equiv (arch_of m') (rv32.set_reg d v (arch_of m)).
Proof using Hs Hm.
  intros H1 H2 Hd Hv E. unfold execute. rewrite operands_ready by done.
  cbn [mbind outcome_bind]. rewrite E. cbn [mbind outcome_bind fst snd].
  match goal with |- exists _, writeback ?x _ = _ /\ _ =>
    destruct (writeback_arch x m) as (m' & E' & W & A) end; [done | | done | done |].
  { clear - Hs. by destruct s. }
  exists m'. split_and!; [exact E' | exact W | exact A].
Qed.
End exec.

(** Loads and stores: the access lies in the RAM. *)
Definition access_ok (i : rv32.instr) (a : rv32.arch) : Prop :=
  match rv32.access i a with Some (x, n) => in_ram x n | None => True end.

(** A jump to an even address clears its lowest bit. *)
Lemma land_even x : is_u32 x -> Z.land x (not32 0x01) = x - x mod 2.
Proof.
  intros Hx. change (not32 1) with (Z.ldiff (Z.ones 32) 1).
  assert (E : Z.land x (Z.ldiff (Z.ones 32) 1) = Z.ldiff x 1).
  { apply Z.bits_inj'. intros i Hi. rewrite Z.land_spec, !Z.ldiff_spec.
    destruct (decide (i < 32)).
    - rewrite Z.ones_spec_low by lia. by rewrite andb_true_l.
    - rewrite (testbit_high 32 x i) by (done || lia). done. }
  rewrite E. change 1 with (Z.ones 1) at 1.
  rewrite Z.ldiff_ones_r, Z.shiftr_div_pow2, Z.shiftl_mul_pow2 by lia. div_lia.
Qed.

Section bytes.
Context (m : isa_model_t) (Hm : isa_wf m).

Lemma mem_u8 x : is_u8 (rv32.mem (arch_of m) x).
Proof using Hm. apply mem_get_u8. apply Hm. Qed.
Lemma load2_u16 x : is_u16 (rv32.load2 (rv32.mem (arch_of m)) x).
Proof using Hm.
  pose proof (mem_u8 x). pose proof (mem_u8 (x + 1)). unfold rv32.load2. word_lia.
Qed.
Lemma load_u32 k x : is_u32 (rv32.load k (rv32.mem (arch_of m)) x).
Proof using Hm.
  pose proof (mem_u8 x). pose proof (mem_u8 (x + 1)). pose proof (mem_u8 (x + 2)).
  pose proof (mem_u8 (x + 3)). pose proof (load2_u16 x).
  destruct k; cbn [rv32.load]; try apply u32_range; unfold rv32.load4; word_lia.
Qed.
End bytes.

(** Only the bytes that are stored matter. *)
Lemma store_trunc n x v w f y :
  w = v mod 2 ^ (8 * n) -> 0 <= n -> rv32.store n x w f y = rv32.store n x v f y.
Proof.
  intros -> Hn. unfold rv32.store. destruct (_ && _) eqn:E; [| done].
  set (d := y - x) in *. assert (0 <= d < n) by (unfold d; lia).
  replace (8 * n) with (8 * d + (8 * (n - d - 1) + 8)) by lia.
  rewrite !Z.pow_add_r by lia. change (2 ^ 8) with 256.
  assert (0 < 2 ^ (8 * d)) by lia. assert (0 < 2 ^ (8 * (n - d - 1))) by lia.
  set (p := 2 ^ (8 * d)) in *. set (q := 2 ^ (8 * (n - d - 1))) in *. clearbody p q.
  rewrite Z.rem_mul_r by lia. rewrite Z.mul_comm, Z.div_add, Z.div_small by (lia || div_lia).
  rewrite Z.add_0_l, (Z.mul_comm q), Z.rem_mul_r by lia.
  rewrite Z.mul_comm, Z.mod_add by lia. by rewrite Zmod_mod.
Qed.

(** A RAM write seen from outside. *)
Lemma arch_of_store m b f n x v :
  (forall y, memory.get (f (ram m)) (y - MEMORY_BASE) = rv32.store n x v (rv32.mem (arch_of m)) y) ->
  rv32.arch_equiv
    (arch_of { m with bus := b; devices := { devices m with slave_base.dev_memory ::= f } })
    (rv32.mk (pc m) (rv32.reg (arch_of m)) (rv32.store n x v (rv32.mem (arch_of m)))).
Proof.
  intros H. destruct m. split_and!; [done | done |]. intros y. exact (H y).
Qed.

(** The memory function a store applies to the RAM. *)
Definition stored_mem (k : rv32.store_kind) (x v : Z) : memory_t -> memory_t :=
  match k with
  | rv32.Sb => memory.store8 (x - MEMORY_BASE) (u8 (Z.land v 0xff))
  | rv32.Sh => memory.store16 (x - MEMORY_BASE) (u16 (Z.land v 0xffff))
  | rv32.Sw => memory.store32 (x - MEMORY_BASE) v
  end.

Lemma stored_mem_store m k x v y : is_u32 v ->
  memory.get (stored_mem k x v (ram m)) (y - MEMORY_BASE) =
  rv32.store (rv32.width k) x v (rv32.mem (arch_of m)) y.
Proof.
  intros Hv. destruct k; cbn [stored_mem rv32.width].
  - rewrite write8_store. apply store_trunc; [| lia].
    unfold u8. rewrite (land_ones_mod _ 8) by lia. apply Zmod_mod.
  - rewrite write16_store. apply store_trunc; [| lia].
    unfold u16. rewrite (land_ones_mod _ 16) by lia. apply Zmod_mod.
  - apply write32_store.
Qed.

Lemma stored_mem_wf k x v mem : mem_wf mem -> mem_wf (stored_mem k x v mem).
Proof.
  intros. destruct k; cbn [stored_mem];
    auto using mem_wf_write8, mem_wf_write16, mem_wf_write32.
Qed.

Section decoded.
Context (s : isa_state_t) (m : isa_model_t).
Context (Hs : has_exception s = false) (Hm : isa_wf m) (Hrd : is_u32 (rd_value s)).
Context (Hp : pc m = add32 (isa_state.pc s) 4).
#[local] Abbreviation a := (rv32.set_pc (isa_state.pc s) (arch_of m)).
#[local] Abbreviation R := (rv32.reg (arch_of m)).

Lemma next_arch : rv32.next a = arch_of m.
Proof using Hp. unfold rv32.next, arch_of. cbn. by rewrite Hp. Qed.

Definition executes (i : rv32.instr) : Prop :=
  exists m', execute (expected.decoded i s) m = Ok m' /\ isa_wf m' /\
    rv32.arch_equiv (arch_of m') (rv32.exec i a).

(** [value_tac]: evaluate the unit on the decoded record. *)
Ltac evaluate_with :=
  unfold dispatch, ready, expected.result, operand;
  destruct s; cbn in Hs |- *; subst; cbn -[arch_of Z.land Z.shiftr Z.quot Z.rem u32 u64 add32
    sub32 shl32 i32 rv32.alu rv32.wrap Z.mul
    bus.read8 bus.read16 bus.read32 bus.write8 bus.write16 bus.write32 sign_extend].
Ltac evaluate := clear - Hs; evaluate_with.

Lemma executes_op o rd rs1 rs2 :
  rv32.instr_ok (rv32.Op o rd rs1 rs2) -> executes (rv32.Op o rd rs1 rs2).
Proof using Hs Hm Hp.
  intros (Hd & H1 & H2). unfold executes. cbn [rv32.exec]. rewrite next_arch.
  pose proof (reg_arch_u32 m rs1 Hm H1) as Ha. pose proof (reg_arch_u32 m rs2 Hm H2) as Hb.
  apply execute_value; [done.. | by apply alu_u32 |].
  revert Ha Hb. evaluate. intros Ha Hb.
  destruct o; cbn -[arch_of Z.land Z.shiftr Z.quot Z.rem u32 u64 add32
    sub32 shl32 i32 rv32.alu rv32.wrap Z.mul]; do 3 f_equal.
  - by rewrite sll_spec.
  - by rewrite srl_spec.
  - by rewrite sra_spec.
  - by rewrite mul_spec.
  - by rewrite hi_word.
  - by rewrite mulhsu_spec.
  - by rewrite mulhu_spec.
  - by rewrite div_spec.
  - by rewrite rem_spec.
Qed.

Lemma executes_op_imm o rd rs1 im :
  rv32.instr_ok (rv32.OpImm o rd rs1 im) -> executes (rv32.OpImm o rd rs1 im).
Proof using Hs Hm Hp.
  intros (Hd & H1 & _). unfold executes. cbn [rv32.exec]. rewrite next_arch.
  pose proof (reg_arch_u32 m rs1 Hm H1) as Ha.
  assert (Hi : is_u32 (rv32.wrap im)) by apply u32_range.
  apply execute_value; [done.. | done | done | by apply alu_u32 |].
  evaluate. by destruct o.
Qed.

Lemma executes_shift o rd rs1 sh :
  rv32.instr_ok (rv32.ShiftImm o rd rs1 sh) -> executes (rv32.ShiftImm o rd rs1 sh).
Proof using Hs Hm Hp.
  intros (Hd & H1 & Hsh). unfold executes. cbn [rv32.exec]. rewrite next_arch.
  pose proof (reg_arch_u32 m rs1 Hm H1) as Ha.
  assert (Hi : is_u32 sh) by word_lia.
  apply execute_value; [done.. | done | done | by apply alu_u32 |].
  clear Ha Hsh. evaluate.
  destruct o; cbn -[arch_of Z.land Z.shiftr u32 shl32 i32 rv32.wrap Z.mul Z.add];
    rewrite ?sll_spec, ?srl_spec, ?sra_spec; do 3 f_equal;
    cbn [rv32.alu rv32.shift_reg_op]; do 3 f_equal; div_lia.
Qed.

Lemma executes_lui rd im : rv32.instr_ok (rv32.Lui rd im) -> executes (rv32.Lui rd im).
Proof using Hs Hm Hp.
  intros (Hd & Hi). unfold executes. cbn [rv32.exec]. rewrite next_arch.
  apply execute_value; [done.. | done | done | word_lia |]. evaluate. reflexivity.
Qed.

Lemma executes_auipc rd im : rv32.instr_ok (rv32.Auipc rd im) -> executes (rv32.Auipc rd im).
Proof using Hs Hm Hp.
  intros (Hd & Hi). unfold executes. cbn [rv32.exec]. rewrite next_arch.
  apply execute_value; [done.. | done | done | apply u32_range |].
  evaluate. unfold add32. rewrite Z.add_comm. reflexivity.
Qed.

(** The end of [execute], for any unit. *)
Lemma execute_dispatch o u so a1 r1 a2 r2 im d v m2 :
  rv32.reg_ok r1 -> rv32.reg_ok r2 -> rv32.reg_ok (default 0 d) -> is_u32 v ->
  isa_wf m2 ->
  dispatch (ready o u so a1 r1 a2 r2 im d s m) m =
    Ok ({ ready o u so a1 r1 a2 r2 im d s m with rd_value := v }, m2) ->
  exists m', execute (expected.result o u so a1 r1 a2 r2 im d s) m = Ok m' /\ isa_wf m' /\
    rv32.arch_equiv (arch_of m')
      (match d with Some d => rv32.set_reg d v (arch_of m2) | None => arch_of m2 end).
Proof using Hs Hm.
  intros H1 H2 Hd Hv Hm2 E. unfold execute. rewrite operands_ready by done.
  cbn [mbind outcome_bind]. rewrite E. cbn [mbind outcome_bind fst snd].
  match goal with |- exists _, writeback ?x _ = _ /\ _ =>
    destruct (writeback_arch x m2) as (m' & E' & W & A) end; [done | | done | done |].
  { clear - Hs. by destruct s. }
  exists m'. split_and!; [exact E' | exact W |].
  rewrite A. by destruct d.
Qed.

Lemma arch_of_pc v : arch_of { m with pc := v } = rv32.set_pc v a.
Proof. by destruct m. Qed.

Lemma jump_arch off :
  arch_of { m with pc := add32 (isa_state.pc s) (rv32.wrap off) } =
  rv32.set_pc (rv32.wrap (rv32.pc a + off)) a.
Proof.
  rewrite arch_of_pc. unfold add32. change (rv32.wrap off) with (u32 off).
  by rewrite u32_add_r.
Qed.

Lemma executes_jal rd off : rv32.instr_ok (rv32.Jal rd off) -> executes (rv32.Jal rd off).
Proof using Hs Hm Hp.
  intros (Hd & _). unfold executes. cbn [rv32.exec].
  rewrite <- jump_arch.
  apply (execute_dispatch _ _ _ _ _ _ _ _ (Some rd)); [done | done | done | apply add32_range | | ].
  - apply isa_wf_pc; [done | apply add32_range].
  - evaluate. reflexivity.
Qed.

Lemma executes_jalr rd rs1 im :
  rv32.instr_ok (rv32.Jalr rd rs1 im) -> executes (rv32.Jalr rd rs1 im).
Proof using Hs Hm Hp.
  intros (Hd & H1 & _). unfold executes. cbn [rv32.exec]. cbv zeta.
  set (t := rv32.wrap (rv32.reg a rs1 + im)).
  assert (Ht : is_u32 t) by apply u32_range.
  rewrite <- (land_even t Ht), <- arch_of_pc.
  apply (execute_dispatch _ _ _ _ _ _ _ _ (Some rd)); [done | done | done | apply add32_range | | ].
  - apply isa_wf_pc; [done | auto with word].
  - assert (E : add32 (rv32.wrap im) (R rs1) = t).
    { unfold t, add32. change (rv32.wrap im) with (u32 im).
      by rewrite (u32_add_l im), (Z.add_comm im). }
    rewrite <- E. evaluate. reflexivity.
Qed.

Lemma executes_branch c rs1 rs2 off :
  rv32.instr_ok (rv32.Branch c rs1 rs2 off) -> executes (rv32.Branch c rs1 rs2 off).
Proof using Hs Hm Hp Hrd.
  intros (H1 & H2 & _). unfold executes. cbn [rv32.exec].
  rewrite next_arch, <- jump_arch.
  set (j := rv32.taken c (rv32.reg a rs1) (rv32.reg a rs2)).
  set (m2 := { m with pc := add32 (isa_state.pc s) (rv32.wrap off) }).
  destruct (execute_dispatch (expected.bru_of c).1 op_unit.bru
    (sub_bru_op (expected.bru_of c).2) arg_src.reg rs1 arg_src.reg rs2 (rv32.wrap off) None
    (rd_value s) (if j then m2 else m)) as (m' & E & W & A).
  - done.
  - done.
  - by unfold rv32.reg_ok.
  - exact Hrd.
  - destruct j; [apply isa_wf_pc; auto with word | done].
  - unfold j, m2, rv32.set_pc, rv32.reg. clear - Hs. evaluate. by destruct c.
  - exists m'. split_and!; [exact E | exact W |]. rewrite A. by destruct j.
Qed.


Lemma wrap_addr r im : add32 (R r) (rv32.wrap im) = rv32.wrap (R r + im).
Proof. unfold add32. change (rv32.wrap im) with (u32 im). by rewrite u32_add_r. Qed.

(** Loads: the memory is read, the bus stays as it is. *)
Lemma executes_load k rd rs1 im :
  rv32.instr_ok (rv32.Load k rd rs1 im) -> access_ok (rv32.Load k rd rs1 im) a ->
  executes (rv32.Load k rd rs1 im).
Proof using Hs Hm Hp Hrd.
  intros (Hd & H1 & _) Hacc. unfold executes. cbn [rv32.exec]. rewrite next_arch.
  unfold access_ok in Hacc. cbn [rv32.access] in Hacc.
  change (rv32.reg a rs1) with (R rs1) in *.
  change (rv32.mem a) with (rv32.mem (arch_of m)).
  rewrite <- wrap_addr in *. set (x := add32 (R rs1) (rv32.wrap im)) in *.
  assert (Hk : rv32.load_width k = 1 \/ rv32.load_width k = 2 \/ rv32.load_width k = 4)
    by (destruct k; cbn; lia).
  apply (execute_dispatch _ _ _ _ _ _ _ _ (Some rd)); [done | done | done | | done |].
  - by apply load_u32.
  - pose proof (ram_read8 m Hm x). pose proof (ram_read16 m Hm x).
    pose proof (ram_read32 m Hm x false). evaluate_with.
    destruct k; cbn -[arch_of bus.read8 bus.read16 bus.read32 sign_extend add32 rv32.wrap sext
      rv32.load2 rv32.load4] in *;
    change (default 0 (regfile.reg_data (arch_regfile m) !! Z.to_nat rs1)) with (R rs1);
    fold x;
    match goal with H : in_ram x ?n -> _, H' : in_ram x ?n |- _ => rewrite (H H') end;
    cbn -[arch_of sign_extend add32 rv32.wrap sext rv32.load2 rv32.load4];
    rewrite ?sign_extend_sext by (first [lia | apply (mem_u8 m Hm) | apply (load2_u16 m Hm)]; done);
    destruct m; reflexivity.
Qed.

Lemma executes_store k rs1 rs2 im :
  rv32.instr_ok (rv32.Store k rs1 rs2 im) -> access_ok (rv32.Store k rs1 rs2 im) a ->
  executes (rv32.Store k rs1 rs2 im).
Proof using Hs Hm Hp Hrd.
  intros (H1 & H2 & _) Hacc. unfold executes. cbn [rv32.exec]. cbv zeta. rewrite next_arch.
  unfold access_ok in Hacc. cbn [rv32.access] in Hacc.
  change (rv32.reg a ?r) with (R r) in *. change (rv32.mem a) with (rv32.mem (arch_of m)).
  rewrite <- wrap_addr in *. set (x := add32 (R rs1) (rv32.wrap im)) in *.
  pose proof (reg_arch_u32 m rs2 Hm H2) as Hv.
  set (m2 := { m with bus := bus m; devices := { devices m with
    slave_base.dev_memory ::= stored_mem k x (R rs2) } }).
  destruct (execute_dispatch (expected.store_of k).1 op_unit.lsu
    (sub_lsu_op (expected.store_of k).2) arg_src.reg rs1 arg_src.reg rs2 (rv32.wrap im) None
    (rd_value s) m2) as (m' & E & W & A).
  - done.
  - done.
  - by unfold rv32.reg_ok.
  - exact Hrd.
  - apply isa_wf_bus_dev; [done | apply Hm |].
    apply dev_wf_mem; [apply Hm |]. intros mem. apply stored_mem_wf.
  - pose proof (ram_write8 m Hm x (Z.land (R rs2) 0xff)).
    pose proof (ram_write16 m Hm x (Z.land (R rs2) 0xffff)).
    pose proof (ram_write32 m Hm x (R rs2)). subst m2. evaluate_with.
    destruct k; cbn -[arch_of bus.write8 bus.write16 bus.write32 add32 rv32.wrap Z.land] in *;
    change (default 0 (regfile.reg_data (arch_regfile m) !! Z.to_nat rs1)) with (R rs1);
    change (default 0 (regfile.reg_data (arch_regfile m) !! Z.to_nat rs2)) with (R rs2);
    fold x;
    match goal with H : in_ram x ?n -> _, H' : in_ram x ?n |- _ => rewrite (H H') end;
    reflexivity.
  - exists m'. split_and!; [exact E | exact W |]. rewrite A.
    apply arch_of_store. intros y. by apply stored_mem_store.
Qed.
(** Fences are no-ops of the arithmetic unit. *)
Lemma executes_fence ps : executes (rv32.Fence ps).
Proof using Hs Hm Hp.
  unfold executes. cbn [rv32.exec]. rewrite next_arch.
  apply (execute_dispatch _ _ _ _ _ _ _ _ None 0); [done | done | done | word_lia | done |].
  evaluate. reflexivity.
Qed.
Lemma executes_fence_i : executes rv32.FenceI.
Proof using Hs Hm Hp.
  unfold executes. cbn [rv32.exec]. rewrite next_arch.
  apply (execute_dispatch _ _ _ _ _ _ _ _ None 0); [done | done | done | word_lia | done |].
  evaluate. reflexivity.
Qed.

Lemma executes_all i : rv32.instr_ok i -> access_ok i a -> executes i.
Proof using Hs Hm Hp Hrd.
  destruct i; eauto using executes_op, executes_op_imm, executes_shift, executes_lui,
    executes_auipc, executes_jal, executes_jalr, executes_branch, executes_load,
    executes_store, executes_fence, executes_fence_i.
Qed.
End decoded.

(** ** One instruction, any number of instructions *)
Lemma run_tail m :
  isa_model.run m =
  (sm ← fetch isa_state.init m; s ← isa_decode.decode sm.1; m ← execute s sm.2; tail m).
Proof. reflexivity. Qed.

Lemma fetch_ram m :
  isa_wf m -> in_ram (pc m) 4 ->
  exists s, fetch isa_state.init m = Ok (s, { m with pc := add32 (pc m) 4 }) /\
    value s = rv32.load4 (rv32.mem (arch_of m)) (pc m) /\
    isa_state.pc s = pc m /\ has_exception s = false /\ rd_value s = 0.
Proof.
  intros Hm Hr. unfold fetch. rewrite (ram_read32 m Hm (pc m) true Hr).
  assert (Ha : bus.check_align (pc m) 4 = true).
  { unfold bus.check_align, is_align. change (sub32 4 1) with 3.
    rewrite (land_ones_mod _ 2) by lia. change (2 ^ 2) with 4. apply Z.eqb_eq, Hr. }
  rewrite Ha. cbn [negb mbind outcome_bind]. eexists. split; [| split_and!].
  { clear. destruct m. reflexivity. }
  all: reflexivity.
Qed.

(** The abstract machine's step: fetch, decode, execute. *)
Definition rv_step (a b : rv32.arch) : Prop :=
  exists i, rv32.instr_ok i /\ in_ram (rv32.pc a) 4 /\
    rv32.load4 (rv32.mem a) (rv32.pc a) = rv32.encode i /\ access_ok i a /\
    b = rv32.exec i a.

Lemma run_step m b :
  isa_wf m -> rv_step (arch_of m) b ->
  exists m', isa_model.run m = Ok m' /\ isa_wf m' /\ rv32.arch_equiv (arch_of m') b.
Proof.
  intros Hm (i & Hi & Hr & He & Ha & ->). rewrite run_tail.
  destruct (fetch_ram m Hm Hr) as (s & -> & Hv & Hp & Hx & Hrd).
  cbn [mbind outcome_bind fst snd].
  rewrite (decode_encode s i Hi) by (rewrite Hv; exact He). cbn [mbind outcome_bind].
  set (m1 := { m with pc := add32 (pc m) 4 }).
  assert (Hm1 : isa_wf m1) by (apply isa_wf_pc; [done | apply add32_range]).
  assert (Ea : rv32.set_pc (isa_state.pc s) (arch_of m1) = arch_of m).
  { rewrite Hp. by destruct m. }
  destruct (executes_all s m1 Hx Hm1) with (i := i) as (m2 & -> & W2 & A2).
  - rewrite Hrd. word_lia.
  - by rewrite Hp.
  - done.
  - by rewrite Ea.
  - cbn [mbind outcome_bind]. destruct (tail_total m2 W2) as (m3 & E3 & A3 & W3).
    exists m3. split_and!; [done | done |]. by rewrite A3, A2, Ea.
Qed.

(** [exec] reads only the registers an instruction may name. *)
Lemma set_reg_equiv rd v a b :
  rv32.arch_equiv a b -> rv32.arch_equiv (rv32.set_reg rd v a) (rv32.set_reg rd v b).
Proof.
  intros (Hp & Hr & Hx). split_and!; cbn; [done | | done].
  intros r Hr'. by rewrite Hr.
Qed.
Lemma set_pc_equiv v a b :
  rv32.arch_equiv a b -> rv32.arch_equiv (rv32.set_pc v a) (rv32.set_pc v b).
Proof. intros (Hp & Hr & Hx). by split_and!. Qed.
Lemma next_equiv a b :
  rv32.arch_equiv a b -> rv32.arch_equiv (rv32.next a) (rv32.next b).
Proof. intros H. unfold rv32.next. destruct H as (-> & ? & ?). by split_and!. Qed.
Lemma load_equiv k f g x : (forall y, f y = g y) -> rv32.load k f x = rv32.load k g x.
Proof. intros H. destruct k; cbn; unfold rv32.load2, rv32.load4; by rewrite !H. Qed.

Lemma exec_equiv i a b :
  rv32.instr_ok i -> rv32.arch_equiv a b -> rv32.arch_equiv (rv32.exec i a) (rv32.exec i b).
Proof.
  intros Hi H. pose proof H as (Hp & Hr & Hx).
  destruct i; cbn [rv32.instr_ok] in Hi; cbn [rv32.exec]; cbv zeta;
    repeat match goal with H : _ /\ _ |- _ => destruct H end;
    rewrite ?Hp;
    repeat match goal with
    | H : rv32.reg_ok ?r |- context [rv32.reg a ?r] => rewrite (Hr r H)
    end;
    auto using set_reg_equiv, set_pc_equiv, next_equiv.
  - destruct (rv32.taken _ _ _); auto using set_pc_equiv, next_equiv.
  - rewrite (load_equiv _ _ _ _ Hx). auto using set_reg_equiv, next_equiv.
  - destruct (next_equiv a b) as (? & ? & ?); [done |]. split_and!; [done | done |].
    intros x. cbn. unfold rv32.store. by rewrite Hx.
Qed.

Lemma rv_step_equiv a a' b :
  rv32.arch_equiv a a' -> rv_step a b -> exists b', rv_step a' b' /\ rv32.arch_equiv b b'.
Proof.
  intros H (i & Hi & Hr & He & Ha & ->). pose proof H as (Hp & Hreg & Hx).
  exists (rv32.exec i a'). split; [| by apply exec_equiv].
  exists i. split_and!; try done.
  - by rewrite <- Hp.
  - rewrite <- He, <- Hp. unfold rv32.load4. by rewrite <- !Hx.
  - unfold access_ok in *. destruct i; try done; cbn in *;
      destruct Hi as (? & ? & ?); by rewrite <- Hreg by done.
Qed.

Lemma run_n_steps n m b :
  isa_wf m -> nsteps rv_step n (arch_of m) b ->
  exists m', isa_model.run_n n m = Ok m' /\ isa_wf m' /\ rv32.arch_equiv (arch_of m') b.
Proof.
  intros Hm H.
  assert (G : forall a, rv32.arch_equiv a (arch_of m) -> nsteps rv_step n a b ->
    exists m', isa_model.run_n n m = Ok m' /\ isa_wf m' /\ rv32.arch_equiv (arch_of m') b);
    [| by apply (G (arch_of m))].
  clear H. revert m Hm. induction n as [|n IH]; intros m Hm a Ha H.
  - inversion H; subst. exists m. by split_and!.
  - inversion H as [|? ? c ? H1 H2]; subst.
    destruct (rv_step_equiv a (arch_of m) c Ha H1) as (c' & H1' & Hc).
    destruct (run_step m c' Hm H1') as (m1 & E1 & W1 & A1).
    destruct (IH m1 W1 c) as (m2 & E2 & W2 & A2); [by rewrite A1, Hc | done |].
    exists m2. cbn [isa_model.run_n]. by rewrite E1.
Qed.
