(* ===== verification/IsaReach.v ===== *)
(** * Reachable states of the ISA model

    [isa_op] lists what the rest of the simulator does to the model: the main
    loop of src/main.cpp, the commands of src/network/network_command.cpp and
    the network thread that serves the character queues. *)

From S2P Require Import Prelude Word Ops IsaDecode Csr IsaBus Breakpoint IsaModel.
From S2P Require Import IsaInv IsaSafe.
Import isa_model.

Inductive isa_op :=
| op_run                                   (* isa_model_inst->run() *)
| op_reset
| op_load (buf : list Z)
| op_interrupt_sync (i : option riscv_interrupt_t)
| op_set_mtime (v : Z) | op_set_mtimecmp (v : Z) | op_set_msip (v : Z)
| op_clint_run
| op_set_pending (meip msip mtip : bool)   (* interrupt_interface.set_*ip *)
| op_write_sys (addr v : Z)                (* csr_file.write_sys *)
| op_write_mip (v : Z)                     (* csr_inst::mip.write *)
| op_write8 (addr v : Z)                   (* the memory commands *)
| op_clear_errors
| op_receive (ch : Z) | op_sent            (* the character queues *)
| op_breakpoints (f : breakpoint_state_t -> breakpoint_state_t)
| op_clear_commit_num.

(** The arguments are values of their C++ types. *)
Definition op_ok (o : isa_op) : Prop :=
  match o with
  | op_set_mtime v | op_set_mtimecmp v => is_u64 v
  | op_write_sys a v => 0 <= a /\ is_u32 v
  | op_write_mip v => is_u32 v
  | _ => True
  end.

Definition set_clint (f : clint_t -> clint_t) (m : isa_model_t) : isa_model_t :=
  { m with devices ::= λ d, { d with slave_base.dev_clint ::= f } }.

Definition apply_op (o : isa_op) (m : isa_model_t) : outcome isa_model_t :=
  match o with
  | op_run => isa_model.run m
  | op_reset => isa_model.reset m
  | op_load buf => isa_model.load buf m
  | op_interrupt_sync i => isa_model.interrupt_sync i m
  | op_set_mtime v => Ok (set_clint (clint.set_mtime v) m)
  | op_set_mtimecmp v => Ok (set_clint (clint.set_mtimecmp v) m)
  | op_set_msip v => Ok (set_clint (clint.set_msip v) m)
  | op_clint_run => clint_run m
  | op_set_pending e s t =>
      Ok { m with interrupt_interface ::= λ i,
             interrupt_interface.set_mtip t
               (interrupt_interface.set_msip s (interrupt_interface.set_meip e i)) }
  | op_write_sys a v =>
      e ← csrfile.write_sys a v (csr_file m) (csr_env m); Ok { m with csr_env := e }
  | op_write_mip v => csr_inst_write "mip" v m
  | op_write8 a v =>
      bd ← bus.write8 a v (bus m) (devices m);
      Ok { m with bus := bd.1; devices := bd.2 }
  | op_clear_errors => Ok { m with bus ::= λ b, { b with bus.error_msg_queue := [] } }
  | op_receive ch =>
      Ok { m with csr_env ::= λ e, { e with csr_env.rev_fifo ::= λ q, q ++ [ch] } }
  | op_sent => Ok { m with csr_env ::= λ e, { e with csr_env.send_fifo ::= tail } }
  | op_breakpoints f => Ok { m with breakpoints ::= f }
  | op_clear_commit_num => Ok { m with commit_num := 0 }
  end.

(** States the constructor and any sequence of operations lead to. *)
Inductive reachable : isa_model_t -> Prop :=
| reach_new send rev bp m : isa_model.new send rev bp = Ok m -> reachable m
| reach_op m o m' : reachable m -> op_ok o -> apply_op o m = Ok m' -> reachable m'.

Lemma set_clint_wf f m :
  isa_wf m -> (forall c, clint_wf c -> clint_wf (f c)) -> isa_wf (set_clint f m).
Proof.
  intros Hm Hf. pose proof Hm as (_ & _ & _ & (_ & Hc) & _). apply Hf in Hc.
  destruct m. unfold isa_wf, dev_wf in *. cbn in *. tauto.
Qed.

Lemma write_sys_safe a v m :
  isa_wf m -> is_u32 v -> safe csr_wf (csrfile.write_sys a v (csr_file m) (csr_env m)).
Proof.
  intros Hm Hv. unfold csrfile.write_sys.
  apply safe_verify. intros _. apply safe_verify. intros He.
  apply csrfile_item_safe; [done | done |]. intros it Hit.
  by apply safe_csr_write; [apply Hm | |].
Qed.

Lemma apply_op_safe o m : isa_wf m -> op_ok o -> safe isa_wf (apply_op o m).
Proof.
  intros Hm Ho. destruct o; cbn [apply_op op_ok] in *.
  - by apply run_safe.
  - by apply reset_safe.
  - apply safe_verify. intros _. by apply load_safe.
  - by apply interrupt_sync_safe.
  - apply set_clint_wf; [done |]. intros c (? & ? & ?). by refine (conj _ (conj _ _)).
  - apply set_clint_wf; [done |]. intros c (? & ? & ?). by refine (conj _ (conj _ _)).
  - apply set_clint_wf; [done |]. intros c (? & ? & ?). by refine (conj _ (conj _ _)).
  - by apply clint_run_safe.
  - by destruct m.
  - eapply safe_bind; [apply write_sys_safe; [done | apply Ho] |].
    intros e He. by apply isa_wf_csr.
  - apply csr_inst_write_safe; [done | csr_name | done].
  - eapply safe_bind; [apply safe_bus_write8; apply Hm |].
    intros bd [Hb Hd]. by apply isa_wf_bus_dev.
  - by destruct m.
  - by destruct m.
  - by destruct m.
  - by destruct m.
  - by destruct m.
Qed.

Lemma reachable_wf m : reachable m -> isa_wf m.
Proof.
  induction 1 as [send rev bp m H | m o m' _ IH Ho H].
  - exact (safe_inv _ _ _ (new_safe send rev bp) H).
  - exact (safe_inv _ _ _ (apply_op_safe o m IH Ho) H).
Qed.

(** The constructor succeeds. *)
Lemma new_total send rev bp : exists m, isa_model.new send rev bp = Ok m.
Proof.
  pose proof (new_safe send rev bp) as H. revert H. rewrite new_boot.
  unfold isa_model.reset. cbn [boot csr_file csr_env].
  assert (Hr : forall fuel i e, csr_wf e ->
    exists e', csrfile.reset_from fuel i csr_table0 e = Ok e').
  { induction fuel as [|fuel IH]; intros i e He; [by eexists |]. cbn [csrfile.reset_from].
    destruct (csrfile.csr_map_table csr_table0 !! i) as [it|] eqn:E; [| by apply IH].
    destruct (csr_table0_objs i it E) as [o0 Ho].
    destruct (csr_wf_lookup e _ o0 He Ho) as (o & Hl & Hw).
    unfold csr_env.reset_obj. rewrite Hl. cbn [mbind outcome_bind]. apply IH.
    apply (csr_wf_insert e _ o0); [done | done | by eapply obj_wf_reset]. }
  destruct (Hr (Z.to_nat csrfile.table_size) 0 (csr_env.mk csr_objs0 send rev)) as [e' He'].
  { apply (boot_wf send rev bp). }
  unfold csrfile.reset. rewrite He'. cbn. eauto.
Qed.
