(* ===== verification/IsaTrap.v ===== *)
(** * Traps, interrupts and the CSR file: what the writes do

    Helper lemmas about the CSR store, the bus and the trap sequence. *)

From S2P Require Import Prelude Word Ops Rv32 IsaDecode Csr IsaBus Breakpoint.
From S2P Require Import IsaModel IsaInv IsaSafe IsaRoundtrip IsaRefine IsaReach.
Import isa_state isa_model.

(** ** The CSR store *)

(** The class of a static object and the value it holds. *)
Definition class_of (n : string) (c : csr_base.csr_class_t) : Prop :=
  exists o0, csr_objs0 !! n = Some o0 /\ csr_base.cls o0 = c.
Ltac class_of := eexists; split; [vm_compute; reflexivity | reflexivity].

Lemma csr_read_plain e n c :
  csr_wf e -> class_of n c -> c <> csr_base.charfifo ->
  exists v, csr_env.read n e = Ok v /\ is_u32 v /\ csr_base.filter c v = v.
Proof.
  intros He (o0 & Hn & Hc) Hne. destruct (csr_wf_lookup e n o0 He Hn) as (o & Ho & (Hcls & _ & Hv & Hf)).
  exists (csr_base.value o). unfold csr_env.read. rewrite Ho, Hcls, Hc.
  rewrite <- Hc, <- Hcls. split_and!; [| done | done].
  rewrite Hcls, Hc. by destruct c.
Qed.

Lemma csr_write_read e n c v k :
  csr_wf e -> class_of n c -> c <> csr_base.charfifo ->
  exists e', csr_env.write n v e = Ok e' /\
    csr_env.send_fifo e' = csr_env.send_fifo e /\ csr_env.rev_fifo e' = csr_env.rev_fifo e /\
    csr_env.read k e' = if bool_decide (k = n) then Ok (csr_base.filter c v) else csr_env.read k e.
Proof.
  intros He (o0 & Hn & Hc) Hne. destruct (csr_wf_lookup e n o0 He Hn) as (o & Ho & (Hcls & _)).
  rewrite Hc in Hcls. unfold csr_env.write. rewrite Ho, Hcls.
  eexists. split; [destruct c; try done; reflexivity |]. split_and!; [done | done |].
  unfold csr_env.read. cbn. destruct (bool_decide (k = n)) eqn:E.
  - apply bool_decide_eq_true in E as ->. rewrite lookup_insert_eq.
    destruct o. cbn in Hcls |- *. subst. by destruct (csr_base.cls o0).
  - apply bool_decide_eq_false in E. by rewrite lookup_insert_ne by done.
Qed.

(** The same for a static object of a whole model: everything but the CSR
    store stays as it is. *)
Definition same_but_csr (m m' : isa_model_t) : Prop :=
  { m' with csr_env := csr_env m } = m.

Lemma same_but_csr_refl m : same_but_csr m m.
Proof. by destruct m. Qed.
Lemma same_but_csr_trans a b c : same_but_csr a b -> same_but_csr b c -> same_but_csr a c.
Proof.
  unfold same_but_csr. intros <- H2. destruct b, c. cbn in *.
  injection H2 as -> -> -> -> -> -> -> -> -> -> -> -> -> ->. reflexivity.
Qed.
Lemma same_but_csr_pc m m' : same_but_csr m m' -> pc m' = pc m.
Proof. intros H. rewrite <- H. by destruct m'. Qed.
Lemma same_but_csr_arch m m' : same_but_csr m m' -> arch_of m' = arch_of m.
Proof. intros H. rewrite <- H. by destruct m'. Qed.

Lemma same_but_csr_breakpoints m m' : same_but_csr m m' -> breakpoints m' = breakpoints m.
Proof. intros H. rewrite <- H. by destruct m'. Qed.

Lemma inst_write m n c v :
  isa_wf m -> class_of n c -> c <> csr_base.charfifo -> is_u32 v ->
  exists m', csr_inst_write n v m = Ok m' /\ isa_wf m' /\ same_but_csr m m' /\
    forall k, csr_inst_read k m' =
      if bool_decide (k = n) then Ok (csr_base.filter c v) else csr_inst_read k m.
Proof.
  intros Hm Hn Hc Hv. assert (He : csr_wf (csr_env m)) by apply Hm.
  pose proof Hn as (o0 & Ho & _).
  pose proof (csr_inst_write_safe m Hm n v ltac:(eauto) Hv) as Hs.
  destruct (csr_write_read (csr_env m) n c v n He Hn Hc) as (e' & E & _ & _ & _).
  unfold csr_inst_write in *. rewrite E in *. cbn [mbind outcome_bind safe] in *.
  eexists. split; [reflexivity |]. split; [exact Hs |]. split.
  - by destruct m.
  - intros k. destruct (csr_write_read (csr_env m) n c v k He Hn Hc) as (e2 & E2 & _ & _ & R).
    assert (e2 = e') as -> by congruence. exact R.
Qed.

Lemma inst_read m n c :
  isa_wf m -> class_of n c -> c <> csr_base.charfifo ->
  exists v, csr_inst_read n m = Ok v /\ is_u32 v /\ csr_base.filter c v = v.
Proof. intros Hm. apply csr_read_plain. apply Hm. Qed.

(** Registers the counters of [run] do not reach. *)
Definition counters : list string :=
  [ "mcycle"; "mcycleh"; "minstret"; "minstreth"; "branchnum"; "branchnumh";
    "branchpredicted"; "branchpredictedh"; "branchhit"; "branchhith"; "branchmiss";
    "branchmissh" ]%string.

Lemma inst_writes l m :
  Forall (λ nv, class_of nv.1 csr_base.plain /\ is_u32 nv.2) l -> isa_wf m ->
  exists m', csr_inst_writes l m = Ok m' /\ isa_wf m' /\ same_but_csr m m' /\
    forall k, k ∉ l.*1 -> csr_inst_read k m' = csr_inst_read k m.
Proof.
  intros Hl. revert m. induction Hl as [|[n v] l [Hn Hv] Hl IH]; intros m Hm.
  - exists m. split_and!; [done | done | apply same_but_csr_refl | done].
  - destruct (inst_write m n csr_base.plain v Hm Hn ltac:(done) Hv) as (m1 & E1 & W1 & S1 & R1).
    destruct (IH m1 W1) as (m2 & E2 & W2 & S2 & R2). exists m2.
    cbn [csr_inst_writes]. rewrite E1. cbn [mbind outcome_bind].
    split_and!; [done | done | by eapply same_but_csr_trans |].
    intros k Hk. cbn in Hk. apply not_elem_of_cons in Hk as [Hk1 Hk2].
    rewrite R2, R1 by done. by rewrite bool_decide_eq_false_2.
Qed.

Lemma counter_class m : Forall (λ nv, class_of nv.1 csr_base.plain /\ is_u32 nv.2) (counter_writes m).
Proof.
  unfold counter_writes. cbv zeta.
  repeat (apply Forall_cons; split; [split; cbn [fst snd]; [class_of | auto with word] |]).
  apply Forall_nil. exact I.
Qed.

(** The tail of [run] keeps the trap registers, pc, registers and memory. *)
Lemma tail_csr m :
  isa_wf m ->
  exists m', tail m = Ok m' /\ isa_wf m' /\ arch_of m' = arch_of m /\
    breakpoints m' = breakpoints m /\
    forall k, k ∉ counters -> csr_inst_read k m' = csr_inst_read k m.
Proof.
  intros Hm. pose proof (clint_run_safe m Hm) as Hc. unfold tail.
  unfold clint_run, clint.run in *.
  cbn [interrupt_interface.set_pending mbind outcome_bind safe] in *.
  match goal with |- context [count ?x] =>
    destruct (inst_writes (counter_writes (count x)) (count x)) as (m' & E & W & S & R)
  end; [apply counter_class | by apply isa_wf_count |].
  exists m'. rewrite E. split_and!; [done | done | | | exact R].
  - rewrite (same_but_csr_arch _ _ S). by destruct m.
  - rewrite (same_but_csr_breakpoints _ _ S). by destruct m.
Qed.

(** ** Bits of mstatus *)
Lemma getbit_testbit n o : 0 <= n -> csr_base.getbit n o = Z.testbit (csr_base.value o) n.
Proof.
  intros Hn. unfold csr_base.getbit, csr_base.read.
  rewrite Z.shiftl_1_l. destruct (Z.testbit (csr_base.value o) n) eqn:E.
  - apply negb_true_iff, Z.eqb_neq. intros H.
    assert (Z.testbit (Z.land (csr_base.value o) (2 ^ n)) n = false) as Hf by (by rewrite H, Z.bits_0).
    rewrite Z.land_spec, E, Z.pow2_bits_true in Hf by done. done.
  - apply negb_false_iff, Z.eqb_eq. apply Z.bits_inj'. intros i Hi.
    rewrite Z.land_spec, Z.bits_0, Z.pow2_bits_eqb by done.
    destruct (n =? i) eqn:En; [| apply andb_false_r].
    assert (n = i) as <- by lia. by rewrite E.
Qed.

Lemma setbit_testbit n b o i :
  0 <= n < 32 -> 0 <= i < 32 ->
  Z.testbit (csr_base.value (csr_base.setbit n b o)) i =
  Z.testbit (csr_base.filter (csr_base.cls o)
    (Z.lor (Z.land (csr_base.value o) (not32 (Z.shiftl 1 n))) (Z.shiftl (b2z b) n))) i.
Proof. done. Qed.

Lemma setbit_raw n b v i :
  0 <= n < 32 -> 0 <= i < 32 ->
  Z.testbit (Z.lor (Z.land v (not32 (Z.shiftl 1 n))) (Z.shiftl (b2z b) n)) i =
  if i =? n then b else Z.testbit v i.
Proof.
  intros Hn Hi. rewrite Z.lor_spec, Z.land_spec.
  unfold not32, u32. change two32 with (2 ^ 32).
  rewrite Z.mod_pow2_bits_low, Z.lnot_spec, Z.shiftl_1_l, Z.pow2_bits_eqb by lia.
  rewrite Z.eqb_sym. destruct (i =? n) eqn:E.
  - assert (i = n) as -> by lia. cbn [negb]. rewrite andb_false_r, orb_false_l.
    rewrite Z.shiftl_spec, Z.sub_diag by lia. by destruct b.
  - cbn [negb]. rewrite andb_true_r.
    assert (Z.testbit (Z.shiftl (b2z b) n) i = false) as ->; [| apply orb_false_r].
    destruct (decide (i < n)); [by apply Z.shiftl_spec_low |].
    rewrite Z.shiftl_spec by lia. destruct b; cbn [b2z]; [| apply Z.bits_0].
    change 1 with (2 ^ 0). rewrite Z.pow2_bits_eqb by lia. lia.
Qed.

(** ** Interrupt entry and return *)

(** [read_csrs]: read a chain of CSR writes back. *)
Ltac read_csrs :=
  repeat match goal with
  | R : forall k, csr_inst_read k ?m = _ |- context [csr_inst_read ?n ?m] =>
      rewrite (R n);
      first [ rewrite bool_decide_eq_true_2 by reflexivity
            | rewrite bool_decide_eq_false_2 by discriminate ]
  end.

(** The three pending flags as the bits 11, 3 and 7. *)
Definition mip_bits (i : interrupt_interface_t) : Z :=
  Z.lor (Z.lor (Z.shiftl (b2z (interrupt_interface.meip i)) 11)
               (Z.shiftl (b2z (interrupt_interface.msip i)) 3))
        (Z.shiftl (b2z (interrupt_interface.mtip i)) 7).

(** Case analysis on the low twelve bits. *)
Lemma bits12_inj x y :
  0 <= x < 2 ^ 12 -> 0 <= y < 2 ^ 12 ->
  (forall k, In k [0; 1; 2; 3; 4; 5; 6; 7; 8; 9; 10; 11] -> Z.testbit x k = Z.testbit y k) ->
  x = y.
Proof.
  intros Hx Hy H. apply Z.bits_inj'. intros k Hk. destruct (decide (k < 12)) as [Hlt|Hge].
  - apply H. cbn. lia.
  - by rewrite (testbit_high 12 x), (testbit_high 12 y) by lia.
Qed.

Lemma mip_setbits i v :
  csr_base.filter csr_base.mip (csr_base.get_value
    (mip.set_mtip (interrupt_interface.mtip i) (mip.set_msip (interrupt_interface.msip i)
      (mip.set_meip (interrupt_interface.meip i) (csr_base.load v mip.new))))) = mip_bits i.
Proof.
  destruct i as [e s t]. apply bits12_inj.
  - apply (land_range_r 12); lia.
  - destruct e, s, t; vm_compute; split; congruence.
  - destruct e, s, t; unfold mip.set_mtip, mip.set_msip, mip.set_meip, csr_base.setbit;
      cbn -[Z.land Z.lor not32 Z.testbit]; intros k Hk;
      rewrite !Z.land_spec, ?Z.lor_spec, ?Z.land_spec, ?Z.lor_spec, ?Z.land_spec, ?Z.lor_spec,
        ?Z.land_spec;
      generalize (Z.testbit v); intros tb;
      repeat destruct Hk as [<- | Hk]; try done; vm_compute;
      repeat match goal with |- context [tb ?k] => destruct (tb k) end; reflexivity.
Qed.

Lemma mip_write i e :
  csr_wf e -> exists e', interrupt_interface.run i e = Ok e' /\ csr_wf e' /\
    forall k, csr_env.read k e' =
      if bool_decide (k = "mip"%string) then Ok (mip_bits i) else csr_env.read k e.
Proof.
  intros He. pose proof (interrupt_run_safe i e He) as Hs. revert Hs.
  unfold interrupt_interface.run.
  destruct (csr_read_plain e "mip" csr_base.mip He) as (v & Ev & Hv & Hf); [class_of | done |].
  rewrite Ev. cbn [mbind outcome_bind]. cbv zeta.
  pose proof (mip_setbits i v) as Hx. revert Hx.
  match goal with |- context [csr_env.write _ ?w e] => generalize w end. intros x Hx.
  destruct (csr_write_read e "mip" csr_base.mip x "mip" He) as (e' & E & _); [class_of | done |].
  rewrite E. cbn [safe]. intros Hs. exists e'. split_and!; [done | done |]. intros k.
  destruct (csr_write_read e "mip" csr_base.mip x k He) as (e2 & E2 & _ & _ & R);
    [class_of | done |].
  assert (e2 = e') as -> by congruence. rewrite R. by rewrite Hx.
Qed.

Lemma mie_update b v i :
  0 <= i < 32 ->
  Z.testbit (csr_base.value (mstatus.set_mie b (csr_base.load v mstatus.new))) i =
  (if i =? 3 then b else Z.testbit v i) && Z.testbit 0x88 i.
Proof.
  intros Hi. unfold mstatus.set_mie. rewrite setbit_testbit by lia.
  change (csr_base.filter _ ?x) with (Z.land x 0x88).
  change (csr_base.value (csr_base.load v mstatus.new)) with v.
  by rewrite Z.land_spec, setbit_raw by lia.
Qed.
Lemma mpie_update b v i :
  0 <= i < 32 ->
  Z.testbit (csr_base.value (mstatus.set_mpie b (csr_base.load v mstatus.new))) i =
  (if i =? 7 then b else Z.testbit v i) && Z.testbit 0x88 i.
Proof.
  intros Hi. unfold mstatus.set_mpie. rewrite setbit_testbit by lia.
  change (csr_base.filter _ ?x) with (Z.land x 0x88).
  change (csr_base.value (csr_base.load v mstatus.new)) with v.
  by rewrite Z.land_spec, setbit_raw by lia.
Qed.

(** mstatus on interrupt entry: mpie takes mie, mie is cleared. *)
Definition mstatus_entry (v : Z) : Z :=
  let o := csr_base.load v mstatus.new in
  let o := mstatus.set_mpie (mstatus.get_mie o) o in
  csr_base.get_value (mstatus.set_mie false o).
(** mstatus after mret: mie takes mpie. *)
Definition mstatus_return (v : Z) : Z :=
  let o := csr_base.load v mstatus.new in
  csr_base.get_value (mstatus.set_mie (mstatus.get_mpie o) o).

Lemma mstatus_entry_bits v i :
  0 <= i < 32 ->
  Z.testbit (mstatus_entry v) i = if i =? 7 then Z.testbit v 3 else false.
Proof.
  intros Hi. unfold mstatus_entry, mstatus.get_mie, csr_base.get_value.
  rewrite getbit_testbit by lia.
  change (csr_base.value (csr_base.load v mstatus.new)) with v.
  assert (E : mstatus.set_mpie (Z.testbit v 3) (csr_base.load v mstatus.new) =
    csr_base.load (csr_base.value (mstatus.set_mpie (Z.testbit v 3) (csr_base.load v mstatus.new)))
      mstatus.new) by reflexivity.
  rewrite E, mie_update, mpie_update by lia. clear E.
  destruct (i =? 3) eqn:E3; [by replace (i =? 7) with false by lia |].
  destruct (i =? 7) eqn:E7.
  - assert (i = 7) as -> by lia. by rewrite !andb_true_r.
  - rewrite andb_comm. destruct (Z.testbit 0x88 i) eqn:E; [| done].
    assert (Hc : i = 3 \/ i = 7); [| lia].
    change 0x88 with (Z.lor (2 ^ 3) (2 ^ 7)) in E.
    rewrite Z.lor_spec, !Z.pow2_bits_eqb in E by lia. lia.
Qed.

Lemma mstatus_return_bits v i :
  0 <= i < 32 ->
  Z.testbit (mstatus_return v) i =
  if i =? 3 then Z.testbit v 7 else if i =? 7 then Z.testbit v 7 else false.
Proof.
  intros Hi. unfold mstatus_return, mstatus.get_mpie, csr_base.get_value.
  rewrite getbit_testbit, mie_update by lia.
  change (csr_base.value (csr_base.load v mstatus.new)) with v.
  destruct (i =? 3) eqn:E3; [assert (i = 3) as -> by lia; apply andb_true_r |].
  destruct (i =? 7) eqn:E7; [assert (i = 7) as -> by lia; apply andb_true_r |].
  rewrite andb_comm. destruct (Z.testbit 0x88 i) eqn:E; [| done].
  change 0x88 with (Z.lor (2 ^ 3) (2 ^ 7)) in E.
  rewrite Z.lor_spec, !Z.pow2_bits_eqb in E by lia. lia.
Qed.

Lemma mstatus_entry_u32 v : is_u32 (mstatus_entry v).
Proof. by apply set_mie_u32. Qed.
Lemma mstatus_return_u32 v : is_u32 (mstatus_return v).
Proof. by apply set_mie_u32. Qed.
Lemma mstatus_entry_filter v :
  csr_base.filter csr_base.mstatus (mstatus_entry v) = mstatus_entry v.
Proof. unfold mstatus_entry. cbn. by rewrite <- Z.land_assoc, Z.land_diag. Qed.
Lemma mstatus_return_filter v :
  csr_base.filter csr_base.mstatus (mstatus_return v) = mstatus_return v.
Proof. unfold mstatus_return. cbn. by rewrite <- Z.land_assoc, Z.land_diag. Qed.

Ltac inst_step m1 W S R :=
  match goal with
  | |- context [csr_inst_write ?n ?v ?m] =>
      let c := eval vm_compute in
        (match csr_objs0 !! n with Some o => csr_base.cls o | None => csr_base.plain end) in
      let E := fresh "E" in
      destruct (inst_write m n c v) as (m1 & E & W & S & R);
      [assumption | class_of | discriminate | | rewrite E; clear E; cbn [mbind outcome_bind]]
  end.

(** Interrupt entry. *)
Lemma interrupt_entry id m mt ms :
  isa_wf m -> csr_inst_read "mtvec" m = Ok mt -> csr_inst_read "mstatus" m = Ok ms ->
  exists m', interrupt_sync (Some id) m = Ok m' /\ isa_wf m' /\ pc m' = mt /\
    csr_inst_read "mepc" m' = Ok (Z.land (pc m) (not32 0x03)) /\
    csr_inst_read "mcause" m' = Ok (Z.lor 0x80000000 (riscv_interrupt.to_uint32 id)) /\
    csr_inst_read "mtval" m' = Ok 0 /\
    csr_inst_read "mip" m' = Ok (mip_bits (isa_model.interrupt_interface m)) /\
    csr_inst_read "mstatus" m' = Ok (mstatus_entry ms) /\
    arch_of m' = rv32.set_pc mt (arch_of m).
Proof.
  intros Hm Hmt Hms. unfold interrupt_sync.
  destruct (mip_write (isa_model.interrupt_interface m) (csr_env m)) as (e & Ee & We & Re);
    [apply Hm |].
  rewrite Ee. cbn [mbind outcome_bind]. cbv zeta.
  pose proof (isa_wf_csr m Hm e We) as W0. set (m0 := { m with csr_env := e }) in *.
  assert (R0 : forall k, csr_inst_read k m0 = if bool_decide (k = "mip"%string)
    then Ok (mip_bits (isa_model.interrupt_interface m)) else csr_inst_read k m) by exact Re.
  assert (S0 : same_but_csr m m0) by (by destruct m). clearbody m0. clear Ee Re We e.
  pose proof (same_but_csr_pc _ _ S0) as P0.
  inst_step m1 W1 S1 R1; [rewrite P0; apply Hm |].
  inst_step m2 W2 S2 R2; [word_lia |].
  inst_step m3 W3 S3 R3.
  { apply lor_u32; [word_lia |].
    pose proof (riscv_interrupt.interrupt_number_range id). word_lia. }
  assert (V3 : csr_inst_read "mstatus" m3 = Ok ms) by (read_csrs; exact Hms).
  rewrite V3. cbn [mbind outcome_bind].
  change (csr_base.get_value _) with (mstatus_entry ms).
  inst_step m4 W4 S4 R4; [apply mstatus_entry_u32 |].
  assert (V4 : csr_inst_read "mtvec" m4 = Ok mt) by (read_csrs; exact Hmt).
  rewrite V4. cbn [mbind outcome_bind]. eexists. split; [reflexivity |].
  change (csr_inst_read ?k { m4 with pc := mt }) with (csr_inst_read k m4).
  assert (Hv : is_u32 mt).
  { destruct (inst_read m "mtvec" csr_base.mtvec Hm) as (v & Ev & Hv & _);
      [class_of | done |]. congruence. }
  split_and!; [by apply isa_wf_pc | done | read_csrs .. |].
  all: cbn [csr_base.filter]; rewrite ?P0, ?mstatus_entry_filter; try done.
  { f_equal. exact (mstatus_entry_filter ms). }
  assert (S : same_but_csr m m4) by eauto using same_but_csr_trans.
  rewrite <- (same_but_csr_arch _ _ S). by destruct m4.
Qed.

(** ** Exceptions *)

(** The trap a raised exception causes. *)
Definition trapped (m m' : isa_model_t) (mt epc cause tval : Z) : Prop :=
  csr_inst_read "mepc" m' = Ok (Z.land epc (not32 0x03)) /\
  csr_inst_read "mcause" m' = Ok cause /\ csr_inst_read "mtval" m' = Ok tval /\
  csr_inst_read "mstatus" m' = csr_inst_read "mstatus" m /\
  arch_of m' = rv32.set_pc mt (arch_of m).

Lemma writeback_trap s m mt :
  isa_wf m -> csr_inst_read "mtvec" m = Ok mt -> has_exception s = true ->
  is_u32 (isa_state.pc s) -> is_u32 (exception_value s) ->
  exists m', writeback s m = Ok m' /\ isa_wf m' /\
    trapped m m' mt (isa_state.pc s) (riscv_exception.to_uint32 (exception_id s))
      (exception_value s).
Proof.
  intros Hm Hmt Hx Hp Hv. unfold writeback. rewrite Hx.
  inst_step m1 W1 S1 R1; [done |]. inst_step m2 W2 S2 R2; [done |].
  inst_step m3 W3 S3 R3.
  { pose proof (riscv_exception.exception_number_range (exception_id s)). word_lia. }
  assert (V3 : csr_inst_read "mtvec" m3 = Ok mt) by (read_csrs; exact Hmt).
  rewrite V3. cbn [mbind outcome_bind]. eexists. split; [reflexivity |].
  assert (Hu : is_u32 mt).
  { destruct (inst_read m "mtvec" csr_base.mtvec Hm) as (v & Ev & Hv' & _);
      [class_of | done |]. congruence. }
  split; [by apply isa_wf_pc |]. unfold trapped.
  change (csr_inst_read ?k { m3 with pc := mt }) with (csr_inst_read k m3).
  split_and!; [read_csrs; done .. |].
  assert (S : same_but_csr m m3) by eauto using same_but_csr_trans.
  rewrite <- (same_but_csr_arch _ _ S). by destruct m3.
Qed.

(** An instruction that the arithmetic unit turns into an exception. *)
Lemma run_raises m mt s s' s2 id :
  isa_wf m -> in_ram (pc m) 4 -> csr_inst_read "mtvec" m = Ok mt ->
  fetch isa_state.init m = Ok (s, { m with pc := add32 (pc m) 4 }) ->
  isa_decode.decode s = Ok s' ->
  read_operands s' { m with pc := add32 (pc m) 4 } = Ok s' ->
  isa_state.op_unit s' = op_unit.alu ->
  execute_alu s' = Ok s2 -> s2 = raise id 0 s2 -> isa_state.pc s2 = pc m ->
  exists m', isa_model.run m = Ok m' /\ isa_wf m' /\
    trapped m m' mt (pc m) (riscv_exception.to_uint32 id) 0.
Proof.
  intros Hm Hr Hmt Hf Hd Hro Hu Ea E2 P2.
  rewrite run_tail, Hf. cbn [mbind outcome_bind fst snd]. rewrite Hd.
  cbn [mbind outcome_bind]. unfold execute. rewrite Hro. cbn [mbind outcome_bind].
  unfold dispatch. rewrite Hu, Ea. cbn [mbind outcome_bind fst snd].
  assert (Hp : is_u32 (pc m)) by apply Hm.
  destruct (writeback_trap s2 { m with pc := add32 (pc m) 4 } mt) as (m1 & E1 & W1 & T1).
  - apply isa_wf_pc; [done | auto with word].
  - exact Hmt.
  - by rewrite E2.
  - by rewrite P2.
  - rewrite E2. cbn. word_lia.
  - rewrite E1. cbn [mbind outcome_bind].
    destruct (tail_csr m1 W1) as (m2 & E2' & W2 & A2 & _ & R2). exists m2.
    split_and!; [done | done |]. destruct T1 as (T1 & T2 & T3 & T4 & T5).
    assert (Hid : exception_id s2 = id) by (by rewrite E2).
    assert (Hev : exception_value s2 = 0) by (by rewrite E2).
    rewrite Hid, Hev, P2 in *. unfold trapped.
    rewrite !R2 by (apply (bool_decide_unpack _); vm_compute; exact I). rewrite A2. split_and!; [done .. |].
    rewrite T5. by destruct m.
Qed.

(** An opcode no [case] of the decoder handles. *)
Definition opcodes : list Z :=
  [0x37; 0x17; 0x6f; 0x67; 0x63; 0x03; 0x23; 0x13; 0x33; 0x0f; 0x73].

Lemma switch_illegal f s :
  fields.opcode f ∉ opcodes ->
  isa_decode.switch_opcode f s = Ok (isa_decode.invalid s).
Proof.
  intros H. unfold isa_decode.switch_opcode. cbv zeta.
  repeat match goal with
  | |- context [fields.opcode f =? ?k] =>
      replace (fields.opcode f =? k) with false
        by (symmetry; apply Z.eqb_neq; intros E; apply H; rewrite E;
            apply (bool_decide_unpack _); vm_compute; exact I)
  end. reflexivity.
Qed.

(** The words that trap at once, with the cause they trap with. *)
Inductive trapping : Z -> riscv_exception_t -> Prop :=
| trap_ecall : trapping 0x00000073 riscv_exception.environment_call_from_m_mode
| trap_ebreak : trapping 0x00100073 riscv_exception.breakpoint
| trap_illegal w : w mod 128 ∉ opcodes -> trapping w riscv_exception.illegal_instruction.

Lemma run_trapping m w id mt :
  isa_wf m -> in_ram (pc m) 4 -> rv32.load4 (rv32.mem (arch_of m)) (pc m) = w ->
  csr_inst_read "mtvec" m = Ok mt -> trapping w id ->
  exists m', isa_model.run m = Ok m' /\ isa_wf m' /\
    trapped m m' mt (pc m) (riscv_exception.to_uint32 id) 0.
Proof.
  intros Hm Hr Hw Hmt Ht. destruct (fetch_ram m Hm Hr) as (s & Hf & Hv & Hp & Hx & Hrd).
  rewrite Hw in Hv. clear Hw.
  destruct s. cbn in Hp, Hx, Hv, Hrd. subst.
  destruct Ht as [| | w Hop];
    (eapply run_raises; [done | done | done | exact Hf
      | first [reflexivity | unfold isa_decode.decode; apply switch_illegal] | ..]);
    try reflexivity.
  change (Z.land w 0x7f ∉ opcodes). by rewrite (land_ones_mod w 7) by lia.
Qed.
