(* ===== verification/IsaCsr.v ===== *)
(** * CSR instructions and mret, executed by [run] *)

From S2P Require Import Prelude Word Ops Rv32 IsaDecode Csr IsaBus Breakpoint.
From S2P Require Import IsaModel IsaInv IsaSafe IsaRoundtrip IsaRefine IsaReach IsaTrap.
Import isa_state isa_model.

(** ** The six Zicsr instructions *)
Record csr_instr := mk_csr_instr {
  ci_op : csr_op_t;
  ci_imm : bool;     (* the immediate form *)
  ci_rd : Z;
  ci_src : Z;        (* the rs1 field: a register or the immediate itself *)
  ci_csr : Z
}.
Definition csr_instr_ok (i : csr_instr) : Prop :=
  rv32.reg_ok (ci_rd i) /\ rv32.reg_ok (ci_src i) /\ 0 <= ci_csr i < 4096.
Definition csr_f3 (i : csr_instr) : Z :=
  match ci_op i with csr_op.csrrw => 1 | csr_op.csrrs => 2 | csr_op.csrrc => 3 end
  + (if ci_imm i then 4 else 0).
Definition csr_encode (i : csr_instr) : Z :=
  rv32.pack 0x73 (ci_rd i) (csr_f3 i) (ci_src i) (ci_csr i mod 32) (ci_csr i / 32).

(** The operand, and whether the instruction writes its CSR. *)
Definition csr_operand (i : csr_instr) (m : isa_model_t) : Z :=
  if ci_imm i then ci_src i else rv32.reg (arch_of m) (ci_src i).
Definition csr_writes (i : csr_instr) : bool := ci_imm i || negb (ci_src i =? 0).

(** What the instruction leaves in a CSR, bit by bit: the operand of csrrw, the
    old value with the bits of the operand set by csrrs or cleared by csrrc, where
    the register has a bit at all. *)
Definition csr_bit (o : csr_op_t) (old operand : bool) : bool :=
  match o with
  | csr_op.csrrw => operand
  | csr_op.csrrs => old || operand
  | csr_op.csrrc => old && negb operand
  end.
Definition has_bit (c : csr_base.csr_class_t) (k : Z) : bool :=
  match c with
  | csr_base.plain => true
  | csr_base.mcounteren => bool_decide (k ∈ [0; 1; 2])
  | csr_base.mstatus => bool_decide (k ∈ [3; 7])                    (* MIE, MPIE *)
  | csr_base.mie | csr_base.mip => bool_decide (k ∈ [3; 7; 11])     (* software, timer, external *)
  | csr_base.mepc | csr_base.mtvec => 2 <=? k
  | csr_base.mstatush | csr_base.pmp | csr_base.charfifo => false
  end.
Definition csr_stored (o : csr_op_t) (c : csr_base.csr_class_t) (old operand v : Z) : Prop :=
  is_u32 v /\ forall k, 0 <= k < 32 ->
    Z.testbit v k = has_bit c k && csr_bit o (Z.testbit old k) (Z.testbit operand k).

(** What the decoder makes of it. *)
Definition csr_decoded (i : csr_instr) (s : isa_state_t) : isa_state_t :=
  let o := match ci_op i, ci_imm i with
           | csr_op.csrrw, false => op.csrrw | csr_op.csrrw, true => op.csrrwi
           | csr_op.csrrs, false => op.csrrs | csr_op.csrrs, true => op.csrrsi
           | csr_op.csrrc, false => op.csrrc | csr_op.csrrc, true => op.csrrci
           end in
  { isa_decode.prepare s with
    isa_state.op := o; op_unit := op_unit.csr; sub_op := sub_csr_op (ci_op i);
    arg1_src := if ci_imm i then arg_src.imm else arg_src.reg;
    isa_state.rs1 := if ci_imm i then 0 else ci_src i;
    isa_state.imm := if ci_imm i then ci_src i else 0;
    arg2_src := arg_src.disable; isa_state.csr := ci_csr i;
    isa_state.rd := ci_rd i; rd_enable := true }.

Lemma decode_csr i s :
  csr_instr_ok i -> value s = csr_encode i -> isa_decode.decode s = Ok (csr_decoded i s).
Proof.
  destruct i as [o im d r c]. unfold csr_instr_ok, csr_encode, csr_f3, rv32.reg_ok. cbn.
  intros (Hd & Hr & Hc) Hv.
  destruct o, im; cbn in Hv;
    rewrite (decode_pack s _ _ _ _ _ _ Hv) by div_lia;
    cbn -[Z.add Z.mul Z.div Z.modulo Z.pow rv32.pack];
    replace (c mod 32 + 32 * (c / 32)) with c by div_lia;
    unfold isa_decode.case_system; cbn; destruct s; reflexivity.
Qed.

(** The CSR an address of the file stands for, with its class. *)
Definition csr_at (addr : Z) (n : string) (ro : bool) (c : csr_base.csr_class_t) : Prop :=
  csrfile.csr_map_table csr_table0 !! addr = Some (csrfile.mk_item ro n) /\ class_of n c.
Ltac csr_at := split; [vm_compute; reflexivity | class_of].

Lemma csr_at_range addr n ro c : csr_at addr n ro c -> 0 <= addr < 4096.
Proof.
  intros [H _].
  assert (G : map_Forall (λ a _, 0 <= a < 4096) (csrfile.csr_map_table csr_table0)).
  { apply (bool_decide_unpack _). vm_compute. exact I. }
  exact (G _ _ H).
Qed.

Lemma not32_bit x k : 0 <= k < 32 -> Z.testbit (not32 x) k = negb (Z.testbit x k).
Proof.
  intros Hk. unfold not32, u32. change two32 with (2 ^ 32).
  rewrite Z.mod_pow2_bits_low, Z.lnot_spec by lia. done.
Qed.
Lemma newvalue_stored o v x : is_u32 v -> is_u32 x ->
  csr_stored o csr_base.plain v x (csr_newvalue o v x).
Proof.
  intros Hv Hx. split; [by apply csr_newvalue_u32 |]. intros k Hk.
  destruct o; cbn; [| by rewrite Z.lor_spec |]; try done.
  by rewrite Z.land_spec, not32_bit.
Qed.
Lemma filter_stored o c v x y : csr_stored o csr_base.plain v x y ->
  csr_stored o c v x (csr_base.filter c y).
Proof.
  intros [Hy H]. split; [by apply filter_u32 |]. intros k Hk. rewrite <- (andb_true_l (csr_bit _ _ _)).
  assert (E : Z.testbit (csr_base.filter c y) k = has_bit c k && Z.testbit y k).
  2: { rewrite E, (H k Hk). cbn. done. }
  clear -Hk.
  assert (D : Forall (λ j, k = j -> Z.testbit (csr_base.filter c y) k = has_bit c k && Z.testbit y k) (seqZ 0 32)).
  { repeat (apply Forall_cons; split; [intros ->; destruct c; cbn [csr_base.filter];
      rewrite ?Z.land_spec, ?Z.bits_0, ?(andb_comm (Z.testbit y _)); reflexivity |]). constructor. }
  rewrite Forall_forall in D. apply (D k); [apply elem_of_seqZ; lia | done].
Qed.

Section file.
Context (addr : Z) (n : string) (ro : bool) (c : csr_base.csr_class_t).
Context (Ha : csr_at addr n ro c) (Hc : c <> csr_base.charfifo).

Lemma file_enabled :
  (csrfile.table_size <=? addr) || negb (csrfile.enabled addr csr_table0) = false /\
  csrfile.item addr csr_table0 = Ok (csrfile.mk_item ro n).
Proof using Ha.
  pose proof (csr_at_range _ _ _ _ Ha) as Hr. destruct Ha as [Hl _].
  unfold csrfile.enabled, csrfile.item, csrfile.table_size. rewrite Hl.
  split; [lia | done].
Qed.

Lemma file_read e : csr_wf e ->
  exists v, csrfile.read addr csr_table0 e = Ok (Some v) /\ csr_env.read n e = Ok v /\ is_u32 v.
Proof using Ha Hc.
  intros He. destruct file_enabled as [H1 H2]. destruct Ha as [_ Hn].
  destruct (csr_read_plain e n c He Hn Hc) as (v & E & Hv & _).
  exists v. unfold csrfile.read. rewrite H1, H2. cbn [mbind outcome_bind csrfile.csr].
  rewrite E. done.
Qed.

Lemma file_write e v : csr_wf e -> is_u32 v -> ro = false ->
  exists e', csrfile.write addr v csr_table0 e = Ok (true, e') /\ csr_wf e' /\
    forall k, csr_env.read k e' =
      if bool_decide (k = n) then Ok (csr_base.filter c v) else csr_env.read k e.
Proof using Ha Hc.
  intros He Hv Hro. destruct file_enabled as [H1 H2]. destruct Ha as [Hl Hn].
  pose proof Hn as (o0 & Ho & _).
  pose proof (safe_csr_write e n v He ltac:(eauto) Hv) as Hs.
  destruct (csr_write_read e n c v n He Hn Hc) as (e' & E & _).
  exists e'. unfold csrfile.write, csrfile.write_check. rewrite H1, Hl, H2.
  cbn [negb csrfile.readonly mbind outcome_bind csrfile.csr]. rewrite Hro, E in *.
  cbn [mbind outcome_bind safe negb] in *. split_and!; [done | done |]. intros k.
  destruct (csr_write_read e n c v k He Hn Hc) as (e2 & E2 & _ & _ & R).
  assert (e2 = e') as -> by congruence. exact R.
Qed.

Lemma file_refused e v : ro = true -> csrfile.write addr v csr_table0 e = Ok (false, e).
Proof using Ha.
  intros Hro. destruct file_enabled as [H1 H2]. destruct Ha as [Hl _].
  unfold csrfile.write, csrfile.write_check. rewrite H1, Hl. cbn. by rewrite Hro.
Qed.
End file.

Lemma file_unmapped addr v e :
  csrfile.csr_map_table csr_table0 !! addr = None ->
  csrfile.read addr csr_table0 e = Ok None /\
  csrfile.write addr v csr_table0 e = Ok (false, e).
Proof.
  intros H. unfold csrfile.read, csrfile.write, csrfile.write_check, csrfile.enabled.
  rewrite H. cbn [negb]. by rewrite orb_true_r.
Qed.

Lemma writeback_rest s m m' :
  has_exception s = false -> writeback s m = Ok m' ->
  csr_env m' = csr_env m /\ breakpoints m' = breakpoints m.
Proof.
  unfold writeback. intros ->. destruct (rd_enable s && _); intros H; inv_ok; done.
Qed.

Lemma trigger_read a v m : csr_trigger a v false m = m.
Proof.
  unfold csr_trigger, breakpoint.breakpoint_csr_trigger. destruct m. cbn.
  by rewrite andb_false_r.
Qed.

Lemma csr_operand_u32 i m : isa_wf m -> csr_instr_ok i -> is_u32 (csr_operand i m).
Proof.
  intros Hm (_ & Hr & _). unfold csr_operand. destruct (ci_imm i); [| by apply reg_arch_u32].
  unfold rv32.reg_ok in Hr. word_lia.
Qed.

Lemma operands_csr i s m : isa_wf m -> has_exception s = false -> csr_instr_ok i ->
  read_operands (csr_decoded i s) m =
  Ok { csr_decoded i s with src1_value := csr_operand i m }.
Proof.
  intros Hm Hx (_ & Hr & _). pose proof (regfile_read_arch m (ci_src i) Hm Hr) as E.
  destruct i as [o im d r c]. cbn [ci_src] in *. unfold read_operands, csr_operand.
  destruct s. cbn in Hx. subst. destruct im; cbn -[regfile.read arch_of]; [done |].
  by rewrite E.
Qed.

(** The unit, on a CSR that can be read (and written, when it is). *)
Section csr_unit.
Context (i : csr_instr) (n : string) (ro : bool) (c : csr_base.csr_class_t).
Context (Hi : csr_instr_ok i) (Ha : csr_at (ci_csr i) n ro c) (Hc : c <> csr_base.charfifo).
Context (s : isa_state_t) (m : isa_model_t) (Hm : isa_wf m) (Hx : has_exception s = false).
Context (x : Z) (Hop : is_u32 x).
#[local] Abbreviation s' := { csr_decoded i s with src1_value := x }.

Lemma execute_csr_spec :
  (csr_writes i = true -> ro = false) ->
  exists v0 m', csr_inst_read n m = Ok v0 /\ is_u32 v0 /\
    execute_csr s' m = Ok ({ s' with rd_value := v0 }, m') /\ isa_wf m' /\
    arch_of m' = arch_of m /\
    (forall k, csr_inst_read k m' =
      if csr_writes i && bool_decide (k = n)
      then Ok (csr_base.filter c (csr_newvalue (ci_op i) v0 x)) else csr_inst_read k m) /\
    breakpoints m' =
      (if csr_writes i then breakpoint.breakpoint_csr_trigger (ci_csr i)
         (csr_newvalue (ci_op i) v0 x) true (breakpoints m) else breakpoints m).
Proof using Hi Ha Hc Hm Hx Hop.
  intros Hro. assert (He : csr_wf (csr_env m)) by apply Hm.
  destruct (file_read _ _ _ _ Ha Hc (csr_env m) He) as (v0 & Er & Ev & Hv).
  assert (Ht : csr_file m = csr_table0) by apply Hm.
  pose proof (csr_newvalue_u32 (ci_op i) v0 x Hv Hop) as Hn.
  exists v0. unfold execute_csr, unit_entry. rewrite Ht.
  assert (E1 : csr s' = ci_csr i) by done. rewrite E1, Er.
  assert (E2 : valid s' && negb (has_exception s') = true).
  { destruct s. cbn in *. by rewrite Hx. }
  rewrite E2. cbn [verify mbind outcome_bind]. cbv zeta.
  rewrite bool_decide_eq_false_2, andb_false_r, trigger_read by done. change (default 0 (Some v0)) with v0.
  assert (E3 : negb (bool_decide (arg1_src s' = arg_src.reg) && (rs1 s' =? 0)) = csr_writes i).
  { destruct i as [o im d r a]. unfold csr_writes. destruct im; cbn; [done | by destruct r]. }
  change (arg1_src { s' with rd_value := _ }) with (arg1_src s').
  change (rs1 { s' with rd_value := _ }) with (rs1 s'). rewrite E3.
  destruct (csr_writes i) eqn:Hw; cbn [andb].
  - destruct (file_write _ _ _ _ Ha Hc (csr_env m) _ He Hn (Hro eq_refl)) as (e' & Ew & We & Re).
    change (sub_op { s' with rd_value := _ }) with (sub_csr_op (ci_op i)).
    change (csr { s' with rd_value := _ }) with (ci_csr i).
    change (src1_value { s' with rd_value := _ }) with x.
    cbn [get_csr_op mbind outcome_bind]. rewrite ?Ht, Ew. cbn [mbind outcome_bind fst snd negb].
    eexists. split; [exact Ev |]. split; [exact Hv |]. split; [reflexivity |].
    split_and!; [| by destruct m | exact Re | by destruct m].
    apply isa_wf_trigger. by apply isa_wf_csr.
  - exists m. by split_and!.
Qed.
End csr_unit.

Lemma run_csr i m n ro c :
  isa_wf m -> csr_instr_ok i -> csr_at (ci_csr i) n ro c -> c <> csr_base.charfifo ->
  (csr_writes i = true -> ro = false) ->
  in_ram (pc m) 4 -> rv32.load4 (rv32.mem (arch_of m)) (pc m) = csr_encode i ->
  exists v0 m', csr_inst_read n m = Ok v0 /\ isa_model.run m = Ok m' /\ isa_wf m' /\
    rv32.arch_equiv (arch_of m') (rv32.set_reg (ci_rd i) v0 (rv32.next (arch_of m))) /\
    (forall k, k ∉ counters -> csr_inst_read k m' =
      if csr_writes i && bool_decide (k = n)
      then Ok (csr_base.filter c (csr_newvalue (ci_op i) v0 (csr_operand i m)))
      else csr_inst_read k m) /\
    breakpoints m' =
      (if csr_writes i then breakpoint.breakpoint_csr_trigger (ci_csr i)
         (csr_newvalue (ci_op i) v0 (csr_operand i m)) true (breakpoints m) else breakpoints m).
Proof.
  intros Hm Hi Ha Hc Hro Hr He. destruct (fetch_ram m Hm Hr) as (s & Hf & Hv & Hp & Hx & Hrd).
  set (m1 := { m with pc := add32 (pc m) 4 }) in *.
  assert (Hm1 : isa_wf m1) by (apply isa_wf_pc; [done | apply add32_range]).
  assert (Hop : csr_operand i m1 = csr_operand i m) by reflexivity.
  destruct (execute_csr_spec i n ro c Hi Ha Hc s m1 Hm1 Hx (csr_operand i m1)
    (csr_operand_u32 i m1 Hm1 Hi) Hro) as (v0 & m2 & Ev & Hu & E2 & W2 & A2 & R2 & B2).
  rewrite run_tail, Hf. cbn [mbind outcome_bind fst snd].
  rewrite (decode_csr i s Hi) by (by rewrite Hv). cbn [mbind outcome_bind]. unfold execute.
  rewrite (operands_csr i s m1 Hm1 Hx Hi). cbn [mbind outcome_bind].
  unfold dispatch.
  change (op_unit _) with op_unit.csr. cbn iota.
  rewrite E2. cbn [mbind outcome_bind fst snd].
  match goal with |- context [writeback ?sr m2] => set (s2 := sr) end.
  assert (Hx2 : has_exception s2 = false) by exact Hx.
  destruct (writeback_arch s2 m2 W2 Hx2) as (m3 & E3 & W3 & A3); [apply Hi | exact Hu |].
  destruct (writeback_rest s2 m2 m3 Hx2 E3) as [C3 B3].
  rewrite E3. cbn [mbind outcome_bind].
  destruct (tail_csr m3 W3) as (m4 & E4 & W4 & A4 & B4 & R4).
  exists v0, m4. rewrite Hop in *. split_and!; try done.
  - rewrite A4, A3, A2. by destruct m.
  - intros k Hk. rewrite (R4 k Hk). unfold csr_inst_read at 1. rewrite C3. apply R2.
  - by rewrite B4, B3, B2.
Qed.

(** ** mret *)
Definition mret_word : Z := 0x30200073.

Definition mret_decoded (s : isa_state_t) : isa_state_t :=
  isa_decode.no_args (isa_decode.set_unit op.mret op_unit.bru (sub_bru_op bru_op.mret)
    (isa_decode.prepare s)).

Lemma decode_mret s : value s = mret_word -> isa_decode.decode s = Ok (mret_decoded s).
Proof. intros Hv. unfold isa_decode.decode. rewrite Hv. by destruct s. Qed.

Lemma execute_mret s m ep ms :
  isa_wf m -> has_exception s = false ->
  csr_inst_read "mepc" m = Ok ep -> csr_inst_read "mstatus" m = Ok ms ->
  exists m', execute (mret_decoded s) m = Ok m' /\ isa_wf m' /\
    arch_of m' = rv32.set_pc ep (arch_of m) /\
    forall k, csr_inst_read k m' =
      if bool_decide (k = "mstatus"%string) then Ok (mstatus_return ms) else csr_inst_read k m.
Proof.
  intros Hm Hx Hep Hms. unfold execute.
  assert (Ho : read_operands (mret_decoded s) m = Ok (mret_decoded s)).
  { destruct s. cbn in Hx. by subst. }
  rewrite Ho. cbn [mbind outcome_bind]. unfold dispatch.
  change (op_unit (mret_decoded s)) with op_unit.bru. cbn iota.
  unfold execute_bru, unit_entry.
  assert (Hv : valid (mret_decoded s) && negb (has_exception (mret_decoded s)) = true).
  { destruct s. cbn in *. by subst. }
  rewrite Hv. change (sub_op (mret_decoded s)) with (sub_bru_op bru_op.mret).
  cbn [verify get_bru_op mbind outcome_bind]. cbv zeta. unfold bru_mret.
  rewrite Hep. cbn [mbind outcome_bind]. rewrite Hms. cbn [mbind outcome_bind]. cbv zeta.
  change (csr_base.get_value _) with (mstatus_return ms).
  inst_step m2 W2 S2 R2; [apply mstatus_return_u32 |]. cbn [fst snd].
  assert (Hu : is_u32 ep).
  { destruct (inst_read m "mepc" csr_base.mepc Hm) as (v & Ev & Hu & _);
      [class_of | done |]. congruence. }
  exists { m2 with pc := ep }. split; [| split; [by apply isa_wf_pc |]; split].
  - unfold writeback. destruct s. cbn in Hx. by subst.
  - rewrite <- (same_but_csr_arch _ _ S2). by destruct m2.
  - intros k. change (csr_inst_read k { m2 with pc := ep }) with (csr_inst_read k m2).
    rewrite R2. destruct (bool_decide (k = "mstatus"%string)); [| done].
    f_equal. apply mstatus_return_filter.
Qed.

Lemma run_mret m ep ms :
  isa_wf m -> in_ram (pc m) 4 -> rv32.load4 (rv32.mem (arch_of m)) (pc m) = mret_word ->
  csr_inst_read "mepc" m = Ok ep -> csr_inst_read "mstatus" m = Ok ms ->
  exists m', isa_model.run m = Ok m' /\ isa_wf m' /\
    arch_of m' = rv32.set_pc ep (arch_of m) /\
    forall k, k ∉ counters -> csr_inst_read k m' =
      if bool_decide (k = "mstatus"%string) then Ok (mstatus_return ms) else csr_inst_read k m.
Proof.
  intros Hm Hr He Hep Hms. destruct (fetch_ram m Hm Hr) as (s & Hf & Hv & Hp & Hx & Hrd).
  rewrite run_tail, Hf. cbn [mbind outcome_bind fst snd].
  rewrite (decode_mret s) by (by rewrite Hv). cbn [mbind outcome_bind].
  set (m1 := { m with pc := add32 (pc m) 4 }).
  assert (Hm1 : isa_wf m1) by (apply isa_wf_pc; [done | apply add32_range]).
  destruct (execute_mret s m1 ep ms Hm1 Hx Hep Hms) as (m2 & E2 & W2 & A2 & R2).
  rewrite E2. cbn [mbind outcome_bind].
  destruct (tail_csr m2 W2) as (m3 & E3 & W3 & A3 & _ & R3).
  exists m3. split_and!; [done | done | |].
  - rewrite A3, A2. by destruct m.
  - intros k Hk. by rewrite R3, R2.
Qed.

(** No two addresses share a register object. *)
Lemma table_injective a b it it' :
  csrfile.csr_map_table csr_table0 !! a = Some it ->
  csrfile.csr_map_table csr_table0 !! b = Some it' ->
  csrfile.csr it = csrfile.csr it' -> a = b.
Proof.
  assert (G : NoDup (csrfile.csr ∘ snd <$> map_to_list (csrfile.csr_map_table csr_table0))).
  { apply (bool_decide_unpack _). vm_compute. exact I. }
  intros Ha Hb Hn.
  apply elem_of_map_to_list, list_elem_of_lookup in Ha as [i Hi].
  apply elem_of_map_to_list, list_elem_of_lookup in Hb as [j Hj].
  assert (i = j) as ->.
  { eapply (NoDup_lookup _ i j (csrfile.csr it)); [exact G | |];
      rewrite list_lookup_fmap, ?Hi, ?Hj; cbn; congruence. }
  congruence.
Qed.

Lemma land_aligned x : is_u32 x -> x mod 4 = 0 -> Z.land x (not32 0x03) = x.
Proof.
  intros Hx H. change (not32 0x03) with (Z.ldiff (Z.ones 32) (Z.ones 2)).
  assert (E : Z.land x (Z.ldiff (Z.ones 32) (Z.ones 2)) = Z.ldiff x (Z.ones 2)).
  { apply Z.bits_inj'. intros i Hi. rewrite Z.land_spec, !Z.ldiff_spec.
    destruct (decide (i < 32)).
    - rewrite Z.ones_spec_low by lia. by rewrite andb_true_l.
    - rewrite (testbit_high 32 x i) by (done || lia). done. }
  rewrite E, Z.ldiff_ones_r, Z.shiftr_div_pow2, Z.shiftl_mul_pow2 by lia. div_lia.
Qed.
