(* ===== verification/IsaDevices.v ===== *)
(** * The bus map, the RAM behind it and the program loader *)

From S2P Require Import Prelude Word Ops Rv32 IsaDecode Csr IsaBus Breakpoint.
From S2P Require Import IsaModel IsaInv IsaSafe IsaRoundtrip IsaRefine IsaReach IsaTrap.
Import isa_state isa_model.

(** ** Address windows *)

(** A window that does not wrap around the address space. *)
Definition window_ok (s : bus.slave_info_t) : Prop :=
  0 <= bus.base s /\ 0 < bus.size s /\ bus.base s + bus.size s < two32.

Lemma contains_iff a s : window_ok s ->
  bus.contains a s = true <-> bus.base s <= a < bus.base s + bus.size s.
Proof.
  intros (H1 & H2 & H3). unfold bus.contains, bus.limit, add32.
  rewrite u32_small by (unfold is_u32; lia). lia.
Qed.

Definition disjoint_windows (s t : bus.slave_info_t) : Prop :=
  forall a, bus.contains a s = true -> bus.contains a t = true -> False.

Lemma overlaps_iff b sz r f s :
  window_ok s -> window_ok (bus.mk_slave_info b sz r f) ->
  bus.overlaps b sz s = false <-> disjoint_windows s (bus.mk_slave_info b sz r f).
Proof.
  intros Hs Hn. pose proof Hs as (S1 & S2 & S3). pose proof Hn as (N1 & N2 & N3).
  cbn in N1, N2, N3. unfold disjoint_windows. split.
  - intros H a. rewrite !contains_iff by done. cbn.
    unfold bus.overlaps, bus.limit, add32 in H.
    rewrite !u32_small in H by (unfold is_u32; lia). lia.
  - intros H. unfold bus.overlaps, bus.limit, add32.
    rewrite !u32_small by (unfold is_u32; lia).
    pose proof (H b) as Hb. pose proof (H (bus.base s)) as Hb'.
    rewrite !contains_iff in Hb, Hb' by done. cbn in Hb, Hb'. lia.
Qed.

(** The bus invariant: windows in range, pairwise disjoint. *)
Definition bus_ok (t : bus_t) : Prop :=
  Forall window_ok (bus.slave_info_list t) /\
  forall i j s s', bus.slave_info_list t !! i = Some s -> bus.slave_info_list t !! j = Some s' ->
    i <> j -> disjoint_windows s s'.

Lemma check_addr_override_false b sz t :
  bus.check_addr_override b sz t = false <->
  Forall (λ s, bus.overlaps b sz s = false) (bus.slave_info_list t).
Proof.
  unfold bus.check_addr_override. induction (bus.slave_info_list t) as [|s l IH]; cbn.
  - split; [constructor | done].
  - rewrite orb_false_iff, IH, Forall_cons. done.
Qed.

Lemma map_ok b sz r f t d :
  bus_ok t -> window_ok (bus.mk_slave_info b sz r f) ->
  (forall s, s ∈ bus.slave_info_list t -> disjoint_windows s (bus.mk_slave_info b sz r f)) ->
  exists t' d', bus.map b sz r f t d = Ok (t', d') /\ bus_ok t'.
Proof.
  intros [Hw Hd] Hn Hdis.
  assert (Hc : bus.check_addr_override b sz t = false).
  { apply check_addr_override_false, Forall_forall. intros s Hs.
    apply (overlaps_iff b sz r f); [| done | by apply Hdis].
    rewrite Forall_forall in Hw. by apply Hw. }
  unfold bus.map. rewrite Hc. cbn [negb verify mbind outcome_bind].
  eexists _, _. split; [reflexivity |]. split; cbn.
  - apply Forall_app. by split; [| apply Forall_singleton].
  - intros i j s s' Hi Hj Hij. rewrite lookup_app_Some in Hi, Hj.
    destruct Hi as [Hi | [Hi1 Hi2]]; destruct Hj as [Hj | [Hj1 Hj2]].
    + by apply (Hd i j).
    + apply list_lookup_singleton_Some in Hj2 as [_ <-]. apply Hdis.
      by apply list_elem_of_lookup_2 in Hi.
    + apply list_lookup_singleton_Some in Hi2 as [_ <-].
      intros a Ha Ha'. eapply Hdis; [| exact Ha' | exact Ha].
      by apply list_elem_of_lookup_2 in Hj.
    + apply list_lookup_singleton_Some in Hi2 as [Hi2 _].
      apply list_lookup_singleton_Some in Hj2 as [Hj2 _]. lia.
Qed.

Lemma map_abort b sz r f t d s :
  bus_ok t -> window_ok (bus.mk_slave_info b sz r f) -> s ∈ bus.slave_info_list t ->
  ~ disjoint_windows s (bus.mk_slave_info b sz r f) -> bus.map b sz r f t d = Abort.
Proof.
  intros [Hw _] Hn Hs Hnd. unfold bus.map.
  destruct (bus.check_addr_override b sz t) eqn:E; [done |].
  exfalso. apply Hnd. apply check_addr_override_false in E.
  rewrite Forall_forall in Hw, E. apply (overlaps_iff b sz r f); auto.
Qed.

(** The slave found is the only one whose window holds the address. *)
Lemma find_in_Some i l a fe k s :
  l !! k = Some s -> bus.contains a s = true -> negb fe || bus.support_fetch s = true ->
  (forall j s', l !! j = Some s' -> j <> k -> bus.contains a s' = false) ->
  bus.find_in i l a fe = i + Z.of_nat k.
Proof.
  revert i k. induction l as [|x l IH]; intros i k Hk Hc Hf Ho; [done |].
  cbn [bus.find_in]. destruct k as [|k].
  - injection Hk as ->. rewrite Hc, Hf. cbn. lia.
  - rewrite (Ho O x) by done. cbn [andb].
    rewrite (IH (i + 1) k) by (first [done | intros j s' Hj Hne; apply (Ho (S j) s' Hj); lia]).
    lia.
Qed.

Lemma find_unique t a fe k s :
  bus_ok t -> bus.slave_info_list t !! k = Some s -> bus.contains a s = true ->
  negb fe || bus.support_fetch s = true ->
  bus.find_slave_info a fe t = Z.of_nat k.
Proof.
  intros [_ Hd] Hk Hc Hf. unfold bus.find_slave_info.
  rewrite (find_in_Some 0 _ a fe k s); [lia | done | done | done |].
  intros j s' Hj Hne. destruct (bus.contains a s') eqn:E; [| done].
  exfalso. by eapply (Hd j k s' s Hj Hk).
Qed.

Lemma slaves0_ok : forall q, bus_ok (bus.mk slaves0 q).
Proof.
  intros q. split; cbn [bus.slave_info_list].
  - unfold slaves0. repeat (apply Forall_cons; split; [unfold window_ok; split_and!; done |]).
    constructor.
  - intros i j s s' Hi Hj Hij a. unfold slaves0 in *.
    destruct i as [|[|i]], j as [|[|j]]; cbn in Hi, Hj; try done; try lia;
      injection Hi as <-; injection Hj as <-;
      rewrite !contains_iff by (unfold window_ok; split_and!; done); cbn;
      unfold MEMORY_BASE, MEMORY_SIZE, CLINT_BASE, CLINT_SIZE; lia.
Qed.

(** ** Memory through the bus *)

Lemma in_ram_byte x n k : in_ram x n -> 0 <= k < n -> in_ram (x + k) 1.
Proof. intros (_ & H1 & H2) Hk. split_and!; [apply Z.mod_1_r | lia | lia]. Qed.

Lemma store_load4 x v f : is_u32 v -> rv32.load4 (rv32.store 4 x v f) x = v.
Proof.
  intros Hv. unfold rv32.load4, rv32.store.
  repeat match goal with |- context [if ?c then _ else _] => replace c with true by lia end.
  replace (x - x) with 0 by lia. replace (x + 1 - x) with 1 by lia.
  replace (x + 2 - x) with 2 by lia. replace (x + 3 - x) with 3 by lia.
  change (8 * 0) with 0. change (8 * 1) with 8. change (8 * 2) with 16. change (8 * 3) with 24.
  unfold is_u32, two32 in Hv. div_lia.
Qed.

Section access.
Context (m : isa_model_t) (Hm : isa_wf m) (x v : Z) (Hx : in_ram x 4) (Hv : is_u32 v).
#[local] Abbreviation m' := { m with devices := { devices m with
  slave_base.dev_memory ::= memory.store32 (x - MEMORY_BASE) v } }.

Lemma written_wf : isa_wf m'.
Proof using Hm.
  assert (E : m' = { m with bus := bus m; devices := { devices m with
    slave_base.dev_memory ::= memory.store32 (x - MEMORY_BASE) v } }) by (by destruct m).
  rewrite E. apply isa_wf_bus_dev; [done | apply Hm |].
  apply dev_wf_mem; [apply Hm |]. intros. by apply mem_wf_write32.
Qed.

Lemma written_arch y : rv32.mem (arch_of m') y = rv32.store 4 x v (rv32.mem (arch_of m)) y.
Proof using Type.
  clear. pose proof (write32_store (ram m) x v y) as H. destruct m. exact H.
Qed.
End access.

(** ** The program loader *)
Lemma load_from_spec buf m i :
  isa_wf m -> 0 <= i -> i + zlen buf <= MEMORY_SIZE -> Forall is_u8 buf ->
  exists m', load_from i buf m = Ok m' /\ isa_wf m' /\ pc m' = pc m /\
    arch_regfile m' = arch_regfile m /\ csr_env m' = csr_env m /\
    forall y, rv32.mem (arch_of m') y =
      match buf !! Z.to_nat (y - (MEMORY_BASE + i)) with
      | Some b => if MEMORY_BASE + i <=? y then b else rv32.mem (arch_of m) y
      | None => rv32.mem (arch_of m) y
      end.
Proof.
  revert m i. induction buf as [|b buf IH]; intros m i Hm Hi Hl Hb.
  { exists m. cbn [load_from]. by split_and!. }
  apply Forall_cons in Hb as [Hb Hbs]. unfold zlen in *. cbn [length] in Hl.
  cbn [load_from].
  assert (Ha : add32 MEMORY_BASE i = MEMORY_BASE + i).
  { unfold add32. apply u32_small. unfold is_u32, two32, MEMORY_BASE, MEMORY_SIZE in *. lia. }
  assert (Hin : in_ram (MEMORY_BASE + i) 1) by (split_and!; [apply Z.mod_1_r | lia | lia]).
  rewrite Ha, (ram_write8 m Hm _ b Hin). cbn [mbind outcome_bind fst snd].
  assert (Hu : u8 b = b) by (apply Z.mod_small; exact Hb). rewrite Hu.
  match goal with |- context [load_from (i + 1) buf ?x] => set (m1 := x) end.
  assert (Hm1 : isa_wf m1).
  { apply isa_wf_bus_dev; [done | apply Hm |]. apply dev_wf_mem; [apply Hm |].
    intros. by apply mem_wf_write8. }
  destruct (IH m1 (i + 1) Hm1) as (m2 & E2 & W2 & P2 & R2 & C2 & M2); [lia | lia | done |].
  exists m2. split_and!; [done | done | by rewrite P2 | by rewrite R2 | by rewrite C2 |].
  intros y. rewrite M2.
  assert (Hst : rv32.mem (arch_of m1) y = rv32.store 1 (MEMORY_BASE + i) b (rv32.mem (arch_of m)) y)
    by exact (write8_store (ram m) (MEMORY_BASE + i) b y).
  rewrite Hst. unfold rv32.store. clear -Hb Hi.
  destruct (decide (y < MEMORY_BASE + i)).
  - replace (Z.to_nat (y - (MEMORY_BASE + i))) with O by lia.
    replace (Z.to_nat (y - (MEMORY_BASE + (i + 1)))) with O by lia. cbn [lookup list_lookup].
    replace (MEMORY_BASE + i <=? y) with false by lia.
    replace (MEMORY_BASE + (i + 1) <=? y) with false by lia. cbn [andb].
    by destruct buf.
  - replace (MEMORY_BASE + i <=? y) with true by lia.
    destruct (decide (y = MEMORY_BASE + i)) as [->|Hne].
    + replace (Z.to_nat (MEMORY_BASE + i - (MEMORY_BASE + i))) with O by lia.
      replace (Z.to_nat (MEMORY_BASE + i - (MEMORY_BASE + (i + 1)))) with O by lia.
      cbn [lookup list_lookup].
      replace (MEMORY_BASE + (i + 1) <=? MEMORY_BASE + i) with false by lia.
      replace (MEMORY_BASE + i <? MEMORY_BASE + i + 1) with true by lia. cbn [andb].
      replace (8 * _) with 0 by lia. rewrite Z.div_1_r, Z.mod_small by exact Hb.
      by destruct buf.
    + replace (Z.to_nat (y - (MEMORY_BASE + i))) with (S (Z.to_nat (y - (MEMORY_BASE + (i + 1))))) by lia.
      cbn [lookup list_lookup]. change (list_lookup ?k buf) with (buf !! k).
      replace (MEMORY_BASE + (i + 1) <=? y) with true by lia.
      replace (y <? MEMORY_BASE + i + 1) with false by lia. cbn [andb]. done.
Qed.
