(* ===== verification/IsaProps.v ===== *)
(** * Properties of the ISA model

    The theorems of the functional model, each followed by a witness: a
    concrete machine on which its hypotheses hold. *)

From S2P Require Import Prelude Word Ops Rv32 IsaDecode Csr IsaBus Breakpoint.
From S2P Require Import IsaModel IsaInv IsaSafe IsaRoundtrip IsaRefine IsaReach IsaTrap IsaCsr.
From S2P Require Import IsaDevices.
Import isa_state isa_model.

(** ** Concrete machines: the constructor's state with a program in the RAM *)
Fixpoint image (off : Z) (words : list Z) (mem : memory_t) : memory_t :=
  match words with
  | [] => mem
  | w :: words => image (off + 4) words (memory.store32 off w mem)
  end.
Definition machine (words : list Z) : isa_model_t :=
  let m := boot [] [] breakpoint.init in
  { m with bus := bus m;
           devices := { devices m with slave_base.dev_memory ::= image 0 words } }.

Lemma image_wf words : forall off mem, mem_wf mem -> mem_wf (image off words mem).
Proof.
  induction words as [|w words IH]; intros off mem H; [done |].
  cbn [image]. apply IH. by apply mem_wf_write32.
Qed.
Lemma machine_wf words : isa_wf (machine words).
Proof.
  pose proof (boot_wf [] [] breakpoint.init) as H. unfold machine. cbv zeta.
  apply isa_wf_bus_dev; [done | apply H |]. apply dev_wf_mem; [apply H |].
  intros mem. apply image_wf.
Qed.
Lemma start_in_ram words : in_ram (pc (machine words)) 4.
Proof. unfold in_ram. cbn. unfold INIT_PC, MEMORY_BASE, MEMORY_SIZE. split_and!; [done | lia | lia]. Qed.

(** A few instructions for the witnesses. *)
Definition demo : list rv32.instr :=
  [ rv32.OpImm rv32.Addi 1 0 5;            (* x1 = 5 *)
    rv32.Op rv32.Mul 2 1 1;                (* x2 = 25 *)
    rv32.Auipc 3 0;                        (* x3 = 0x80000008 *)
    rv32.Store rv32.Sw 3 2 256;            (* mem[0x80000108] = 25 *)
    rv32.Load rv32.Lw 4 3 256;             (* x4 = 25 *)
    rv32.Branch rv32.Beq 2 4 (-20) ].      (* back to the start *)
Definition demo_machine : isa_model_t := machine (rv32.encode <$> demo).

Fixpoint demo_states (l : list rv32.instr) (a : rv32.arch) : rv32.arch :=
  match l with [] => a | i :: l => demo_states l (rv32.exec i a) end.

(** ** C1
    Any number of instructions: when the abstract RV32IM machine can take [n]
    steps from the state a model shows (each fetching the encoding of a
    well-formed instruction from the RAM, with its data access in the RAM),
    then [n] calls of [run] succeed and show the abstract machine's final pc,
    registers and memory. *)
Theorem run_refines (n : nat) (m : isa_model_t) (b : rv32.arch) :
  isa_wf m -> nsteps rv_step n (arch_of m) b ->
  exists m', isa_model.run_n n m = Ok m' /\ isa_wf m' /\ rv32.arch_equiv (arch_of m') b.
Proof. apply run_n_steps. Qed.

(** One step of the abstract machine on a concrete state. *)
Ltac demo_step i :=
  eapply nsteps_l; [exists i; split;
    [ cbn; unfold rv32.reg_ok, rv32.imm12_ok; repeat split; lia
    | split; [vm_compute; repeat split; discriminate | split; [vm_compute; reflexivity |
      split; [vm_compute; repeat split; discriminate | reflexivity]]]] |].

Lemma run_refines_witness :
  exists m', isa_model.run_n 6 demo_machine = Ok m' /\ isa_wf m' /\
    rv32.arch_equiv (arch_of m') (demo_states demo (arch_of demo_machine)).
Proof.
  apply run_refines; [apply machine_wf |].
  demo_step (rv32.OpImm rv32.Addi 1 0 5).
  demo_step (rv32.Op rv32.Mul 2 1 1).
  demo_step (rv32.Auipc 3 0).
  demo_step (rv32.Store rv32.Sw 3 2 256).
  demo_step (rv32.Load rv32.Lw 4 3 256).
  demo_step (rv32.Branch rv32.Beq 2 4 (-20)).
  apply nsteps_O.
Defined.

(** ** C23
    Decoding inverts encoding: for every well-formed RV32IM instruction the
    decoder recognises its 32-bit encoding and produces the unit, operation,
    operands, destination and sign-extended immediate of that instruction,
    and nothing else of the previous contents survives. *)
Theorem decode_of_encode (i : rv32.instr) (s : isa_state_t) :
  rv32.instr_ok i -> value s = rv32.encode i ->
  isa_decode.decode s = Ok (expected.decoded i s).
Proof. apply decode_encode. Qed.

Lemma decode_of_encode_witness :
  isa_decode.decode { isa_state.init with value := 0xfe208ee3 } =
  Ok (expected.decoded (rv32.Branch rv32.Beq 1 2 (-4)) { isa_state.init with value := 0xfe208ee3 }).
Proof.
  apply (decode_of_encode (rv32.Branch rv32.Beq 1 2 (-4))).
  - cbn. unfold rv32.reg_ok. repeat split; lia.
  - reflexivity.
Defined.

(** ** C17
    No undefined behaviour: in every state the constructor and any sequence of
    operations of the simulator lead to (instructions, resets, loads,
    interrupts, CLINT and CSR synchronisation, memory commands, character
    queues, breakpoints) the type invariant holds, and the next operation
    neither reads an inactive union member, nor leaves an array, nor follows a
    null object. *)
Theorem reachable_defined (m : isa_model_t) (o : isa_op) :
  reachable m -> op_ok o -> isa_wf m /\ apply_op o m <> Undef.
Proof.
  intros Hm Ho. pose proof (reachable_wf m Hm) as Hw. split; [done |].
  pose proof (apply_op_safe o m Hw Ho) as H. by destruct (apply_op o m).
Qed.

Lemma reachable_defined_witness :
  exists m, reachable m /\ isa_wf m /\ apply_op op_run m <> Undef.
Proof.
  destruct (new_total [] [] breakpoint.init) as [m Hm]. exists m.
  split; [by eapply reach_new |].
  apply (reachable_defined m op_run); [by eapply reach_new | exact I].
Defined.

(** Construction: whatever the character queues and breakpoints hold, the
    constructor runs to its end (every bus window and CSR address it maps is
    free), and the model it returns starts at the reset address with zeroed
    registers and memory. *)
Theorem new_ok (send rev : list Z) (bp : breakpoint_state_t) :
  exists m, isa_model.new send rev bp = Ok m /\ isa_wf m /\
    pc m = INIT_PC /\
    (forall r, rv32.reg_ok r -> rv32.reg (arch_of m) r = 0) /\
    (forall x, rv32.mem (arch_of m) x = 0) /\ cpu_clock_cycle m = 0 /\ commit_num m = 0.
Proof.
  destruct (new_total send rev bp) as [m Hm]. exists m. split; [done |].
  split; [exact (safe_inv _ _ _ (new_safe send rev bp) Hm) |].
  rewrite new_boot in Hm. unfold isa_model.reset in Hm.
  apply bind_Ok in Hm as (e & _ & Hm). cbn in Hm. injection Hm as <-.
  split_and!; [done | | done | done | done].
  intros r Hr. change (default 0 (replicate 32 0 !! Z.to_nat r) = 0).
  rewrite lookup_replicate_2; [done | unfold rv32.reg_ok in Hr; lia].
Qed.

(** Memory round trip through the bus: an aligned word written to the RAM is
    read back, its bytes lie in little-endian order, bytes outside of the word
    keep their values, and no error message is queued. *)
Theorem bus_write_read (m : isa_model_t) (x v : Z) (fe : bool) :
  isa_wf m -> in_ram x 4 -> is_u32 v ->
  exists d, bus.write32 x v (bus m) (devices m) = Ok (bus m, d) /\
    bus.read32 x fe (bus m) d = Ok (v, bus m) /\
    (forall k, 0 <= k < 4 ->
       bus.read8 (x + k) false (bus m) d = Ok (v / 2 ^ (8 * k) mod 256, bus m)) /\
    (forall y, in_ram y 1 -> y < x \/ x + 4 <= y ->
       bus.read8 y false (bus m) d = bus.read8 y false (bus m) (devices m)).
Proof.
  intros Hm Hx Hv. eexists. split; [by apply ram_write32 |].
  pose proof (written_wf m Hm x v) as Hw. pose proof (written_arch m x v) as Ha.
  set (m' := { m with devices := _ }) in *.
  change (bus.read32 _ _ _ _) with (bus.read32 x fe (bus m') (devices m')).
  split; [| split].
  - rewrite ram_read32 by done. do 2 f_equal.
    rewrite <- (store_load4 x v (rv32.mem (arch_of m)) Hv). unfold rv32.load4. by rewrite !Ha.
  - intros k Hk. change (bus.read8 _ _ _ _) with (bus.read8 (x + k) false (bus m') (devices m')).
    rewrite ram_read8 by (eauto using in_ram_byte). do 2 f_equal. rewrite Ha.
    unfold rv32.store. replace ((x <=? x + k) && (x + k <? x + 4)) with true by lia.
    by replace (x + k - x) with k by lia.
  - intros y Hy Hout. change (bus.read8 y false (bus m) _) with (bus.read8 y false (bus m') (devices m')) at 1.
    rewrite !ram_read8 by done. do 2 f_equal. rewrite Ha. unfold rv32.store.
    by replace ((x <=? y) && (y <? x + 4)) with false by lia.
Qed.

Lemma bus_write_read_witness :
  exists d, bus.write32 0x80000010 0x12345678 (bus demo_machine) (devices demo_machine)
      = Ok (bus demo_machine, d) /\
    bus.read32 0x80000010 true (bus demo_machine) d = Ok (0x12345678, bus demo_machine).
Proof.
  destruct (bus_write_read demo_machine 0x80000010 0x12345678 true) as (d & H1 & H2 & _).
  - apply machine_wf.
  - vm_compute. repeat split; discriminate.
  - vm_compute. repeat split; discriminate.
  - by exists d.
Defined.

(** The bus map: with pairwise disjoint windows that do not wrap around the
    address space, [map] accepts a window exactly when it is disjoint from
    all of them, the result is again such a map, and [map] aborts otherwise. *)
Theorem map_disjoint (b sz : Z) (r : slave_ref) (f : bool) (t : bus_t) (d : devices_t) :
  bus_ok t -> window_ok (bus.mk_slave_info b sz r f) ->
  ((forall s, s ∈ bus.slave_info_list t -> disjoint_windows s (bus.mk_slave_info b sz r f)) ->
    exists t' d', bus.map b sz r f t d = Ok (t', d') /\ bus_ok t') /\
  ((exists s, s ∈ bus.slave_info_list t /\ ~ disjoint_windows s (bus.mk_slave_info b sz r f)) ->
    bus.map b sz r f t d = Abort).
Proof.
  intros Ht Hn. split; [by apply map_ok |].
  intros (s & Hs & Hd). by eapply map_abort.
Qed.

Lemma map_disjoint_witness :
  bus.map 0x80000100 16 slave_base.ref_clint false (bus demo_machine) (devices demo_machine) = Abort.
Proof.
  apply (map_disjoint 0x80000100 16 slave_base.ref_clint false (bus demo_machine)).
  - apply slaves0_ok.
  - vm_compute. repeat split; discriminate.
  - eexists. split; [left |]. intros H. apply (H 0x80000100); reflexivity.
Defined.

(** Address decoding: on such a map [find_slave_info] returns the index of
    the slave whose window holds the address, whatever the order of the list. *)
Theorem slave_of_address (t : bus_t) (a : Z) (fe : bool) (k : nat) (s : bus.slave_info_t) :
  bus_ok t -> bus.slave_info_list t !! k = Some s -> bus.contains a s = true ->
  negb fe || bus.support_fetch s = true ->
  bus.find_slave_info a fe t = Z.of_nat k.
Proof. apply find_unique. Qed.

Lemma slave_of_address_witness :
  bus.find_slave_info 0x2000bff8 false (bus demo_machine) = 1.
Proof.
  apply (slave_of_address _ _ _ 1 (bus.mk_slave_info CLINT_BASE CLINT_SIZE slave_base.ref_clint false));
    [apply slaves0_ok | reflexivity | reflexivity | reflexivity].
Defined.

(** Loading: an image shorter than the RAM is copied to the RAM's base
    address byte by byte; every other byte, pc, the registers and the CSRs keep
    their values. *)
Theorem load_image (m : isa_model_t) (buf : list Z) :
  isa_wf m -> zlen buf < MEMORY_SIZE -> Forall is_u8 buf ->
  exists m', load buf m = Ok m' /\ isa_wf m' /\ pc m' = pc m /\
    arch_regfile m' = arch_regfile m /\ csr_env m' = csr_env m /\
    (forall k b, buf !! k = Some b -> rv32.mem (arch_of m') (MEMORY_BASE + Z.of_nat k) = b) /\
    (forall y, y < MEMORY_BASE \/ MEMORY_BASE + zlen buf <= y ->
       rv32.mem (arch_of m') y = rv32.mem (arch_of m) y).
Proof.
  intros Hm Hl Hb. destruct (load_from_spec buf m 0 Hm) as (m' & E & W & P & R & C & M);
    [lia | lia | done |].
  exists m'. unfold load. replace (zlen buf <? MEMORY_SIZE) with true by lia.
  split_and!; try done.
  - intros k b Hk. rewrite M.
    replace (Z.to_nat _) with k by lia. rewrite Hk.
    by replace (MEMORY_BASE + 0 <=? MEMORY_BASE + Z.of_nat k) with true by lia.
  - intros y Hy. rewrite M. destruct (buf !! _) as [b|] eqn:E'; [| done].
    apply lookup_lt_Some in E'. unfold zlen in Hy.
    by replace (MEMORY_BASE + 0 <=? y) with false by lia.
Qed.

Lemma load_image_witness :
  exists m', load [0x93; 0x00; 0x50; 0x00] demo_machine = Ok m' /\
    rv32.mem (arch_of m') 0x80000002 = 0x50.
Proof.
  destruct (load_image demo_machine [0x93; 0x00; 0x50; 0x00]) as (m' & E & _ & _ & _ & _ & H & _).
  - apply machine_wf.
  - reflexivity.
  - decide_closed.
  - exists m'. split; [exact E |]. by apply (H 2%nat).
Defined.

(** CSR file: a write to a mapped, writable register other than the character
    FIFO is accepted, reading it back gives the value its filter lets through,
    and every other address reads as before; a write to a read-only or
    unmapped address is refused without a change. *)
Theorem csrfile_write_read (addr : Z) (n : string) (ro : bool) (c : csr_base.csr_class_t)
  (e : csr_env_t) (v : Z) :
  csr_wf e -> is_u32 v -> csr_at addr n ro c -> c <> csr_base.charfifo ->
  if ro then csrfile.write addr v csr_table0 e = Ok (false, e)
  else exists e', csrfile.write addr v csr_table0 e = Ok (true, e') /\
    csrfile.read addr csr_table0 e' = Ok (Some (csr_base.filter c v)) /\
    forall a, a <> addr -> csrfile.read a csr_table0 e' = csrfile.read a csr_table0 e.
Proof.
  intros He Hv Ha Hc. destruct ro; [by eapply file_refused |].
  destruct (file_write _ _ _ _ Ha Hc e v He Hv eq_refl) as (e' & E & We & R).
  exists e'. split; [done |]. split.
  - destruct (file_read _ _ _ _ Ha Hc e' We) as (w & Er & Ew & _).
    rewrite Er. rewrite R, bool_decide_eq_true_2 in Ew by done. congruence.
  - intros a Hne. unfold csrfile.read. destruct (_ || _); [done |].
    unfold csrfile.item. destruct (csrfile.csr_map_table csr_table0 !! a) as [it|] eqn:E'; [| done].
    cbn [of_option mbind outcome_bind]. rewrite R, bool_decide_eq_false_2; [done |].
    intros Hn. apply Hne. eapply (table_injective a addr); [exact E' | apply Ha |]. done.
Qed.

Lemma csrfile_write_read_witness :
  exists e', csrfile.write 0x305 0x80000103 csr_table0 (csr_env demo_machine) = Ok (true, e') /\
    csrfile.read 0x305 csr_table0 e' = Ok (Some 0x80000100).
Proof.
  destruct (csrfile_write_read 0x305 "mtvec" false csr_base.mtvec (csr_env demo_machine) 0x80000103)
    as (e' & E & R & _).
  - apply machine_wf.
  - vm_compute. split; congruence.
  - csr_at.
  - discriminate.
  - by exists e'.
Defined.



(** ** C39
    Exceptions: [run] on ecall, ebreak or a word with an unassigned opcode
    saves the instruction's address in mepc and the cause in mcause, clears
    mtval, leaves mstatus, the registers and the memory alone and continues at
    mtvec. *)
Theorem run_exception (m : isa_model_t) (w : Z) (id : riscv_exception_t) (mt : Z) :
  isa_wf m -> in_ram (pc m) 4 -> rv32.load4 (rv32.mem (arch_of m)) (pc m) = w ->
  csr_inst_read "mtvec" m = Ok mt -> trapping w id ->
  exists m', isa_model.run m = Ok m' /\ isa_wf m' /\
    trapped m m' mt (pc m) (riscv_exception.to_uint32 id) 0.
Proof. apply run_trapping. Qed.

Lemma run_exception_witness :
  exists m', isa_model.run (machine [0x73]) = Ok m' /\
    csr_inst_read "mcause" m' = Ok 11 /\ csr_inst_read "mepc" m' = Ok 0x80000000.
Proof.
  destruct (run_exception (machine [0x73]) 0x73 riscv_exception.environment_call_from_m_mode 0)
    as (m' & E & _ & Hp & Hc & _).
  - apply machine_wf.
  - apply start_in_ram.
  - reflexivity.
  - vm_compute. reflexivity.
  - constructor.
  - exists m'. by split_and!.
Defined.

(** ** C38
    Interrupts: taking an interrupt and returning from it with mret resumes
    the interrupted program: pc is the saved one, mstatus.mie is what it was,
    registers and memory are untouched; in between the cause is in mcause, the
    pending flags are in mip, interrupts are disabled and pc is mtvec. *)
Theorem interrupt_round_trip (id : riscv_interrupt_t) (m : isa_model_t) (mt ms : Z) :
  isa_wf m -> csr_inst_read "mtvec" m = Ok mt -> csr_inst_read "mstatus" m = Ok ms ->
  pc m mod 4 = 0 -> in_ram mt 4 -> rv32.load4 (rv32.mem (arch_of m)) mt = mret_word ->
  exists m1 m2 ms1 ms2, interrupt_sync (Some id) m = Ok m1 /\
    pc m1 = mt /\
    csr_inst_read "mcause" m1 = Ok (Z.lor 0x80000000 (riscv_interrupt.to_uint32 id)) /\
    csr_inst_read "mip" m1 = Ok (mip_bits (isa_model.interrupt_interface m)) /\
    csr_inst_read "mstatus" m1 = Ok ms1 /\ Z.testbit ms1 3 = false /\
    isa_model.run m1 = Ok m2 /\ arch_of m2 = arch_of m /\
    csr_inst_read "mstatus" m2 = Ok ms2 /\ Z.testbit ms2 3 = Z.testbit ms 3.
Proof.
  intros Hm Hmt Hms Hal Hr Hw.
  destruct (interrupt_entry id m mt ms Hm Hmt Hms)
    as (m1 & E1 & W1 & P1 & Hep & Hca & _ & Hip & Hst & A1).
  assert (He : Z.land (pc m) (not32 0x03) = pc m) by (apply land_aligned; [apply Hm | done]).
  rewrite He in Hep.
  destruct (run_mret m1 (pc m) (mstatus_entry ms) W1) as (m2 & E2 & W2 & A2 & R2);
    [by rewrite P1 | by rewrite A1, P1 | done | done |].
  exists m1, m2, (mstatus_entry ms), (mstatus_return (mstatus_entry ms)).
  split_and!; try done.
  - by rewrite mstatus_entry_bits.
  - rewrite A2, A1. by destruct m.
  - rewrite R2 by decide_closed. by rewrite bool_decide_eq_true_2.
  - by rewrite mstatus_return_bits, mstatus_entry_bits.
Qed.

Lemma interrupt_round_trip_witness :
  exists m1 m2, interrupt_sync (Some riscv_interrupt.machine_timer)
      { machine [mret_word] with csr_env ::= λ e, { e with csr_env.objs ::=
          <["mtvec"%string := csr_base.mk "mtvec" 0 0x80000000 csr_base.mtvec]> } } = Ok m1 /\
    isa_model.run m1 = Ok m2 /\ pc m2 = 0x80000000.
Proof.
  destruct (interrupt_round_trip riscv_interrupt.machine_timer
      { machine [mret_word] with csr_env ::= λ e, { e with csr_env.objs ::=
          <["mtvec"%string := csr_base.mk "mtvec" 0 0x80000000 csr_base.mtvec]> } } 0x80000000 0)
    as (m1 & m2 & _ & _ & E1 & _ & _ & _ & _ & _ & E2 & A & _).
  - apply isa_wf_csr; [apply machine_wf |].
    destruct (csr_objs0 !! "mtvec"%string) as [o0|] eqn:E; [| vm_compute in E; discriminate].
    apply (csr_wf_insert (csr_env (machine [mret_word])) _ o0); [apply machine_wf | done |].
    vm_compute in E. injection E as <-. unfold obj_wf, is_u32, two32. cbn. by split_and!.
  - vm_compute. reflexivity.
  - vm_compute. reflexivity.
  - reflexivity.
  - apply (start_in_ram []).
  - reflexivity.
  - exists m1, m2. split_and!; [exact E1 | exact E2 |].
    exact (f_equal rv32.pc A).
Defined.

Definition ready_cause (i : interrupt_interface_t) (vie vst : Z) (c : riscv_interrupt_t) : bool :=
  Z.testbit vst 3 &&
  match c with
  | riscv_interrupt.machine_external => interrupt_interface.meip i && Z.testbit vie 11
  | riscv_interrupt.machine_software => interrupt_interface.msip i && Z.testbit vie 3
  | riscv_interrupt.machine_timer => interrupt_interface.mtip i && Z.testbit vie 7
  | _ => false
  end.

(** Interrupt selection: [get_cause] reports a cause exactly when
    [has_interrupt] answers true, and the cause is the one of highest
    priority (external, then software, then timer) among those that are
    pending in the interface, enabled in mie, with mstatus.mie set. *)
Theorem interrupt_selection (i : interrupt_interface_t) (e : csr_env_t) (vie vst : Z) :
  csr_env.read "mie" e = Ok vie -> csr_env.read "mstatus" e = Ok vst ->
  exists c, interrupt_interface.get_cause i e = Ok c /\
    interrupt_interface.has_interrupt i e = Ok (bool_decide (is_Some c)) /\
    (forall x, c = Some x -> ready_cause i vie vst x = true) /\
    (forall x, ready_cause i vie vst x = true ->
       exists y, c = Some y /\ (riscv_interrupt.to_uint32 x <= riscv_interrupt.to_uint32 y \/
         (x = riscv_interrupt.machine_timer /\ y = riscv_interrupt.machine_software))).
Proof.
  intros Hie Hst. unfold interrupt_interface.get_cause, interrupt_interface.has_interrupt.
  rewrite Hie, Hst. cbn [mbind outcome_bind]. cbv zeta. eexists. split; [reflexivity |].
  unfold mstatus.get_mie, mie.get_meie, mie.get_msie, mie.get_mtie.
  rewrite !getbit_testbit by lia.
  change (csr_base.value (csr_base.load vst mstatus.new)) with vst.
  change (csr_base.value (csr_base.load vie mie.new)) with vie.
  unfold ready_cause. destruct i as [e' s' t']. cbn [interrupt_interface.meip
    interrupt_interface.msip interrupt_interface.mtip].
  destruct (Z.testbit vst 3); cbn [negb andb].
  2: { split_and!; [done | done | done]. }
  destruct (e' && Z.testbit vie 11), (s' && Z.testbit vie 3), (t' && Z.testbit vie 7);
    cbn [orb]; split_and!; try done;
    try (intros x [= <-]; done); intros x Hx; destruct x; try done;
    eexists; split; try reflexivity; cbn; auto with lia.
Qed.

Lemma interrupt_selection_witness :
  exists c, interrupt_interface.get_cause (interrupt_interface.mk true true false)
    (csr_env demo_machine) = Ok c /\
    interrupt_interface.has_interrupt (interrupt_interface.mk true true false)
      (csr_env demo_machine) = Ok (bool_decide (is_Some c)).
Proof.
  destruct (interrupt_selection (interrupt_interface.mk true true false)
    (csr_env demo_machine) 0 0) as (c & H1 & H2 & _);
    [vm_compute; reflexivity | vm_compute; reflexivity | by exists c].
Defined.

(** Program exit: running [csrrw rd, finish, rs1] makes the next breakpoint
    check report a stop, and the finish value it then yields (once) is the
    contents of rs1. *)
Theorem finish_detected (m : isa_model_t) (rd rs1 cyc inum : Z) (pcs : list Z) :
  let i := mk_csr_instr csr_op.csrrw false rd rs1 CSR_FINISH in
  isa_wf m -> csr_instr_ok i -> rs1 <> 0 ->
  in_ram (pc m) 4 -> rv32.load4 (rv32.mem (arch_of m)) (pc m) = csr_encode i ->
  exists m' b b', isa_model.run m = Ok m' /\
    breakpoint.breakpoint_check cyc inum pcs (breakpoints m') = (true, b) /\
    breakpoint.breakpoint_get_finish b = (Some (rv32.reg (arch_of m) rs1), b') /\
    (breakpoint.breakpoint_get_finish b').1 = None.
Proof.
  intros i Hm Hi Hnz Hr He.
  destruct (run_csr i m "finish" false csr_base.plain Hm Hi) as (v0 & m' & _ & E & _ & _ & _ & B);
    [csr_at | done | done | done | done |].
  unfold csr_writes in B. cbn [ci_imm ci_src orb i] in B.
  replace (negb (rs1 =? 0)) with true in B by lia.
  cbn [ci_op ci_csr csr_newvalue i csr_operand ci_imm ci_src] in B.
  unfold breakpoint.breakpoint_csr_trigger in B. cbn [Z.eqb andb] in B.
  exists m'. rewrite B. unfold CSR_FINISH, breakpoint.breakpoint_check. cbn.
  eexists _, _. split_and!; [exact E | reflexivity | reflexivity | reflexivity].
Qed.

Lemma finish_detected_witness :
  exists m' b b', isa_model.run (machine [0x80409073]) = Ok m' /\
    breakpoint.breakpoint_check 0 0 [] (breakpoints m') = (true, b) /\
    breakpoint.breakpoint_get_finish b = (Some 0, b').
Proof.
  destruct (finish_detected (machine [0x80409073]) 0 1 0 0 []) as (m' & b & b' & E & H1 & H2 & _).
  - apply machine_wf.
  - unfold csr_instr_ok, rv32.reg_ok. cbn. unfold CSR_FINISH. lia.
  - discriminate.
  - apply start_in_ram.
  - reflexivity.
  - exists m', b, b'. by split_and!.
Defined.

Definition reserved_funct3 (opcode f3 : Z) : Prop :=
  (opcode = 0x63 /\ (f3 = 2 \/ f3 = 3)) \/ (opcode = 0x03 /\ (f3 = 3 \/ f3 = 6 \/ f3 = 7)) \/
  (opcode = 0x23 /\ 3 <= f3 < 8).

(** Reserved encodings stop the simulator: [decode] marks a branch, load or
    store with a reserved funct3 invalid but leaves the unit it had already
    chosen, and that unit's entry check aborts; the illegal-instruction
    exception the arithmetic unit would raise is never reached. *)
Theorem run_reserved_aborts (m : isa_model_t) (o rd f3 rs1 rs2 f7 : Z) :
  isa_wf m -> in_ram (pc m) 4 -> reserved_funct3 o f3 ->
  rv32.reg_ok rd -> rv32.reg_ok rs1 -> rv32.reg_ok rs2 -> 0 <= f7 < 128 ->
  rv32.load4 (rv32.mem (arch_of m)) (pc m) = rv32.pack o rd f3 rs1 rs2 f7 ->
  isa_model.run m = Abort.
Proof.
  intros Hm Hr Hres Hd H1 H2 H7 He.
  destruct (fetch_ram m Hm Hr) as (s & Hf & Hv & _). rewrite He in Hv.
  rewrite run_tail, Hf. cbn [mbind outcome_bind fst snd].
  unfold rv32.reg_ok in *.
  assert (Hrange : 0 <= o < 128 /\ 0 <= f3 < 8) by (unfold reserved_funct3 in Hres; lia).
  rewrite (decode_pack s o rd f3 rs1 rs2 f7 Hv) by lia.
  assert (Habort : forall s1 : isa_state_t, valid s1 = false ->
    op_unit s1 = op_unit.bru \/ op_unit s1 = op_unit.lsu ->
    execute s1 { m with pc := add32 (pc m) 4 } = Abort).
  { intros s1 Hs1 Hu. unfold execute, read_operands. rewrite Hs1. cbn [andb mbind outcome_bind].
    unfold dispatch, execute_bru, execute_lsu, unit_entry. rewrite Hs1.
    by destruct Hu as [-> | ->]. }
  match goal with |- context [isa_decode.switch_opcode ?f _] => set (fs := f) end.
  assert (Hdec : exists s1, isa_decode.switch_opcode fs (isa_decode.prepare s) = Ok s1 /\
    valid s1 = false /\ (op_unit s1 = op_unit.bru \/ op_unit s1 = op_unit.lsu)).
  { destruct Hres as [[-> Hf3] | [[-> Hf3] | [-> Hf3]]].
    - change (isa_decode.switch_opcode fs) with (isa_decode.case_branch fs).
      unfold isa_decode.case_branch. rewrite sign_extend_sext by (cbn; div_lia).
      cbn [mbind outcome_bind]. eexists. split; [reflexivity |]. cbn [fields.funct3 fs].
      destruct Hf3 as [-> | ->]; cbn; auto.
    - change (isa_decode.switch_opcode fs) with (isa_decode.case_load fs).
      unfold isa_decode.case_load. rewrite sign_extend_sext by (cbn; div_lia).
      cbn [mbind outcome_bind]. eexists. split; [reflexivity |]. cbn [fields.funct3 fs].
      destruct Hf3 as [-> | [-> | ->]]; cbn; auto.
    - change (isa_decode.switch_opcode fs) with (isa_decode.case_store fs).
      unfold isa_decode.case_store. rewrite sign_extend_sext by (cbn; div_lia).
      cbn [mbind outcome_bind]. eexists. split; [reflexivity |]. cbn [fields.funct3 fs].
      assert (Hc : f3 = 3 \/ f3 = 4 \/ f3 = 5 \/ f3 = 6 \/ f3 = 7) by lia.
      repeat destruct Hc as [-> | Hc]; subst; cbn; auto. }
  destruct Hdec as (s1 & -> & Hv1 & Hu). cbn [mbind outcome_bind].
  rewrite (Habort s1 Hv1 Hu). reflexivity.
Qed.

Lemma run_reserved_aborts_witness : isa_model.run (machine [0x00002063]) = Abort.
Proof.
  apply (run_reserved_aborts _ 0x63 0 2 0 0 0); unfold rv32.reg_ok, reserved_funct3; try lia.
  - apply machine_wf.
  - apply start_in_ram.
  - reflexivity.
Defined.

Fixpoint clint_ticks (n : nat) (ci : clint_t * interrupt_interface_t) :
  outcome (clint_t * interrupt_interface_t) :=
  match n with
  | O => Ok ci
  | S n => ci ← clint.run ci.1 ci.2; clint_ticks n ci
  end.

(** Timer: after [n] ticks of the CLINT (its time not being overridden) mtime
    has advanced by [n] modulo 2^64, and the pending flags of the interrupt
    interface are the comparison of mtime with mtimecmp and the software bit. *)
Theorem clint_timer (n : nat) (c : clint_t) (i : interrupt_interface_t) :
  is_u64 (clint.mtime c) -> clint.mtime_changed c = false -> (0 < n)%nat ->
  exists c' i', clint_ticks n (c, i) = Ok (c', i') /\
    clint.mtime c' = (clint.mtime c + Z.of_nat n) mod two64 /\
    clint.mtimecmp c' = clint.mtimecmp c /\
    interrupt_interface.mtip i' = (clint.mtimecmp c <=? clint.mtime c') /\
    interrupt_interface.msip i' = clint.msip c /\
    interrupt_interface.meip i' = interrupt_interface.meip i.
Proof.
  revert c i. induction n as [|n IH]; intros c i Hc Hch Hn; [lia |].
  cbn [clint_ticks fst snd]. unfold clint.run at 1. rewrite Hch.
  cbn [negb interrupt_interface.set_pending mbind outcome_bind].
  destruct n as [|n].
  - cbn [clint_ticks]. eexists _, _. split; [reflexivity |]. by split_and!.
  - match goal with |- exists _ _, ?t = _ /\ _ =>
      match t with context [clint_ticks _ (?c1, ?i1)] =>
        destruct (IH c1 i1) as (c' & i' & E & H1 & H2 & H3 & H4 & H5)
      end end; [apply u64_range | done | lia |].
    exists c', i'. split; [exact E |]. split_and!; [| exact H2 | exact H3 | exact H4 | exact H5].
    rewrite H1. cbn. unfold u64. rewrite Zplus_mod_idemp_l. f_equal. lia.
Qed.

Lemma clint_timer_witness :
  exists c' i', clint_ticks 3 (clint.mk 0 false 2 0 false, interrupt_interface.new) = Ok (c', i') /\
    interrupt_interface.mtip i' = true.
Proof.
  destruct (clint_timer 3 (clint.mk 0 false 2 0 false) interrupt_interface.new)
    as (c' & i' & E & H1 & _ & H3 & _); [vm_compute; split; congruence | done | lia |].
  exists c', i'. split; [exact E |]. rewrite H3, H1. reflexivity.
Defined.
