(* ===== verification/ElfLoader.v ===== *)
(** * The ELF loader (src/elf_loader.cpp)

    [load_elf] as a function of the contents of the file: the checks on the ELF
    header and on each loadable segment, in the order of the code and in its 32
    bit arithmetic, the size of the image and the copy of the segments into it.
    Opening and reading the file are host input; [<elf.h>] is the C library's
    (the 32 bit little endian layout below).  A read behind the end of the file
    buffer or of the image is [Undef].

    The specification reads the same file with unbounded integers: [valid_elf]
    says when a file is a program for this machine and [image_byte] what its
    image is. *)

From S2P Require Import Prelude Word Rv32 Csr IsaBus IsaModel IsaInv IsaRefine.
From S2P Require Import IsaDevices IsaProps.

(** ** The messages [load_elf] exits with *)
Inductive load_error_t : Type :=
| not_a_valid_elf
| not_32_bit
| not_little_endian
| not_executable
| not_riscv
| invalid_entry
| invalid_virtual_address (addr : Z)
| too_large.

(** A check that exits the program with a message. *)
Definition demand {A : Type} (bad : outcome bool) (e : load_error_t)
    (k : outcome (load_error_t + A)) : outcome (load_error_t + A) :=
  bad ≫= fun b : bool => if b then Ok (inl e) else k.

(** [a || b] evaluates [b] only when [a] is false. *)
Definition or_else (a b : outcome bool) : outcome bool :=
  a ≫= fun x : bool => if x then Ok true else b.
Notation "a '|||' b" := (or_else a b) (at level 50, left associativity).
Definition differs (x : outcome Z) (v : Z) : outcome bool := a ← x; Ok (negb (a =? v)).

(** ** The layout of <elf.h>: little endian fields of the file buffer *)
Module elf.
Definition byte (buf : list Z) (i : Z) : outcome Z := arr_get buf i.
Definition half (buf : list Z) (i : Z) : outcome Z :=
  a ← byte buf i; b ← byte buf (i + 1); Ok (a + 256 * b).
Definition word (buf : list Z) (i : Z) : outcome Z :=
  a ← half buf i; b ← half buf (i + 2); Ok (a + 65536 * b).

Definition e_ident (buf : list Z) (i : Z) := byte buf i.
Definition e_type (buf : list Z) := half buf 16.
Definition e_machine (buf : list Z) := half buf 18.
Definition e_version (buf : list Z) := word buf 20.
Definition e_entry (buf : list Z) := word buf 24.
Definition e_phoff (buf : list Z) := word buf 28.
Definition e_shoff (buf : list Z) := word buf 32.
Definition e_phentsize (buf : list Z) := half buf 42.
Definition e_phnum (buf : list Z) := half buf 44.
Definition e_shentsize (buf : list Z) := half buf 46.
Definition e_shnum (buf : list Z) := half buf 48.

(** [phdr[i]] of the table at [phoff]. *)
Definition p_type (buf : list Z) (phoff i : Z) := word buf (phoff + 32 * i).
Definition p_offset (buf : list Z) (phoff i : Z) := word buf (phoff + 32 * i + 4).
Definition p_paddr (buf : list Z) (phoff i : Z) := word buf (phoff + 32 * i + 12).
Definition p_filesz (buf : list Z) (phoff i : Z) := word buf (phoff + 32 * i + 16).
Definition p_memsz (buf : list Z) (phoff i : Z) := word buf (phoff + 32 * i + 20).

Definition PT_LOAD : Z := 1.
Definition sizeof_ehdr : Z := 52.
Definition sizeof_phdr : Z := 32.
Definition sizeof_shdr : Z := 40.
End elf.

(** [memcpy(dst + d, src + s, n)]: both ranges have to lie in their arrays. *)
Definition memcpy (dst : list Z) (d : Z) (src : list Z) (s n : Z) : outcome (list Z) :=
  if n =? 0 then Ok dst
  else if (0 <=? d) && (d + n <=? zlen dst) && (0 <=? s) && (s + n <=? zlen src) then
    Ok (take (Z.to_nat d) dst
        ++ take (Z.to_nat n) (drop (Z.to_nat s) src)
        ++ drop (Z.to_nat (d + n)) dst)
  else Undef.

Module loader.
Import elf.

(** The checks of the ELF header. *)
Definition check_header {A : Type} (buf : list Z) (k : outcome (load_error_t + A)) :
    outcome (load_error_t + A) :=
  demand (differs (e_ident buf 0) 0x7f ||| differs (e_ident buf 1) 69 |||
          differs (e_ident buf 2) 76 ||| differs (e_ident buf 3) 70) not_a_valid_elf $
  demand (differs (e_ident buf 4) 1) not_32_bit $
  demand (differs (e_ident buf 5) 1) not_little_endian $
  demand (differs (e_ident buf 6) 1) not_a_valid_elf $
  demand (differs (e_type buf) 2) not_executable $
  demand (differs (e_machine buf) 243) not_riscv $
  demand (differs (e_version buf) 1) not_a_valid_elf $
  demand ((p ← e_phoff buf; Ok (p =? 0)) ||| differs (e_phentsize buf) sizeof_phdr |||
          (n ← e_phnum buf; Ok (n =? 0))) not_a_valid_elf $
  demand ((p ← e_shoff buf; Ok (p =? 0)) ||| differs (e_shentsize buf) sizeof_shdr |||
          (n ← e_shnum buf; Ok (n =? 0))) not_a_valid_elf $
  demand (differs (e_entry buf) INIT_PC) invalid_entry k.

(** One turn of the first loop: the checks of a segment and its end. *)
Definition check_segment (buf : list Z) (phoff i bin_size : Z) :
    outcome (load_error_t + Z) :=
  t ← p_type buf phoff i;
  if negb (t =? PT_LOAD) then Ok (inr bin_size)
  else
    o ← p_offset buf phoff i;
    f ← p_filesz buf phoff i;
    if zlen buf <? add32 o f then Ok (inl not_a_valid_elf)
    else
      a ← p_paddr buf phoff i;
      if a <? MEMORY_BASE then Ok (inl (invalid_virtual_address a))
      else
        m ← p_memsz buf phoff i;
        if add32 MEMORY_BASE MEMORY_SIZE <? add32 a m then Ok (inl too_large)
        else if m <? f then Ok (inl not_a_valid_elf)
        else Ok (inr (Z.max bin_size (sub32 (add32 a m) MEMORY_BASE))).

Fixpoint check_segments (n : nat) (buf : list Z) (phoff i bin_size : Z) :
    outcome (load_error_t + Z) :=
  match n with
  | O => Ok (inr bin_size)
  | S n =>
      r ← check_segment buf phoff i bin_size;
      match r with
      | inl e => Ok (inl e)
      | inr bin_size => check_segments n buf phoff (i + 1) bin_size
      end
  end.

(** One turn of the second loop: the copy of a segment. *)
Definition copy_segment (buf : list Z) (phoff i : Z) (bin : list Z) : outcome (list Z) :=
  t ← p_type buf phoff i;
  if negb (t =? PT_LOAD) then Ok bin
  else
    a ← p_paddr buf phoff i;
    o ← p_offset buf phoff i;
    f ← p_filesz buf phoff i;
    memcpy bin (a - MEMORY_BASE) buf o f.

Fixpoint copy_segments (n : nat) (buf : list Z) (phoff i : Z) (bin : list Z) :
    outcome (list Z) :=
  match n with
  | O => Ok bin
  | S n => bin ← copy_segment buf phoff i bin; copy_segments n buf phoff (i + 1) bin
  end.

(** [load_elf] of a file with the contents [buf]. *)
Definition load_elf (buf : list Z) : outcome (load_error_t + list Z) :=
  check_header buf $
  phoff ← e_phoff buf;
  phnum ← e_phnum buf;
  r ← check_segments (Z.to_nat phnum) buf phoff 0 0;
  match r with
  | inl e => Ok (inl e)
  | inr bin_size =>
      if MEMORY_SIZE <? bin_size then Ok (inl too_large)
      else
        bin ← copy_segments (Z.to_nat phnum) buf phoff 0
                (replicate (Z.to_nat bin_size) 0);
        Ok (inr bin)
  end.

(** [load_elf_file] of main.cpp on the ISA model. *)
Definition load_elf_file (buf : list Z) (m : isa_model.isa_model_t) :
    outcome (load_error_t + isa_model.isa_model_t) :=
  r ← load_elf buf;
  match r with
  | inl e => Ok (inl e)
  | inr bin => m ← isa_model.load bin m; Ok (inr m)
  end.
End loader.

(** ** Specification, with unbounded integers *)
Module elf_spec.
Definition byte_at (buf : list Z) (i : Z) : Z := default 0 (buf !! Z.to_nat i).
Definition half_at (buf : list Z) (i : Z) : Z := byte_at buf i + 256 * byte_at buf (i + 1).
Definition word_of (buf : list Z) (i : Z) : Z := half_at buf i + 65536 * half_at buf (i + 2).

(** The header of an executable for this machine. *)
Definition header_ok (buf : list Z) : bool :=
  bool_decide (byte_at buf <$> [0; 1; 2; 3; 4; 5; 6] = [0x7f; 69; 76; 70; 1; 1; 1])
  && (half_at buf 16 =? 2) && (half_at buf 18 =? 243) && (word_of buf 20 =? 1)
  && (negb (word_of buf 28 =? 0) && (half_at buf 42 =? elf.sizeof_phdr)
      && negb (half_at buf 44 =? 0))
  && (negb (word_of buf 32 =? 0) && (half_at buf 46 =? elf.sizeof_shdr)
      && negb (half_at buf 48 =? 0))
  && (word_of buf 24 =? INIT_PC).

Definition phoff (buf : list Z) : Z := word_of buf 28.
Definition phnum (buf : list Z) : nat := Z.to_nat (half_at buf 44).

Record segment_t := mk_segment { offset : Z; paddr : Z; filesz : Z; memsz : Z }.
Definition segment (buf : list Z) (p i : Z) : option segment_t :=
  if word_of buf (p + 32 * i) =? elf.PT_LOAD then
    Some (mk_segment (word_of buf (p + 32 * i + 4)) (word_of buf (p + 32 * i + 12))
                     (word_of buf (p + 32 * i + 16)) (word_of buf (p + 32 * i + 20)))
  else None.
(** The loadable segments [i], ..., [i + n - 1]. *)
Fixpoint segments_from (n : nat) (buf : list Z) (p i : Z) : list segment_t :=
  match n with
  | O => []
  | S n => option_list (segment buf p i) ++ segments_from n buf p (i + 1)
  end.
Definition segments (buf : list Z) : list segment_t :=
  segments_from (phnum buf) buf (phoff buf) 0.

(** A segment comes from the file and goes into the RAM. *)
Definition segment_ok (buf : list Z) (s : segment_t) : bool :=
  (offset s + filesz s <=? zlen buf) && (MEMORY_BASE <=? paddr s)
  && (paddr s + memsz s <=? MEMORY_BASE + MEMORY_SIZE) && (filesz s <=? memsz s).
Definition valid_elf (buf : list Z) : bool :=
  header_ok buf && forallb (segment_ok buf) (segments buf).

(** The image: as long as the last segment reaches, each byte from the last
    segment that holds it, 0 where none does. *)
Definition first (s : segment_t) : Z := paddr s - MEMORY_BASE.
Definition extent (l : list segment_t) (b : Z) : Z :=
  foldl (fun b s => Z.max b (first s + memsz s)) b l.
Definition segment_byte (buf : list Z) (k d : Z) (s : segment_t) : Z :=
  if (first s <=? k) && (k <? first s + filesz s)
  then byte_at buf (offset s + (k - first s)) else d.
Definition image_byte (buf : list Z) (l : list segment_t) (k d : Z) : Z :=
  foldl (segment_byte buf k) d l.

(** The sums of a segment's header stay below 2^32. *)
Definition no_wrap (s : segment_t) : bool :=
  (offset s + filesz s <? two32) && (paddr s + memsz s <? two32).
(** The file holds its header and its table of program headers. *)
Definition tables_in_file (buf : list Z) : bool :=
  (elf.sizeof_ehdr <=? zlen buf)
  && (phoff buf + 32 * half_at buf 44 <=? zlen buf).
End elf_spec.

(** ** Proofs *)
Section loader.
Import elf_spec loader.
Context (buf : list Z) (Hb : Forall is_u8 buf).

Lemma byte_read i : 0 <= i < zlen buf -> elf.byte buf i = Ok (byte_at buf i).
Proof.
  intros Hi. unfold elf.byte, byte_at. destruct (arr_get_ok buf i Hi) as [x Hx].
  rewrite Hx. apply arr_get_Some in Hx as [_ ->]. done.
Qed.

Lemma half_read i : 0 <= i -> i + 2 <= zlen buf -> elf.half buf i = Ok (half_at buf i).
Proof.
  intros H0 H1. unfold elf.half, half_at. rewrite !byte_read by lia. done.
Qed.

Lemma word_read i : 0 <= i -> i + 4 <= zlen buf -> elf.word buf i = Ok (word_of buf i).
Proof.
  intros H0 H1. unfold elf.word, word_of. rewrite !half_read by lia. done.
Qed.

Lemma byte_at_range i : is_u8 (byte_at buf i).
Proof.
  unfold byte_at. destruct (buf !! Z.to_nat i) as [x|] eqn:E; cbn; [| word_lia].
  by eapply Forall_lookup_1 in E.
Qed.

Lemma half_at_range i : is_u16 (half_at buf i).
Proof.
  unfold half_at. pose proof (byte_at_range i). pose proof (byte_at_range (i + 1)).
  word_lia.
Qed.

Lemma word_at_range i : is_u32 (word_of buf i).
Proof.
  unfold word_of. pose proof (half_at_range i). pose proof (half_at_range (i + 2)).
  word_lia.
Qed.

Lemma memcpy_spec dst d s n :
  0 <= d -> 0 <= s -> 0 <= n -> d + n <= zlen dst -> s + n <= zlen buf ->
  exists r, memcpy dst d buf s n = Ok r /\ zlen r = zlen dst
    /\ forall k, 0 <= k ->
       byte_at r k = if (d <=? k) && (k <? d + n) then byte_at buf (s + (k - d))
                     else byte_at dst k.
Proof.
  intros Hd Hs Hn Hdst Hsrc. unfold memcpy. destruct (n =? 0) eqn:En.
  { exists dst. split_and!; [done | done |]. intros k Hk. case_match; [lia | done]. }
  replace ((0 <=? d) && (d + n <=? zlen dst) && (0 <=? s) && (s + n <=? zlen buf))
    with true by lia.
  eexists. split; [done |]. unfold zlen, byte_at in *. split.
  { rewrite !length_app, !length_take, !length_drop. lia. }
  intros k Hk. destruct (decide (k < d)) as [Hkd | Hkd].
  { replace ((d <=? k) && (k <? d + n)) with false by lia.
    rewrite lookup_app_l by (rewrite length_take; lia). by rewrite lookup_take_lt by lia. }
  rewrite lookup_app_r by (rewrite length_take; lia).
  rewrite length_take_le by lia. destruct (decide (k < d + n)) as [Hkn | Hkn].
  - replace ((d <=? k) && (k <? d + n)) with true by lia.
    rewrite lookup_app_l by (rewrite length_take, length_drop; lia).
    rewrite lookup_take_lt by lia. rewrite lookup_drop. do 2 f_equal. lia.
  - replace ((d <=? k) && (k <? d + n)) with false by lia.
    rewrite lookup_app_r by (rewrite length_take, length_drop; lia).
    rewrite length_take, length_drop, lookup_drop. do 2 f_equal. lia.
Qed.

(** The header *)
Lemma check_header_spec {A : Type} (k : outcome (load_error_t + A)) :
  elf.sizeof_ehdr <= zlen buf ->
  if header_ok buf then check_header buf k = k
  else exists e, check_header buf k = Ok (inl e).
Proof.
  unfold elf.sizeof_ehdr. intros Hl. unfold check_header, header_ok.
  unfold elf.e_ident, elf.e_type, elf.e_machine, elf.e_version, elf.e_phoff,
    elf.e_phentsize, elf.e_phnum, elf.e_shoff, elf.e_shentsize, elf.e_shnum, elf.e_entry.
  rewrite !byte_read, !half_read, !word_read by lia. cbn [fmap list_fmap].
  unfold demand, or_else, differs. cbn.
  repeat match goal with
  | |- context [byte_at buf ?i =? ?v] =>
      let E := fresh "E" in destruct (byte_at buf i =? v) eqn:E; cbn;
      [apply Z.eqb_eq in E; rewrite ?E
      | rewrite bool_decide_eq_false_2 by (intros [=]; lia); cbn; by eexists]
  end.
  rewrite bool_decide_eq_true_2 by done. cbn.
  repeat match goal with
  | |- context [?x =? ?v] => destruct (x =? v); cbn; try by eexists
  end.
Qed.

(** The table of program headers *)
Section table.
Context (p : Z) (Hp : 0 <= p).

Lemma segment_fields i :
  0 <= i -> p + 32 * (i + 1) <= zlen buf ->
  elf.p_type buf p i = Ok (word_of buf (p + 32 * i))
  /\ elf.p_offset buf p i = Ok (word_of buf (p + 32 * i + 4))
  /\ elf.p_paddr buf p i = Ok (word_of buf (p + 32 * i + 12))
  /\ elf.p_filesz buf p i = Ok (word_of buf (p + 32 * i + 16))
  /\ elf.p_memsz buf p i = Ok (word_of buf (p + 32 * i + 20)).
Proof.
  intros H0 H1.
  unfold elf.p_type, elf.p_offset, elf.p_paddr, elf.p_filesz, elf.p_memsz.
  rewrite !word_read by lia. done.
Qed.

Lemma segment_range i s :
  segment buf p i = Some s ->
  is_u32 (offset s) /\ is_u32 (paddr s) /\ is_u32 (filesz s) /\ is_u32 (memsz s).
Proof.
  unfold segment. case_match; [| done]. intros [= <-].
  repeat split; apply word_at_range.
Qed.

(** The checks of a segment in 32 bit arithmetic. *)
Lemma check_arith (o a f m b : Z) :
  is_u32 o -> is_u32 a -> is_u32 f -> is_u32 m -> o + f < two32 -> a + m < two32 ->
  let r :=
    if zlen buf <? add32 o f then Ok (inl not_a_valid_elf)
    else if a <? MEMORY_BASE then Ok (inl (invalid_virtual_address a))
    else if add32 MEMORY_BASE MEMORY_SIZE <? add32 a m then Ok (inl too_large)
    else if m <? f then Ok (inl not_a_valid_elf)
    else Ok (inr (Z.max b (sub32 (add32 a m) MEMORY_BASE))) in
  if (o + f <=? zlen buf) && (MEMORY_BASE <=? a) && (a + m <=? MEMORY_BASE + MEMORY_SIZE)
     && (f <=? m)
  then r = Ok (inr (Z.max b (a - MEMORY_BASE + m))) else exists e, r = Ok (inl e).
Proof.
  intros Ho Ha Hf Hm Hof Ham.
  assert (Hbase : MEMORY_BASE = 2147483648) by reflexivity.
  assert (Hlimit : add32 MEMORY_BASE MEMORY_SIZE = 2148532224) by reflexivity.
  assert (Hsize : MEMORY_SIZE = 1048576) by reflexivity.
  rewrite Hlimit. unfold add32. rewrite (u32_small (o + f)), (u32_small (a + m)) by word_lia.
  assert (Hsub : MEMORY_BASE <= a -> sub32 (a + m) MEMORY_BASE = a - MEMORY_BASE + m).
  { intros. unfold sub32. rewrite u32_small by word_lia. lia. }
  repeat case_match; try lia; try (by eexists).
  rewrite Hsub by lia. reflexivity.
Qed.

Lemma check_segment_spec i b :
  0 <= i -> p + 32 * (i + 1) <= zlen buf ->
  forallb no_wrap (option_list (segment buf p i)) ->
  if forallb (segment_ok buf) (option_list (segment buf p i))
  then check_segment buf p i b = Ok (inr (extent (option_list (segment buf p i)) b))
  else exists e, check_segment buf p i b = Ok (inl e).
Proof.
  intros H0 H1 Hw. destruct (segment_fields i H0 H1) as (Ht & Ho & Ha & Hf & Hm).
  pose proof (segment_range i) as Hr. unfold check_segment. rewrite Ht. cbn [mbind outcome_bind].
  unfold segment in *. destruct (word_of buf (p + 32 * i) =? elf.PT_LOAD); cbn in *; [| done].
  specialize (Hr _ eq_refl). rewrite andb_true_r in *. cbn in *.
  apply Is_true_true in Hw. unfold no_wrap in Hw. cbn in Hw.
  rewrite Ho, Ha, Hf, Hm. cbn [mbind outcome_bind].
  destruct Hr as (Hr1 & Hr2 & Hr3 & Hr4). unfold segment_ok, first. cbn [offset paddr filesz memsz].
  cbn [option_list forallb extent foldl].
  apply check_arith; [assumption.. | lia | lia].
Qed.

Lemma check_segments_spec n i b :
  0 <= i -> p + 32 * (i + Z.of_nat n) <= zlen buf ->
  forallb no_wrap (segments_from n buf p i) ->
  if forallb (segment_ok buf) (segments_from n buf p i)
  then check_segments n buf p i b = Ok (inr (extent (segments_from n buf p i) b))
  else exists e, check_segments n buf p i b = Ok (inl e).
Proof.
  revert i b. induction n as [|n IH]; intros i b H0 H1 Hw; [done |].
  cbn [segments_from check_segments] in *. rewrite forallb_app in *.
  apply andb_prop_elim in Hw as [Hw1 Hw2].
  pose proof (check_segment_spec i b H0 ltac:(lia) Hw1) as Hs.
  revert Hs. destruct (forallb (segment_ok buf) (option_list (segment buf p i))); intros Hs.
  - rewrite Hs. cbn [mbind outcome_bind andb].
    unfold extent. rewrite foldl_app. apply IH; [lia | lia | done].
  - destruct Hs as [e ->]. cbn. by exists e.
Qed.

Lemma copy_segment_spec i bin :
  0 <= i -> p + 32 * (i + 1) <= zlen buf ->
  Forall (fun s => segment_ok buf s /\ first s + memsz s <= zlen bin)
         (option_list (segment buf p i)) ->
  exists bin', copy_segment buf p i bin = Ok bin' /\ zlen bin' = zlen bin
    /\ forall k, 0 <= k ->
       byte_at bin' k = image_byte buf (option_list (segment buf p i)) k (byte_at bin k).
Proof.
  intros H0 H1 Hs. destruct (segment_fields i H0 H1) as (Ht & Ho & Ha & Hf & Hm).
  pose proof (segment_range i) as Hr. unfold copy_segment. rewrite Ht. cbn [mbind outcome_bind].
  unfold segment in *. destruct (word_of buf (p + 32 * i) =? elf.PT_LOAD); cbn in *; [| by eauto].
  specialize (Hr _ eq_refl). apply Forall_singleton in Hs as [Hok Hend].
  rewrite Ho, Ha, Hf. unfold image_byte, segment_byte, segment_ok, first in *. cbn in *.
  apply Is_true_true in Hok. destruct Hr as (? & ? & ? & ?). apply memcpy_spec; word_lia.
Qed.

Lemma copy_segments_spec n i bin :
  0 <= i -> p + 32 * (i + Z.of_nat n) <= zlen buf ->
  Forall (fun s => segment_ok buf s /\ first s + memsz s <= zlen bin)
         (segments_from n buf p i) ->
  exists bin', copy_segments n buf p i bin = Ok bin' /\ zlen bin' = zlen bin
    /\ forall k, 0 <= k ->
       byte_at bin' k = image_byte buf (segments_from n buf p i) k (byte_at bin k).
Proof.
  revert i bin. induction n as [|n IH]; intros i bin H0 H1 Hs; [by exists bin |].
  cbn [segments_from copy_segments] in *. apply Forall_app in Hs as [Hs1 Hs2].
  destruct (copy_segment_spec i bin H0 ltac:(lia) Hs1) as (bin1 & -> & Hl1 & Hb1).
  rewrite <- Hl1 in Hs2.
  destruct (IH (i + 1) bin1 ltac:(lia) ltac:(lia) Hs2) as (bin2 & Hc & Hl2 & Hb2).
  exists bin2. cbn. split_and!; [done | lia |].
  intros k Hk. rewrite (Hb2 k Hk), (Hb1 k Hk). unfold image_byte. by rewrite foldl_app.
Qed.
End table.
End loader.

Section image.
Import elf_spec.
Context (buf : list Z).

Lemma extent_start l b : b <= extent l b.
Proof.
  revert b. induction l as [|s l IH]; intros b; cbn; [lia |].
  etransitivity; [| apply IH]. lia.
Qed.

Lemma extent_segment l b s : s ∈ l -> first s + memsz s <= extent l b.
Proof.
  intros Hs. revert b. induction Hs as [| ? ? ? ? IH]; intros b; cbn; [| apply IH].
  etransitivity; [| apply extent_start]. lia.
Qed.

Lemma extent_bounded l b :
  b <= MEMORY_SIZE -> forallb (segment_ok buf) l -> extent l b <= MEMORY_SIZE.
Proof.
  revert b. induction l as [|s l IH]; intros b Hb Hl; cbn in *; [done |].
  apply andb_prop_elim in Hl as [Hs%Is_true_true Hl]. apply IH; [| exact Hl].
  unfold segment_ok, first in *. lia.
Qed.
End image.

(** ** Properties *)
Section props.
Import elf_spec loader.

(** [load_elf] decides exactly which files are valid, builds the specified image
    of those, and never reads or writes out of bounds. *)
Lemma load_elf_image buf :
  Forall is_u8 buf -> tables_in_file buf -> forallb no_wrap (segments buf) ->
  match load_elf buf with
  | Ok (inr bin) =>
      valid_elf buf /\ zlen bin = extent (segments buf) 0 /\ zlen bin <= MEMORY_SIZE
      /\ forall k, 0 <= k < zlen bin ->
         arr_get bin k = Ok (image_byte buf (segments buf) k 0)
  | Ok (inl _) => ~ valid_elf buf
  | _ => False
  end.
Proof.
  intros Hb Ht Hw. unfold tables_in_file, elf.sizeof_ehdr in Ht. apply Is_true_true in Ht.
  pose proof (word_at_range buf Hb 28) as Hp. pose proof (half_at_range buf Hb 44) as Hn.
  unfold load_elf, valid_elf.
  match goal with |- context [check_header buf ?k] =>
    pose proof (check_header_spec buf k ltac:(unfold elf.sizeof_ehdr; lia)) as Hh end.
  revert Hh. destruct (header_ok buf); [| intros [e ->] []].
  intros ->. unfold elf.e_phoff, elf.e_phnum.
  rewrite word_read, half_read by lia. cbn [mbind outcome_bind andb].
  change (word_of buf 28) with (phoff buf). change (Z.to_nat (half_at buf 44)) with (phnum buf).
  assert (Hin : phoff buf + 32 * (0 + Z.of_nat (phnum buf)) <= zlen buf)
    by (unfold phoff, phnum in *; word_lia).
  assert (Hp0 : 0 <= phoff buf) by (unfold phoff; word_lia).
  pose proof (check_segments_spec buf Hb (phoff buf) Hp0 (phnum buf) 0 0 ltac:(done) Hin Hw) as Hc.
  change (segments_from (phnum buf) buf (phoff buf) 0) with (segments buf) in Hc.
  revert Hc. destruct (forallb (segment_ok buf) (segments buf)) eqn:Eok; [| intros [e ->] []].
  intros ->. cbn [mbind outcome_bind].
  pose proof (extent_bounded buf (segments buf) 0 ltac:(done) ltac:(by rewrite Eok)) as Hmax.
  pose proof (extent_start (segments buf) 0) as Hmin.
  replace (MEMORY_SIZE <? extent (segments buf) 0) with false by lia.
  set (bin0 := replicate _ 0).
  assert (Hbin0 : zlen bin0 = extent (segments buf) 0)
    by (unfold bin0, zlen; rewrite length_replicate; lia).
  destruct (copy_segments_spec buf Hb (phoff buf) Hp0 (phnum buf) 0 bin0)
    as (bin & -> & Hl & Hk); [done | done | |].
  { apply Forall_forall. intros s Hs. split.
    - apply Is_true_true in Eok. apply forallb_True in Eok.
      exact (proj1 (Forall_forall _ _) Eok s Hs).
    - rewrite Hbin0. by apply extent_segment. }
  cbn [mbind outcome_bind]. split_and!; [done | lia | lia |].
  intros k Hkr. assert (Hke : k < extent (segments buf) 0) by lia.
  apply arr_get_Some. split; [lia |].
  change (segments_from (phnum buf) buf (phoff buf) 0) with (segments buf) in Hk.
  specialize (Hk k ltac:(lia)). unfold byte_at in Hk at 1. unfold zlen in Hkr.
  destruct (lookup_lt_is_Some_2 bin (Z.to_nat k)) as [x Hx]; [lia |].
  rewrite Hx in *. cbn in Hk. rewrite Hk. do 2 f_equal.
  unfold byte_at, bin0. rewrite lookup_replicate_2 by lia. done.
Qed.

Lemma image_byte_range buf l k d :
  Forall is_u8 buf -> is_u8 d -> is_u8 (image_byte buf l k d).
Proof.
  intros Hb. revert d. induction l as [|s l IH]; intros d Hd; cbn; [done |].
  apply IH. unfold segment_byte. case_match; [by apply byte_at_range | done].
Qed.

(** ** C27
    Running an ELF file, under two conditions that the code does not check: the
    file holds its ELF header and its table of segment headers
    ([tables_in_file]), and no segment header overflows 32 bits ([no_wrap]:
    p_paddr + p_memsz and p_offset + p_filesz are the sums).  Without them the
    code can read behind the file or write behind the image
    ([wrapped_segment]).  With them [load_elf] and then [load] never leave
    their buffers.  A file that is not a valid executable for this machine is
    refused with a message.  A valid one that ends before the end of the RAM is
    loaded: the RAM of the ISA model has each byte from the last segment that
    holds it, 0 elsewhere up to the end of the last segment, and the rest of the
    RAM, pc, the registers and the CSRs are unchanged.  A valid one that fills
    the RAM to the last byte passes [load_elf] and aborts in [load]. *)
Theorem load_elf_file_spec (buf : list Z) (m : isa_model.isa_model_t) :
  isa_wf m -> Forall is_u8 buf -> tables_in_file buf -> forallb no_wrap (segments buf) ->
  if negb (valid_elf buf) then exists e, load_elf_file buf m = Ok (inl e)
  else if extent (segments buf) 0 =? MEMORY_SIZE then load_elf_file buf m = Abort
  else exists m', load_elf_file buf m = Ok (inr m') /\ isa_wf m' /\
    isa_model.pc m' = isa_model.pc m /\
    isa_model.arch_regfile m' = isa_model.arch_regfile m /\
    isa_model.csr_env m' = isa_model.csr_env m /\
    forall y, rv32.mem (arch_of m') y =
      if (MEMORY_BASE <=? y) && (y <? MEMORY_BASE + extent (segments buf) 0)
      then image_byte buf (segments buf) (y - MEMORY_BASE) 0
      else rv32.mem (arch_of m) y.
Proof.
  intros Hm Hb Ht Hw. pose proof (load_elf_image buf Hb Ht Hw) as H. unfold load_elf_file.
  destruct (load_elf buf) as [[e | bin] | | |]; try done.
  { destruct (valid_elf buf); [by destruct H |]. by exists e. }
  destruct H as (Hv & Hl & Hmax & Hk). apply Is_true_true in Hv. rewrite Hv. cbn [negb mbind outcome_bind].
  unfold isa_model.load. destruct (extent (segments buf) 0 =? MEMORY_SIZE) eqn:Efull.
  { replace (zlen bin <? MEMORY_SIZE) with false by lia. done. }
  replace (zlen bin <? MEMORY_SIZE) with true by lia. cbn [verify mbind outcome_bind].
  assert (Hbin : Forall is_u8 bin).
  { apply Forall_lookup_2. intros i x Hx. pose proof (lookup_lt_Some _ _ _ Hx) as Hi.
    destruct (proj1 (arr_get_Some _ _ _) (Hk (Z.of_nat i) ltac:(unfold zlen; lia))) as [_ Hy].
    rewrite Nat2Z.id, Hx in Hy. injection Hy as ->. by apply image_byte_range. }
  destruct (load_from_spec bin m 0 Hm) as (m' & -> & W & P & R & C & M); [lia | lia | done |].
  exists m'. cbn [mbind outcome_bind]. split_and!; [done.. |].
  intros y. rewrite M, Z.add_0_r. clear M.
  destruct ((MEMORY_BASE <=? y) && (y <? MEMORY_BASE + extent (segments buf) 0)) eqn:Ey.
  - destruct (proj1 (arr_get_Some _ _ _) (Hk (y - MEMORY_BASE) ltac:(lia))) as [_ ->].
    by replace (MEMORY_BASE <=? y) with true by lia.
  - destruct (bin !! Z.to_nat (y - MEMORY_BASE)) as [x|] eqn:Ex; [| done].
    apply lookup_lt_Some in Ex. unfold zlen in *.
    by replace (MEMORY_BASE <=? y) with false by lia.
Qed.
End props.

(** ** Concrete files *)
Definition le16 (x : Z) : list Z := [x mod 256; x / 256 mod 256].
Definition le32 (x : Z) : list Z := le16 (x mod 65536) ++ le16 (x / 65536).

(** A header, one program header of a loadable segment and its contents. *)
Definition one_segment (o a f n : Z) (bytes : list Z) : list Z :=
  [0x7f; 69; 76; 70; 1; 1; 1] ++ replicate 9 0
  ++ le16 2 ++ le16 243 ++ le32 1 ++ le32 0x80000000 ++ le32 52 ++ le32 84 ++ le32 0
  ++ le16 52 ++ le16 32 ++ le16 1 ++ le16 40 ++ le16 1 ++ le16 0
  ++ le32 1 ++ le32 o ++ le32 a ++ le32 a ++ le32 f ++ le32 n ++ le32 5 ++ le32 4
  ++ bytes.

(** Four bytes of code and four bytes of zeros at 0x80000010. *)
Definition demo_elf : list Z := one_segment 84 0x80000010 4 8 [0x93; 0x00; 0x50; 0x00].

Example demo_elf_image :
  loader.load_elf demo_elf = Ok (inr (replicate 16 0 ++ [0x93; 0; 0x50; 0] ++ replicate 4 0)).
Proof. vm_compute. reflexivity. Qed.

(** A segment whose end wraps around the address space passes the checks, and
    is copied behind the image. *)
Example wrapped_segment :
  loader.load_elf (one_segment 84 0xF0000000 1 0x90000100 [1]) = Undef.
Proof. vm_compute. reflexivity. Qed.

(** A segment that fills the RAM is accepted by [load_elf] and then stops
    [load]. *)
Example full_memory_aborts (m : isa_model.isa_model_t) :
  loader.load_elf_file (one_segment 84 0x80000000 0 0x100000 []) m = Abort.
Proof. vm_compute. reflexivity. Qed.

#[local] Abbreviation demo_machine := IsaProps.demo_machine.
Lemma load_elf_file_spec_witness :
  exists m', loader.load_elf_file demo_elf demo_machine = Ok (inr m') /\
    rv32.mem (arch_of m') 0x80000012 = 0x50.
Proof.
  destruct (load_elf_file_spec demo_elf demo_machine (machine_wf _)) as (m' & E & _ & _ & _ & _ & M).
  - decide_closed.
  - vm_compute. exact I.
  - vm_compute. exact I.
  - exists m'. split; [exact E |]. rewrite M. vm_compute. reflexivity.
Defined.
