(* ===== verification/Dff.v ===== *)
(** * Registers of the cycle model

    include/cycle_model/component/dff.h, port.h and handshake_dff.h.

    A flip-flop has a current and a new value; [dff_base::sync_all] at the end
    of a cycle makes every new value current.  The flip-flops are independent,
    so a component's [sync] is the [sync] of each of its fields, in any order. *)

From S2P Require Import Prelude Word.

Module dff.
Record dff_t (T : Type) := mk { init_value : T; cur_value : T; new_value : T; changed : bool }.
Arguments mk {T} _ _ _ _.
Arguments init_value {T} _.
Arguments cur_value {T} _.
Arguments new_value {T} _.
Arguments changed {T} _.

Section dff.
Context {T : Type}.
Implicit Types (d : dff_t T) (v : T).

Definition new (v : T) : dff_t T := mk v v v false.
Definition sync (d : dff_t T) : dff_t T :=
  mk (init_value d) (new_value d) (new_value d) false.
Definition reset (d : dff_t T) : dff_t T :=
  mk (init_value d) (init_value d) (init_value d) false.
Definition set (v : T) (d : dff_t T) : dff_t T := mk (init_value d) (cur_value d) v true.
Definition get (d : dff_t T) : T := cur_value d.
Definition get_new (d : dff_t T) : T := new_value d.
(** [revert] leaves [changed] alone. *)
Definition revert (d : dff_t T) : dff_t T :=
  mk (init_value d) (cur_value d) (cur_value d) (changed d).
Definition is_changed (d : dff_t T) : bool := changed d.
End dff.
End dff.
Abbreviation dff_t := dff.dff_t.

(** ** A register between two stages: [port] *)
Module port.
Record port_t (T : Type) := mk { value : dff_t T; init_value : T }.
Arguments mk {T} _ _.
Arguments value {T} _.
Arguments init_value {T} _.

Section port.
Context {T : Type}.
Definition new (v : T) : port_t T := mk (dff.new v) v.
Definition reset (p : port_t T) : port_t T := mk (dff.set (init_value p) (value p)) (init_value p).
Definition set (v : T) (p : port_t T) : port_t T := mk (dff.set v (value p)) (init_value p).
Definition get (p : port_t T) : T := dff.get (value p).
Definition get_new (p : port_t T) : T := dff.get_new (value p).
Definition sync (p : port_t T) : port_t T := mk (dff.sync (value p)) (init_value p).
End port.
End port.
Abbreviation port_t := port.port_t.

(** ** A one-element queue: [handshake_dff] *)
Module handshake_dff.
Record handshake_dff_t (T : Type) := mk { has_data : dff_t bool; data : dff_t T }.
Arguments mk {T} _ _.
Arguments has_data {T} _.
Arguments data {T} _.

Section handshake_dff.
Context {T : Type}.
Implicit Type h : handshake_dff_t T.

Definition reset (h : handshake_dff_t T) : handshake_dff_t T :=
  mk (dff.set false (has_data h)) (data h).
Definition new (v : T) : handshake_dff_t T := reset (mk (dff.new false) (dff.new v)).
Definition flush (h : handshake_dff_t T) : handshake_dff_t T :=
  mk (dff.set false (has_data h)) (data h).
Definition is_empty (h : handshake_dff_t T) : bool := negb (dff.get (has_data h)).
Definition is_full (h : handshake_dff_t T) : bool := dff.get_new (has_data h).
Definition push (x : T) (h : handshake_dff_t T) : bool * handshake_dff_t T :=
  if is_full h then (false, h)
  else (true, mk (dff.set true (has_data h)) (dff.set x (data h))).
Definition pop (h : handshake_dff_t T) : option T * handshake_dff_t T :=
  if is_empty h then (None, h)
  else (Some (dff.get (data h)), mk (dff.set false (has_data h)) (data h)).
Definition get_data (h : handshake_dff_t T) : option T :=
  if is_empty h then None else Some (dff.get (data h)).
Definition sync (h : handshake_dff_t T) : handshake_dff_t T :=
  mk (dff.sync (has_data h)) (dff.sync (data h)).
End handshake_dff.

(** *** Abstract specification

    [occupant]: what the consumer sees; [accepted]: what the producer has put
    there in this cycle. *)
Section spec.
Context {T : Type}.
Implicit Type h : handshake_dff_t T.

(** Consumer first, then producer, then the clock: the new element replaces
    the popped one, so a full slot is refilled without an idle cycle. *)
Lemma pop_push_sync h x y :
  dff.get (has_data h) = true -> dff.get (data h) = y -> dff.get_new (has_data h) = true ->
  pop h = (Some y, (pop h).2) /\
  (push x (pop h).2).1 = true /\ get_data (sync (push x (pop h).2).2) = Some x.
Proof.
  intros H1 H2 H3. unfold pop, is_empty. rewrite H1. cbn. split; [by rewrite H2 | done].
Qed.

(** Nothing is lost: without a pop a full slot refuses the producer and keeps
    its element. *)
Lemma push_full h x :
  dff.get_new (has_data h) = true -> push x h = (false, h).
Proof. intros H. unfold push, is_full. by rewrite H. Qed.
End spec.
End handshake_dff.
Abbreviation handshake_dff_t := handshake_dff.handshake_dff_t.
