(* ===== verification/Fifo.v ===== *)
(** * The clocked queue: include/cycle_model/component/fifo.h

    A ring buffer of flip-flops with write and read pointers that are
    flip-flops too; a stage bit, toggled on every turn, tells full from empty.
    The producer sees its own new write pointer and the customer's current read
    pointer, the customer its own new read pointer and the producer's current
    write pointer. *)

From S2P Require Import Prelude Word Dff.

Module fifo.
Record fifo_t (T : Type) := mk {
  buffer : list (dff_t T);
  size : Z;
  wptr : dff_t Z;
  wstage : dff_t bool;
  rptr : dff_t Z;
  rstage : dff_t bool
}.
Arguments mk {T} _ _ _ _ _ _.
Arguments buffer {T} _.
Arguments size {T} _.
Arguments wptr {T} _.
Arguments wstage {T} _.
Arguments rptr {T} _.
Arguments rstage {T} _.

Section fifo.
Context {T : Type}.
Implicit Types (f : fifo_t T) (x : T) (id : Z).

Definition set_wptr (p : Z) (s : bool) (f : fifo_t T) : fifo_t T :=
  mk (buffer f) (size f) (dff.set p (wptr f)) (dff.set s (wstage f)) (rptr f) (rstage f).
Definition set_rptr (p : Z) (s : bool) (f : fifo_t T) : fifo_t T :=
  mk (buffer f) (size f) (wptr f) (wstage f) (dff.set p (rptr f)) (dff.set s (rstage f)).

(** [reset] sets the new values; they take effect at the next clock. *)
Definition reset (f : fifo_t T) : fifo_t T := set_rptr 0 false (set_wptr 0 false f).
Definition flush (f : fifo_t T) : fifo_t T := reset f.
Definition new (sz : Z) (v : T) : fifo_t T :=
  reset (mk (replicate (Z.to_nat sz) (dff.new v)) sz (dff.new 0) (dff.new false)
            (dff.new 0) (dff.new false)).

(** [dff_base::sync_all] on this component. *)
Definition sync (f : fifo_t T) : fifo_t T :=
  mk (dff.sync <$> buffer f) (size f) (dff.sync (wptr f)) (dff.sync (wstage f))
     (dff.sync (rptr f)) (dff.sync (rstage f)).

(** *** Full and empty, from the three points of view *)
Definition producer_is_empty (f : fifo_t T) : bool :=
  (dff.get_new (wptr f) =? dff.get (rptr f)) && eqb (dff.get_new (wstage f)) (dff.get (rstage f)).
Definition customer_is_empty (f : fifo_t T) : bool :=
  (dff.get (wptr f) =? dff.get_new (rptr f)) && eqb (dff.get (wstage f)) (dff.get_new (rstage f)).
Definition new_is_empty (f : fifo_t T) : bool :=
  (dff.get_new (wptr f) =? dff.get_new (rptr f)) &&
  eqb (dff.get_new (wstage f)) (dff.get_new (rstage f)).
Definition producer_is_full (f : fifo_t T) : bool :=
  (dff.get_new (wptr f) =? dff.get (rptr f)) &&
  negb (eqb (dff.get_new (wstage f)) (dff.get (rstage f))).
Definition customer_is_full (f : fifo_t T) : bool :=
  (dff.get (wptr f) =? dff.get_new (rptr f)) &&
  negb (eqb (dff.get (wstage f)) (dff.get_new (rstage f))).
Definition new_is_full (f : fifo_t T) : bool :=
  (dff.get_new (wptr f) =? dff.get_new (rptr f)) &&
  negb (eqb (dff.get_new (wstage f)) (dff.get_new (rstage f))).

(** [buffer[id].set(x)] and [buffer[id].get()]. *)
Definition buffer_set (id : Z) (x : T) (f : fifo_t T) : outcome (fifo_t T) :=
  d ← arr_get (buffer f) id;
  b ← arr_set (buffer f) id (dff.set x d);
  Ok (mk b (size f) (wptr f) (wstage f) (rptr f) (rstage f)).
Definition buffer_get (id : Z) (f : fifo_t T) : outcome T :=
  d ← arr_get (buffer f) id; Ok (dff.get d).
Definition buffer_get_new (id : Z) (f : fifo_t T) : outcome T :=
  d ← arr_get (buffer f) id; Ok (dff.get_new d).

Definition advance_wptr (f : fifo_t T) : fifo_t T :=
  if sub32 (size f) 1 <=? dff.get_new (wptr f)
  then set_wptr 0 (negb (dff.get_new (wstage f))) f
  else set_wptr (add32 (dff.get_new (wptr f)) 1) (dff.get_new (wstage f)) f.
Definition advance_rptr (f : fifo_t T) : fifo_t T :=
  if sub32 (size f) 1 <=? dff.get_new (rptr f)
  then set_rptr 0 (negb (dff.get_new (rstage f))) f
  else set_rptr (add32 (dff.get_new (rptr f)) 1) (dff.get_new (rstage f)) f.

Definition new_push (x : T) (f : fifo_t T) : outcome (bool * fifo_t T) :=
  if new_is_full f then Ok (false, f)
  else f ← buffer_set (dff.get_new (wptr f)) x f; Ok (true, advance_wptr f).
Definition push (x : T) (f : fifo_t T) : outcome (bool * fifo_t T) :=
  if producer_is_full f then Ok (false, f)
  else f ← buffer_set (dff.get_new (wptr f)) x f; Ok (true, advance_wptr f).
Definition pop (f : fifo_t T) : outcome (option T * fifo_t T) :=
  if customer_is_empty f then Ok (None, f)
  else x ← buffer_get (dff.get_new (rptr f)) f; Ok (Some x, advance_rptr f).

(** *** Looking without popping: [None] is the result [false] *)
Definition producer_get_front (f : fifo_t T) : outcome (option T) :=
  if producer_is_empty f then Ok None
  else x ← buffer_get (dff.get (rptr f)) f; Ok (Some x).
Definition customer_get_front (f : fifo_t T) : outcome (option T) :=
  if customer_is_empty f then Ok None
  else x ← buffer_get (dff.get_new (rptr f)) f; Ok (Some x).

(** [(ptr + size - 1) % size]. *)
Definition before (p : Z) (f : fifo_t T) : Z := u32 (p + size f - 1) mod size f.
Definition producer_get_tail (f : fifo_t T) : outcome (option T) :=
  if producer_is_empty f then Ok None
  else x ← buffer_get (before (dff.get_new (wptr f)) f) f; Ok (Some x).
Definition customer_get_tail (f : fifo_t T) : outcome (option T) :=
  if customer_is_empty f then Ok None
  else x ← buffer_get (before (dff.get (wptr f)) f) f; Ok (Some x).

Definition producer_get_front_id (f : fifo_t T) : option Z :=
  if producer_is_empty f then None else Some (dff.get (rptr f)).
Definition customer_get_front_id (f : fifo_t T) : option Z :=
  if customer_is_empty f then None else Some (dff.get_new (rptr f)).
Definition producer_get_front_id_stage (f : fifo_t T) : option (Z * bool) :=
  if producer_is_empty f then None else Some (dff.get (rptr f), dff.get (rstage f)).
Definition customer_get_front_id_stage (f : fifo_t T) : option (Z * bool) :=
  if customer_is_empty f then None else Some (dff.get_new (rptr f), dff.get_new (rstage f)).
Definition producer_get_tail_id (f : fifo_t T) : option Z :=
  if producer_is_empty f then None else Some (before (dff.get_new (wptr f)) f).
Definition customer_get_tail_id (f : fifo_t T) : option Z :=
  if customer_is_empty f then None else Some (before (dff.get (wptr f)) f).
Definition producer_get_tail_id_stage (f : fifo_t T) : option (Z * bool) :=
  if producer_is_empty f then None
  else Some (before (dff.get_new (wptr f)) f,
             if dff.get_new (wptr f) =? 0 then negb (dff.get_new (wstage f))
             else dff.get_new (wstage f)).
Definition customer_get_tail_id_stage (f : fifo_t T) : option (Z * bool) :=
  if customer_is_empty f then None
  else Some (before (dff.get (wptr f)) f,
             if dff.get (wptr f) =? 0 then negb (dff.get (wstage f)) else dff.get (wstage f)).

(** *** Positions *)
Definition producer_check_id_valid (id : Z) (f : fifo_t T) : bool :=
  if producer_is_empty f then false
  else if eqb (dff.get_new (wstage f)) (dff.get (rstage f)) then
    (dff.get (rptr f) <=? id) && (id <? dff.get_new (wptr f))
  else ((dff.get (rptr f) <=? id) && (id <? size f)) || (id <? dff.get_new (wptr f)).
Definition customer_check_id_valid (id : Z) (f : fifo_t T) : bool :=
  if customer_is_empty f then false
  else if eqb (dff.get (wstage f)) (dff.get_new (rstage f)) then
    (dff.get_new (rptr f) <=? id) && (id <? dff.get (wptr f))
  else ((dff.get_new (rptr f) <=? id) && (id <? size f)) || (id <? dff.get (wptr f)).

Definition next_id (id : Z) (f : fifo_t T) : Z := add32 id 1 mod size f.
Definition next_stage (id : Z) (stage : bool) (f : fifo_t T) : bool :=
  negb (eqb (size f <=? add32 id 1) stage).

Definition producer_get_next_id (id : Z) (f : fifo_t T) : outcome (bool * Z) :=
  verify (producer_check_id_valid id f) ;;
  Ok (producer_check_id_valid (next_id id f) f, next_id id f).
Definition customer_get_next_id (id : Z) (f : fifo_t T) : outcome (bool * Z) :=
  verify (customer_check_id_valid id f) ;;
  Ok (customer_check_id_valid (next_id id f) f, next_id id f).
Definition producer_get_next_id_stage (id : Z) (stage : bool) (f : fifo_t T) :
  outcome (bool * Z * bool) :=
  verify (producer_check_id_valid id f) ;;
  Ok (producer_check_id_valid (next_id id f) f, next_id id f, next_stage id stage f).
Definition customer_get_next_id_stage (id : Z) (stage : bool) (f : fifo_t T) :
  outcome (bool * Z * bool) :=
  verify (customer_check_id_valid id f) ;;
  Ok (customer_check_id_valid (next_id id f) f, next_id id f, next_stage id stage f).
Definition static_get_next_id_stage (id : Z) (stage : bool) (f : fifo_t T) : Z * bool :=
  (next_id id f, next_stage id stage f).

Definition producer_get_item (id : Z) (f : fifo_t T) : outcome T := buffer_get_new id f.
Definition customer_get_item (id : Z) (f : fifo_t T) : outcome T := buffer_get id f.
Definition set_item (id : Z) (x : T) (f : fifo_t T) : outcome (fifo_t T) := buffer_set id x f.

Definition producer_get_wptr (f : fifo_t T) : Z := dff.get_new (wptr f).
Definition producer_get_wstage (f : fifo_t T) : bool := dff.get_new (wstage f).
Definition customer_get_wptr (f : fifo_t T) : Z := dff.get (wptr f).
Definition customer_get_wstage (f : fifo_t T) : bool := dff.get (wstage f).
Definition update_wptr (p : Z) (s : bool) (f : fifo_t T) : fifo_t T := set_wptr p s f.

(** *** [customer_foreach]: the loop threads the state [S] the callback
    captures; the callback's boolean says whether to go on.  [2 * size] turns
    pass every (pointer, stage) pair. *)
Section foreach.
Context {S : Type} (func : Z -> bool -> T -> S -> outcome (bool * S)) (f : fifo_t T).

Fixpoint foreach_from (fuel : nat) (cur : Z) (cur_stage : bool) (st : S) : outcome S :=
  match fuel with
  | O => Hang
  | Datatypes.S fuel =>
      item ← buffer_get cur f;
      bs ← func cur cur_stage item st;
      if negb bs.1 then Ok bs.2
      else
        let cur := add32 cur 1 in
        let wrap := size f <=? cur in
        let cur_stage := if wrap then negb cur_stage else cur_stage in
        let cur := if wrap then 0 else cur in
        if (cur =? dff.get (wptr f)) && eqb cur_stage (dff.get (wstage f)) then Ok bs.2
        else foreach_from fuel cur cur_stage bs.2
  end.
Definition customer_foreach (st : S) : outcome S :=
  if customer_is_empty f then Ok st
  else foreach_from (Z.to_nat (2 * size f)) (dff.get (rptr f)) (dff.get (rstage f)) st.
End foreach.

(** *** Space *)
Definition get_size (f : fifo_t T) : Z := size f.
Definition producer_get_used_space (f : fifo_t T) : Z :=
  if producer_is_full f then size f
  else u32 (dff.get_new (wptr f) + size f - dff.get (rptr f)) mod size f.
Definition customer_get_used_space (f : fifo_t T) : Z :=
  if customer_is_full f then size f
  else u32 (dff.get (wptr f) + size f - dff.get_new (rptr f)) mod size f.
Definition new_get_used_space (f : fifo_t T) : Z :=
  if new_is_full f then size f
  else u32 (dff.get_new (wptr f) + size f - dff.get_new (rptr f)) mod size f.
Definition producer_get_free_space (f : fifo_t T) : Z := sub32 (size f) (producer_get_used_space f).
Definition customer_get_free_space (f : fifo_t T) : Z := sub32 (size f) (customer_get_used_space f).
End fifo.
End fifo.
Abbreviation fifo_t := fifo.fifo_t.

Example fifo_demo :
  (f ← Ok (fifo.sync (fifo.new 2 0));
   bf ← fifo.push 7 f; bg ← fifo.push 8 bf.2; bh ← fifo.push 9 bg.2;
   let f := fifo.sync bh.2 in
   xf ← fifo.pop f; yf ← fifo.pop xf.2;
   Ok (bf.1, bg.1, bh.1, xf.1, yf.1)) = Ok (true, true, false, Some 7, Some 8).
Proof. reflexivity. Qed.
