(* ===== verification/FifoSpec.v ===== *)
(** * What the clocked queue promises

    [queue] is the abstract state in the middle of a cycle: how many elements
    the customer has popped in this cycle, the elements it can still pop, and
    the elements the producer has pushed in this cycle.  [repr] relates a ring
    buffer to it; every operation is shown to implement its counterpart. *)

From S2P Require Import Prelude Word Dff Fifo.

(** ** Pointers as counters

    A pointer and its stage bit are the remainder and the parity of the
    quotient of a counter that never wraps. *)
Section counters.
Context (sz : Z) (Hsz : 0 < sz).

Definition ptr (n : Z) : Z := n mod sz.
Definition stg (n : Z) : bool := Z.odd (n / sz).

Lemma ptr_range n : 0 <= ptr n < sz.
Proof using Hsz. by apply Z.mod_pos_bound. Qed.

Lemma turn n d k : 0 <= k -> k * sz <= n mod sz + d < (k + 1) * sz ->
  ptr (n + d) = n mod sz + d - k * sz /\ (n + d) / sz = n / sz + k.
Proof using Hsz.
  intros Hk H. pose proof (Z.div_mod n sz ltac:(lia)) as E.
  unfold ptr. split.
  - symmetry. apply (Z.mod_unique _ _ (n / sz + k)); [left; lia |]. nia.
  - symmetry. apply (Z.div_unique _ _ _ (n mod sz + d - k * sz)); [left; lia |]. nia.
Qed.

Lemma turn_cases n d : 0 <= d <= 2 * sz -> exists k, 0 <= k <= 2 /\
  k * sz <= n mod sz + d < (k + 1) * sz \/ (d = 2 * sz /\ k = 2).
Proof using Hsz.
  intros Hd. pose proof (ptr_range n). unfold ptr in *.
  destruct (decide (n mod sz + d < sz)); [exists 0; lia |].
  destruct (decide (n mod sz + d < 2 * sz)); [exists 1; lia |]. exists 2. lia.
Qed.

Lemma stg_add n k : Z.odd (n + k) = xorb (Z.odd n) (Z.odd k).
Proof. apply Z.odd_add. Qed.

(** Two counters less than two turns apart: empty, full or neither. *)
Lemma compare n d : 0 <= d < 2 * sz ->
  (ptr (n + d) =? ptr n) && eqb (stg (n + d)) (stg n) = (d =? 0) /\
  (ptr (n + d) =? ptr n) && negb (eqb (stg (n + d)) (stg n)) = (d =? sz).
Proof using Hsz.
  intros Hd. pose proof (ptr_range n) as Hr. unfold ptr in Hr.
  destruct (turn_cases n d) as [k Hk]; [lia |].
  destruct Hk as [(Hk & H) | (H & _)]; [| lia].
  destruct (turn n d k ltac:(lia) H) as [E1 E2].
  unfold stg. rewrite E1, E2, Z.odd_add. unfold ptr in *.
  assert (Hc : k = 0 \/ k = 1 \/ k = 2) by lia.
  destruct Hc as [-> | [-> | ->]]; cbn [Z.odd]; destruct (Z.odd (n / sz)); cbn [xorb eqb negb];
    rewrite ?andb_true_r, ?andb_false_r; lia.
Qed.

Lemma compare_sym n d : 0 <= d < 2 * sz ->
  (ptr n =? ptr (n + d)) && eqb (stg n) (stg (n + d)) = (d =? 0).
Proof using Hsz.
  intros Hd. destruct (compare n d Hd) as [<- _]. rewrite Z.eqb_sym.
  by destruct (stg n), (stg (n + d)).
Qed.

Lemma succ n :
  (if sz - 1 <=? ptr n then 0 else ptr n + 1) = ptr (n + 1) /\
  (if sz - 1 <=? ptr n then negb (stg n) else stg n) = stg (n + 1).
Proof using Hsz.
  pose proof (ptr_range n) as Hr. unfold ptr in Hr. unfold stg.
  destruct (sz - 1 <=? ptr n) eqn:E; unfold ptr in E.
  - destruct (turn n 1 1) as [E1 E2]; [lia | lia |].
    rewrite E1, E2, Z.odd_add. unfold ptr. split; [lia |].
    cbn [Z.odd]. by destruct (Z.odd _).
  - destruct (turn n 1 0) as [E1 E2]; [lia | lia |].
    rewrite E1, E2, Z.add_0_r. unfold ptr. split; [lia | done].
Qed.

Lemma distance n d : 0 <= d < sz -> (ptr (n + d) + sz - ptr n) mod sz = d.
Proof using Hsz.
  intros Hd. pose proof (Z.div_mod n sz ltac:(lia)).
  pose proof (Z.div_mod (n + d) sz ltac:(lia)). unfold ptr.
  symmetry. apply (Z.mod_unique _ _ (n / sz - (n + d) / sz + 1)); [left; lia |]. nia.
Qed.

Lemma ptr_inj n i j : 0 <= i < sz -> 0 <= j < sz -> ptr (n + i) = ptr (n + j) -> i = j.
Proof using Hsz.
  intros Hi Hj H. rewrite <- (distance n i Hi), <- (distance n j Hj). by rewrite H.
Qed.
End counters.

(** ** The abstract queue *)
Record queue (T : Type) := mk_queue { q_popped : Z; q_view : list T; q_fresh : list T }.
Arguments mk_queue {T} _ _ _.
Arguments q_popped {T} _.
Arguments q_view {T} _.
Arguments q_fresh {T} _.

(** What the queue will hold after the clock. *)
Definition q_next {T} (q : queue T) : list T := q_view q ++ q_fresh q.

Section repr.
Context {T : Type}.
Implicit Types (f : fifo_t T) (q : queue T) (x : T).

Definition buffer_new_is f (i : Z) x : Prop :=
  exists d, fifo.buffer f !! Z.to_nat i = Some d /\ dff.get_new d = x.
Definition buffer_is f (i : Z) x : Prop :=
  exists d, fifo.buffer f !! Z.to_nat i = Some d /\ dff.get d = x /\ dff.get_new d = x.

(** The read pointer stood at [R] when the cycle began. *)
Record repr_at f q (R : Z) : Prop := {
  r_size : 0 < fifo.size f < 2 ^ 30;
  r_len : zlen (fifo.buffer f) = fifo.size f;
  r_start : 0 <= R;
  r_popped : 0 <= q_popped q;
  r_rptr : dff.get (fifo.rptr f) = ptr (fifo.size f) R /\
           dff.get (fifo.rstage f) = stg (fifo.size f) R;
  r_rptr_new : dff.get_new (fifo.rptr f) = ptr (fifo.size f) (R + q_popped q) /\
               dff.get_new (fifo.rstage f) = stg (fifo.size f) (R + q_popped q);
  r_wptr : dff.get (fifo.wptr f) = ptr (fifo.size f) (R + q_popped q + zlen (q_view q)) /\
           dff.get (fifo.wstage f) = stg (fifo.size f) (R + q_popped q + zlen (q_view q));
  r_wptr_new :
    dff.get_new (fifo.wptr f) = ptr (fifo.size f) (R + q_popped q + zlen (q_next q)) /\
    dff.get_new (fifo.wstage f) = stg (fifo.size f) (R + q_popped q + zlen (q_next q));
  r_bound : q_popped q + zlen (q_next q) <= fifo.size f;
  r_view : forall k x, q_view q !! k = Some x ->
    buffer_is f (ptr (fifo.size f) (R + q_popped q + Z.of_nat k)) x;
  r_fresh : forall k x, q_fresh q !! k = Some x ->
    buffer_new_is f (ptr (fifo.size f) (R + q_popped q + zlen (q_view q) + Z.of_nat k)) x
}.
Definition repr f q : Prop := exists R, repr_at f q R.

Lemma zlen_app (l l' : list T) : zlen (l ++ l') = zlen l + zlen l'.
Proof. unfold zlen. rewrite length_app. lia. Qed.
Lemma zlen_nonneg (l : list T) : 0 <= zlen l.
Proof. unfold zlen. lia. Qed.

(** *** Full, empty and the used space *)
Section observers.
Context f q R (H : repr_at f q R).
#[local] Abbreviation sz := (fifo.size f).

Lemma repr_bounds : 0 < sz /\ 0 <= zlen (q_view q) /\ 0 <= zlen (q_fresh q) /\
  zlen (q_next q) = zlen (q_view q) + zlen (q_fresh q).
Proof using H.
  pose proof (r_size _ _ _ H). unfold q_next. rewrite zlen_app.
  split_and!; auto using zlen_nonneg; lia.
Qed.

Lemma producer_full : fifo.producer_is_full f = (q_popped q + zlen (q_next q) =? sz).
Proof using H.
  destruct repr_bounds as (Hs & Hv & Hf & Hn). pose proof (r_popped _ _ _ H).
  pose proof (r_bound _ _ _ H).
  unfold fifo.producer_is_full. destruct (r_rptr _ _ _ H) as [-> ->].
  destruct (r_wptr_new _ _ _ H) as [-> ->].
  rewrite <- Z.add_assoc. apply compare; lia.
Qed.
Lemma customer_empty : fifo.customer_is_empty f = (zlen (q_view q) =? 0).
Proof using H.
  destruct repr_bounds as (Hs & Hv & Hf & Hn). pose proof (r_popped _ _ _ H).
  pose proof (r_bound _ _ _ H).
  unfold fifo.customer_is_empty. destruct (r_rptr_new _ _ _ H) as [-> ->].
  destruct (r_wptr _ _ _ H) as [-> ->]. apply compare; lia.
Qed.
Lemma new_used : fifo.new_get_used_space f = zlen (q_next q).
Proof using H.
  destruct repr_bounds as (Hs & Hv & Hf & Hn). pose proof (r_popped _ _ _ H).
  pose proof (r_bound _ _ _ H). pose proof (r_size _ _ _ H).
  unfold fifo.new_get_used_space, fifo.new_is_full.
  destruct (r_rptr_new _ _ _ H) as [-> ->]. destruct (r_wptr_new _ _ _ H) as [-> ->].
  destruct (compare sz Hs (R + q_popped q) (zlen (q_next q))) as [_ ->]; [lia |].
  destruct (zlen (q_next q) =? sz) eqn:E; [lia |].
  rewrite u32_small; [apply distance; lia |].
  pose proof (ptr_range sz Hs (R + q_popped q)).
  pose proof (ptr_range sz Hs (R + q_popped q + zlen (q_next q))). word_lia.
Qed.
Lemma producer_used : fifo.producer_get_used_space f = q_popped q + zlen (q_next q).
Proof using H.
  destruct repr_bounds as (Hs & Hv & Hf & Hn). pose proof (r_popped _ _ _ H).
  pose proof (r_bound _ _ _ H). pose proof (r_size _ _ _ H).
  unfold fifo.producer_get_used_space. rewrite producer_full.
  destruct (_ =? sz) eqn:E; [lia |].
  destruct (r_rptr _ _ _ H) as [-> _]. destruct (r_wptr_new _ _ _ H) as [-> _].
  rewrite <- Z.add_assoc.
  pose proof (ptr_range sz Hs R).
  pose proof (ptr_range sz Hs (R + (q_popped q + zlen (q_next q)))).
  rewrite u32_small by word_lia. apply distance; lia.
Qed.
Lemma customer_used : fifo.customer_get_used_space f = zlen (q_view q).
Proof using H.
  destruct repr_bounds as (Hs & Hv & Hf & Hn). pose proof (r_popped _ _ _ H).
  pose proof (r_bound _ _ _ H). pose proof (r_size _ _ _ H).
  unfold fifo.customer_get_used_space, fifo.customer_is_full.
  destruct (r_rptr_new _ _ _ H) as [-> ->]. destruct (r_wptr _ _ _ H) as [-> ->].
  destruct (compare sz Hs (R + q_popped q) (zlen (q_view q))) as [_ ->]; [lia |].
  destruct (zlen (q_view q) =? sz) eqn:E; [lia |].
  pose proof (ptr_range sz Hs (R + q_popped q)).
  pose proof (ptr_range sz Hs (R + q_popped q + zlen (q_view q))).
  rewrite u32_small by word_lia. apply distance; lia.
Qed.
End observers.
End repr.

Section operations.
Context {T : Type}.
Implicit Types (f : fifo_t T) (q : queue T) (x : T).

Definition with_buffer (b : list (dff_t T)) f : fifo_t T :=
  fifo.mk b (fifo.size f) (fifo.wptr f) (fifo.wstage f) (fifo.rptr f) (fifo.rstage f).

Lemma buffer_set_ok f i x :
  0 <= i < zlen (fifo.buffer f) -> exists d, fifo.buffer f !! Z.to_nat i = Some d /\
    fifo.buffer_set i x f = Ok (with_buffer (<[Z.to_nat i := dff.set x d]> (fifo.buffer f)) f).
Proof.
  intros Hi. destruct (arr_get_ok (fifo.buffer f) i Hi) as [d Hd].
  exists d. split; [by apply arr_get_Some in Hd as [_ Hd] |].
  unfold fifo.buffer_set. rewrite Hd. cbn [mbind outcome_bind].
  rewrite arr_set_ok by done. done.
Qed.

Lemma advance_wptr_eq f n :
  0 < fifo.size f < 2 ^ 30 ->
  dff.get_new (fifo.wptr f) = ptr (fifo.size f) n ->
  dff.get_new (fifo.wstage f) = stg (fifo.size f) n ->
  fifo.advance_wptr f = fifo.set_wptr (ptr (fifo.size f) (n + 1)) (stg (fifo.size f) (n + 1)) f.
Proof.
  intros Hs Hp Hg. unfold fifo.advance_wptr, sub32, add32. rewrite Hp, Hg.
  pose proof (ptr_range (fifo.size f) ltac:(lia) n).
  rewrite !u32_small by word_lia.
  destruct (succ (fifo.size f) ltac:(lia) n) as [<- <-]. by destruct (_ <=? _).
Qed.
Lemma advance_rptr_eq f n :
  0 < fifo.size f < 2 ^ 30 ->
  dff.get_new (fifo.rptr f) = ptr (fifo.size f) n ->
  dff.get_new (fifo.rstage f) = stg (fifo.size f) n ->
  fifo.advance_rptr f = fifo.set_rptr (ptr (fifo.size f) (n + 1)) (stg (fifo.size f) (n + 1)) f.
Proof.
  intros Hs Hp Hg. unfold fifo.advance_rptr, sub32, add32. rewrite Hp, Hg.
  pose proof (ptr_range (fifo.size f) ltac:(lia) n).
  rewrite !u32_small by word_lia.
  destruct (succ (fifo.size f) ltac:(lia) n) as [<- <-]. by destruct (_ <=? _).
Qed.

Section at_counter.
Context f q R (H : repr_at f q R).
#[local] Abbreviation sz := (fifo.size f).
#[local] Abbreviation W := (R + q_popped q + zlen (q_next q)).

(** A write behind the last element disturbs none of them. *)
Lemma write_behind x :
  zlen (q_next q) < sz -> exists f', fifo.buffer_set (ptr sz W) x f = Ok f' /\
    fifo.size f' = sz /\ zlen (fifo.buffer f') = sz /\
    fifo.wptr f' = fifo.wptr f /\ fifo.wstage f' = fifo.wstage f /\
    fifo.rptr f' = fifo.rptr f /\ fifo.rstage f' = fifo.rstage f /\
    buffer_new_is f' (ptr sz W) x /\
    (forall i y, 0 <= i < sz -> i <> ptr sz W -> buffer_is f i y -> buffer_is f' i y) /\
    (forall i y, 0 <= i < sz -> i <> ptr sz W -> buffer_new_is f i y -> buffer_new_is f' i y).
Proof using H.
  intros Hlt. destruct (repr_bounds f q R H) as (Hs & _).
  pose proof (ptr_range sz Hs W) as Hr. pose proof (r_len _ _ _ H) as Hl.
  destruct (buffer_set_ok f (ptr sz W) x) as (d & Hd & E); [lia |].
  eexists. split; [exact E |]. unfold with_buffer. cbn [fifo.size fifo.buffer fifo.wptr
    fifo.wstage fifo.rptr fifo.rstage].
  split_and!; try done.
  - by rewrite zlen_insert.
  - exists (dff.set x d). cbn [fifo.buffer].
    rewrite list_lookup_insert_eq by (unfold zlen in Hl; lia). done.
  - intros i y Hi Hne (d' & Hd' & Hy). exists d'. cbn [fifo.buffer].
    rewrite list_lookup_insert_ne by lia. done.
  - intros i y Hi Hne (d' & Hd' & Hy). exists d'. cbn [fifo.buffer].
    rewrite list_lookup_insert_ne by lia. done.
Qed.

(** Elements [k] places behind the read pointer. *)
Lemma behind_ne k :
  0 <= k < zlen (q_next q) -> zlen (q_next q) < sz ->
  ptr sz (R + q_popped q + k) <> ptr sz W.
Proof using H.
  intros Hk Hlt E. destruct (repr_bounds f q R H) as (Hs & _).
  apply ptr_inj in E; lia.
Qed.

Lemma push_spec_at x :
  if q_popped q + zlen (q_next q) =? sz then fifo.push x f = Ok (false, f)
  else exists f', fifo.push x f = Ok (true, f') /\
    repr_at f' (mk_queue (q_popped q) (q_view q) (q_fresh q ++ [x])) R /\ fifo.size f' = sz.
Proof using H.
  destruct (repr_bounds f q R H) as (Hs & Hv & Hf & Hn).
  pose proof (r_popped _ _ _ H) as Ha. pose proof (r_bound _ _ _ H) as Hb.
  pose proof (r_size _ _ _ H) as Hsz.
  unfold fifo.push. rewrite (producer_full f q R H).
  destruct (_ =? sz) eqn:E; [done |].
  destruct (write_behind x) as (f' & E' & Z1 & Z2 & P1 & P2 & P3 & P4 & Hnew & Hold & Holdn);
    [lia |].
  destruct (r_wptr_new _ _ _ H) as [W1 W2]. rewrite W1, E'. cbn [mbind outcome_bind].
  rewrite (advance_wptr_eq f' W) by (rewrite ?Z1, ?P1, ?P2; done).
  eexists. split; [reflexivity |]. split; [| done]. rewrite Z1.
  assert (Hz : zlen (q_next (mk_queue (q_popped q) (q_view q) (q_fresh q ++ [x])))
               = zlen (q_next q) + 1).
  { unfold q_next. cbn. rewrite !zlen_app. unfold zlen. cbn. lia. }
  split; cbn [fifo.size fifo.buffer fifo.wptr fifo.wstage fifo.rptr fifo.rstage
    q_popped q_view q_fresh fifo.set_wptr]; rewrite ?Z1, ?P1, ?P2, ?P3, ?P4, ?Hz; try apply H.
  - exact Z2.
  - cbn [dff.get_new dff.set dff.new_value]. rewrite Z.add_assoc. done.
  - lia.
  - intros k y Hk. pose proof (lookup_lt_Some _ _ _ Hk).
    apply Hold; [by apply ptr_range | | by apply H].
    apply behind_ne; unfold zlen in *; lia.
  - intros k y Hk. apply lookup_app_Some in Hk as [Hk | [Hk1 Hk2]].
    + pose proof (lookup_lt_Some _ _ _ Hk).
      apply Holdn; [by apply ptr_range | | by apply H].
      rewrite <- Z.add_assoc. apply behind_ne; unfold zlen in *; lia.
    + apply list_lookup_singleton_Some in Hk2 as [Hk2 <-].
      replace (R + q_popped q + zlen (q_view q) + Z.of_nat k) with W;
        [exact Hnew | unfold zlen in *; lia].
Qed.

Lemma pop_spec_at :
  match q_view q with
  | [] => fifo.pop f = Ok (None, f)
  | x :: l => exists f', fifo.pop f = Ok (Some x, f') /\
      repr_at f' (mk_queue (q_popped q + 1) l (q_fresh q)) R /\ fifo.size f' = sz
  end.
Proof using H.
  destruct (repr_bounds f q R H) as (Hs & Hv & Hf & Hn).
  unfold fifo.pop. rewrite (customer_empty f q R H).
  destruct (q_view q) as [|x l] eqn:Eq; [done |].
  replace (zlen (x :: l) =? 0) with false by (unfold zlen; cbn [length]; lia).
  destruct (r_rptr_new _ _ _ H) as [R1 R2].
  destruct (r_view _ _ _ H 0 x) as (d & Hd & Hg & Hgn); [by rewrite Eq |].
  rewrite Z.add_0_r in Hd. rewrite R1. unfold fifo.buffer_get.
  replace (arr_get (fifo.buffer f) (ptr sz (R + q_popped q))) with (Ok d).
  2: { symmetry. apply arr_get_Some. split; [by apply ptr_range | done]. }
  cbn [mbind outcome_bind]. rewrite Hg.
  pose proof (r_size _ _ _ H) as Hsz.
  rewrite (advance_rptr_eq f (R + q_popped q)) by done.
  eexists. split; [reflexivity |]. split; [| done].
  pose proof (r_popped _ _ _ H) as Ha. pose proof (r_bound _ _ _ H) as Hb.
  assert (Hz : zlen (x :: l) = zlen l + 1) by (unfold zlen; cbn [length]; lia).
  assert (Hq : zlen (q_next q) = zlen (q_next (mk_queue (q_popped q + 1) l (q_fresh q))) + 1).
  { unfold q_next. rewrite Eq. cbn. rewrite !zlen_app. unfold zlen. cbn [length].
    rewrite length_app. lia. }
  split; cbn [fifo.size fifo.buffer fifo.wptr fifo.wstage fifo.rptr fifo.rstage
    q_popped q_view q_fresh fifo.set_rptr]; try apply H.
  - lia.
  - cbn [dff.get_new dff.set dff.new_value]. by rewrite Z.add_assoc.
  - pose proof (r_wptr _ _ _ H) as Hw. rewrite Eq, Hz in Hw.
    replace (R + (q_popped q + 1) + zlen l) with (R + q_popped q + (zlen l + 1)) by lia. done.
  - pose proof (r_wptr_new _ _ _ H) as Hw. rewrite Hq in Hw.
    match goal with |- context [R + (q_popped q + 1) + ?n] =>
      replace (R + (q_popped q + 1) + n) with (R + q_popped q + (n + 1)) by lia end. done.
  - lia.
  - intros k y Hk. pose proof (r_view _ _ _ H (S k) y) as Hy. rewrite Eq in Hy.
    replace (R + (q_popped q + 1) + Z.of_nat k) with (R + q_popped q + Z.of_nat (S k)) by lia.
    by apply Hy.
  - intros k y Hk. pose proof (r_fresh _ _ _ H k y Hk) as Hy. rewrite Eq, Hz in Hy.
    replace (R + (q_popped q + 1) + zlen l + Z.of_nat k)
      with (R + q_popped q + (zlen l + 1) + Z.of_nat k) by lia. done.
Qed.

Lemma front_spec x l : q_view q = x :: l -> fifo.customer_get_front f = Ok (Some x).
Proof using H.
  intros Eq. pose proof pop_spec_at as Hp. rewrite Eq in Hp.
  destruct Hp as (f' & E & _). unfold fifo.pop in E. unfold fifo.customer_get_front.
  destruct (fifo.customer_is_empty f); [discriminate |].
  destruct (fifo.buffer_get _ _); [| discriminate..]. injection E as ->. done.
Qed.
End at_counter.
End operations.

(** ** The clock, reset and iteration *)
Section clock.
Context {T : Type}.
Implicit Types (f : fifo_t T) (q : queue T) (x : T) (l : list T).

Lemma sync_lookup f i d :
  fifo.buffer f !! i = Some d -> fifo.buffer (fifo.sync f) !! i = Some (dff.sync d).
Proof. intros H. cbn. by rewrite list_lookup_fmap, H. Qed.

Lemma sync_spec_at f q R :
  repr_at f q R -> repr_at (fifo.sync f) (mk_queue 0 (q_next q) []) (R + q_popped q).
Proof.
  intros H. destruct (repr_bounds f q R H) as (Hs & Hv & Hf & Hn).
  pose proof (r_popped _ _ _ H) as Ha. pose proof (r_bound _ _ _ H) as Hb.
  pose proof (r_start _ _ _ H) as H0.
  assert (Hz : zlen (q_next (mk_queue 0 (q_next q) [])) = zlen (q_next q)).
  { unfold q_next at 1. cbn. by rewrite app_nil_r. }
  split; cbn [fifo.sync fifo.size fifo.wptr fifo.wstage fifo.rptr fifo.rstage q_popped q_view
    q_fresh dff.sync dff.get dff.get_new dff.cur_value dff.new_value];
    rewrite ?Z.add_0_r, ?Hz; try apply H; try lia.
  - cbn. unfold zlen. rewrite length_fmap. apply H.
  - intros k x Hk. unfold q_next in Hk. apply lookup_app_Some in Hk as [Hk | [Hk1 Hk2]].
    + destruct (r_view _ _ _ H k x Hk) as (d & Hd & Hg & Hgn).
      exists (dff.sync d). split; [by apply sync_lookup | done].
    + destruct (r_fresh _ _ _ H _ x Hk2) as (d & Hd & Hgn).
      exists (dff.sync d). split; [| done]. apply sync_lookup. rewrite <- Hd.
      do 3 f_equal. unfold zlen. lia.
  - intros k x Hk. done.
Qed.

(** A queue whose new pointers were reset in this cycle and that has taken
    the elements [l] since ([new_push] looks at the new pointers only). *)
Record pending f l : Prop := {
  p_size : 0 < fifo.size f < 2 ^ 30;
  p_len : zlen (fifo.buffer f) = fifo.size f;
  p_rptr : dff.get_new (fifo.rptr f) = ptr (fifo.size f) 0 /\
           dff.get_new (fifo.rstage f) = stg (fifo.size f) 0;
  p_wptr : dff.get_new (fifo.wptr f) = ptr (fifo.size f) (zlen l) /\
           dff.get_new (fifo.wstage f) = stg (fifo.size f) (zlen l);
  p_bound : zlen l <= fifo.size f;
  p_items : forall k x, l !! k = Some x -> buffer_new_is f (ptr (fifo.size f) (Z.of_nat k)) x
}.

Lemma reset_pending f :
  0 < fifo.size f < 2 ^ 30 -> zlen (fifo.buffer f) = fifo.size f -> pending (fifo.reset f) [].
Proof.
  intros Hs Hl. assert (E : ptr (fifo.size f) 0 = 0 /\ stg (fifo.size f) 0 = false).
  { unfold ptr, stg. by rewrite Zmod_0_l, Zdiv_0_l. }
  destruct E as [E1 E2].
  split; cbn; rewrite ?E1, ?E2; try done; unfold zlen; cbn; lia.
Qed.

Lemma new_push_pending f l x :
  pending f l ->
  if zlen l =? fifo.size f then fifo.new_push x f = Ok (false, f)
  else exists f', fifo.new_push x f = Ok (true, f') /\ pending f' (l ++ [x]) /\
    fifo.size f' = fifo.size f.
Proof.
  intros H. pose proof (p_size _ _ H) as Hsz. assert (Hs : 0 < fifo.size f) by lia.
  pose proof (p_bound _ _ H) as Hb. pose proof (p_len _ _ H) as Hl.
  assert (H0 : 0 <= zlen l) by (unfold zlen; lia).
  unfold fifo.new_push, fifo.new_is_full.
  destruct (p_rptr _ _ H) as [-> ->]. destruct (p_wptr _ _ H) as [W1 W2]. rewrite W1, W2.
  destruct (compare (fifo.size f) Hs 0 (zlen l)) as [_ E]; [lia |].
  rewrite Z.add_0_l in E. rewrite E. destruct (zlen l =? fifo.size f) eqn:Ez; [done |].
  pose proof (ptr_range (fifo.size f) Hs (zlen l)) as Hr.
  destruct (buffer_set_ok f (ptr (fifo.size f) (zlen l)) x) as (d & Hd & E'); [lia |].
  rewrite E'. cbn [mbind outcome_bind].
  rewrite (advance_wptr_eq _ (zlen l)) by done.
  eexists. split; [reflexivity |]. split; [| done].
  assert (Hz : zlen (l ++ [x]) = zlen l + 1) by (rewrite zlen_app; done).
  split; cbn [fifo.size fifo.buffer fifo.wptr fifo.wstage fifo.rptr fifo.rstage fifo.set_wptr
    with_buffer dff.set dff.get_new dff.new_value]; rewrite ?Hz; try apply H; try done; try lia.
  - by rewrite zlen_insert.
  - intros k y Hk. pose proof (lookup_lt_Some _ _ _ Hk) as Hlt.
    apply lookup_app_Some in Hk as [Hk | [Hk1 Hk2]].
    + pose proof (lookup_lt_Some _ _ _ Hk) as Hlt'.
      destruct (p_items _ _ H k y Hk) as (d' & Hd' & Hy). exists d'. split; [| done].
      cbn [fifo.buffer fifo.set_wptr with_buffer].
      rewrite list_lookup_insert_ne; [done |].
      pose proof (ptr_range (fifo.size f) Hs (Z.of_nat k)). intros Heq.
      assert (Hn : Z.of_nat k = zlen l); [| unfold zlen in Hn; lia].
      apply (ptr_inj (fifo.size f) Hs 0); rewrite ?Z.add_0_l; unfold zlen in *; lia.
    + apply list_lookup_singleton_Some in Hk2 as [Hk2 <-].
      exists (dff.set x d). split; [| done].
      replace (Z.of_nat k) with (zlen l) by (unfold zlen in *; lia).
      cbn [fifo.buffer fifo.set_wptr with_buffer].
      rewrite list_lookup_insert_eq; [done | unfold zlen in Hl; lia].
Qed.

Lemma sync_pending f l : pending f l -> repr_at (fifo.sync f) (mk_queue 0 l []) 0.
Proof.
  intros H. pose proof (p_bound _ _ H).
  assert (Hz : zlen (q_next (mk_queue 0 l [])) = zlen l).
  { unfold q_next. cbn. by rewrite app_nil_r. }
  split; cbn [fifo.sync fifo.size fifo.wptr fifo.wstage fifo.rptr fifo.rstage q_popped q_view
    q_fresh dff.sync dff.get dff.get_new dff.cur_value dff.new_value];
    rewrite ?Z.add_0_r, ?Z.add_0_l, ?Hz; try apply H; try lia.
  - cbn. unfold zlen. rewrite length_fmap. apply H.
  - intros k x Hk. destruct (p_items _ _ H k x Hk) as (d & Hd & Hgn).
    exists (dff.sync d). split; [by apply sync_lookup | done].
  - intros k x Hk. done.
Qed.

Lemma new_pending sz x : 0 < sz < 2 ^ 30 -> pending (fifo.new sz x) [].
Proof.
  intros Hs. unfold fifo.new. apply reset_pending; [done |].
  unfold zlen. cbn. rewrite length_replicate. lia.
Qed.

(** What the loop of [customer_foreach] computes. *)
Section visit.
Context {S : Type} (sz : Z) (func : Z -> bool -> T -> S -> outcome (bool * S)).
Fixpoint visit (n : Z) (l : list T) (st : S) : outcome S :=
  match l with
  | [] => Ok st
  | x :: l => bs ← func (ptr sz n) (stg sz n) x st;
              if negb bs.1 then Ok bs.2 else visit (n + 1) l bs.2
  end.
End visit.

Lemma foreach_from_spec {S : Type} f q R func fuel n l (st : S) :
  repr_at f q R -> l <> [] -> (length l <= fuel)%nat ->
  n + zlen l = R + q_popped q + zlen (q_view q) -> zlen l <= fifo.size f ->
  (forall k x, l !! k = Some x -> buffer_is f (ptr (fifo.size f) (n + Z.of_nat k)) x) ->
  fifo.foreach_from func f fuel (ptr (fifo.size f) n) (stg (fifo.size f) n) st =
  visit (fifo.size f) func n l st.
Proof.
  intros H. destruct (repr_bounds f q R H) as (Hs & _). pose proof (r_size _ _ _ H) as Hsz.
  revert n l st. induction fuel as [|fuel IH]; intros n l st Hne Hfuel Hend Hle Hitems.
  { destruct l; [done | cbn in Hfuel; lia]. }
  destruct l as [|x l]; [done |]. cbn [fifo.foreach_from visit length] in *.
  destruct (Hitems O x eq_refl) as (d & Hd & Hg & _). rewrite Z.add_0_r in Hd.
  pose proof (ptr_range (fifo.size f) Hs n) as Hr.
  unfold fifo.buffer_get.
  replace (arr_get (fifo.buffer f) (ptr (fifo.size f) n)) with (Ok d).
  2: { symmetry. apply arr_get_Some. split; [lia | done]. }
  cbn [mbind outcome_bind]. rewrite Hg.
  destruct (func _ _ _ _) as [[b st']| | |]; [| done..]. cbn [fst snd].
  destruct b; cbn [negb]; [| done].
  assert (Ha : add32 (ptr (fifo.size f) n) 1 = ptr (fifo.size f) n + 1).
  { apply u32_small. word_lia. }
  rewrite Ha.
  destruct (succ (fifo.size f) Hs n) as [S1 S2].
  assert (Hc : (fifo.size f <=? ptr (fifo.size f) n + 1) = (fifo.size f - 1 <=? ptr (fifo.size f) n))
    by lia.
  rewrite Hc, S1, S2.
  destruct (r_wptr _ _ _ H) as [-> ->]. rewrite <- Hend.
  assert (Hz : zlen (x :: l) = zlen l + 1) by (unfold zlen; cbn [length]; lia).
  assert (H0 : 0 <= zlen l) by (unfold zlen; lia).
  rewrite Hz in *. replace (n + (zlen l + 1)) with (n + 1 + zlen l) by lia.
  rewrite (compare_sym (fifo.size f) Hs) by lia. destruct l as [|y l]; [done |].
  replace (zlen (y :: l) =? 0) with false by (unfold zlen; cbn [length]; lia).
  apply IH; [done | cbn in *; lia | lia | lia |].
  intros k z Hk. replace (n + 1 + Z.of_nat k) with (n + Z.of_nat (Datatypes.S k)) by lia.
  by apply Hitems.
Qed.

Lemma foreach_spec_at {S : Type} f q R func (st : S) :
  repr_at f q R -> q_popped q = 0 ->
  fifo.customer_foreach func f st = visit (fifo.size f) func R (q_view q) st.
Proof.
  intros H H0. unfold fifo.customer_foreach. rewrite (customer_empty f q R H).
  destruct (q_view q) as [|x l] eqn:Eq; [done |].
  replace (zlen (x :: l) =? 0) with false by (unfold zlen; cbn [length]; lia).
  destruct (r_rptr _ _ _ H) as [-> ->]. destruct (repr_bounds f q R H) as (Hs & Hv & Hf & Hn).
  pose proof (r_bound _ _ _ H) as Hb.
  assert (Hl : zlen (x :: l) <= fifo.size f) by (rewrite <- Eq; lia).
  apply (foreach_from_spec f q R); [done | done | | | done |].
  - unfold zlen in Hl. lia.
  - rewrite Eq. lia.
  - intros k y Hk. pose proof (r_view _ _ _ H k y) as Hy. rewrite Eq, H0, Z.add_0_r in Hy.
    by apply Hy.
Qed.
End clock.
