(* ===== verification/FifoTrace.v ===== *)
(** * Sequences of operations on the clocked queue

    The commands a producer, a customer and the clock issue to one [fifo], run
    by the model and by the abstract queue. *)

From S2P Require Import Prelude Word Dff Fifo FifoSpec.

(** [cmd_flush] is a flush at the end of a cycle: [flush] and the clock. *)
Inductive cmd (T : Type) := cmd_push (x : T) | cmd_pop | cmd_tick | cmd_flush.
Arguments cmd_push {T} x.
Arguments cmd_pop {T}.
Arguments cmd_tick {T}.
Arguments cmd_flush {T}.

(** What the caller sees. *)
Inductive answer (T : Type) := pushed (ok : bool) | popped (x : option T) | clocked.
Arguments pushed {T} ok.
Arguments popped {T} x.
Arguments clocked {T}.

Section trace.
Context {T : Type}.
Implicit Types (f : fifo_t T) (q : queue T).

Definition exec (c : cmd T) f : outcome (answer T * fifo_t T) :=
  match c with
  | cmd_push x => bf ← fifo.push x f; Ok (pushed bf.1, bf.2)
  | cmd_pop => xf ← fifo.pop f; Ok (popped xf.1, xf.2)
  | cmd_tick => Ok (clocked, fifo.sync f)
  | cmd_flush => Ok (clocked, fifo.sync (fifo.flush f))
  end.
Fixpoint exec_all (l : list (cmd T)) f : outcome (list (answer T) * fifo_t T) :=
  match l with
  | [] => Ok ([], f)
  | c :: l => af ← exec c f; rf ← exec_all l af.2; Ok (af.1 :: rf.1, rf.2)
  end.

(** The same on a queue of capacity [sz]. *)
Definition q_exec (sz : Z) (c : cmd T) q : answer T * queue T :=
  match c with
  | cmd_push x =>
      if q_popped q + zlen (q_next q) =? sz then (pushed false, q)
      else (pushed true, mk_queue (q_popped q) (q_view q) (q_fresh q ++ [x]))
  | cmd_pop =>
      match q_view q with
      | [] => (popped None, q)
      | x :: l => (popped (Some x), mk_queue (q_popped q + 1) l (q_fresh q))
      end
  | cmd_tick => (clocked, mk_queue 0 (q_next q) [])
  | cmd_flush => (clocked, mk_queue 0 [] [])
  end.
Fixpoint q_exec_all (sz : Z) (l : list (cmd T)) q : list (answer T) * queue T :=
  match l with
  | [] => ([], q)
  | c :: l => let aq := q_exec sz c q in
              let rq := q_exec_all sz l aq.2 in (aq.1 :: rq.1, rq.2)
  end.

Definition q_empty : queue T := mk_queue 0 [] [].

Lemma new_repr sz x : 0 < sz < 2 ^ 30 -> repr_at (fifo.new sz x) q_empty 0.
Proof.
  intros Hs. assert (E : ptr sz 0 = 0 /\ stg sz 0 = false).
  { unfold ptr, stg. by rewrite Zmod_0_l, Zdiv_0_l. }
  destruct E as [E1 E2].
  split; cbn; rewrite ?E1, ?E2; try done; unfold zlen; cbn; try lia.
  rewrite length_replicate. lia.
Qed.

Lemma exec_spec c f q R :
  repr_at f q R -> exists f' R', exec c f = Ok ((q_exec (fifo.size f) c q).1, f') /\
    repr_at f' (q_exec (fifo.size f) c q).2 R' /\ fifo.size f' = fifo.size f.
Proof.
  intros H. destruct c as [x| | |]; cbn [exec q_exec].
  - pose proof (push_spec_at f q R H x) as Hp. destruct (_ =? _).
    + rewrite Hp. by exists f, R.
    + destruct Hp as (f' & -> & Hr & Hs). by exists f', R.
  - pose proof (pop_spec_at f q R H) as Hp. destruct (q_view q) as [|x l].
    + rewrite Hp. by exists f, R.
    + destruct Hp as (f' & -> & Hr & Hs). by exists f', R.
  - eexists _, _. split; [done |]. split; [by apply sync_spec_at | done].
  - eexists _, 0. split; [done |]. split; [| done]. apply sync_pending, reset_pending; apply H.
Qed.

Lemma exec_all_spec l f q R :
  repr_at f q R -> exists f' R',
    exec_all l f = Ok ((q_exec_all (fifo.size f) l q).1, f') /\
    repr_at f' (q_exec_all (fifo.size f) l q).2 R'.
Proof.
  revert f q R. induction l as [|c l IH]; intros f q R H; cbn [exec_all q_exec_all].
  { by exists f, R. }
  destruct (exec_spec c f q R H) as (f1 & R1 & -> & H1 & Hs). cbn [mbind outcome_bind fst snd].
  destruct (IH f1 _ _ H1) as (f2 & R2 & -> & H2). rewrite Hs in *. by exists f2, R2.
Qed.

Lemma exec_size c f a f' : exec c f = Ok (a, f') -> fifo.size f' = fifo.size f.
Proof.
  destruct c; cbn [exec]; intros H; inv_ok; try done; unfold fifo.push, fifo.pop in *.
  - destruct (fifo.producer_is_full f); inv_ok; [done |].
    unfold fifo.buffer_set in *. inv_ok. unfold fifo.advance_wptr. by destruct (_ <=? _).
  - destruct (fifo.customer_is_empty f); inv_ok; [done |].
    unfold fifo.advance_rptr. by destruct (_ <=? _).
Qed.
Lemma exec_all_size l f r f' : exec_all l f = Ok (r, f') -> fifo.size f' = fifo.size f.
Proof.
  revert f r. induction l as [|c l IH]; intros f r H; cbn [exec_all] in H; inv_ok; [done |].
  apply exec_size in Hx. cbn [fst snd] in *. rewrite <- Hx. by eapply IH.
Qed.

(** *** Order and bounds of the abstract queue *)

(** What a history of answers says went in and came out. *)
Fixpoint accepted (l : list (cmd T)) (r : list (answer T)) : list T :=
  match l, r with
  | cmd_push x :: l, pushed b :: r => if (b : bool) then x :: accepted l r else accepted l r
  | _ :: l, _ :: r => accepted l r
  | _, _ => []
  end.
Fixpoint delivered (r : list (answer T)) : list T :=
  match r with
  | popped (Some x) :: r => x :: delivered r
  | _ :: r => delivered r
  | [] => []
  end.
Definition no_flush (c : cmd T) : Prop := match c with cmd_flush => False | _ => True end.

Lemma q_order sz l q :
  Forall no_flush l ->
  delivered (q_exec_all sz l q).1 ++ q_next (q_exec_all sz l q).2 =
  q_next q ++ accepted l (q_exec_all sz l q).1.
Proof.
  revert q. induction l as [|c l IH]; intros q Hl; cbn [q_exec_all].
  { cbn. by rewrite app_nil_r. }
  apply Forall_cons in Hl as [Hc Hl]. cbn [fst snd].
  destruct c as [x| | |]; cbn [q_exec no_flush] in *; [| | | done].
  - destruct (_ =? sz); cbn [fst snd delivered accepted]; rewrite IH by done; [done |].
    change (q_next (mk_queue (q_popped q) (q_view q) (q_fresh q ++ [x])))
      with (q_view q ++ q_fresh q ++ [x]). unfold q_next. by rewrite <- !app_assoc.
  - destruct q as [p [|x v] w]; cbn [q_view fst snd delivered accepted].
    + by apply IH.
    + cbn. f_equal. by apply IH.
  - cbn [fst snd delivered accepted]. rewrite IH by done. unfold q_next at 1.
    cbn [q_view q_fresh]. by rewrite app_nil_r.
Qed.

End trace.
