(* ===== verification/Rat.v ===== *)
(** * Register renaming state

    The register alias table (include/cycle_model/component/rat.h) with its
    checkpoints (checkpoint.h), and the physical register file with the age of
    its writers (regfile.h, age_compare.h). *)

From S2P Require Import Prelude Word Dff.

(** ** Age of an instruction: its ROB slot and stage bit *)
Module age_compare.
Record age_t := mk { rob_id : Z; rob_id_stage : bool }.

(** [operator <]: younger than. *)
Definition lt (a b : age_t) : bool :=
  if eqb (rob_id_stage a) (rob_id_stage b) then rob_id b <? rob_id a else rob_id a <? rob_id b.
Definition eq (a b : age_t) : bool :=
  (rob_id a =? rob_id b) && eqb (rob_id_stage a) (rob_id_stage b).
Definition ne (a b : age_t) : bool :=
  negb (rob_id a =? rob_id b) || negb (eqb (rob_id_stage a) (rob_id_stage b)).
Definition gt (a b : age_t) : bool :=
  if eqb (rob_id_stage a) (rob_id_stage b) then rob_id a <? rob_id b else rob_id b <? rob_id a.
Definition le (a b : age_t) : bool := lt a b || eq a b.
Definition ge (a b : age_t) : bool := gt a b || eq a b.
End age_compare.
Abbreviation age_t := age_compare.age_t.

(** ** Tables of flip-flops *)
Section table.
Context {T : Type}.
Definition tset (i : Z) (v : T) (t : list (dff_t T)) : outcome (list (dff_t T)) :=
  d ← arr_get t i; arr_set t i (dff.set v d).
Definition tget (i : Z) (t : list (dff_t T)) : outcome T := d ← arr_get t i; Ok (dff.get d).
Definition tget_new (i : Z) (t : list (dff_t T)) : outcome T :=
  d ← arr_get t i; Ok (dff.get_new d).
End table.

(** ** Checkpoints *)
Module checkpoint.
Record checkpoint_t := mk {
  phy_map_table_valid : list bool;
  old_phy_id_free_list_rptr : Z; old_phy_id_free_list_rstage : bool;
  new_phy_id_free_list_rptr : Z; new_phy_id_free_list_rstage : bool;
  old_checkpoint_buffer_wptr : Z; old_checkpoint_buffer_wstage : bool;
  new_checkpoint_buffer_wptr : Z; new_checkpoint_buffer_wstage : bool;
  old_load_queue_wptr : Z; old_load_queue_wstage : bool;
  old_store_buffer_wptr : Z; old_store_buffer_wstage : bool
}.

(** [clone_to(cp)]: the old free-list and checkpoint-buffer pointers of [cp]
    keep their values. *)
Definition clone_to (s cp : checkpoint_t) : checkpoint_t :=
  mk (phy_map_table_valid s)
     (old_phy_id_free_list_rptr cp) (old_phy_id_free_list_rstage cp)
     (new_phy_id_free_list_rptr s) (new_phy_id_free_list_rstage s)
     (old_checkpoint_buffer_wptr cp) (old_checkpoint_buffer_wstage cp)
     (new_checkpoint_buffer_wptr s) (new_checkpoint_buffer_wstage s)
     (old_load_queue_wptr s) (old_load_queue_wstage s)
     (old_store_buffer_wptr s) (old_store_buffer_wstage s).
Definition set_valid (v : list bool) (s : checkpoint_t) : checkpoint_t :=
  { s with phy_map_table_valid := v }.
End checkpoint.
Abbreviation checkpoint_t := checkpoint.checkpoint_t.

(** ** The register alias table *)
Module rat.
Record rat_t := mk {
  phy_reg_num : Z;
  arch_reg_num : Z;
  phy_map_table : list (dff_t Z);
  phy_map_table_valid : list (dff_t bool);
  init_rat : bool
}.

Definition set_tables (t : list (dff_t Z)) (v : list (dff_t bool)) (r : rat_t) : rat_t :=
  { r with phy_map_table := t; phy_map_table_valid := v }.

Definition set_valid (phy_id : Z) (v : bool) (r : rat_t) : outcome rat_t :=
  verify (phy_id <? phy_reg_num r) ;;
  t ← tset phy_id v (phy_map_table_valid r);
  Ok { r with phy_map_table_valid := t }.

(** [reset] and the loop of [init_start]: every entry is cleared. *)
Definition clear (r : rat_t) : rat_t :=
  set_tables (dff.set 0 <$> phy_map_table r) (dff.set false <$> phy_map_table_valid r) r.
Definition reset (r : rat_t) : rat_t := clear r.
Definition init_start (r : rat_t) : rat_t := { clear r with init_rat := true }.
Definition init_finish (r : rat_t) : rat_t := { r with init_rat := false }.
Definition new (phy arch : Z) : rat_t :=
  reset (mk phy arch (replicate (Z.to_nat phy) (dff.new 0))
            (replicate (Z.to_nat phy) (dff.new false)) false).

Definition producer_get_valid (phy_id : Z) (r : rat_t) : outcome bool :=
  verify (phy_id <? phy_reg_num r) ;; tget_new phy_id (phy_map_table_valid r).
Definition customer_get_valid (phy_id : Z) (r : rat_t) : outcome bool :=
  verify (phy_id <? phy_reg_num r) ;; tget phy_id (phy_map_table_valid r).

(** [load(element)]: entry by entry, the new values of the other table (both
    tables of the simulator have PHY_REG_NUM entries). *)
Definition load (e r : rat_t) : rat_t :=
  set_tables (zip_with (λ d s, dff.set (dff.get_new s) d) (phy_map_table r) (phy_map_table e))
    (zip_with (λ d s, dff.set (dff.get_new s) d) (phy_map_table_valid r) (phy_map_table_valid e)) r.

(** The loops of [producer_get_phy_id] and [customer_get_phy_id]: the last
    match and the number of matches. *)
Section scan.
Context (valid : Z -> outcome bool) (mapped : Z -> outcome Z) (arch_id : Z).
Fixpoint scan (fuel : nat) (i phy cnt : Z) : outcome (Z * Z) :=
  match fuel with
  | O => Ok (phy, cnt)
  | S fuel =>
      v ← valid i;
      m ← (if (v : bool) then x ← mapped i; Ok (x =? arch_id) else Ok false);
      if (m : bool) then scan fuel (i + 1) i (cnt + 1) else scan fuel (i + 1) phy cnt
  end.
End scan.

Definition producer_get_phy_id (arch_id phy : Z) (r : rat_t) : outcome (bool * Z) :=
  verify ((0 <? arch_id) && (arch_id <? arch_reg_num r)) ;;
  pc ← scan (λ i, producer_get_valid i r) (λ i, tget_new i (phy_map_table r)) arch_id
         (Z.to_nat (phy_reg_num r)) 0 phy 0;
  verify (pc.2 <=? 1) ;;
  Ok (pc.2 =? 1, pc.1).
Definition customer_get_phy_id (arch_id phy : Z) (r : rat_t) : outcome (bool * Z) :=
  verify ((0 <? arch_id) && (arch_id <? arch_reg_num r)) ;;
  pc ← scan (λ i, customer_get_valid i r) (λ i, tget i (phy_map_table r)) arch_id
         (Z.to_nat (phy_reg_num r)) 0 phy 0;
  verify (pc.2 <=? 1) ;;
  Ok (pc.2 =? 1, pc.1).

Definition set_map (arch_id phy_id : Z) (r : rat_t) : outcome (Z * rat_t) :=
  verify (phy_id <? phy_reg_num r) ;;
  verify ((0 <? arch_id) && (arch_id <? arch_reg_num r)) ;;
  v ← producer_get_valid phy_id r;
  verify (negb v) ;;
  ro ← producer_get_phy_id arch_id 0 r;
  (if negb (init_rat r) then
     verify ro.1 ;; v ← producer_get_valid ro.2 r; verify v
   else Ok tt) ;;
  t ← tset phy_id arch_id (phy_map_table r);
  r ← set_valid phy_id true { r with phy_map_table := t };
  r ← (if (ro.1 : bool) then set_valid ro.2 false r else Ok r);
  Ok (ro.2, r).

(** [phy_map_table[new_phy_id] = 0] assigns the flip-flop itself: the current
    value changes at once. *)
Definition restore_map (new_phy_id old_phy_id : Z) (r : rat_t) : outcome rat_t :=
  verify (new_phy_id <? phy_reg_num r) ;;
  verify (old_phy_id <? phy_reg_num r) ;;
  v ← producer_get_valid new_phy_id r; verify v ;;
  v ← producer_get_valid old_phy_id r; verify v ;;
  t ← arr_set (phy_map_table r) new_phy_id (dff.new 0);
  r ← set_valid new_phy_id false { r with phy_map_table := t };
  set_valid old_phy_id true r.

Definition producer_save_to_checkpoint (cp : checkpoint_t) (r : rat_t) : checkpoint_t :=
  checkpoint.set_valid (dff.get_new <$> phy_map_table_valid r) cp.
Definition restore_from_checkpoint (cp : checkpoint_t) (r : rat_t) : rat_t :=
  { r with phy_map_table_valid :=
      zip_with (λ d v, dff.set v d) (phy_map_table_valid r)
        (checkpoint.phy_map_table_valid cp) }.

Definition sync (r : rat_t) : rat_t :=
  set_tables (dff.sync <$> phy_map_table r) (dff.sync <$> phy_map_table_valid r) r.
End rat.
Abbreviation rat_t := rat.rat_t.

(** ** The physical register file *)
Module phy_regfile.
Record reg_t := mk_reg {
  reg_data : dff_t Z;
  reg_data_valid : dff_t bool;
  reg_rob_id : dff_t Z;
  reg_rob_id_stage : dff_t bool;
  reg_oldest : dff_t bool
}.
(** The five arrays, indexed together. *)
Record regfile_t := mk { regs : list reg_t; size : Z }.

Definition set_all (v : Z) (valid : bool) (id : Z) (stage oldest : bool) (x : reg_t) : reg_t :=
  mk_reg (dff.set v (reg_data x)) (dff.set valid (reg_data_valid x)) (dff.set id (reg_rob_id x))
    (dff.set stage (reg_rob_id_stage x)) (dff.set oldest (reg_oldest x)).
Definition reset (f : regfile_t) : regfile_t := { f with regs ::= fmap (set_all 0 false 0 false true) }.
Definition new (sz : Z) : regfile_t :=
  reset (mk (replicate (Z.to_nat sz)
    (mk_reg (dff.new 0) (dff.new false) (dff.new 0) (dff.new false) (dff.new false))) sz).

Definition update (addr : Z) (g : reg_t -> reg_t) (f : regfile_t) : outcome regfile_t :=
  verify (addr <? size f) ;;
  x ← arr_get (regs f) addr;
  l ← arr_set (regs f) addr (g x);
  Ok { f with regs := l }.

Definition write (addr v : Z) (valid : bool) (id : Z) (stage oldest : bool) (f : regfile_t) :
  outcome regfile_t := update addr (set_all v valid id stage oldest) f.
Definition read (addr : Z) (f : regfile_t) : outcome Z :=
  verify (addr <? size f) ;; x ← arr_get (regs f) addr; Ok (dff.get (reg_data x)).
Definition read_data_valid (addr : Z) (f : regfile_t) : outcome bool :=
  verify (addr <? size f) ;; x ← arr_get (regs f) addr; Ok (dff.get (reg_data_valid x)).
Definition write_age_information (addr id : Z) (stage oldest : bool) (f : regfile_t) :
  outcome regfile_t :=
  update addr (λ x, { x with reg_rob_id ::= dff.set id; reg_rob_id_stage ::= dff.set stage;
                             reg_oldest ::= dff.set oldest }) f.
Definition read_age_information (addr : Z) (f : regfile_t) : outcome (Z * bool * bool) :=
  verify (addr <? size f) ;; x ← arr_get (regs f) addr;
  Ok (dff.get (reg_rob_id x), dff.get (reg_rob_id_stage x), dff.get (reg_oldest x)).

(** [restore(rat)]: valid exactly where the table is. *)
Definition restore_rat (e : rat_t) (f : regfile_t) : regfile_t :=
  { f with regs := zip_with (λ x v, { x with reg_data_valid ::= dff.set (dff.get_new v) })
      (regs f) (rat.phy_map_table_valid e) }.

(** [restore(rob_id, stage)] and [restore_equal]: values written by younger
    (or equally old) instructions become invalid. *)
Definition age_of (x : reg_t) : age_t :=
  age_compare.mk (dff.get (reg_rob_id x)) (dff.get (reg_rob_id_stage x)).
Definition restore_if (younger : age_t -> age_t -> bool) (a : age_t) (x : reg_t) : reg_t :=
  if dff.get (reg_data_valid x) && negb (dff.get (reg_oldest x)) then
    if younger (age_of x) a
    then { x with reg_data_valid ::= dff.set false; reg_oldest ::= dff.set true }
    else x
  else x.
Definition restore (id : Z) (stage : bool) (f : regfile_t) : regfile_t :=
  { f with regs ::= fmap (restore_if age_compare.lt (age_compare.mk id stage)) }.
Definition restore_equal (id : Z) (stage : bool) (f : regfile_t) : regfile_t :=
  { f with regs ::= fmap (restore_if age_compare.le (age_compare.mk id stage)) }.

Definition sync_reg (x : reg_t) : reg_t :=
  mk_reg (dff.sync (reg_data x)) (dff.sync (reg_data_valid x)) (dff.sync (reg_rob_id x))
    (dff.sync (reg_rob_id_stage x)) (dff.sync (reg_oldest x)).
Definition sync (f : regfile_t) : regfile_t := { f with regs ::= fmap sync_reg }.
End phy_regfile.
