(* ===== verification/RatSpec.v ===== *)
(** * The alias table is a partial function

    [maps r p a]: physical register [p] holds architectural register [a] in the
    new values of the table.  The invariant [rat_wf] makes it a bijection onto
    the architectural registers 1, 2, ..., so the table implements a map that
    [set_map] updates and a checkpoint restores. *)

From S2P Require Import Prelude Word Dff Rat.

(** ** Tables *)
Section tables.
Context {T : Type}.
Implicit Type t : list (dff_t T).

Lemma tget_new_Some t i v :
  tget_new i t = Ok v <-> 0 <= i /\ (dff.get_new <$> t) !! Z.to_nat i = Some v.
Proof.
  unfold tget_new. rewrite list_lookup_fmap. split.
  - intros H. inv_ok. apply arr_get_Some in Hx as [H0 ->]. done.
  - intros [H0 H]. destruct (t !! Z.to_nat i) as [d|] eqn:E; [| discriminate].
    cbn in H. injection H as <-.
    replace (arr_get t i) with (Ok d) by (symmetry; by apply arr_get_Some). done.
Qed.

Lemma tset_spec t i v : 0 <= i < zlen t ->
  exists t', tset i v t = Ok t' /\ length t' = length t /\
    dff.get_new <$> t' = <[Z.to_nat i := v]> (dff.get_new <$> t) /\
    dff.get <$> t' = dff.get <$> t.
Proof.
  intros Hi. destruct (arr_get_ok t i Hi) as [d Hd]. unfold tset. rewrite Hd.
  cbn [mbind outcome_bind]. rewrite arr_set_ok by done. eexists. split; [done |].
  apply arr_get_Some in Hd as [_ Hd].
  split_and!; [by rewrite length_insert | by rewrite list_fmap_insert |].
  rewrite list_fmap_insert. apply list_insert_id. by rewrite list_lookup_fmap, Hd.
Qed.
End tables.

Section spec.
Import rat.
Implicit Type r : rat_t.

Definition tbl r : list Z := dff.get_new <$> phy_map_table r.
Definition vld r : list bool := dff.get_new <$> phy_map_table_valid r.
Definition maps r (p a : Z) : Prop :=
  0 <= p /\ tbl r !! Z.to_nat p = Some a /\ vld r !! Z.to_nat p = Some true.

Record rat_wf r : Prop := {
  w_num : 0 < phy_reg_num r < two32;
  w_tbl : zlen (phy_map_table r) = phy_reg_num r;
  w_vld : zlen (phy_map_table_valid r) = phy_reg_num r;
  w_arch : forall p a, maps r p a -> 0 < a < arch_reg_num r;
  w_inj : forall p q a, maps r p a -> maps r q a -> p = q
}.
(** Every architectural register but x0 has a physical one. *)
Definition complete r : Prop := forall a, 0 < a < arch_reg_num r -> exists p, maps r p a.

Lemma maps_range r p a : rat_wf r -> maps r p a -> 0 <= p < phy_reg_num r.
Proof.
  intros H (H0 & Hp & _). apply lookup_lt_Some in Hp. unfold tbl in Hp.
  rewrite length_fmap in Hp. pose proof (w_tbl _ H) as Hl. unfold zlen in Hl. lia.
Qed.

(** One turn of the search loop. *)
Definition matches r (a i : Z) : bool :=
  match vld r !! Z.to_nat i, tbl r !! Z.to_nat i with
  | Some true, Some b => b =? a
  | _, _ => false
  end.
Lemma matches_iff r a i : 0 <= i -> matches r a i = true <-> maps r i a.
Proof.
  intros H0. unfold matches, maps.
  destruct (vld r !! Z.to_nat i) as [[]|], (tbl r !! Z.to_nat i) as [b|];
    split; try (intros; done); try (intros (_ & ? & ?); done).
  - intros H. split_and!; [done | f_equal; lia | done].
  - intros (_ & [= ->] & _). apply Z.eqb_refl.
Qed.

Lemma valid_new r p : rat_wf r -> 0 <= p < phy_reg_num r ->
  exists v, vld r !! Z.to_nat p = Some v /\ producer_get_valid p r = Ok v.
Proof.
  intros H Hp. pose proof (w_vld _ H) as Hl. unfold zlen in Hl.
  destruct (lookup_lt_is_Some_2 (vld r) (Z.to_nat p)) as [v Hv].
  { unfold vld. rewrite length_fmap. lia. }
  exists v. split; [done |]. unfold producer_get_valid.
  replace (p <? phy_reg_num r) with true by lia. cbn [verify mbind outcome_bind].
  apply tget_new_Some. split; [lia | exact Hv].
Qed.

Lemma scan_spec r a fuel i phy cnt :
  rat_wf r -> 0 <= i -> i + Z.of_nat fuel <= phy_reg_num r ->
  exists phy' cnt', scan (λ i, producer_get_valid i r) (λ i, tget_new i (phy_map_table r)) a
    fuel i phy cnt = Ok (phy', cnt') /\
    ((phy' = phy /\ cnt' = cnt /\ forall p, i <= p < i + Z.of_nat fuel -> ~ maps r p a) \/
     (maps r phy' a /\ cnt' = cnt + 1 /\ i <= phy' < i + Z.of_nat fuel)).
Proof.
  intros H. revert i phy cnt. induction fuel as [|fuel IH]; intros i phy cnt Hi Hf.
  { exists phy, cnt. split; [done |]. left. split_and!; [done | done | intros; lia]. }
  cbn [scan]. destruct (valid_new r i H) as (v & Hv & Ev); [lia |].
  rewrite Ev. cbn [mbind outcome_bind].
  assert (Hm : (if v then x ← tget_new i (phy_map_table r); Ok (x =? a) else Ok false)
    = Ok (matches r a i)).
  { unfold matches. rewrite Hv. destruct v; [| done].
    destruct (lookup_lt_is_Some_2 (tbl r) (Z.to_nat i)) as [b Hb].
    { unfold tbl. rewrite length_fmap. pose proof (w_tbl _ H) as Hl. unfold zlen in Hl. lia. }
    rewrite Hb. replace (tget_new i (phy_map_table r)) with (Ok b); [done |].
    symmetry. apply tget_new_Some. split; [lia | exact Hb]. }
  rewrite Hm. cbn [mbind outcome_bind]. destruct (matches r a i) eqn:E.
  - apply matches_iff in E; [| done].
    destruct (IH (i + 1) i (cnt + 1)) as (phy' & cnt' & -> & D); [lia | lia |].
    exists phy', cnt'. split; [done |]. right.
    destruct D as [(-> & -> & _) | (Hm' & _ & Hr)]; [split_and!; [done | done | lia | lia] |].
    pose proof (w_inj _ H _ _ _ E Hm'). lia.
  - assert (Hn : ~ maps r i a) by (rewrite <- matches_iff by done; congruence).
    destruct (IH (i + 1) phy cnt) as (phy' & cnt' & -> & D); [lia | lia |].
    exists phy', cnt'. split; [done |].
    destruct D as [(-> & -> & Hnone) | (Hm' & -> & Hr)]; [left | right].
    + split_and!; [done | done |]. intros p Hp.
      destruct (decide (p = i)) as [->|]; [done | apply Hnone; lia].
    + split_and!; [done | done | lia | lia].
Qed.

(** The search finds the register, or reports that there is none. *)
Lemma get_phy_id_spec r a phy :
  rat_wf r -> 0 < a < arch_reg_num r ->
  (exists p, producer_get_phy_id a phy r = Ok (true, p) /\ maps r p a) \/
  (producer_get_phy_id a phy r = Ok (false, phy) /\ forall p, ~ maps r p a).
Proof.
  intros H Ha. pose proof (w_num _ H).
  destruct (scan_spec r a (Z.to_nat (phy_reg_num r)) 0 phy 0) as (phy' & cnt' & E & D);
    [done | lia | lia |].
  unfold producer_get_phy_id.
  replace ((0 <? a) && (a <? arch_reg_num r)) with true by lia.
  cbn [verify mbind outcome_bind]. rewrite E. cbn [mbind outcome_bind fst snd].
  destruct D as [(-> & -> & Hn) | (Hm & -> & Hr)]; cbn; [right | left; eauto].
  split; [done |]. intros p Hp. pose proof (maps_range r p a H Hp). apply (Hn p); [lia | done].
Qed.

Lemma set_valid_raw r p v :
  0 <= p < phy_reg_num r -> zlen (phy_map_table_valid r) = phy_reg_num r ->
  exists t, set_valid p v r = Ok { r with phy_map_table_valid := t } /\
    zlen t = phy_reg_num r /\ dff.get_new <$> t = <[Z.to_nat p := v]> (vld r).
Proof.
  intros Hp Hl. unfold set_valid.
  replace (p <? phy_reg_num r) with true by lia. cbn [verify mbind outcome_bind].
  destruct (tset_spec (phy_map_table_valid r) p v) as (t & -> & Ht & Hn & _); [lia |].
  exists t. split_and!; [done | unfold zlen in *; lia | done].
Qed.

(** The effect on the map of writing one entry and swapping two valid bits. *)
Lemma set_map_maps r r' a p old b q :
  rat_wf r -> maps r old a -> 0 <= p < phy_reg_num r -> vld r !! Z.to_nat p = Some false ->
  tbl r' = <[Z.to_nat p := a]> (tbl r) ->
  vld r' = <[Z.to_nat old := false]> (<[Z.to_nat p := true]> (vld r)) ->
  maps r' q b <-> if b =? a then q = p else maps r q b.
Proof.
  intros H Hold Hp Hv Et Ev. pose proof (maps_range r old a H Hold) as Ho.
  assert (Hne : old <> p) by (intros ->; destruct Hold as (_ & _ & Hx); congruence).
  pose proof (w_tbl _ H) as Hlt. pose proof (w_vld _ H) as Hlv. unfold zlen in *.
  assert (Ht : length (tbl r) = Z.to_nat (phy_reg_num r)) by (unfold tbl; rewrite length_fmap; lia).
  assert (Hw : length (vld r) = Z.to_nat (phy_reg_num r)) by (unfold vld; rewrite length_fmap; lia).
  unfold maps. rewrite Et, Ev.
  destruct (decide (q = p)) as [->|Hqp].
  - rewrite list_lookup_insert_eq, list_lookup_insert_ne, list_lookup_insert_eq by lia.
    destruct (b =? a) eqn:E.
    + assert (b = a) as -> by lia. split; [done | intros _; split_and!; [lia | done | done]].
    + split; [intros (_ & [= ->] & _); lia | intros (_ & _ & Hx); congruence].
  - destruct (decide (q < 0)) as [Hneg|Hpos].
    { split; [lia |]. destruct (b =? a); [lia | intros (? & _); lia]. }
    rewrite list_lookup_insert_ne by lia.
    destruct (decide (q = old)) as [->|Hqo].
    + rewrite list_lookup_insert_eq by (rewrite length_insert; lia).
      split; [intros (_ & _ & ?); done |]. destruct Hold as (_ & Hb & _).
      destruct (b =? a) eqn:E; [lia |]. intros (_ & Hb' & _).
      assert (a = b) by congruence. lia.
    + rewrite !list_lookup_insert_ne by lia.
      destruct (b =? a) eqn:E; [| done]. assert (b = a) as -> by lia.
      split; [| lia]. intros Hm. by destruct (w_inj _ H q old a).
Qed.

Lemma set_map_spec r a p :
  rat_wf r -> complete r -> 0 < a < arch_reg_num r -> 0 <= p < phy_reg_num r ->
  vld r !! Z.to_nat p = Some false ->
  exists old r', set_map a p r = Ok (old, r') /\ maps r old a /\ rat_wf r' /\ complete r' /\
    phy_reg_num r' = phy_reg_num r /\ arch_reg_num r' = arch_reg_num r /\
    (forall b q, maps r' q b <-> if b =? a then q = p else maps r q b) /\
    tbl r' = <[Z.to_nat p := a]> (tbl r) /\
    vld r' = <[Z.to_nat old := false]> (<[Z.to_nat p := true]> (vld r)).
Proof.
  intros H Hc Ha Hp Hv.
  destruct (get_phy_id_spec r a 0 H Ha) as [(old & Eo & Hold) | (_ & Hn)].
  2: { destruct (Hc a Ha) as [q Hq]. by destruct (Hn q). }
  pose proof (maps_range r old a H Hold) as Hor.
  assert (Hne : old <> p) by (intros ->; destruct Hold as (_ & _ & Ho); congruence).
  destruct (valid_new r p H Hp) as (v & Hv' & Ev). assert (v = false) as -> by congruence.
  destruct (valid_new r old H Hor) as (v & Hvo & Evo).
  assert (v = true) as -> by (destruct Hold as (_ & _ & Ho); congruence).
  unfold set_map. replace (p <? phy_reg_num r) with true by lia.
  replace ((0 <? a) && (a <? arch_reg_num r)) with true by lia.
  cbn [verify mbind outcome_bind]. rewrite Ev. cbn [mbind outcome_bind negb verify].
  rewrite Eo. cbn [mbind outcome_bind fst snd].
  assert (Hguard : (if negb (init_rat r) then
    verify true ;; v ← producer_get_valid old r; verify v else Ok tt) = Ok tt).
  { rewrite Evo. by destruct (init_rat r). }
  rewrite Hguard. cbn [mbind outcome_bind].
  pose proof (w_tbl _ H) as Hlt.
  destruct (tset_spec (phy_map_table r) p a) as (t & -> & Ht & Htn & _); [lia |].
  cbn [mbind outcome_bind].
  set (r1 := { r with phy_map_table := t }).
  assert (H1 : zlen (phy_map_table_valid r1) = phy_reg_num r1) by apply H.
  destruct (set_valid_raw r1 p true Hp H1) as (t2 & -> & Ht2 & Htn2).
  cbn [mbind outcome_bind]. set (r2 := { r1 with phy_map_table_valid := t2 }).
  destruct (set_valid_raw r2 old false Hor Ht2) as (t3 & -> & Ht3 & Htn3).
  cbn [mbind outcome_bind].
  match goal with |- context [Ok (old, ?x)] => set (r' := x) end.
  assert (Etbl : tbl r' = <[Z.to_nat p := a]> (tbl r)) by exact Htn.
  assert (Evld : vld r' = <[Z.to_nat old := false]> (<[Z.to_nat p := true]> (vld r))).
  { change (vld r') with (dff.get_new <$> t3). rewrite Htn3.
    change (vld r2) with (dff.get_new <$> t2). by rewrite Htn2. }
  assert (Hmaps : forall b q, maps r' q b <-> if b =? a then q = p else maps r q b).
  { intros b q. by apply (set_map_maps r r' a p old). }
  exists old, r'. split_and!; try done.
  - split; try apply H.
    + change (zlen t = phy_reg_num r). unfold zlen in *. lia.
    + exact Ht3.
    + intros q b. rewrite Hmaps. change (arch_reg_num r') with (arch_reg_num r).
      destruct (b =? a) eqn:E; [lia | apply H].
    + intros q q' b. rewrite !Hmaps. destruct (b =? a); [congruence | apply H].
  - intros b Hb. change (arch_reg_num r') with (arch_reg_num r) in Hb.
    destruct (b =? a) eqn:E; [exists p | destruct (Hc b Hb) as [q Hq]; exists q];
      rewrite Hmaps, E; done.
Qed.

(** ** Checkpoints *)

(** The clock changes no new value. *)
Lemma sync_new r : tbl (sync r) = tbl r /\ vld (sync r) = vld r.
Proof.
  unfold tbl, vld. destruct r as [n a t v i]. cbn. rewrite <- !list_fmap_compose. done.
Qed.
Lemma same_new r r' :
  tbl r' = tbl r -> vld r' = vld r -> phy_reg_num r' = phy_reg_num r ->
  arch_reg_num r' = arch_reg_num r -> (rat_wf r -> rat_wf r') /\ (complete r -> complete r').
Proof.
  intros Et Ev En Ea.
  assert (Hm : forall p a, maps r' p a <-> maps r p a) by (intros; unfold maps; by rewrite Et, Ev).
  split.
  - intros H. split.
    + rewrite En. apply H.
    + rewrite En, <- (w_tbl _ H). unfold zlen. f_equal.
      rewrite <- (length_fmap dff.get_new (phy_map_table r)). fold (tbl r).
      rewrite <- Et. unfold tbl. by rewrite length_fmap.
    + rewrite En, <- (w_vld _ H). unfold zlen. f_equal.
      rewrite <- (length_fmap dff.get_new (phy_map_table_valid r)). fold (vld r).
      rewrite <- Ev. unfold vld. by rewrite length_fmap.
    + intros p a. rewrite Hm, Ea. apply H.
    + intros p q a. rewrite !Hm. apply H.
  - intros H a. rewrite Ea. intros Ha. destruct (H a Ha) as [p Hp]. exists p. by rewrite Hm.
Qed.

(** A sequence of renamings, [None] being the clock. *)
Fixpoint rename_run (l : list (option (Z * Z))) r : outcome rat_t :=
  match l with
  | [] => Ok r
  | Some (a, p) :: l => or ← set_map a p r; rename_run l or.2
  | None :: l => rename_run l (sync r)
  end.
Definition renamed (l : list (option (Z * Z))) : list (Z * Z) := omap id l.

(** The physical registers are distinct and free in [r]. *)
Definition fresh_for r (l : list (Z * Z)) : Prop :=
  NoDup l.*2 /\ Forall (λ ap, 0 < ap.1 < arch_reg_num r /\ 0 <= ap.2 < phy_reg_num r /\
    vld r !! Z.to_nat ap.2 = Some false) l.
#[global] Instance fresh_for_dec r l : Decision (fresh_for r l).
Proof. unfold fresh_for. apply _. Defined.

(** What a run of renamings leaves of the table: entries valid at the start
    are still there, whether valid or not. *)
Lemma rename_run_spec l r r0 :
  rat_wf r -> complete r -> fresh_for r0 (renamed l) -> phy_reg_num r = phy_reg_num r0 ->
  arch_reg_num r = arch_reg_num r0 ->
  (forall p, p ∈ (renamed l).*2 -> vld r !! Z.to_nat p = Some false) ->
  exists r', rename_run l r = Ok r' /\ rat_wf r' /\ complete r' /\
    phy_reg_num r' = phy_reg_num r /\ arch_reg_num r' = arch_reg_num r /\
    (forall q, 0 <= q -> q ∉ (renamed l).*2 -> tbl r' !! Z.to_nat q = tbl r !! Z.to_nat q).
Proof.
  revert r. induction l as [|[[a p]|] l IH]; intros r H Hc Hff Hn Harch Hfree.
  { exists r. split_and!; done. }
  2: { destruct (sync_new r) as [Et Ev].
       destruct (same_new r (sync r) Et Ev eq_refl eq_refl) as [Hw Hcc].
       destruct (IH (sync r)) as (r' & E & W & C & N & A & T); auto.
       { intros p Hp. rewrite Ev. by apply Hfree. }
       exists r'. split_and!; try done. intros q Hq Hql. rewrite T by done. by rewrite Et. }
  destruct Hff as [Hnd Hf]. cbn [rename_run renamed omap list_omap id] in *.
  fold (renamed l) in *.
  apply Forall_cons in Hf as [(Ha & Hp & Hv0) Hf]. cbn [fst snd] in *.
  apply NoDup_cons in Hnd as [Hnp Hnd]. fold (@fmap list _ _ _ (@snd Z Z) (renamed l)) in *.
  destruct (set_map_spec r a p H Hc) as (old & r1 & E & Hold & W1 & C1 & N1 & A1 & M1 & T1 & V1);
    [lia | lia | apply Hfree; left |].
  pose proof (maps_range r old a H Hold) as Hor.
  rewrite E. cbn [mbind outcome_bind snd].
  destruct (IH r1) as (r' & E' & W' & C' & N' & A' & T'); try done; try congruence.
  - intros q Hq. rewrite V1.
    assert (Hqv : vld r !! Z.to_nat q = Some false) by (apply Hfree; by right).
    rewrite Forall_forall in Hf. apply list_elem_of_fmap in Hq as [[b q'] [-> Hq]].
    destruct (Hf _ Hq) as (_ & Hq' & _). cbn [snd] in *.
    assert (q' <> p) by (intros ->; apply Hnp, list_elem_of_fmap; by exists (b, p)).
    assert (q' <> old) by (intros ->; destruct Hold as (_ & _ & Ho); congruence).
    rewrite !list_lookup_insert_ne by lia. done.
  - exists r'. split_and!; try done; try congruence.
    intros q Hq Hqn. cbn in Hqn. apply not_elem_of_cons in Hqn as [Hqp Hql].
    rewrite T' by done. rewrite T1. by rewrite list_lookup_insert_ne by lia.
Qed.

Lemma restore_vld r cp :
  length (checkpoint.phy_map_table_valid cp) = length (phy_map_table_valid r) ->
  vld (restore_from_checkpoint cp r) = checkpoint.phy_map_table_valid cp /\
  tbl (restore_from_checkpoint cp r) = tbl r.
Proof.
  intros Hl. split; [| done]. unfold vld, restore_from_checkpoint. cbn.
  revert Hl. generalize (phy_map_table_valid r) (checkpoint.phy_map_table_valid cp).
  intros l l'. revert l'. induction l as [|d l IH]; intros [|v l'] Hl; try done.
  cbn in *. f_equal. apply IH. lia.
Qed.

(** Restoring the valid bits saved at [r] undoes the renamings since. *)
Lemma rollback r l cp :
  rat_wf r -> complete r -> fresh_for r (renamed l) ->
  exists r', rename_run l r = Ok r' /\
    let r'' := restore_from_checkpoint (producer_save_to_checkpoint cp r) r' in
    rat_wf r'' /\ complete r'' /\ forall p a, maps r'' p a <-> maps r p a.
Proof.
  intros H Hc Hf.
  assert (Hfree : forall p, p ∈ (renamed l).*2 -> vld r !! Z.to_nat p = Some false).
  { destruct Hf as [_ Hf]. rewrite Forall_forall in Hf. intros p Hp.
    apply list_elem_of_fmap in Hp as [[a q] [-> Hq]]. by apply (Hf _ Hq). }
  destruct (rename_run_spec l r r H Hc Hf eq_refl eq_refl Hfree) as (r' & E & W & C & N & A & T).
  exists r'. split; [done |]. cbv zeta.
  set (cp' := producer_save_to_checkpoint cp r).
  assert (Hl : length (checkpoint.phy_map_table_valid cp') = length (phy_map_table_valid r')).
  { change (length (vld r) = length (phy_map_table_valid r')).
    pose proof (w_vld _ H). pose proof (w_vld _ W). unfold vld, zlen in *.
    rewrite length_fmap. lia. }
  destruct (restore_vld r' cp' Hl) as [Ev Et].
  assert (Hm : forall p a, maps (restore_from_checkpoint cp' r') p a <-> maps r p a).
  { intros p a. unfold maps. rewrite Ev, Et. change (checkpoint.phy_map_table_valid cp') with (vld r).
    destruct (decide (p ∈ (renamed l).*2)) as [Hin | Hni].
    - rewrite (Hfree p Hin). naive_solver.
    - split; intros (H0 & Ht & Hv); rewrite T in * by done; done. }
  split_and!; [| | exact Hm].
  - split; try apply W.
    + change (zlen (zip_with (λ d v, dff.set v d) (phy_map_table_valid r')
        (checkpoint.phy_map_table_valid cp')) = phy_reg_num r').
      unfold zlen in *. rewrite length_zip_with, Hl, Nat.min_id. apply (w_vld _ W).
    + intros p a. rewrite Hm. change (arch_reg_num (restore_from_checkpoint cp' r')) with (arch_reg_num r').
      rewrite A. apply H.
    + intros p q a. rewrite !Hm. apply H.
  - intros a Ha. change (arch_reg_num (restore_from_checkpoint cp' r')) with (arch_reg_num r') in Ha.
    rewrite A in Ha. destruct (Hc a Ha) as [p Hp]. exists p. by apply Hm.
Qed.
End spec.
