(* ===== verification/AgeSpec.v ===== *)
(** * Age of instructions and rollback of the register file

    A ROB slot and its stage bit are the remainder and the parity of a counter
    that numbers the instructions in program order ([ptr] and [stg] of
    FifoSpec); [age_compare] orders them like the counter as long as they are
    in the ROB together. *)

From S2P Require Import Prelude Word Dff Fifo FifoSpec Rat.

Section ages.
Context (sz : Z) (Hsz : 0 < sz).

Definition age_at (n : Z) : age_t := age_compare.mk (ptr sz n) (stg sz n).

(** Two instructions, the second [d] places after the first. *)
Lemma age_later n d : 0 <= d < sz ->
  age_compare.lt (age_at (n + d)) (age_at n) = (0 <? d) /\
  age_compare.lt (age_at n) (age_at (n + d)) = false /\
  age_compare.gt (age_at n) (age_at (n + d)) = (0 <? d) /\
  age_compare.gt (age_at (n + d)) (age_at n) = false /\
  age_compare.eq (age_at (n + d)) (age_at n) = (d =? 0) /\
  age_compare.eq (age_at n) (age_at (n + d)) = (d =? 0).
Proof using Hsz.
  intros Hd. pose proof (ptr_range sz Hsz n) as Hr. unfold ptr in Hr.
  assert (Hk : exists k, (k = 0 \/ k = 1) /\ k * sz <= n mod sz + d < (k + 1) * sz).
  { destruct (decide (n mod sz + d < sz)); [exists 0 | exists 1]; lia. }
  destruct Hk as (k & Hk & Hb). destruct (turn sz Hsz n d k) as [E1 E2]; [lia | lia |].
  unfold age_compare.lt, age_compare.gt, age_compare.eq, age_at.
  cbn [age_compare.rob_id age_compare.rob_id_stage]. unfold stg. rewrite E1, E2, Z.odd_add.
  unfold ptr. destruct Hk as [-> | ->]; cbn [Z.odd]; destruct (Z.odd (n / sz)); cbn [xorb eqb];
    rewrite ?andb_true_r, ?andb_false_r; split_and!; lia.
Qed.

Lemma age_order n m : - sz < n - m < sz ->
  age_compare.lt (age_at n) (age_at m) = (m <? n) /\
  age_compare.gt (age_at n) (age_at m) = (n <? m) /\
  age_compare.eq (age_at n) (age_at m) = (n =? m) /\
  age_compare.ne (age_at n) (age_at m) = negb (n =? m) /\
  age_compare.le (age_at n) (age_at m) = (m <=? n) /\
  age_compare.ge (age_at n) (age_at m) = (n <=? m).
Proof using Hsz.
  intros Hd. unfold age_compare.le, age_compare.ge.
  assert (Hne : age_compare.ne (age_at n) (age_at m) = negb (age_compare.eq (age_at n) (age_at m))).
  { unfold age_compare.ne, age_compare.eq. by rewrite negb_andb. }
  rewrite Hne. destruct (decide (m <= n)).
  - destruct (age_later m (n - m)) as (E1 & E2 & E3 & E4 & E5 & E6); [lia |].
    replace (m + (n - m)) with n in * by lia. rewrite E1, E4, E5. split_and!; lia.
  - destruct (age_later n (m - n)) as (E1 & E2 & E3 & E4 & E5 & E6); [lia |].
    replace (n + (m - n)) with m in * by lia. rewrite E2, E3, E6. split_and!; lia.
Qed.
End ages.

(** ** The register file after a rollback *)
Section restore.
Import phy_regfile.

Lemma restored (f : regfile_t) (younger : age_t -> age_t -> bool) a i x :
  regs f !! i = Some x ->
  exists y, regs (sync { f with regs ::= fmap (restore_if younger a) }) !! i = Some y /\
    y = sync_reg (restore_if younger a x).
Proof. destruct f as [l n]. cbn. intros H. rewrite !list_lookup_fmap, H. by eexists. Qed.

(** A register that keeps its contents across the clock. *)
Definition settled (x : reg_t) : Prop :=
  dff.get_new (reg_data_valid x) = dff.get (reg_data_valid x) /\
  dff.get_new (reg_data x) = dff.get (reg_data x).

Lemma restore_if_valid younger a x :
  settled x ->
  dff.get (reg_data_valid (sync_reg (restore_if younger a x))) =
    dff.get (reg_data_valid x) && (dff.get (reg_oldest x) || negb (younger (age_of x) a)) /\
  dff.get (reg_data (sync_reg (restore_if younger a x))) = dff.get (reg_data x).
Proof.
  intros [Hv Hd]. unfold restore_if.
  destruct (dff.get (reg_data_valid x)) eqn:Ev, (dff.get (reg_oldest x)) eqn:Eo; cbn [andb negb orb].
  all: try destruct (younger (age_of x) a); destruct x; cbn in *;
    unfold dff.get, dff.get_new in *; split; congruence.
Qed.
End restore.
