(* ===== verification/FreeList.v ===== *)
(** * The free list of physical registers: include/cycle_model/component/free_list.h

    A clocked queue of register numbers and, beside it, the set of the numbers
    in it ([free_list_set]), which the code uses to check itself: every
    [verify_only] of the class is a step of the model. *)

From S2P Require Import Prelude Word Dff Fifo FifoSpec.

Module free_list.
Record free_list_t := mk { base : fifo_t Z; free_list_set : gset Z }.

(** [verify_only(new_get_used_space() == free_list_set.size())]. *)
Definition check_size (l : free_list_t) : outcome unit :=
  verify (fifo.new_get_used_space (base l) =? Z.of_nat (size (free_list_set l))).

(** The loop of [reset]: [new_push(i)], insert [i]. *)
Fixpoint fill (fuel : nat) (i : Z) (l : free_list_t) : outcome free_list_t :=
  match fuel with
  | O => Ok l
  | S fuel =>
      bf ← fifo.new_push i (base l);
      fill fuel (i + 1) (mk bf.2 ({[i]} ∪ free_list_set l))
  end.
Definition reset (l : free_list_t) : outcome free_list_t :=
  l ← fill (Z.to_nat (fifo.size (base l))) 0 (mk (fifo.reset (base l)) ∅);
  check_size l ;; Ok l.
Definition flush (l : free_list_t) : outcome free_list_t := reset l.
Definition new (sz : Z) : outcome free_list_t := reset (mk (fifo.new sz 0) ∅).

Definition push (d : Z) (l : free_list_t) : outcome (bool * free_list_t) :=
  verify (d <? fifo.size (base l)) ;;
  verify (negb (bool_decide (d ∈ free_list_set l))) ;;
  bf ← fifo.push d (base l);
  let l := mk bf.2 (if (bf.1 : bool) then {[d]} ∪ free_list_set l else free_list_set l) in
  check_size l ;;
  Ok (bf.1, l).

Definition pop (l : free_list_t) : outcome (option Z * free_list_t) :=
  xf ← fifo.pop (base l);
  l ← match (xf.1 : option Z) with
      | Some d =>
          verify (d <? fifo.size (base l)) ;;
          verify (bool_decide (d ∈ free_list_set l)) ;;
          Ok (mk xf.2 (free_list_set l ∖ {[d]}))
      | None => Ok (mk xf.2 (free_list_set l))
      end;
  check_size l ;;
  Ok (xf.1, l).

Definition save (l : free_list_t) : Z * bool :=
  (dff.get_new (fifo.rptr (base l)), dff.get_new (fifo.rstage (base l))).

(** The loop of [restore]: the registers between the restored and the current
    read pointer return to the set. *)
Fixpoint refill (fuel : nat) (cur : Z) (stage : bool) (l : free_list_t) : outcome free_list_t :=
  if negb (cur =? dff.get (fifo.rptr (base l))) ||
     negb (eqb stage (dff.get (fifo.rstage (base l)))) then
    match fuel with
    | O => Hang
    | S fuel =>
        d ← fifo.buffer_get cur (base l);
        verify (negb (bool_decide (d ∈ free_list_set l))) ;;
        let l := mk (base l) ({[d]} ∪ free_list_set l) in
        let cur := add32 cur 1 in
        if fifo.size (base l) <=? cur then refill fuel 0 (negb stage) l
        else refill fuel cur stage l
    end
  else Ok l.
Definition restore (rptr : Z) (rstage : bool) (l : free_list_t) : outcome free_list_t :=
  verify (rptr <? fifo.size (base l)) ;;
  let l := mk (fifo.set_rptr rptr rstage (base l)) (free_list_set l) in
  verify (fifo.producer_get_used_space (base l) =? Z.of_nat (size (free_list_set l))) ;;
  l ← refill (Z.to_nat (2 * fifo.size (base l))) rptr rstage l;
  check_size l ;; Ok l.

Definition sync (l : free_list_t) : free_list_t := mk (fifo.sync (base l)) (free_list_set l).
End free_list.
Abbreviation free_list_t := free_list.free_list_t.

(** ** Specification *)

(** The list holds the registers of [q], each once, and the set mirrors it;
    [p] are the registers popped in this cycle. *)
Record fl_repr (l : free_list_t) (p : list Z) (q : queue Z) : Prop := {
  fl_base : repr (free_list.base l) q;
  fl_popped : q_popped q = zlen p;
  fl_nodup : NoDup (p ++ q_next q);
  fl_range : Forall (λ d, 0 <= d < fifo.size (free_list.base l)) (p ++ q_next q);
  fl_set : free_list.free_list_set l = list_to_set (q_next q)
}.

Lemma list_to_set_size (l : list Z) : NoDup l -> size (list_to_set l : gset Z) = length l.
Proof. apply size_list_to_set. Qed.

Lemma check_size_ok l p q : fl_repr l p q -> free_list.check_size l = Ok tt.
Proof.
  intros H. destruct (fl_base _ _ _ H) as [R HR]. unfold free_list.check_size.
  rewrite (new_used _ _ _ HR), (fl_set _ _ _ H), list_to_set_size.
  - unfold zlen. by rewrite Z.eqb_refl.
  - pose proof (fl_nodup _ _ _ H) as Hn. apply NoDup_app in Hn. tauto.
Qed.

(** Distinct numbers below [n] are at most [n]. *)
Lemma nodup_bound (l : list Z) n : 0 <= n -> NoDup l -> Forall (λ d, 0 <= d < n) l -> zlen l <= n.
Proof.
  intros Hn Hnd Hf. unfold zlen.
  assert (Hs : NoDup (Z.to_nat <$> l)).
  { clear Hn. induction Hnd as [|x l Hx Hnd IH]; [constructor |].
    apply Forall_cons in Hf as [Hxr Hf]. cbn. constructor; [| by apply IH].
    rewrite list_elem_of_fmap. intros (y & Hy & Hyl).
    rewrite Forall_forall in Hf. pose proof (Hf y Hyl). assert (x = y) as -> by lia. done. }
  assert (Hsub : Z.to_nat <$> l ⊆ seq 0 (Z.to_nat n)).
  { intros k Hk. apply list_elem_of_fmap in Hk as (y & -> & Hy).
    rewrite Forall_forall in Hf. pose proof (Hf y Hy). apply elem_of_seq. lia. }
  pose proof (submseteq_length _ _ (NoDup_submseteq _ _ Hs Hsub)) as Hlen.
  rewrite length_fmap, length_seq in Hlen. lia.
Qed.

Lemma fl_push l p q d :
  fl_repr l p q -> 0 <= d < fifo.size (free_list.base l) -> d ∉ p ++ q_next q ->
  exists l', free_list.push d l = Ok (true, l') /\
    fl_repr l' p (mk_queue (q_popped q) (q_view q) (q_fresh q ++ [d])) /\
    fifo.size (free_list.base l') = fifo.size (free_list.base l).
Proof.
  intros H Hd Hn. destruct (fl_base _ _ _ H) as [R HR].
  pose proof (push_spec_at _ _ _ HR d) as Hp.
  assert (Hlen : zlen ((p ++ q_next q) ++ [d]) <= fifo.size (free_list.base l)).
  { apply nodup_bound; [lia | |].
    - apply NoDup_app. split_and!; [apply H | | apply NoDup_singleton].
      intros x Hx Hx'. apply list_elem_of_singleton in Hx' as ->. done.
    - apply Forall_app. split; [apply H | by apply Forall_singleton]. }
  rewrite zlen_app, (zlen_app p) in Hlen.
  replace (zlen [d]) with 1 in Hlen by done. rewrite (fl_popped _ _ _ H) in Hp.
  replace (zlen p + zlen (q_next q) =? fifo.size (free_list.base l)) with false in Hp by lia.
  destruct Hp as (f' & E & HR' & Hs). rewrite <- (fl_popped _ _ _ H) in HR'.
  unfold free_list.push. replace (d <? fifo.size (free_list.base l)) with true by lia.
  cbn [verify mbind outcome_bind].
  assert (Hset : d ∉ free_list.free_list_set l).
  { rewrite (fl_set _ _ _ H), elem_of_list_to_set. set_solver. }
  rewrite bool_decide_eq_false_2 by done. cbn [negb verify mbind outcome_bind].
  rewrite E. cbn [mbind outcome_bind fst snd].
  set (l' := free_list.mk f' _).
  assert (H' : fl_repr l' p (mk_queue (q_popped q) (q_view q) (q_fresh q ++ [d]))).
  { assert (En : q_next (mk_queue (q_popped q) (q_view q) (q_fresh q ++ [d])) = q_next q ++ [d]).
    { unfold q_next. cbn. by rewrite app_assoc. }
    split.
    - by exists R.
    - apply H.
    - rewrite En, app_assoc. apply NoDup_app. split_and!; [apply H | | apply NoDup_singleton].
      intros x Hx Hx'. apply list_elem_of_singleton in Hx' as ->. done.
    - rewrite En, app_assoc. cbn [l' free_list.base]. rewrite Hs.
      apply Forall_app. split; [apply H | by apply Forall_singleton].
    - rewrite En. cbn [l' free_list.free_list_set]. rewrite (fl_set _ _ _ H).
      apply leibniz_equiv. set_solver. }
  rewrite (check_size_ok l' p _ H'). cbn [mbind outcome_bind]. exists l'. split_and!; done.
Qed.

Lemma fl_pop l p q :
  fl_repr l p q ->
  match q_view q with
  | [] => free_list.pop l = Ok (None, l)
  | d :: v => exists l', free_list.pop l = Ok (Some d, l') /\
      fl_repr l' (p ++ [d]) (mk_queue (q_popped q + 1) v (q_fresh q)) /\
      fifo.size (free_list.base l') = fifo.size (free_list.base l)
  end.
Proof.
  intros H. destruct (fl_base _ _ _ H) as [R HR].
  pose proof (pop_spec_at _ _ _ HR) as Hp. unfold free_list.pop.
  destruct (q_view q) as [|d v] eqn:Eq.
  - rewrite Hp. cbn [mbind outcome_bind fst snd]. destruct l as [b s]. cbn in *.
    change (free_list.mk b s) with (free_list.mk b s).
    by rewrite (check_size_ok _ p q H).
  - destruct Hp as (f' & E & HR' & Hs). rewrite E. cbn [mbind outcome_bind fst snd].
    assert (En : q_next q = d :: v ++ q_fresh q) by (unfold q_next; by rewrite Eq).
    pose proof (fl_nodup _ _ _ H) as Hnd. pose proof (fl_range _ _ _ H) as Hr.
    rewrite En in Hnd, Hr.
    assert (Hd : 0 <= d < fifo.size (free_list.base l)).
    { rewrite Forall_forall in Hr. apply Hr. set_solver. }
    replace (d <? fifo.size (free_list.base l)) with true by lia. cbn [verify mbind outcome_bind].
    rewrite bool_decide_eq_true_2 by (rewrite (fl_set _ _ _ H), En; set_solver).
    cbn [verify mbind outcome_bind].
    set (l' := free_list.mk f' _).
    assert (H' : fl_repr l' (p ++ [d]) (mk_queue (q_popped q + 1) v (q_fresh q))).
    { change (q_next q) with (q_next q) in En.
      assert (En' : q_next (mk_queue (q_popped q + 1) v (q_fresh q)) = v ++ q_fresh q) by done.
      split.
      - by exists R.
      - cbn. rewrite (fl_popped _ _ _ H), zlen_app. done.
      - rewrite En', <- app_assoc. exact Hnd.
      - rewrite En', <- app_assoc. cbn [l' free_list.base]. rewrite Hs. exact Hr.
      - rewrite En'. cbn [l' free_list.free_list_set]. rewrite (fl_set _ _ _ H), En.
        apply leibniz_equiv. apply NoDup_app in Hnd as (_ & _ & Hnd).
        apply NoDup_cons in Hnd as [Hni _]. cbn [list_to_set]. set_solver. }
    rewrite (check_size_ok l' _ _ H'). cbn [mbind outcome_bind]. exists l'. split_and!; done.
Qed.

Lemma fl_sync l p q :
  fl_repr l p q -> fl_repr (free_list.sync l) [] (mk_queue 0 (q_next q) []).
Proof.
  intros H. destruct (fl_base _ _ _ H) as [R HR].
  assert (En : q_next (mk_queue 0 (q_next q) []) = q_next q).
  { unfold q_next at 1. cbn. by rewrite app_nil_r. }
  split.
  - eexists. by apply sync_spec_at.
  - done.
  - rewrite En. pose proof (fl_nodup _ _ _ H) as Hn. apply NoDup_app in Hn. tauto.
  - rewrite En. pose proof (fl_range _ _ _ H) as Hr. apply Forall_app in Hr. tauto.
  - rewrite En. apply H.
Qed.

(** [reset] fills the list with every register number, in order. *)
Lemma fill_spec fuel i l :
  pending (free_list.base l) (seqZ 0 i) -> 0 <= i ->
  i + Z.of_nat fuel = fifo.size (free_list.base l) ->
  free_list.free_list_set l = list_to_set (seqZ 0 i) ->
  exists l', free_list.fill fuel i l = Ok l' /\
    pending (free_list.base l') (seqZ 0 (fifo.size (free_list.base l))) /\
    fifo.size (free_list.base l') = fifo.size (free_list.base l) /\
    free_list.free_list_set l' = list_to_set (seqZ 0 (fifo.size (free_list.base l))).
Proof.
  revert i l. induction fuel as [|fuel IH]; intros i l Hp Hi Hf Hs.
  - exists l. assert (i = fifo.size (free_list.base l)) as <- by lia. by split_and!.
  - cbn [free_list.fill]. pose proof (new_push_pending _ _ i Hp) as E.
    assert (Hz : zlen (seqZ 0 i) = i) by (unfold zlen; rewrite length_seqZ; lia).
    rewrite Hz in E. replace (i =? fifo.size (free_list.base l)) with false in E by lia.
    destruct E as (f' & -> & Hp' & Hsz). cbn [mbind outcome_bind snd].
    assert (Hseq : seqZ 0 i ++ [i] = seqZ 0 (i + 1)).
    { rewrite (seqZ_app 0 i 1) by lia. done. }
    rewrite Hseq in Hp'.
    destruct (IH (i + 1) (free_list.mk f' ({[i]} ∪ free_list.free_list_set l))) as (l' & E & P & S & F).
    + exact Hp'.
    + lia.
    + cbn [free_list.base]. rewrite Hsz. lia.
    + cbn [free_list.free_list_set]. rewrite Hs, <- Hseq. apply leibniz_equiv.
      rewrite list_to_set_app. set_solver.
    + cbn [free_list.base] in *. rewrite Hsz in *. exists l'. by split_and!.
Qed.

(** ** Rollback

    [history l p q h]: the ring still holds, in front of the read pointer, the
    registers [h] handed out in earlier cycles. *)
Record history (l : free_list_t) (q : queue Z) (h : list Z) (R : Z) : Prop := {
  h_repr : repr_at (free_list.base l) q R;
  h_idle : q_popped q = 0;
  h_start : zlen h <= R;
  h_nodup : NoDup (h ++ q_next q);
  h_range : Forall (λ d, 0 <= d < fifo.size (free_list.base l)) (h ++ q_next q);
  h_set : free_list.free_list_set l = list_to_set (q_next q);
  h_slots : forall k d, h !! k = Some d ->
    buffer_is (free_list.base l) (ptr (fifo.size (free_list.base l)) (R - zlen h + Z.of_nat k)) d
}.

Lemma refill_spec fuel l S R h :
  let sz := fifo.size (free_list.base l) in
  0 < sz < 2 ^ 30 -> S + zlen h = R -> zlen h <= sz -> (length h <= fuel)%nat ->
  dff.get (fifo.rptr (free_list.base l)) = ptr sz R ->
  dff.get (fifo.rstage (free_list.base l)) = stg sz R ->
  (forall k d, h !! k = Some d -> buffer_is (free_list.base l) (ptr sz (S + Z.of_nat k)) d) ->
  NoDup h -> (forall d, d ∈ h -> d ∉ free_list.free_list_set l) ->
  free_list.refill fuel (ptr sz S) (stg sz S) l =
  Ok (free_list.mk (free_list.base l) (list_to_set h ∪ free_list.free_list_set l)).
Proof.
  cbv zeta. revert S l fuel. induction h as [|d h IH]; intros S l fuel Hsz HR Hle Hfuel Hp Hg Hb Hnd Hni.
  - assert (S = R) as <- by (unfold zlen in HR; cbn in HR; lia).
    assert (E : negb (ptr (fifo.size (free_list.base l)) S =? dff.get (fifo.rptr (free_list.base l)))
      || negb (eqb (stg (fifo.size (free_list.base l)) S) (dff.get (fifo.rstage (free_list.base l)))) = false).
    { rewrite Hp, Hg, Z.eqb_refl, eqb_reflx. done. }
    destruct l as [b s0]. cbn in *.
    destruct fuel; cbn [free_list.refill free_list.base]; rewrite E; cbn [list_to_set];
      by rewrite (left_id_L ∅ (∪)).
  - destruct fuel as [|fuel]; [cbn in Hfuel; lia |].
    assert (Hs : 0 < fifo.size (free_list.base l)) by lia.
    assert (Hz : zlen (d :: h) = zlen h + 1) by (unfold zlen; cbn [length]; lia).
    assert (H0 : 0 <= zlen h) by (unfold zlen; lia).
    cbn [free_list.refill].
    assert (E : negb (ptr (fifo.size (free_list.base l)) S =? dff.get (fifo.rptr (free_list.base l)))
      || negb (eqb (stg (fifo.size (free_list.base l)) S) (dff.get (fifo.rstage (free_list.base l)))) = true).
    { rewrite Hp, Hg, <- negb_andb. apply negb_true_iff. rewrite <- HR.
      rewrite (compare_sym (fifo.size (free_list.base l)) Hs) by lia. lia. }
    rewrite E. destruct (Hb O d eq_refl) as (x & Hx & Hget & _). rewrite Z.add_0_r in Hx.
    pose proof (ptr_range (fifo.size (free_list.base l)) Hs S) as Hr.
    unfold fifo.buffer_get.
    replace (arr_get _ (ptr _ S)) with (Ok x) by (symmetry; apply arr_get_Some; split; [lia | done]).
    cbn [mbind outcome_bind]. rewrite Hget.
    rewrite bool_decide_eq_false_2 by (apply Hni; left). cbn [negb verify mbind outcome_bind].
    apply NoDup_cons in Hnd as [Hdh Hnd].
    pose proof (IH (S + 1) (free_list.mk (free_list.base l) ({[d]} ∪ free_list.free_list_set l)) fuel) as IH'.
    cbn [free_list.base free_list.free_list_set] in *.
    assert (Hres : free_list.refill fuel (ptr (fifo.size (free_list.base l)) (S + 1))
      (stg (fifo.size (free_list.base l)) (S + 1))
      (free_list.mk (free_list.base l) ({[d]} ∪ free_list.free_list_set l)) =
      Ok (free_list.mk (free_list.base l) (list_to_set (d :: h) ∪ free_list.free_list_set l))).
    { rewrite IH'; try done; try lia.
      - do 2 f_equal. cbn [list_to_set]. set_solver.
      - cbn [length] in Hfuel. lia.
      - intros k y Hk. replace (S + 1 + Z.of_nat k) with (S + Z.of_nat (Datatypes.S k)) by lia.
        by apply Hb.
      - intros y Hy. pose proof (Hni y ltac:(by right)). set_solver. }
    destruct (succ (fifo.size (free_list.base l)) Hs S) as [S1 S2].
    assert (Ha : add32 (ptr (fifo.size (free_list.base l)) S) 1 = ptr (fifo.size (free_list.base l)) S + 1)
      by (apply u32_small; word_lia).
    rewrite Ha.
    assert (Hc : (fifo.size (free_list.base l) <=? ptr (fifo.size (free_list.base l)) S + 1)
      = (fifo.size (free_list.base l) - 1 <=? ptr (fifo.size (free_list.base l)) S)) by lia.
    rewrite Hc. rewrite <- Hres, <- S1, <- S2. by destruct (_ <=? _).
Qed.

(** The distance of two counters at most one turn apart. *)
Lemma new_used_counters {T} (f : fifo_t T) S n :
  0 < fifo.size f < 2 ^ 30 -> 0 <= n <= fifo.size f ->
  dff.get_new (fifo.rptr f) = ptr (fifo.size f) S -> dff.get_new (fifo.rstage f) = stg (fifo.size f) S ->
  dff.get_new (fifo.wptr f) = ptr (fifo.size f) (S + n) ->
  dff.get_new (fifo.wstage f) = stg (fifo.size f) (S + n) ->
  fifo.new_get_used_space f = n.
Proof.
  intros Hs Hn R1 R2 W1 W2. unfold fifo.new_get_used_space, fifo.new_is_full.
  rewrite R1, R2, W1, W2. assert (H0 : 0 < fifo.size f) by lia.
  destruct (compare (fifo.size f) H0 S n) as [_ ->]; [lia |].
  destruct (n =? fifo.size f) eqn:E; [lia |].
  pose proof (ptr_range (fifo.size f) H0 S). pose proof (ptr_range (fifo.size f) H0 (S + n)).
  rewrite u32_small by word_lia. apply distance; lia.
Qed.

Section rollback.
Context (l : free_list_t) (q : queue Z) (h : list Z) (R : Z) (H : history l q h R).
#[local] Abbreviation f := (free_list.base l).
#[local] Abbreviation sz := (fifo.size (free_list.base l)).
#[local] Abbreviation S := (R - zlen h).
#[local] Abbreviation f' := (fifo.set_rptr (ptr sz S) (stg sz S) (free_list.base l)).

Lemma rollback_bound : 0 < sz < 2 ^ 30 /\ 0 <= zlen h /\ zlen h + zlen (q_next q) <= sz.
Proof using H.
  pose proof (r_size _ _ _ (h_repr _ _ _ _ H)). split; [done |].
  split; [unfold zlen; lia |]. rewrite <- zlen_app.
  apply nodup_bound; [lia | apply H | apply H].
Qed.

Lemma rollback_repr :
  repr_at (fifo.sync f') (mk_queue 0 (h ++ q_next q) []) S.
Proof using H.
  destruct rollback_bound as (Hs & Hh & Hb). pose proof (h_repr _ _ _ _ H) as HR.
  pose proof (h_start _ _ _ _ H) as H0. pose proof (h_idle _ _ _ _ H) as Hi.
  assert (En : q_next (mk_queue 0 (h ++ q_next q) []) = h ++ q_next q).
  { unfold q_next at 1. cbn. by rewrite app_nil_r. }
  assert (Ez : R - zlen h + 0 + zlen (h ++ q_next q) = R + q_popped q + zlen (q_next q)).
  { rewrite zlen_app, Hi. lia. }
  destruct (repr_bounds _ _ _ HR) as (_ & Hv & Hf & Hn).
  split; cbn [q_popped q_view q_fresh]; rewrite ?En, ?Ez;
    cbn [fifo.sync fifo.set_rptr fifo.size fifo.wptr fifo.wstage fifo.rptr fifo.rstage
      dff.sync dff.set dff.get dff.get_new dff.cur_value dff.new_value]; try done; try lia.
  - cbn. unfold zlen. rewrite length_fmap. apply HR.
  - by rewrite Z.add_0_r.
  - apply HR.
  - apply HR.
  - intros k d Hk. rewrite Z.add_0_r. apply lookup_app_Some in Hk as [Hk | [Hk1 Hk]].
    + destruct (h_slots _ _ _ _ H k d Hk) as (x & Hx & Hg & Hgn).
      exists (dff.sync x). split; [| done]. cbn. by rewrite list_lookup_fmap, Hx.
    + assert (E : R - zlen h + Z.of_nat k = R + q_popped q + Z.of_nat (k - length h))
        by (rewrite Hi; unfold zlen; lia).
      rewrite E. unfold q_next in Hk. apply lookup_app_Some in Hk as [Hk | [Hk2 Hk]].
      * destruct (r_view _ _ _ HR _ d Hk) as (x & Hx & Hg & Hgn).
        exists (dff.sync x). split; [| done]. cbn. by rewrite list_lookup_fmap, Hx.
      * destruct (r_fresh _ _ _ HR _ d Hk) as (x & Hx & Hgn).
        exists (dff.sync x). split; [| done]. cbn. rewrite list_lookup_fmap.
        replace (R + q_popped q + Z.of_nat (k - length h))
          with (R + q_popped q + zlen (q_view q) + Z.of_nat (k - length h - length (q_view q)))
          by (unfold zlen; lia). by rewrite Hx.
Qed.

Lemma restore_spec :
  exists l', free_list.restore (ptr sz S) (stg sz S) l = Ok l' /\
    fl_repr (free_list.sync l') [] (mk_queue 0 (h ++ q_next q) []) /\
    fifo.size (free_list.base l') = sz.
Proof using H.
  destruct rollback_bound as (Hs & Hh & Hb). pose proof (h_repr _ _ _ _ H) as HR.
  assert (H0 : 0 < sz) by lia. pose proof (ptr_range sz H0 S) as Hp.
  pose proof (h_nodup _ _ _ _ H) as Hnd. apply NoDup_app in Hnd as (Hnh & Hdis & Hnq).
  unfold free_list.restore. replace (ptr sz S <? sz) with true by lia.
  cbn [verify mbind outcome_bind free_list.base free_list.free_list_set].
  change (fifo.producer_get_used_space f') with (fifo.producer_get_used_space f).
  rewrite (producer_used _ _ _ HR), (h_idle _ _ _ _ H), Z.add_0_l, (h_set _ _ _ _ H).
  rewrite list_to_set_size by done.
  replace (zlen (q_next q) =? Z.of_nat (length (q_next q))) with true by (unfold zlen; lia).
  cbn [verify mbind outcome_bind].
  change (fifo.size f') with sz.
  pose proof (refill_spec (Z.to_nat (2 * sz))
    (free_list.mk f' (list_to_set (q_next q))) S R h) as Hrefill.
  cbv zeta in Hrefill. cbn [free_list.base free_list.free_list_set] in Hrefill.
  change (fifo.size f') with sz in *.
  pose proof (zlen_nonneg (q_next q)) as Hnn.
  assert (Hfuel : (length h <= Z.to_nat (2 * sz))%nat) by (unfold zlen in *; lia).
  rewrite Hrefill; clear Hrefill; try done; try lia.
  - cbn [mbind outcome_bind]. unfold free_list.check_size.
    cbn [free_list.base free_list.free_list_set].
    rewrite <- list_to_set_app_L, list_to_set_size by (by apply NoDup_app).
    destruct (r_wptr_new _ _ _ HR) as [W1 W2]. rewrite (h_idle _ _ _ _ H) in W1, W2.
    rewrite (new_used_counters f' S (zlen (h ++ q_next q))).
    + unfold zlen. rewrite Z.eqb_refl. cbn [verify mbind outcome_bind].
      eexists. split; [reflexivity |]. split; [| done].
      assert (En : q_next (mk_queue 0 (h ++ q_next q) []) = h ++ q_next q).
      { unfold q_next at 1. cbn. by rewrite app_nil_r. }
      split; rewrite ?En; cbn [free_list.sync free_list.base free_list.free_list_set app].
      * exists S. exact rollback_repr.
      * done.
      * apply H.
      * apply H.
      * done.
    + exact Hs.
    + change (fifo.size f') with sz. rewrite zlen_app. unfold zlen in *. lia.
    + done.
    + done.
    + rewrite zlen_app. cbn [fifo.set_rptr fifo.wptr fifo.size]. rewrite W1. f_equal. lia.
    + rewrite zlen_app. cbn [fifo.set_rptr fifo.wstage fifo.size]. rewrite W2. f_equal. lia.
  - apply HR.
  - apply HR.
  - apply H.
  - intros d Hd. rewrite elem_of_list_to_set. by apply Hdis.
Qed.
End rollback.
