(* ===== verification/FreeListTrace.v ===== *)
(** * The life of a physical register

    A ledger of who holds which register: the committed state ([lg_out]), the
    instructions in flight, oldest first ([lg_spec]), or the free list.  The
    free list of the model follows the ledger through allocation, commit,
    checkpointing and rollback, and none of its self-checks fails. *)

From S2P Require Import Prelude Word Dff Fifo FifoSpec FreeList.

(** ** Moving the read pointer back *)
Section rewind.
Context {T : Type}.
Implicit Types (f : fifo_t T) (q : queue T) (S : Z).

(** The ring seen from the counter [S]. *)
Definition rewind S f : fifo_t T :=
  fifo.mk (fifo.buffer f) (fifo.size f) (fifo.wptr f) (fifo.wstage f)
    (dff.new (ptr (fifo.size f) S)) (dff.new (stg (fifo.size f) S)).

Lemma rewind_sync S f : rewind S (fifo.sync f) = fifo.sync (rewind S f).
Proof. done. Qed.

Lemma rewind_pop S f f' x : fifo.pop f = Ok (Some x, f') -> rewind S f' = rewind S f.
Proof.
  unfold fifo.pop. destruct (fifo.customer_is_empty f); [discriminate |].
  destruct (fifo.buffer_get _ _); [| discriminate..]. intros [= _ <-].
  unfold fifo.advance_rptr. by destruct (_ <=? _).
Qed.

Lemma rewind_push S f f' x :
  fifo.push x f = Ok (true, f') -> fifo.producer_is_full (rewind S f) = false ->
  fifo.push x (rewind S f) = Ok (true, rewind S f').
Proof.
  unfold fifo.push. destruct (fifo.producer_is_full f); [discriminate |]. intros H ->.
  revert H. unfold fifo.buffer_set. cbn [rewind fifo.buffer fifo.wptr].
  destruct (arr_get _ _) as [d| | |]; [| discriminate..]. cbn [mbind outcome_bind].
  destruct (arr_set _ _ _) as [b| | |]; [| discriminate..]. cbn [mbind outcome_bind].
  intros [= <-]. unfold fifo.advance_wptr.
  cbn [rewind fifo.size fifo.wptr fifo.wstage fifo.buffer]. by destruct (_ <=? _).
Qed.

(** The oldest element of a rewound ring is given up for good. *)
Lemma rewind_next S f x v w :
  repr_at (rewind S f) (mk_queue 0 (x :: v) w) S ->
  repr_at (rewind (S + 1) f) (mk_queue 0 v w) (S + 1).
Proof.
  intros H. pose proof (r_start _ _ _ H) as H0. pose proof (r_bound _ _ _ H) as Hb.
  assert (Hz : zlen (x :: v) = zlen v + 1) by (unfold zlen; cbn [length]; lia).
  assert (Hn : zlen (q_next (mk_queue 0 (x :: v) w)) = zlen (q_next (mk_queue 0 v w)) + 1).
  { unfold q_next. cbn [q_view q_fresh app]. unfold zlen. cbn [length]. lia. }
  pose proof (r_wptr _ _ _ H) as Hw. pose proof (r_wptr_new _ _ _ H) as Hwn.
  rewrite Hn in Hwn, Hb. cbn [q_popped q_view rewind fifo.size fifo.wptr fifo.wstage] in Hw, Hwn, Hb.
  rewrite Hz in Hw.
  split; cbn [rewind fifo.size fifo.buffer fifo.wptr fifo.wstage fifo.rptr fifo.rstage
    q_popped q_view q_fresh]; rewrite ?Z.add_0_r; try apply H; try done; try lia.
  - replace (S + 1 + zlen v) with (S + 0 + (zlen v + 1)) by lia. done.
  - match goal with |- context [S + 1 + ?n] =>
      replace (S + 1 + n) with (S + 0 + (n + 1)) by lia end. done.
  - intros k y Hk. pose proof (r_view _ _ _ H (Datatypes.S k) y Hk) as Hy.
    cbn [q_popped rewind fifo.size] in Hy.
    replace (S + 1 + Z.of_nat k) with (S + 0 + Z.of_nat (Datatypes.S k)) by lia. exact Hy.
  - intros k y Hk. pose proof (r_fresh _ _ _ H k y Hk) as Hy.
    cbn [q_popped q_view rewind fifo.size] in Hy. rewrite Hz in Hy.
    replace (S + 1 + zlen v + Z.of_nat k) with (S + 0 + (zlen v + 1) + Z.of_nat k) by lia.
    exact Hy.
Qed.
End rewind.

(** ** The ledger *)
Lemma exchange {A} (d x : A) o o' s v w :
  d :: o' ≡ₚ o -> (x :: o') ++ s ++ v ++ w ++ [d] ≡ₚ o ++ (x :: s) ++ v ++ w.
Proof.
  intros <-. rewrite !app_assoc, (Permutation_app_comm _ [d]). cbn [app]. constructor.
  rewrite <- !app_assoc. cbn [app]. apply Permutation_middle.
Qed.

Record ledger := mk_ledger {
  lg_out : list Z;      (* registers of the committed state *)
  lg_spec : list Z;     (* registers of the instructions in flight, oldest first *)
  lg_now : nat;         (* how many of them were allocated in this cycle *)
  lg_queue : queue Z;   (* the free list *)
  lg_base : Z           (* instructions that have left [lg_spec] at its front *)
}.

(** [fl_commit d]: the oldest instruction in flight commits, and the register
    [d] it replaces is freed.  [fl_adopt]: it commits and replaces nothing.
    [fl_rollback n]: the read pointer of the counter [n] is restored and the
    cycle ends. *)
Inductive fl_cmd :=
| fl_alloc | fl_commit (d : Z) | fl_adopt | fl_save | fl_tick | fl_rollback (n : Z).
Inductive fl_answer := fl_register (d : option Z) | fl_pushed (ok : bool)
| fl_saved (rptr : Z) (rstage : bool) | fl_done.

Section protocol.
Context (sz : Z).
Implicit Types (g : ledger) (l : free_list_t).

(** What the model does for a command. *)
Definition fl_exec (c : fl_cmd) l : outcome (fl_answer * free_list_t) :=
  match c with
  | fl_alloc => dl ← free_list.pop l; Ok (fl_register dl.1, dl.2)
  | fl_commit d => bl ← free_list.push d l; Ok (fl_pushed bl.1, bl.2)
  | fl_adopt => Ok (fl_done, l)
  | fl_save => Ok (fl_saved (free_list.save l).1 (free_list.save l).2, l)
  | fl_tick => Ok (fl_done, free_list.sync l)
  | fl_rollback n => l ← free_list.restore (ptr sz n) (stg sz n) l; Ok (fl_done, free_list.sync l)
  end.
Fixpoint fl_exec_all (cs : list fl_cmd) l : outcome (list fl_answer * free_list_t) :=
  match cs with
  | [] => Ok ([], l)
  | c :: cs => al ← fl_exec c l; rl ← fl_exec_all cs al.2; Ok (al.1 :: rl.1, rl.2)
  end.

(** What it means for the ledger; [None] is a command the pipeline does not
    issue: the instruction that commits was renamed in an earlier cycle and
    frees a register of the committed state; a rollback goes to an
    instruction in flight, in a cycle without allocations. *)
Definition lg_exec (c : fl_cmd) g : option (fl_answer * ledger) :=
  let q := lg_queue g in
  match c with
  | fl_alloc =>
      Some match q_view q with
           | [] => (fl_register None, g)
           | d :: v => (fl_register (Some d),
               mk_ledger (lg_out g) (lg_spec g ++ [d]) (S (lg_now g))
                 (mk_queue (q_popped q + 1) v (q_fresh q)) (lg_base g))
           end
  | fl_commit d =>
      match lg_spec g with
      | x :: s =>
          if decide (d ∈ lg_out g /\ (lg_now g <= length s)%nat) then
            Some (fl_pushed true,
              mk_ledger (x :: list_difference (lg_out g) [d]) s (lg_now g)
                (mk_queue (q_popped q) (q_view q) (q_fresh q ++ [d])) (lg_base g + 1))
          else None
      | [] => None
      end
  | fl_adopt =>
      match lg_spec g with
      | x :: s => if decide (lg_now g <= length s)%nat then
                    Some (fl_done, mk_ledger (x :: lg_out g) s (lg_now g) q (lg_base g + 1))
                  else None
      | [] => None
      end
  | fl_save =>
      let n := lg_base g + zlen (lg_spec g) in Some (fl_saved (ptr sz n) (stg sz n), g)
  | fl_tick => Some (fl_done, mk_ledger (lg_out g) (lg_spec g) 0 (mk_queue 0 (q_next q) []) (lg_base g))
  | fl_rollback n =>
      let k := Z.to_nat (n - lg_base g) in
      if decide (lg_base g <= n /\ (k <= length (lg_spec g))%nat /\ lg_now g = O) then
        Some (fl_done, mk_ledger (lg_out g) (take k (lg_spec g)) 0
          (mk_queue 0 (drop k (lg_spec g) ++ q_next q) []) (lg_base g))
      else None
  end.
Fixpoint lg_exec_all (cs : list fl_cmd) g : option (list fl_answer * ledger) :=
  match cs with
  | [] => Some ([], g)
  | c :: cs => ag ← lg_exec c g; rg ← lg_exec_all cs ag.2; Some (ag.1 :: rg.1, rg.2)
  end.

(** Every register is in one place. *)
Definition holders g : list Z := lg_out g ++ lg_spec g ++ q_next (lg_queue g).

Record follows l g : Prop := {
  fo_size : fifo.size (free_list.base l) = sz;
  fo_all : holders g ≡ₚ seqZ 0 sz;
  fo_popped : q_popped (lg_queue g) = Z.of_nat (lg_now g);
  fo_now : (lg_now g <= length (lg_spec g))%nat;
  fo_base : 0 <= lg_base g;
  fo_repr : repr_at (free_list.base l) (lg_queue g)
    (lg_base g + zlen (lg_spec g) - Z.of_nat (lg_now g));
  fo_rewind : repr_at (rewind (lg_base g) (free_list.base l))
    (mk_queue 0 (lg_spec g ++ q_view (lg_queue g)) (q_fresh (lg_queue g))) (lg_base g);
  fo_set : free_list.free_list_set l = list_to_set (q_next (lg_queue g))
}.

Lemma follows_nodup l g : follows l g -> NoDup (holders g) /\ Forall (λ d, 0 <= d < sz) (holders g).
Proof.
  intros H. rewrite (fo_all _ _ H). split; [apply NoDup_seqZ |].
  apply Forall_forall. intros x Hx. apply elem_of_seqZ in Hx. lia.
Qed.

(** The registers allocated in this cycle are the last in flight. *)
Definition this_cycle g : list Z := drop (length (lg_spec g) - lg_now g) (lg_spec g).

Lemma follows_fl l g : follows l g -> fl_repr l (this_cycle g) (lg_queue g).
Proof.
  intros H. destruct (follows_nodup l g H) as [Hnd Hr]. unfold holders in *.
  assert (Hspec : lg_spec g = take (length (lg_spec g) - lg_now g) (lg_spec g) ++ this_cycle g)
    by (unfold this_cycle; by rewrite take_drop).
  rewrite Hspec, <- app_assoc, app_assoc in Hnd, Hr.
  apply NoDup_app in Hnd as (_ & _ & Hnd). apply Forall_app in Hr as [_ Hr].
  split; try done.
  - eexists. apply (fo_repr _ _ H).
  - rewrite (fo_popped _ _ H). unfold this_cycle, zlen. rewrite length_drop.
    pose proof (fo_now _ _ H). lia.
  - by rewrite (fo_size _ _ H).
  - apply (fo_set _ _ H).
Qed.

(** *** What an operation does to the ring itself *)
Lemma pop_base l l' d :
  free_list.pop l = Ok (Some d, l') -> fifo.pop (free_list.base l) = Ok (Some d, free_list.base l').
Proof.
  unfold free_list.pop. intros H. inv_ok. cbn [fst snd] in *. subst. by inv_ok.
Qed.
Lemma push_base l l' d :
  free_list.push d l = Ok (true, l') -> fifo.push d (free_list.base l) = Ok (true, free_list.base l').
Proof.
  unfold free_list.push. intros H. inv_ok. cbn [fst snd] in *. by subst.
Qed.
Lemma refill_base fuel cur stage l l' :
  free_list.refill fuel cur stage l = Ok l' -> free_list.base l' = free_list.base l.
Proof.
  revert cur stage l. induction fuel as [|fuel IH]; intros cur stage l; cbn [free_list.refill];
    destruct (_ || _); intros H; inv_ok; try done.
  destruct (_ <=? _); by apply IH in H.
Qed.
Lemma restore_base l l' p s :
  free_list.restore p s l = Ok l' -> free_list.base l' = fifo.set_rptr p s (free_list.base l).
Proof.
  unfold free_list.restore. intros H. inv_ok.
  match goal with E : free_list.refill _ _ _ _ = _ |- _ => by apply refill_base in E end.
Qed.

(** *** Each command *)
Section step.
Context l g (H : follows l g).

Lemma step_alloc d v :
  q_view (lg_queue g) = d :: v -> exists l', free_list.pop l = Ok (Some d, l') /\
    follows l' (mk_ledger (lg_out g) (lg_spec g ++ [d]) (S (lg_now g))
      (mk_queue (q_popped (lg_queue g) + 1) v (q_fresh (lg_queue g))) (lg_base g)).
Proof using H.
  intros Eq. pose proof (fl_pop l _ _ (follows_fl l g H)) as Hp. rewrite Eq in Hp.
  destruct Hp as (l' & E & Hfl & Hs). exists l'. split; [done |].
  pose proof (pop_base _ _ _ E) as Eb. pose proof (pop_spec_at _ _ _ (fo_repr _ _ H)) as Hb.
  rewrite Eq, Eb in Hb. destruct Hb as (f' & [= <-] & Hr & _).
  assert (Hz : zlen (lg_spec g ++ [d]) = zlen (lg_spec g) + 1) by (by rewrite zlen_app).
  split; cbn [lg_out lg_spec lg_now lg_queue lg_base].
  - rewrite Hs. apply H.
  - rewrite <- (fo_all _ _ H). unfold holders, q_next.
    cbn [lg_out lg_spec lg_queue q_view q_fresh]. rewrite Eq. by rewrite <- app_assoc.
  - cbn [q_popped]. rewrite (fo_popped _ _ H). lia.
  - rewrite length_app. cbn [length]. pose proof (fo_now _ _ H). lia.
  - apply H.
  - rewrite Hz. replace (lg_base g + (zlen (lg_spec g) + 1) - Z.of_nat (S (lg_now g)))
      with (lg_base g + zlen (lg_spec g) - Z.of_nat (lg_now g)) by lia. exact Hr.
  - rewrite (rewind_pop _ _ _ _ Eb). pose proof (fo_rewind _ _ H) as Hw. rewrite Eq in Hw.
    cbn [q_view q_fresh]. by rewrite <- app_assoc.
  - apply (fl_set _ _ _ Hfl).
Qed.

Lemma step_push d x s :
  lg_spec g = x :: s -> d ∈ lg_out g -> exists l', free_list.push d l = Ok (true, l') /\
    fifo.size (free_list.base l') = sz /\
    repr_at (free_list.base l')
      (mk_queue (q_popped (lg_queue g)) (q_view (lg_queue g)) (q_fresh (lg_queue g) ++ [d]))
      (lg_base g + zlen (lg_spec g) - Z.of_nat (lg_now g)) /\
    repr_at (rewind (lg_base g) (free_list.base l'))
      (mk_queue 0 (lg_spec g ++ q_view (lg_queue g)) (q_fresh (lg_queue g) ++ [d])) (lg_base g) /\
    free_list.free_list_set l' = list_to_set (q_next (lg_queue g) ++ [d]).
Proof using H.
  intros Es Hd. destruct (follows_nodup l g H) as [Hnd Hrange]. pose proof (fo_size _ _ H) as Hsz.
  pose proof (follows_fl l g H) as Hfl.
  assert (Hin : d ∈ holders g) by (apply elem_of_app; by left).
  rewrite Forall_forall in Hrange. specialize (Hrange d Hin).
  assert (Hn : d ∉ lg_spec g ++ q_next (lg_queue g)).
  { intros Hx. apply NoDup_app in Hnd as (_ & Hdis & _). by apply (Hdis d). }
  destruct (fl_push l _ _ d Hfl) as (l' & E & Hfl' & Hs').
  { by rewrite Hsz. }
  { intros Hx. apply Hn, elem_of_app. apply elem_of_app in Hx as [Hx | Hx]; [left | by right].
    by apply (subseteq_drop (length (lg_spec g) - lg_now g) (lg_spec g)). }
  exists l'. split; [done |]. split; [congruence |].
  pose proof (push_base _ _ _ E) as Eb.
  pose proof (push_spec_at _ _ _ (fo_repr _ _ H) d) as Hb. rewrite Eb in Hb.
  assert (Hlen : zlen (holders g) = sz).
  { unfold zlen. rewrite (Permutation_length (fo_all _ _ H)), length_seqZ. lia. }
  assert (Hroom : zlen (lg_spec g) + zlen (q_next (lg_queue g)) < sz).
  { unfold holders in Hlen. rewrite !zlen_app in Hlen.
    destruct (lg_out g) as [|y o]; [by apply not_elem_of_nil in Hd |].
    assert (zlen (y :: o) = zlen o + 1) by (unfold zlen; cbn [length]; lia).
    pose proof (zlen_nonneg o). lia. }
  destruct (_ =? _); [discriminate Hb |]. destruct Hb as (f' & [= <-] & Hr & _).
  split; [done |]. pose proof (fo_rewind _ _ H) as Hw.
  assert (Hnx : zlen (q_next (mk_queue 0 (lg_spec g ++ q_view (lg_queue g)) (q_fresh (lg_queue g))))
    = zlen (lg_spec g) + zlen (q_next (lg_queue g))).
  { unfold q_next. cbn [q_view q_fresh]. rewrite !zlen_app. lia. }
  pose proof (producer_full _ _ _ Hw) as Hfull. rewrite Hnx in Hfull.
  cbn [q_popped rewind fifo.size] in Hfull. rewrite Hsz in Hfull.
  replace (0 + _ =? sz) with false in Hfull by lia.
  pose proof (rewind_push (lg_base g) _ _ d Eb Hfull) as Ew.
  pose proof (push_spec_at _ _ _ Hw d) as Hpw. rewrite Hnx, Ew in Hpw.
  cbn [q_popped rewind fifo.size] in Hpw. rewrite Hsz in Hpw.
  replace (0 + _ =? sz) with false in Hpw by lia.
  destruct Hpw as (f2 & [= <-] & Hr2 & _). split; [exact Hr2 |].
  rewrite (fl_set _ _ _ Hfl'). unfold q_next. cbn [q_view q_fresh]. by rewrite app_assoc.
Qed.

(** The oldest instruction in flight leaves [lg_spec]. *)
Lemma step_retire x s o q l' :
  lg_spec g = x :: s -> (lg_now g <= length s)%nat ->
  fifo.size (free_list.base l') = sz ->
  repr_at (free_list.base l') q (lg_base g + zlen (lg_spec g) - Z.of_nat (lg_now g)) ->
  repr_at (rewind (lg_base g) (free_list.base l'))
    (mk_queue 0 (lg_spec g ++ q_view q) (q_fresh q)) (lg_base g) ->
  free_list.free_list_set l' = list_to_set (q_next q) ->
  q_popped q = q_popped (lg_queue g) ->
  o ++ s ++ q_next q ≡ₚ holders g ->
  follows l' (mk_ledger o s (lg_now g) q (lg_base g + 1)).
Proof using H.
  intros Es Hn Hs Hr Hw Hset Hp Hperm.
  assert (Hz : zlen (lg_spec g) = zlen s + 1) by (rewrite Es; unfold zlen; cbn [length]; lia).
  split; cbn [lg_out lg_spec lg_now lg_queue lg_base]; try done.
  - unfold holders. cbn [lg_out lg_spec lg_queue]. rewrite Hperm. apply H.
  - rewrite Hp. apply H.
  - pose proof (fo_base _ _ H). lia.
  - replace (lg_base g + 1 + zlen s) with (lg_base g + zlen (lg_spec g)) by lia. exact Hr.
  - rewrite Es in Hw. by apply rewind_next in Hw.
Qed.

Lemma step_tick :
  follows (free_list.sync l)
    (mk_ledger (lg_out g) (lg_spec g) 0 (mk_queue 0 (q_next (lg_queue g)) []) (lg_base g)).
Proof using H.
  pose proof (fl_sync l _ _ (follows_fl l g H)) as Hfl.
  assert (En : q_next (mk_queue 0 (q_next (lg_queue g)) []) = q_next (lg_queue g)).
  { unfold q_next at 1. cbn. by rewrite app_nil_r. }
  split; cbn [lg_out lg_spec lg_now lg_queue lg_base]; try apply H; try done; try lia.
  - unfold holders. cbn [lg_out lg_spec lg_queue]. rewrite En. apply H.
  - pose proof (sync_spec_at _ _ _ (fo_repr _ _ H)) as Hr. rewrite (fo_popped _ _ H) in Hr.
    replace (lg_base g + zlen (lg_spec g) - Z.of_nat 0)
      with (lg_base g + zlen (lg_spec g) - Z.of_nat (lg_now g) + Z.of_nat (lg_now g)) by lia.
    exact Hr.
  - pose proof (sync_spec_at _ _ _ (fo_rewind _ _ H)) as Hr. cbn [q_popped] in Hr.
    rewrite Z.add_0_r in Hr. unfold q_next at 1 in Hr. cbn [q_view q_fresh] in Hr.
    rewrite <- app_assoc in Hr. exact Hr.
  - rewrite En. apply (fo_set _ _ H).
Qed.

(** The free list as [restore] sees it: the registers in flight that are to
    be given back stand in front of the read pointer. *)
Lemma step_history k :
  lg_now g = O -> (k <= length (lg_spec g))%nat ->
  history l (lg_queue g) (drop k (lg_spec g)) (lg_base g + zlen (lg_spec g)).
Proof using H.
  intros H0 Hk. destruct (follows_nodup l g H) as [Hnd Hrange]. unfold holders in *.
  assert (Hspec : lg_spec g = take k (lg_spec g) ++ drop k (lg_spec g)) by (by rewrite take_drop).
  assert (Hz : zlen (drop k (lg_spec g)) = zlen (lg_spec g) - Z.of_nat k).
  { unfold zlen. rewrite length_drop. lia. }
  rewrite Hspec, <- app_assoc, app_assoc in Hnd, Hrange.
  apply NoDup_app in Hnd as (_ & _ & Hnd). apply Forall_app in Hrange as [_ Hrange].
  pose proof (fo_base _ _ H). split; try done.
  - pose proof (fo_repr _ _ H) as Hr. rewrite H0, Z.sub_0_r in Hr. exact Hr.
  - rewrite (fo_popped _ _ H), H0. done.
  - lia.
  - by rewrite (fo_size _ _ H).
  - apply (fo_set _ _ H).
  - intros i d Hi. rewrite lookup_drop in Hi.
    pose proof (r_view _ _ _ (fo_rewind _ _ H) (k + i) d) as Hv.
    cbn [q_view q_popped rewind fifo.size] in Hv.
    rewrite lookup_app_l in Hv by (by apply lookup_lt_Some in Hi). specialize (Hv Hi).
    rewrite Hz. replace (lg_base g + zlen (lg_spec g) - (zlen (lg_spec g) - Z.of_nat k) + Z.of_nat i)
      with (lg_base g + 0 + Z.of_nat (k + i)) by lia. exact Hv.
Qed.

Lemma step_rollback n :
  lg_base g <= n -> (Z.to_nat (n - lg_base g) <= length (lg_spec g))%nat -> lg_now g = O ->
  exists l', free_list.restore (ptr sz n) (stg sz n) l = Ok l' /\
    follows (free_list.sync l')
      (mk_ledger (lg_out g) (take (Z.to_nat (n - lg_base g)) (lg_spec g)) 0
        (mk_queue 0 (drop (Z.to_nat (n - lg_base g)) (lg_spec g) ++ q_next (lg_queue g)) [])
        (lg_base g)).
Proof using H.
  intros Hn Hk H0. set (k := Z.to_nat (n - lg_base g)) in *.
  assert (Ek : Z.of_nat k = n - lg_base g) by lia.
  pose proof (step_history k H0 Hk) as Hh.
  destruct (restore_spec _ _ _ _ Hh) as (l' & E & Hfl & Hs).
  pose proof (rollback_repr _ _ _ _ Hh) as Hr.
  assert (Hz : zlen (drop k (lg_spec g)) = zlen (lg_spec g) - Z.of_nat k).
  { unfold zlen. rewrite length_drop. lia. }
  assert (En : lg_base g + zlen (lg_spec g) - zlen (drop k (lg_spec g)) = n) by lia.
  rewrite En, (fo_size _ _ H) in E, Hr. exists l'. split; [done |].
  pose proof (restore_base _ _ _ _ E) as Eb.
  assert (Et : q_next (mk_queue 0 (drop k (lg_spec g) ++ q_next (lg_queue g)) []) =
    drop k (lg_spec g) ++ q_next (lg_queue g)).
  { unfold q_next at 1. cbn. by rewrite app_nil_r. }
  split; cbn [lg_out lg_spec lg_now lg_queue lg_base]; try apply H; try done; try lia.
  - change (fifo.size (free_list.base l') = sz). rewrite Hs. apply H.
  - rewrite <- (fo_all _ _ H). unfold holders. cbn [lg_out lg_spec lg_queue].
    rewrite Et. by rewrite (app_assoc (take _ _)), take_drop.
  - cbn [free_list.sync free_list.base]. rewrite Eb.
    assert (Et' : zlen (take k (lg_spec g)) = Z.of_nat k) by (unfold zlen; rewrite length_take; lia).
    rewrite Et'. replace (lg_base g + Z.of_nat k - Z.of_nat 0) with n by lia. exact Hr.
  - cbn [free_list.sync free_list.base]. rewrite Eb, rewind_sync.
    pose proof (sync_spec_at _ _ _ (fo_rewind _ _ H)) as Hw. cbn [q_popped] in Hw.
    rewrite Z.add_0_r in Hw. unfold q_next at 1 in Hw. cbn [q_view q_fresh] in Hw |- *.
    rewrite (app_assoc (take _ _)), take_drop. rewrite <- app_assoc in Hw. exact Hw.
  - apply (fl_set _ _ _ Hfl).
Qed.
End step.

(** The ledger allows it: the model does it. *)
Lemma fl_exec_spec c l g a g' :
  follows l g -> lg_exec c g = Some (a, g') ->
  exists l', fl_exec c l = Ok (a, l') /\ follows l' g'.
Proof.
  intros H. pose proof (fl_pop l _ _ (follows_fl l g H)) as Hp.
  destruct c as [|d| | | |n]; cbn [lg_exec fl_exec].
  - destruct (q_view (lg_queue g)) as [|d v] eqn:Eq; intros [= <- <-].
    + rewrite Hp. by exists l.
    + destruct (step_alloc l g H d v Eq) as (l' & -> & H'). by exists l'.
  - destruct (lg_spec g) as [|x s] eqn:Es; [discriminate |].
    destruct (decide _) as [[Hd Hn] |]; [| discriminate]. intros [= <- <-].
    destruct (step_push l g H d x s Es Hd) as (l' & -> & Hs & Hr & Hw & Hset).
    eexists. split; [reflexivity |]. cbn [snd].
    eapply (step_retire l g H); try done.
    + unfold q_next in *. cbn [q_view q_fresh]. by rewrite app_assoc.
    + unfold holders, q_next. cbn [q_view q_fresh]. rewrite Es.
      assert (Hperm : d :: list_difference (lg_out g) [d] ≡ₚ lg_out g).
      { destruct (follows_nodup l g H) as [Hnd _]. unfold holders in Hnd.
        apply NoDup_app in Hnd as (Hnd & _ & _). apply NoDup_Permutation; [| done |].
        - constructor; [rewrite list_elem_of_difference; set_solver |].
          by apply NoDup_list_difference.
        - intros y. rewrite elem_of_cons, list_elem_of_difference.
          destruct (decide (y = d)); set_solver. }
      by apply exchange.
  - destruct (lg_spec g) as [|x s] eqn:Es; [discriminate |].
    destruct (decide _) as [Hn|]; [| discriminate]. intros [= <- <-].
    exists l. split; [done |]. eapply (step_retire l g H); try apply H; try done.
    unfold holders. rewrite Es. cbn [app]. by rewrite Permutation_middle.
  - intros [= <- <-]. exists l. split; [| done]. do 2 f_equal.
    destruct (r_rptr_new _ _ _ (fo_repr _ _ H)) as [E1 E2]. unfold free_list.save.
    rewrite E1, E2, (fo_size _ _ H), (fo_popped _ _ H). cbn [fst snd]. do 2 f_equal; lia.
  - intros [= <- <-]. eexists. split; [reflexivity |]. by apply step_tick.
  - destruct (decide _) as [(Hb & Hk & H0) |]; [| discriminate]. intros [= <- <-].
    destruct (step_rollback l g H n Hb Hk H0) as (l' & -> & H'). by exists (free_list.sync l').
Qed.

Lemma fl_exec_all_spec cs l g r g' :
  follows l g -> lg_exec_all cs g = Some (r, g') ->
  exists l', fl_exec_all cs l = Ok (r, l') /\ follows l' g'.
Proof.
  revert l g r g'. induction cs as [|c cs IH]; intros l g r g' H E; cbn [lg_exec_all fl_exec_all] in *.
  { injection E as <- <-. by exists l. }
  apply bind_Some in E as ([a g1] & E1 & E). apply bind_Some in E as ([r2 g2] & E2 & E).
  cbn [fst snd] in *. injection E as <- <-.
  destruct (fl_exec_spec c l g a g1 H E1) as (l1 & -> & H1).
  destruct (IH l1 g1 r2 g2 H1 E2) as (l2 & E3 & H2). cbn [mbind outcome_bind fst snd].
  rewrite E3. by exists l2.
Qed.

(** All registers are free. *)
Definition ledger0 : ledger := mk_ledger [] [] 0 (mk_queue 0 (seqZ 0 sz) []) 0.

Lemma boot_spec : 0 < sz < 2 ^ 30 ->
  exists l, free_list.new sz = Ok l /\ follows (free_list.sync l) ledger0.
Proof.
  intros Hs.
  assert (Hfill : exists l,
    free_list.fill (Z.to_nat sz) 0 (free_list.mk (fifo.reset (fifo.new sz 0)) ∅) = Ok l /\
    pending (free_list.base l) (seqZ 0 sz) /\ fifo.size (free_list.base l) = sz /\
    free_list.free_list_set l = list_to_set (seqZ 0 sz)).
  { apply (fill_spec (Z.to_nat sz) 0 (free_list.mk (fifo.reset (fifo.new sz 0)) ∅)); cbn; try lia; try done.
    apply (reset_pending (fifo.new sz 0)); [done |].
    unfold zlen. cbn. rewrite length_replicate. lia. }
  destruct Hfill as (l & E & Hp & Hz & Hset).
  unfold free_list.new, free_list.reset. cbn [free_list.base free_list.free_list_set].
  change (fifo.size (fifo.new sz 0)) with sz.
  rewrite E. cbn [mbind outcome_bind].
  assert (Hzl : zlen (seqZ 0 sz) = sz) by (unfold zlen; rewrite length_seqZ; lia).
  assert (Hc : free_list.check_size l = Ok tt).
  { unfold free_list.check_size. rewrite Hset, list_to_set_size by apply NoDup_seqZ.
    rewrite (new_used_counters _ 0 sz); rewrite ?Hz.
    - rewrite length_seqZ. replace (sz =? _) with true by lia. done.
    - done.
    - lia.
    - rewrite <- Hz at 1. apply Hp.
    - rewrite <- Hz at 1. apply Hp.
    - pose proof (p_wptr _ _ Hp) as [W _]. by rewrite Hzl, Hz in W.
    - pose proof (p_wptr _ _ Hp) as [_ W]. by rewrite Hzl, Hz in W. }
  rewrite Hc. exists l. split; [done |].
  pose proof (sync_pending _ _ Hp) as Hr.
  split; cbn [ledger0 lg_out lg_spec lg_now lg_queue lg_base]; try done.
  - unfold holders, q_next. cbn. by rewrite app_nil_r.
  - assert (Ef : rewind 0 (free_list.base (free_list.sync l)) = fifo.sync (rewind 0 (free_list.base l)))
      by done.
    rewrite Ef. cbn [q_view q_fresh app].
    assert (Hp' : pending (rewind 0 (free_list.base l)) (seqZ 0 sz)).
    { destruct Hp. split; cbn [rewind fifo.size fifo.buffer fifo.wptr fifo.wstage fifo.rptr fifo.rstage];
        try done. }
    by apply sync_pending in Hp'.
  - unfold q_next. cbn. by rewrite app_nil_r.
Qed.
End protocol.
