(* ===== verification/CycleBoot.v ===== *)
(** * Reset of the renaming state: [cycle_model::reset] (src/cycle_model/cycle_model.cpp)

    The free list, the two alias tables and the physical register file, as
    [reset] leaves them: architectural register [i] lives in physical register
    [i - 1], holds 0 and is valid, and every other physical register is free. *)

From S2P Require Import Prelude Word Dff Fifo FifoSpec Rat RatSpec FreeList.
From S2P Require Import FreeListTrace.

Definition PHY_REG_NUM : Z := 128.
Definition RENAME_ARCH_REG_NUM : Z := 32.

Module cycle_reset.
Record state := mk {
  phy_id_free_list : free_list_t;
  speculative_rat : rat_t;
  retire_rat : rat_t;
  phy_regfile : phy_regfile.regfile_t
}.

(** The constructors. *)
Definition create : outcome state :=
  l ← free_list.new PHY_REG_NUM;
  Ok (mk l (rat.new PHY_REG_NUM RENAME_ARCH_REG_NUM) (rat.new PHY_REG_NUM RENAME_ARCH_REG_NUM)
         (phy_regfile.new PHY_REG_NUM)).

(** [dff_base::reset_all] and [dff_base::sync_all] on these components. *)
Definition reset_fifo {T} (f : fifo_t T) : fifo_t T :=
  fifo.mk (dff.reset <$> fifo.buffer f) (fifo.size f) (dff.reset (fifo.wptr f))
    (dff.reset (fifo.wstage f)) (dff.reset (fifo.rptr f)) (dff.reset (fifo.rstage f)).
Definition reset_rat (r : rat_t) : rat_t :=
  rat.set_tables (dff.reset <$> rat.phy_map_table r) (dff.reset <$> rat.phy_map_table_valid r) r.
Definition reset_reg (x : phy_regfile.reg_t) : phy_regfile.reg_t :=
  phy_regfile.mk_reg (dff.reset (phy_regfile.reg_data x)) (dff.reset (phy_regfile.reg_data_valid x))
    (dff.reset (phy_regfile.reg_rob_id x)) (dff.reset (phy_regfile.reg_rob_id_stage x))
    (dff.reset (phy_regfile.reg_oldest x)).
Definition reset_all (s : state) : state :=
  mk (free_list.mk (reset_fifo (free_list.base (phy_id_free_list s)))
        (free_list.free_list_set (phy_id_free_list s)))
     (reset_rat (speculative_rat s)) (reset_rat (retire_rat s))
     (phy_regfile.mk (reset_reg <$> phy_regfile.regs (phy_regfile s))
        (phy_regfile.size (phy_regfile s))).
Definition sync_all (s : state) : state :=
  mk (free_list.sync (phy_id_free_list s)) (rat.sync (speculative_rat s)) (rat.sync (retire_rat s))
     (phy_regfile.sync (phy_regfile s)).

(** The body of the loop over the architectural registers. *)
Definition map_arch (i : Z) (s : state) : outcome state :=
  dl ← free_list.pop (phy_id_free_list s);
  phy_id ← match (dl.1 : option Z) with Some d => Ok d | None => Abort end;
  sr ← rat.set_map i phy_id (speculative_rat s);
  rr ← rat.set_map i phy_id (retire_rat s);
  f ← phy_regfile.write phy_id 0 true 0 false true (phy_regfile s);
  Ok (sync_all (mk dl.2 sr.2 rr.2 f)).
Fixpoint map_arch_from (fuel : nat) (i : Z) (s : state) : outcome state :=
  match fuel with
  | O => Ok s
  | S fuel => s ← map_arch i s; map_arch_from fuel (i + 1) s
  end.

(** The part of [reset] that concerns these components, up to the reset of the
    branch predictors. *)
Definition reset (s : state) : outcome state :=
  let s := reset_all s in
  l ← free_list.reset (phy_id_free_list s);
  let s := sync_all (mk l (rat.init_start (rat.reset (speculative_rat s)))
                          (rat.init_start (rat.reset (retire_rat s)))
                          (phy_regfile.reset (phy_regfile s))) in
  s ← map_arch_from (Z.to_nat (RENAME_ARCH_REG_NUM - 1)) 1 s;
  Ok { s with speculative_rat ::= rat.init_finish; retire_rat ::= rat.init_finish }.
End cycle_reset.

(** ** The state after construction and reset, evaluated *)
Definition boot : outcome cycle_reset.state := s ← cycle_reset.create; cycle_reset.reset s.

(** A table checked entry by entry. *)
Definition rat_checked (r : rat_t) : Prop :=
  0 < rat.phy_reg_num r < two32 /\
  zlen (rat.phy_map_table r) = rat.phy_reg_num r /\
  zlen (rat.phy_map_table_valid r) = rat.phy_reg_num r /\
  Forall (λ p, vld r !! p = Some true -> 0 < default 0 (tbl r !! p) < rat.arch_reg_num r)
    (seq 0 (Z.to_nat (rat.phy_reg_num r))) /\
  Forall (λ p, Forall (λ q, vld r !! p = Some true -> vld r !! q = Some true ->
      tbl r !! p = tbl r !! q -> p = q) (seq 0 (Z.to_nat (rat.phy_reg_num r))))
    (seq 0 (Z.to_nat (rat.phy_reg_num r))).
#[global] Instance rat_checked_dec r : Decision (rat_checked r).
Proof. unfold rat_checked. apply _. Defined.

Lemma rat_check r : rat_checked r -> rat_wf r.
Proof.
  intros (Hn & Ht & Hv & Ha & Hi). rewrite Forall_forall in Ha, Hi.
  assert (Hin : forall p a, maps r p a -> Z.to_nat p ∈ seq 0 (Z.to_nat (rat.phy_reg_num r))).
  { intros p a (H0 & Hp & _). apply lookup_lt_Some in Hp. unfold tbl in Hp.
    rewrite length_fmap in Hp. unfold zlen in *. apply elem_of_seq. lia. }
  split; try done.
  - intros p a H. pose proof (Ha _ (Hin p a H)) as Hr. destruct H as (_ & Hp & Hpv).
    specialize (Hr Hpv). by rewrite Hp in Hr.
  - intros p q a H1 H2. pose proof (Hi _ (Hin p a H1)) as Hr. rewrite Forall_forall in Hr.
    specialize (Hr _ (Hin q a H2)). destruct H1 as (? & Hp & Hpv), H2 as (? & Hq & Hqv).
    assert (Z.to_nat p = Z.to_nat q) by (apply Hr; congruence). lia.
Qed.

(** [dom_checked]: every register but x0 has an entry. *)
Definition complete_checked (r : rat_t) : Prop :=
  Forall (λ a, Exists (λ p, tbl r !! p = Some a /\ vld r !! p = Some true)
    (seq 0 (Z.to_nat (rat.phy_reg_num r)))) (seqZ 1 (rat.arch_reg_num r - 1)).
#[global] Instance complete_checked_dec r : Decision (complete_checked r).
Proof. unfold complete_checked. apply _. Defined.

Lemma complete_check r : complete_checked r -> complete r.
Proof.
  intros H a Ha. unfold complete_checked in H. rewrite Forall_forall in H.
  assert (Hin : a ∈ seqZ 1 (rat.arch_reg_num r - 1)) by (apply elem_of_seqZ; lia).
  specialize (H a Hin). rewrite Exists_exists in H. destruct H as (p & _ & Ht & Hv).
  exists (Z.of_nat p). unfold maps. rewrite Nat2Z.id. split_and!; [lia | done | done].
Qed.
