(* ===== verification/CycleDecode.v ===== *)
(** * The decode stage of the cycle model

    src/cycle_model/pipeline/decode.cpp, with the packs of fetch2_decode.h and
    decode_rename.h and the enumerations of pipeline_common.h.

    The packs carry a [branch_predictor_info_pack_t] and an
    [inst_common_info_t] along; the stage copies them and never looks inside,
    so their types are parameters. *)

From S2P Require Import Prelude Word Ops IsaDecode Dff Fifo.

(** ** Enumerations the cycle model declares differently *)
Module cop_unit.
Inductive op_unit_t := alu | bru | csr | div | mul | lu | sau | sdu.
#[global] Instance cop_unit_t_eq_dec : EqDecision op_unit_t.
Proof. solve_decision. Defined.
End cop_unit.
Module lu_op.
Inductive lu_op_t := lb | lbu | lh | lhu | lw.
#[global] Instance lu_op_t_eq_dec : EqDecision lu_op_t.
Proof. solve_decision. Defined.
End lu_op.
Module sau_op.
Inductive sau_op_t := stab | stah | staw.
#[global] Instance sau_op_t_eq_dec : EqDecision sau_op_t.
Proof. solve_decision. Defined.
End sau_op.
Module sdu_op.
Inductive sdu_op_t := sb | sh | sw.
#[global] Instance sdu_op_t_eq_dec : EqDecision sdu_op_t.
Proof. solve_decision. Defined.
End sdu_op.

(** The union [sub_op] of the packs. *)
Inductive csub_op_t :=
| sub_alu_op (o : alu_op_t)
| sub_bru_op (o : bru_op_t)
| sub_csr_op (o : csr_op_t)
| sub_div_op (o : div_op_t)
| sub_mul_op (o : mul_op_t)
| sub_lu_op (o : lu_op.lu_op_t)
| sub_sau_op (o : sau_op.sau_op_t)
| sub_sdu_op (o : sdu_op.sdu_op_t).

(** ** The input of the stage: [fetch2_decode_pack_t] *)
Module fetch2_decode.
Record pack_t (B I : Type) := mk {
  inst_common_info : I;
  enable : bool;
  pc : Z;
  value : Z;
  has_exception : bool;
  exception_id : riscv_exception_t;
  exception_value : Z;
  branch_predictor_info_pack : B
}.
Arguments mk {B I} _ _ _ _ _ _ _ _.
Arguments inst_common_info {B I} _.
Arguments enable {B I} _.
Arguments pc {B I} _.
Arguments value {B I} _.
Arguments has_exception {B I} _.
Arguments exception_id {B I} _.
Arguments exception_value {B I} _.
Arguments branch_predictor_info_pack {B I} _.
End fetch2_decode.

(** ** The output of the stage: [decode_rename_pack_t]

    [pack_t] holds the fields the decoder computes, [full_t] adds what the
    stage copies from its input. *)
Module decode_rename.
Record pack_t := mk {
  enable : bool;
  value : Z;
  valid : bool;
  last_uop : bool;
  pc : Z;
  imm : Z;
  has_exception : bool;
  exception_id : riscv_exception_t;
  exception_value : Z;
  rs1 : Z;
  arg1_src : arg_src_t;
  rs1_need_map : bool;
  rs2 : Z;
  arg2_src : arg_src_t;
  rs2_need_map : bool;
  rd : Z;
  rd_enable : bool;
  need_rename : bool;
  csr : Z;
  op : op_t;
  op_unit : cop_unit.op_unit_t;
  sub_op : csub_op_t
}.
(** The default member initialisers. *)
Definition init : pack_t :=
  mk false 0 false false 0 0 false riscv_exception.instruction_address_misaligned 0
     0 arg_src.reg false 0 arg_src.reg false 0 false false 0 op.add cop_unit.alu
     (sub_alu_op alu_op.add).

(** The whole pack, with the information the stage only passes on. *)
Record full_t (B I : Type) := mk_full {
  uop : pack_t;
  inst_common_info : I;
  branch_predictor_info_pack : B
}.
Arguments mk_full {B I} _ _ _.
Arguments uop {B I} _.
Arguments inst_common_info {B I} _.
Arguments branch_predictor_info_pack {B I} _.
End decode_rename.

Module decode.
Import decode_rename.

Definition invalid (s : pack_t) : pack_t := { s with valid := false }.
Definition set_op (o : op_t) (so : csub_op_t) (s : pack_t) : pack_t :=
  { s with op := o; sub_op := so }.
Definition set_unit (o : op_t) (u : cop_unit.op_unit_t) (so : csub_op_t) (s : pack_t) : pack_t :=
  { s with op := o; op_unit := u; sub_op := so }.
Definition no_args (s : pack_t) : pack_t :=
  { s with arg1_src := arg_src.disable; arg2_src := arg_src.disable }.

(** The loop before the switch, on one fresh [op_info[i]]. *)
Definition prepare (p : Z) (exc : bool) (s : pack_t) : pack_t :=
  { s with enable := false;
           value := 0;
           valid := negb exc;
           last_uop := false;
           pc := p;
           imm := 0;
           has_exception := false;
           exception_id := riscv_exception.instruction_address_misaligned;
           exception_value := 0;
           rs1 := 0;
           arg1_src := arg_src.reg;
           rs1_need_map := false;
           rs2 := 0;
           rs2_need_map := false;
           rd := 0;
           rd_enable := false;
           need_rename := false;
           csr := 0;
           op := op.add;
           op_unit := cop_unit.alu;
           sub_op := sub_alu_op alu_op.add }.

Section cases.
Variable f : fields_t.

Definition case_lui (s : pack_t) : outcome pack_t :=
  let s := no_args (set_unit op.lui cop_unit.alu (sub_alu_op alu_op.lui) s) in
  Ok { s with imm := fields.imm_u f; rd := fields.rd f; rd_enable := true }.

Definition case_auipc (s : pack_t) : outcome pack_t :=
  let s := no_args (set_unit op.auipc cop_unit.alu (sub_alu_op alu_op.auipc) s) in
  Ok { s with imm := fields.imm_u f; rd := fields.rd f; rd_enable := true }.

Definition case_jal (s : pack_t) : outcome pack_t :=
  let s := no_args (set_unit op.jal cop_unit.bru (sub_bru_op bru_op.jal) s) in
  i ← sign_extend (fields.imm_j f) 21;
  Ok { s with imm := i; rd := fields.rd f; rd_enable := true }.

Definition case_jalr (s : pack_t) : outcome pack_t :=
  let s := set_unit op.jalr cop_unit.bru (sub_bru_op bru_op.jalr) s in
  i ← sign_extend (fields.imm_i f) 12;
  Ok { s with arg1_src := arg_src.reg; rs1 := fields.rs1 f;
              arg2_src := arg_src.disable; imm := i;
              rd := fields.rd f; rd_enable := true }.

Definition case_branch (s : pack_t) : outcome pack_t :=
  i ← sign_extend (fields.imm_b f) 13;
  let s := { s with op_unit := cop_unit.bru; arg1_src := arg_src.reg; rs1 := fields.rs1 f;
                    arg2_src := arg_src.reg; rs2 := fields.rs2 f; imm := i } in
  Ok (let c := fields.funct3 f in
      if c =? 0x0 then set_op op.beq (sub_bru_op bru_op.beq) s
      else if c =? 0x1 then set_op op.bne (sub_bru_op bru_op.bne) s
      else if c =? 0x4 then set_op op.blt (sub_bru_op bru_op.blt) s
      else if c =? 0x5 then set_op op.bge (sub_bru_op bru_op.bge) s
      else if c =? 0x6 then set_op op.bltu (sub_bru_op bru_op.bltu) s
      else if c =? 0x7 then set_op op.bgeu (sub_bru_op bru_op.bgeu) s
      else invalid s).

Definition case_load (s : pack_t) : outcome pack_t :=
  i ← sign_extend (fields.imm_i f) 12;
  let s := { s with op_unit := cop_unit.lu; arg1_src := arg_src.reg; rs1 := fields.rs1 f;
                    arg2_src := arg_src.disable; imm := i;
                    rd := fields.rd f; rd_enable := true } in
  Ok (let c := fields.funct3 f in
      if c =? 0x0 then set_op op.lb (sub_lu_op lu_op.lb) s
      else if c =? 0x1 then set_op op.lh (sub_lu_op lu_op.lh) s
      else if c =? 0x2 then set_op op.lw (sub_lu_op lu_op.lw) s
      else if c =? 0x4 then set_op op.lbu (sub_lu_op lu_op.lbu) s
      else if c =? 0x5 then set_op op.lhu (sub_lu_op lu_op.lhu) s
      else invalid s).

Definition case_store (s : pack_t) : outcome pack_t :=
  i ← sign_extend (fields.imm_s f) 12;
  let s := { s with op_unit := cop_unit.sdu; arg1_src := arg_src.reg; rs1 := fields.rs1 f;
                    arg2_src := arg_src.reg; rs2 := fields.rs2 f; imm := i } in
  Ok (let c := fields.funct3 f in
      if c =? 0x0 then set_op op.sb (sub_sdu_op sdu_op.sb) s
      else if c =? 0x1 then set_op op.sh (sub_sdu_op sdu_op.sh) s
      else if c =? 0x2 then set_op op.sw (sub_sdu_op sdu_op.sw) s
      else invalid s).

Definition case_op_imm (s : pack_t) : outcome pack_t :=
  i ← sign_extend (fields.imm_i f) 12;
  let s := { s with op_unit := cop_unit.alu; arg1_src := arg_src.reg; rs1 := fields.rs1 f;
                    arg2_src := arg_src.imm; imm := i;
                    rd := fields.rd f; rd_enable := true } in
  Ok (let c := fields.funct3 f in
      let f7 := fields.funct7 f in
      if c =? 0x0 then set_op op.addi (sub_alu_op alu_op.add) s
      else if c =? 0x2 then set_op op.slti (sub_alu_op alu_op.slt) s
      else if c =? 0x3 then set_op op.sltiu (sub_alu_op alu_op.sltu) s
      else if c =? 0x4 then set_op op.xori (sub_alu_op alu_op._xor) s
      else if c =? 0x6 then set_op op.ori (sub_alu_op alu_op._or) s
      else if c =? 0x7 then set_op op.andi (sub_alu_op alu_op._and) s
      else if c =? 0x1 then
        if f7 =? 0x00 then set_op op.slli (sub_alu_op alu_op.sll) s
        else invalid s
      else if c =? 0x5 then
        if f7 =? 0x00 then set_op op.srli (sub_alu_op alu_op.srl) s
        else if f7 =? 0x20 then set_op op.srai (sub_alu_op alu_op.sra) s
        else invalid s
      else invalid s).

Definition case_op (s : pack_t) : outcome pack_t :=
  let s := { s with op_unit := cop_unit.alu; arg1_src := arg_src.reg; rs1 := fields.rs1 f;
                    arg2_src := arg_src.reg; rs2 := fields.rs2 f;
                    rd := fields.rd f; rd_enable := true } in
  Ok (let c := fields.funct3 f in
      let f7 := fields.funct7 f in
      if c =? 0x0 then
        if f7 =? 0x00 then set_op op.add (sub_alu_op alu_op.add) s
        else if f7 =? 0x20 then set_op op.sub (sub_alu_op alu_op.sub) s
        else if f7 =? 0x01 then set_unit op.mul cop_unit.mul (sub_mul_op mul_op.mul) s
        else invalid s
      else if c =? 0x1 then
        if f7 =? 0x00 then set_op op.sll (sub_alu_op alu_op.sll) s
        else if f7 =? 0x01 then set_unit op.mulh cop_unit.mul (sub_mul_op mul_op.mulh) s
        else invalid s
      else if c =? 0x2 then
        if f7 =? 0x00 then set_op op.slt (sub_alu_op alu_op.slt) s
        else if f7 =? 0x01 then set_unit op.mulhsu cop_unit.mul (sub_mul_op mul_op.mulhsu) s
        else invalid s
      else if c =? 0x3 then
        if f7 =? 0x00 then set_op op.sltu (sub_alu_op alu_op.sltu) s
        else if f7 =? 0x01 then set_unit op.mulhu cop_unit.mul (sub_mul_op mul_op.mulhu) s
        else invalid s
      else if c =? 0x4 then
        if f7 =? 0x00 then set_op op._xor (sub_alu_op alu_op._xor) s
        else if f7 =? 0x01 then set_unit op.div cop_unit.div (sub_div_op div_op.div) s
        else invalid s
      else if c =? 0x5 then
        if f7 =? 0x00 then set_op op.srl (sub_alu_op alu_op.srl) s
        else if f7 =? 0x20 then set_op op.sra (sub_alu_op alu_op.sra) s
        else if f7 =? 0x01 then set_unit op.divu cop_unit.div (sub_div_op div_op.divu) s
        else invalid s
      else if c =? 0x6 then
        if f7 =? 0x00 then set_op op._or (sub_alu_op alu_op._or) s
        else if f7 =? 0x01 then set_unit op.rem cop_unit.div (sub_div_op div_op.rem) s
        else invalid s
      else if c =? 0x7 then
        if f7 =? 0x00 then set_op op._and (sub_alu_op alu_op._and) s
        else if f7 =? 0x01 then set_unit op.remu cop_unit.div (sub_div_op div_op.remu) s
        else invalid s
      else invalid s).

Definition case_fence (s : pack_t) : outcome pack_t :=
  Ok (let c := fields.funct3 f in
      let rd_rs1_zero := (fields.rd f =? 0x00) && (fields.rs1 f =? 0x00) in
      if c =? 0x0 then
        if rd_rs1_zero && (fields.fm f =? 0x00) then
          { no_args (set_unit op.fence cop_unit.alu (sub_alu_op alu_op.fence) s)
            with imm := fields.imm_i f }
        else invalid s
      else if c =? 0x1 then
        if rd_rs1_zero && (fields.imm_i f =? 0x00) then
          no_args (set_unit op.fence_i cop_unit.alu (sub_alu_op alu_op.fence_i) s)
        else invalid s
      else invalid s).

(** ecall, ebreak and mret. *)
Definition case_system_priv (s : pack_t) : pack_t :=
  if (fields.rd f =? 0x00) && (fields.rs1 f =? 0x00) then
    let f7 := fields.funct7 f in
    let r2 := fields.rs2 f in
    if f7 =? 0x00 then
      if r2 =? 0x00 then no_args (set_unit op.ecall cop_unit.alu (sub_alu_op alu_op.ecall) s)
      else if r2 =? 0x01 then
        no_args (set_unit op.ebreak cop_unit.alu (sub_alu_op alu_op.ebreak) s)
      else invalid s
    else if f7 =? 0x18 then
      if r2 =? 0x02 then no_args (set_unit op.mret cop_unit.bru (sub_bru_op bru_op.mret) s)
      else invalid s
    else invalid s
  else invalid s.

Definition set_csr_reg (o : op_t) (co : csr_op_t) (s : pack_t) : pack_t :=
  { set_unit o cop_unit.csr (sub_csr_op co) s with
    arg1_src := arg_src.reg; rs1 := fields.rs1 f; arg2_src := arg_src.disable;
    csr := fields.imm_i f; rd := fields.rd f; rd_enable := true }.

Definition set_csr_imm (o : op_t) (co : csr_op_t) (s : pack_t) : pack_t :=
  { set_unit o cop_unit.csr (sub_csr_op co) s with
    arg1_src := arg_src.imm; imm := fields.rs1 f; arg2_src := arg_src.disable;
    csr := fields.imm_i f; rd := fields.rd f; rd_enable := true }.

Definition case_system (s : pack_t) : outcome pack_t :=
  Ok (let c := fields.funct3 f in
      if c =? 0x0 then case_system_priv s
      else if c =? 0x1 then set_csr_reg op.csrrw csr_op.csrrw s
      else if c =? 0x2 then set_csr_reg op.csrrs csr_op.csrrs s
      else if c =? 0x3 then set_csr_reg op.csrrc csr_op.csrrc s
      else if c =? 0x5 then set_csr_imm op.csrrwi csr_op.csrrw s
      else if c =? 0x6 then set_csr_imm op.csrrsi csr_op.csrrs s
      else if c =? 0x7 then set_csr_imm op.csrrci csr_op.csrrc s
      else invalid s).

(** [switch(opcode)]. *)
Definition switch_opcode (s : pack_t) : outcome pack_t :=
  let opcode := fields.opcode f in
  if opcode =? 0x37 then case_lui s
  else if opcode =? 0x17 then case_auipc s
  else if opcode =? 0x6f then case_jal s
  else if opcode =? 0x67 then case_jalr s
  else if opcode =? 0x63 then case_branch s
  else if opcode =? 0x03 then case_load s
  else if opcode =? 0x23 then case_store s
  else if opcode =? 0x13 then case_op_imm s
  else if opcode =? 0x33 then case_op s
  else if opcode =? 0x0f then case_fence s
  else if opcode =? 0x73 then case_system s
  else Ok (invalid s).
End cases.

(** [if(!op_info[0].valid) op_unit = alu]. *)
Definition fix_unit (s : pack_t) : pack_t :=
  if valid s then s else { s with op_unit := cop_unit.alu }.

(** The loop after the switch, on one [op_info[i]]. *)
Definition finish (w : Z) (exc : bool) (id : riscv_exception_t) (ev : Z) (s : pack_t) : pack_t :=
  { s with rs1_need_map := bool_decide (arg1_src s = arg_src.reg) && (0 <? rs1 s);
           rs2_need_map := bool_decide (arg2_src s = arg_src.reg) && (0 <? rs2 s);
           need_rename := rd_enable s && (0 <? rd s);
           value := w;
           has_exception := exc;
           exception_id := id;
           exception_value := ev }.

Definition MAX_UOP_NUM : nat := 2.
Definition DECODE_WIDTH : Z := 4.

Section stage.
Context {B I : Type}.
Abbreviation in_t := (fetch2_decode.pack_t B I).
Abbreviation out_t := (full_t B I).

(** [op_info] after the switch and the loops around it. *)
Definition decode_pack (r : in_t) : outcome (list pack_t) :=
  let base := prepare (fetch2_decode.pc r) (fetch2_decode.has_exception r) init in
  u ← switch_opcode (fields.of_word (fetch2_decode.value r)) { base with enable := true };
  let fin := finish (fetch2_decode.value r) (fetch2_decode.has_exception r)
               (fetch2_decode.exception_id r) (fetch2_decode.exception_value r) in
  Ok (fin (fix_unit u) :: replicate (MAX_UOP_NUM - 1) (fin base)).

(** An input without [enable] leaves [op_info] as it was constructed. *)
Definition op_info (r : in_t) : outcome (list pack_t) :=
  if fetch2_decode.enable r then decode_pack r else Ok (replicate MAX_UOP_NUM init).

(** The enabled entries, the last of them marked. *)
Definition cur_uop_num (l : list pack_t) : Z := zlen (filter (λ s, enable s = true) l).
Definition mark_last (n : Z) (l : list pack_t) : outcome (list pack_t) :=
  s ← arr_get l (sub32 n 1);
  arr_set l (sub32 n 1) { s with last_uop := true }.

Fixpoint push_all (l : list out_t) (q : fifo_t out_t) : outcome (fifo_t out_t) :=
  match l with
  | [] => Ok q
  | x :: l => bq ← fifo.push x q; verify bq.1 ;; push_all l bq.2
  end.

(** The loop of [run]; [None] in the result of the body is its [break]. *)
Fixpoint run_from (fuel : nat) (sent : Z) (fin : fifo_t in_t) (fout : fifo_t out_t) :
  outcome (fifo_t in_t * fifo_t out_t) :=
  match fuel with
  | O => Ok (fin, fout)
  | S fuel =>
      if sent =? DECODE_WIDTH then Ok (fin, fout)
      else if negb (fifo.customer_is_empty fin) && negb (fifo.producer_is_full fout) then
        front ← fifo.customer_get_front fin;
        r ← match front with Some r => Ok r | None => Abort end;
        l ← op_info r;
        let n := cur_uop_num l in
        verify (0 <? n) ;;
        l ← mark_last n l;
        if fifo.producer_get_free_space fout <? n then Ok (fin, fout)
        else
          rf ← fifo.pop fin;
          verify (bool_decide (is_Some rf.1)) ;;
          fout ← push_all
            ((λ u, mk_full u (fetch2_decode.inst_common_info r)
                     (fetch2_decode.branch_predictor_info_pack r)) <$> take (Z.to_nat n) l) fout;
          run_from fuel (add32 sent n) rf.2 fout
      else run_from fuel sent fin fout
  end.

(** [run]: the feedback [idle], and the two queues. *)
Definition run (bru_flush sau_flush commit_flush : bool) (fin : fifo_t in_t) (fout : fifo_t out_t) :
  outcome (bool * fifo_t in_t * fifo_t out_t) :=
  let idle := fifo.customer_is_empty fin in
  if negb commit_flush && negb bru_flush && negb sau_flush then
    qs ← run_from (Z.to_nat DECODE_WIDTH) 0 fin fout; Ok (idle, qs.1, qs.2)
  else Ok (idle, fin, fifo.flush fout).
End stage.
End decode.
