(* ===== verification/CycleDecodeSpec.v ===== *)
(** * The decode stage agrees with the ISA model and moves packs in order *)

From S2P Require Import Prelude Word Ops IsaDecode Dff Fifo FifoSpec CycleDecode.

(** ** The two decoders *)

(** The unit and union member of the cycle model for those of the ISA model:
    the load/store unit is split into the load unit and the store data unit. *)
Definition unit_of (u : op_unit_t) (so : isa_state.sub_op_t) :
  option (cop_unit.op_unit_t * csub_op_t) :=
  match u, so with
  | op_unit.alu, isa_state.sub_alu_op o => Some (cop_unit.alu, sub_alu_op o)
  | op_unit.bru, isa_state.sub_bru_op o => Some (cop_unit.bru, sub_bru_op o)
  | op_unit.csr, isa_state.sub_csr_op o => Some (cop_unit.csr, sub_csr_op o)
  | op_unit.div, isa_state.sub_div_op o => Some (cop_unit.div, sub_div_op o)
  | op_unit.mul, isa_state.sub_mul_op o => Some (cop_unit.mul, sub_mul_op o)
  | op_unit.lsu, isa_state.sub_lsu_op o =>
      Some match o with
           | lsu_op.lb => (cop_unit.lu, sub_lu_op lu_op.lb)
           | lsu_op.lbu => (cop_unit.lu, sub_lu_op lu_op.lbu)
           | lsu_op.lh => (cop_unit.lu, sub_lu_op lu_op.lh)
           | lsu_op.lhu => (cop_unit.lu, sub_lu_op lu_op.lhu)
           | lsu_op.lw => (cop_unit.lu, sub_lu_op lu_op.lw)
           | lsu_op.sb => (cop_unit.sdu, sub_sdu_op sdu_op.sb)
           | lsu_op.sh => (cop_unit.sdu, sub_sdu_op sdu_op.sh)
           | lsu_op.sw => (cop_unit.sdu, sub_sdu_op sdu_op.sw)
           end
  | _, _ => None
  end.

(** The fields both decoders fill in. *)
Record same_fields (s : isa_state_t) (u : decode_rename.pack_t) : Prop := {
  sf_valid : decode_rename.valid u = isa_state.valid s;
  sf_imm : decode_rename.imm u = isa_state.imm s;
  sf_rs1 : decode_rename.rs1 u = isa_state.rs1 s;
  sf_arg1 : decode_rename.arg1_src u = isa_state.arg1_src s;
  sf_rs2 : decode_rename.rs2 u = isa_state.rs2 s;
  sf_arg2 : decode_rename.arg2_src u = isa_state.arg2_src s;
  sf_rd : decode_rename.rd u = isa_state.rd s;
  sf_rd_enable : decode_rename.rd_enable u = isa_state.rd_enable s;
  sf_csr : decode_rename.csr u = isa_state.csr s;
  sf_op : decode_rename.op u = isa_state.op s
}.
Definition agree (s : isa_state_t) (u : decode_rename.pack_t) : Prop :=
  same_fields s u /\
  (isa_state.valid s = true ->
   unit_of (isa_state.op_unit s) (isa_state.sub_op s) =
   Some (decode_rename.op_unit u, decode_rename.sub_op u)).

(** Two computations that end the same way, in related results. *)
Definition both {A B} (R : A -> B -> Prop) (x : outcome A) (y : outcome B) : Prop :=
  match x, y with
  | Ok a, Ok b => R a b
  | Abort, Abort | Hang, Hang | Undef, Undef => True
  | _, _ => False
  end.

Section agree.
Context (f : fields_t) (s : isa_state_t) (u : decode_rename.pack_t) (H : same_fields s u).

Ltac cases :=
  destruct H as [? ? ? ? ? ? ? ? ? ?]; destruct s, u; cbn in *; subst;
  repeat match goal with |- context [sign_extend ?x ?n] => destruct (sign_extend x n); cbn; [| done..] end;
  repeat match goal with |- context [if ?b then _ else _] => destruct b; cbn end;
  (split; [by split | try reflexivity; try discriminate]).

Lemma agree_lui : both agree (isa_decode.case_lui f s) (decode.case_lui f u).
Proof using H. cases. Qed.
Lemma agree_auipc : both agree (isa_decode.case_auipc f s) (decode.case_auipc f u).
Proof using H. cases. Qed.
Lemma agree_jal : both agree (isa_decode.case_jal f s) (decode.case_jal f u).
Proof using H. cases. Qed.
Lemma agree_jalr : both agree (isa_decode.case_jalr f s) (decode.case_jalr f u).
Proof using H. cases. Qed.
Lemma agree_branch : both agree (isa_decode.case_branch f s) (decode.case_branch f u).
Proof using H. cases. Qed.
Lemma agree_load : both agree (isa_decode.case_load f s) (decode.case_load f u).
Proof using H. cases. Qed.
Lemma agree_store : both agree (isa_decode.case_store f s) (decode.case_store f u).
Proof using H. cases. Qed.
Lemma agree_op_imm : both agree (isa_decode.case_op_imm f s) (decode.case_op_imm f u).
Proof using H. cases. Qed.
Lemma agree_op : both agree (isa_decode.case_op f s) (decode.case_op f u).
Proof using H. cases. Qed.
Lemma agree_fence : both agree (isa_decode.case_fence f s) (decode.case_fence f u).
Proof using H. cases. Qed.
Lemma agree_system : both agree (isa_decode.case_system f s) (decode.case_system f u).
Proof using H.
  unfold isa_decode.case_system, decode.case_system, isa_decode.case_system_priv,
    decode.case_system_priv. cases.
Qed.
Lemma agree_invalid : agree (isa_decode.invalid s) (decode.invalid u).
Proof using H.
  destruct H as [? ? ? ? ? ? ? ? ? ?]; destruct s, u; cbn in *; subst.
  split; [by split | discriminate].
Qed.

Lemma agree_switch : both agree (isa_decode.switch_opcode f s) (decode.switch_opcode f u).
Proof using H.
  unfold isa_decode.switch_opcode, decode.switch_opcode. cbv zeta.
  repeat (case_match; [auto using agree_lui, agree_auipc, agree_jal, agree_jalr, agree_branch,
    agree_load, agree_store, agree_op_imm, agree_op, agree_fence, agree_system |]).
  exact agree_invalid.
Qed.
End agree.

(** The ISA decoder always returns. *)
Lemma sign_extend_total x n : 0 < n < 32 -> exists y, sign_extend x n = Ok y.
Proof.
  intros Hn. unfold sign_extend. replace ((0 <? n) && (n <? 32)) with true by lia. by eexists.
Qed.

Lemma isa_decode_total s : exists s', isa_decode.decode s = Ok s'.
Proof.
  unfold isa_decode.decode, isa_decode.switch_opcode. cbv zeta.
  generalize (fields.of_word (isa_state.value s)), (isa_decode.prepare s). intros f t.
  unfold isa_decode.case_jal, isa_decode.case_jalr, isa_decode.case_branch,
    isa_decode.case_load, isa_decode.case_store, isa_decode.case_op_imm.
  repeat case_match; try (by eexists).
  all: match goal with |- context [sign_extend ?x ?n] =>
    destruct (sign_extend_total x n) as [y ->]; [lia | by eexists] end.
Qed.

(** ** One instruction *)

(** The ISA model's view of an input of the stage. *)
Definition isa_view (w : Z) (exc : bool) : isa_state_t :=
  { isa_state.init with isa_state.value := w; isa_state.has_exception := exc }.
Definition isa_input {B I} (r : fetch2_decode.pack_t B I) : isa_state_t :=
  isa_view (fetch2_decode.value r) (fetch2_decode.has_exception r).

Definition enabled (s : decode_rename.pack_t) : decode_rename.pack_t :=
  { s with decode_rename.enable := true }.

Section packs.
Context {B C : Type} (r : fetch2_decode.pack_t B C).

Record uop_ok (s : isa_state_t) (u : decode_rename.pack_t) : Prop := {
  uo_same : same_fields s u;
  uo_unit : isa_state.valid s = true ->
    unit_of (isa_state.op_unit s) (isa_state.sub_op s) =
    Some (decode_rename.op_unit u, decode_rename.sub_op u);
  uo_illegal : isa_state.valid s = false -> decode_rename.op_unit u = cop_unit.alu;
  uo_pc : decode_rename.pc u = fetch2_decode.pc r;
  uo_value : decode_rename.value u = fetch2_decode.value r;
  uo_exc : decode_rename.has_exception u = fetch2_decode.has_exception r /\
    decode_rename.exception_id u = fetch2_decode.exception_id r /\
    decode_rename.exception_value u = fetch2_decode.exception_value r;
  uo_rs1 : decode_rename.rs1_need_map u =
    bool_decide (decode_rename.arg1_src u = arg_src.reg) && (0 <? decode_rename.rs1 u);
  uo_rs2 : decode_rename.rs2_need_map u =
    bool_decide (decode_rename.arg2_src u = arg_src.reg) && (0 <? decode_rename.rs2 u);
  uo_rd : decode_rename.need_rename u =
    decode_rename.rd_enable u && (0 <? decode_rename.rd u);
  uo_enable : decode_rename.enable u = true
}.

Lemma switch_keeps f (u u' : decode_rename.pack_t) :
  decode.switch_opcode f u = Ok u' ->
  decode_rename.enable u' = decode_rename.enable u /\ decode_rename.pc u' = decode_rename.pc u.
Proof using Type.
  unfold decode.switch_opcode, decode.case_lui, decode.case_auipc, decode.case_jal,
    decode.case_jalr, decode.case_branch, decode.case_load, decode.case_store,
    decode.case_op_imm, decode.case_op, decode.case_fence, decode.case_system,
    decode.case_system_priv, decode.set_csr_reg, decode.set_csr_imm. cbv zeta.
  intros H. destruct u.
  repeat match type of H with
  | context [sign_extend ?x ?n] => destruct (sign_extend x n); cbn in H; [| discriminate H..]
  | context [if ?b then _ else _] => destruct b; cbn in H
  end; injection H as <-; done.
Qed.

Lemma decode_pack_spec :
  exists s u base, isa_decode.decode (isa_input r) = Ok s /\ decode.decode_pack r = Ok [u; base] /\
    uop_ok s u /\ decode_rename.enable base = false.
Proof using Type.
  destruct (isa_decode_total (isa_input r)) as [s Es]. exists s.
  unfold decode.decode_pack. cbv zeta.
  set (base := decode.prepare _ _ _).
  change (decode.switch_opcode ?f _) with (decode.switch_opcode f (enabled base)).
  assert (Hsame : same_fields (isa_decode.prepare (isa_input r))
    (enabled base)) by (by split).
  pose proof (agree_switch (fields.of_word (fetch2_decode.value r)) _ _ Hsame) as Ha.
  unfold isa_decode.decode in Es.
  change (isa_state.value (isa_input r)) with (fetch2_decode.value r) in Es. rewrite Es in Ha.
  destruct (decode.switch_opcode _ _) as [u| | |] eqn:Eu; try done.
  apply switch_keeps in Eu as [Hen' Hpc]. destruct Ha as [Hsf Hu].
  cbn [mbind outcome_bind]. eexists _, _. split; [done |]. split; [reflexivity |].
  split; [| done]. change (decode_rename.enable u = true) in Hen'.
  change (decode_rename.pc u = fetch2_decode.pc r) in Hpc.
  clearbody base. clear Hsame Es. destruct Hsf as [Hv ? ? ? ? ? ? ? ? ?].
  unfold decode.fix_unit, decode.finish. rewrite Hv.
  destruct (isa_state.valid s) eqn:Hvs; destruct u; cbn in *; subst;
    (split; cbn; try done; try congruence); try by split.
  intros _. by apply Hu.
Qed.
End packs.

(** ** The stage *)
Section stage.
Context {B C : Type}.
Abbreviation in_t := (fetch2_decode.pack_t B C).
Abbreviation out_t := (decode_rename.full_t B C).

(** What the stage sends on for an input. *)
Record decoded_as (r : in_t) (o : out_t) : Prop := {
  da_isa : exists s, isa_decode.decode (isa_input r) = Ok s /\
                     uop_ok r s (decode_rename.uop o);
  da_last : decode_rename.last_uop (decode_rename.uop o) = true;
  da_info : decode_rename.inst_common_info o = fetch2_decode.inst_common_info r;
  da_bp : decode_rename.branch_predictor_info_pack o =
          fetch2_decode.branch_predictor_info_pack r
}.

Definition as_last (u : decode_rename.pack_t) : decode_rename.pack_t :=
  { u with decode_rename.last_uop := true }.

Lemma uop_ok_last (r : in_t) s u : uop_ok r s u -> uop_ok r s (as_last u).
Proof. intros [[] ? ? ? ? ? ? ? ? ?]. destruct u; cbn in *. by split; cbn; [split | ..]. Qed.

Lemma op_info_spec (r : in_t) : fetch2_decode.enable r = true ->
  exists u base, decode.op_info r = Ok [u; base] /\ decode.cur_uop_num [u; base] = 1 /\
    decode.mark_last 1 [u; base] = Ok [as_last u; base] /\
    decoded_as r (decode_rename.mk_full (as_last u) (fetch2_decode.inst_common_info r)
                    (fetch2_decode.branch_predictor_info_pack r)).
Proof.
  intros Hen. destruct (decode_pack_spec r) as (s & u & base & Es & Ed & Hu & Hb).
  exists u, base. unfold decode.op_info. rewrite Hen. split_and!; [done | | done |].
  - unfold decode.cur_uop_num. cbn. rewrite (uo_enable _ _ _ Hu), Hb. done.
  - split; try done. exists s. split; [done | by apply uop_ok_last].
Qed.

Lemma free_space (f : fifo_t out_t) q R : repr_at f q R ->
  fifo.producer_get_free_space f = fifo.size f - (q_popped q + zlen (q_next q)).
Proof.
  intros H. unfold fifo.producer_get_free_space. rewrite (producer_used f q R H).
  pose proof (r_size _ _ _ H). pose proof (r_bound _ _ _ H). pose proof (r_popped _ _ _ H).
  apply u32_small. unfold zlen in *. word_lia.
Qed.

(** What is left of the input queue and what the output queue gets when [k]
    inputs have been moved. *)
Definition taken (k : nat) (q : queue in_t) : queue in_t :=
  mk_queue (q_popped q + Z.of_nat k) (drop k (q_view q)) (q_fresh q).
Definition given (l : list out_t) (q : queue out_t) : queue out_t :=
  mk_queue (q_popped q) (q_view q) (q_fresh q ++ l).
Definition room (sz : Z) (q : queue out_t) : nat := Z.to_nat (sz - (q_popped q + zlen (q_next q))).

(** One turn of the loop that moves an input. *)
Lemma run_move fuel sent fin fout qi qo Ri Ro r l :
  repr_at fin qi Ri -> repr_at fout qo Ro -> q_view qi = r :: l ->
  fetch2_decode.enable r = true -> sent <> decode.DECODE_WIDTH ->
  (0 < room (fifo.size fout) qo)%nat ->
  exists fin' fout' o, decoded_as r o /\
    decode.run_from (S fuel) sent fin fout = decode.run_from fuel (add32 sent 1) fin' fout' /\
    repr_at fin' (taken 1 qi) Ri /\ repr_at fout' (given [o] qo) Ro /\
    fifo.size fin' = fifo.size fin /\ fifo.size fout' = fifo.size fout.
Proof.
  intros Hi Ho Eq Hen Hsent Hroom. unfold room in Hroom.
  destruct (op_info_spec r Hen) as (u & base & E1 & E2 & E3 & Hd).
  pose proof (pop_spec_at fin qi Ri Hi) as Hp. rewrite Eq in Hp.
  destruct Hp as (fin' & Epop & Hi' & Hsi).
  pose proof (push_spec_at fout qo Ro Ho) as Hq.
  cbn [decode.run_from]. replace (sent =? decode.DECODE_WIDTH) with false by lia.
  rewrite (customer_empty fin qi Ri Hi), Eq, (producer_full fout qo Ro Ho).
  replace (zlen (r :: l) =? 0) with false by (unfold zlen; cbn [length]; lia).
  replace (_ =? fifo.size fout) with false by lia.
  rewrite (front_spec fin qi Ri Hi r l Eq). cbn [negb andb mbind outcome_bind].
  rewrite E1. cbn [mbind outcome_bind]. rewrite E2. cbn [verify Z.ltb Z.compare].
  cbn [mbind outcome_bind]. rewrite E3. cbn [mbind outcome_bind].
  rewrite (free_space fout qo Ro Ho).
  replace (_ <? 1) with false by lia. rewrite Epop. cbn [mbind outcome_bind fst snd].
  match goal with |- context [decode.push_all (?g <$> ?t)] =>
    change (g <$> t) with [decode_rename.mk_full (as_last u) (fetch2_decode.inst_common_info r)
                    (fetch2_decode.branch_predictor_info_pack r)] end.
  cbn [decode.push_all]. specialize (Hq (decode_rename.mk_full (as_last u)
    (fetch2_decode.inst_common_info r) (fetch2_decode.branch_predictor_info_pack r))).
  replace (_ =? fifo.size fout) with false in Hq by lia.
  destruct Hq as (fout' & Epush & Ho' & Hso). rewrite Epush.
  exists fin', fout'. eexists. split; [exact Hd |]. unfold taken, given. rewrite Eq. done.
Qed.

(** A turn of the loop that finds the input empty or the output full. *)
Lemma run_idle fuel sent fin fout qi qo Ri Ro :
  repr_at fin qi Ri -> repr_at fout qo Ro ->
  q_view qi = [] \/ room (fifo.size fout) qo = O ->
  decode.run_from fuel sent fin fout = Ok (fin, fout).
Proof.
  intros Hi Ho Hor. induction fuel as [|fuel IH]; cbn [decode.run_from]; [done |].
  destruct (sent =? _); [done |].
  rewrite (customer_empty fin qi Ri Hi), (producer_full fout qo Ro Ho).
  pose proof (r_bound _ _ _ Ho). unfold room in Hor.
  destruct Hor as [-> | Hz]; [exact IH |].
  replace (q_popped qo + _ =? _) with true by lia. by rewrite andb_false_r.
Qed.

Definition moved (fuel : nat) (qi : queue in_t) (sz : Z) (qo : queue out_t) : nat :=
  fuel `min` (length (q_view qi) `min` room sz qo).

Lemma run_from_spec fuel sent fin fout qi qo Ri Ro :
  repr_at fin qi Ri -> repr_at fout qo Ro ->
  Forall (fun r => fetch2_decode.enable r = true) (q_view qi) ->
  0 <= sent -> sent + Z.of_nat fuel = decode.DECODE_WIDTH ->
  let k := moved fuel qi (fifo.size fout) qo in
  exists fin' fout' l,
    decode.run_from fuel sent fin fout = Ok (fin', fout') /\
    Forall2 decoded_as (take k (q_view qi)) l /\
    repr_at fin' (taken k qi) Ri /\ repr_at fout' (given l qo) Ro.
Proof.
  unfold moved. revert sent fin fout qi qo. induction fuel as [|fuel IH];
    intros sent fin fout qi qo Hi Ho Hall H0 Hsum.
  { cbn. exists fin, fout, []. unfold taken, given. rewrite Z.add_0_r, app_nil_r, drop_0.
    by destruct qi, qo. }
  destruct (decide (q_view qi = [] \/ room (fifo.size fout) qo = O)) as [Hz | Hnz].
  { replace (S fuel `min` _)%nat with O by (destruct Hz as [-> | ->]; cbn [length]; lia).
    exists fin, fout, []. rewrite (run_idle _ _ _ _ _ _ _ _ Hi Ho Hz).
    unfold taken, given. cbn. rewrite Z.add_0_r, app_nil_r, drop_0. by destruct qi, qo. }
  destruct (q_view qi) as [|r l] eqn:Eq; [tauto |]. apply Forall_cons in Hall as [Hr Hall].
  assert (Hroom : (0 < room (fifo.size fout) qo)%nat) by (apply Nat.neq_0_lt_0; tauto).
  unfold decode.DECODE_WIDTH in *.
  destruct (run_move fuel sent fin fout qi qo Ri Ro r l Hi Ho Eq Hr)
    as (fin' & fout' & o & Hd & E & Hi' & Ho' & Hsi & Hso); [unfold decode.DECODE_WIDTH; lia | done |].
  rewrite E. replace (add32 sent 1) with (sent + 1) by (symmetry; apply u32_small; word_lia).
  destruct (IH (sent + 1) fin' fout' _ _ Hi' Ho') as (fin2 & fout2 & l2 & E2 & H2 & Hi2 & Ho2);
    [cbn; rewrite Eq; exact Hall | lia | lia |].
  exists fin2, fout2, (o :: l2). rewrite Hso in *.
  assert (Hk : (S fuel `min` (length (r :: l) `min` room (fifo.size fout) qo) =
    S (fuel `min` (length (q_view (taken 1 qi)) `min` room (fifo.size fout) (given [o] qo))))%nat).
  { unfold taken, given, room in *. cbn [q_view q_popped q_next q_fresh]. rewrite Eq.
    cbn [drop length]. unfold q_next in *. cbn [q_view q_fresh].
    rewrite app_assoc, (zlen_app _ [o]). change (zlen [o]) with 1.
    rewrite drop_0. lia. }
  rewrite Hk. unfold taken, given in *. cbn [q_view q_popped q_fresh] in *. rewrite Eq in *.
  rewrite drop_drop in Hi2. rewrite <- app_assoc in Ho2.
  split_and!; [done | constructor; done | | done].
  match goal with |- repr_at _ (mk_queue ?a _ _) _ =>
    match type of Hi2 with repr_at _ (mk_queue ?b _ _) _ => replace a with b by lia end end.
  exact Hi2.
Qed.
End stage.
