(* ===== verification/CycleProps.v ===== *)
(** * Properties of the cycle model's components

    Each theorem is followed by a witness where it has hypotheses. *)

From S2P Require Import Prelude Word Ops IsaDecode Dff Fifo FifoSpec FifoTrace.
From S2P Require Import Rat RatSpec AgeSpec FreeList FreeListTrace CycleBoot CycleDecode CycleDecodeSpec.

(** ** The clocked queue *)

(** ** C26
    Clocked queue: from its construction, any sequence of pushes, pops, clocks
    and flushes gives the answers an abstract queue of the same capacity gives
    (a push is refused when the elements visible to the producer, those popped
    in this cycle included, fill the ring; a pop sees only elements pushed
    before the last clock), and the ring then holds that queue's contents. *)
Theorem fifo_refines {T} (sz : Z) (v : T) (l : list (cmd T)) :
  0 < sz < 2 ^ 30 ->
  exists f, exec_all l (fifo.new sz v) = Ok ((q_exec_all sz l q_empty).1, f) /\
    repr f (q_exec_all sz l q_empty).2.
Proof.
  intros Hs. destruct (exec_all_spec l _ _ _ (new_repr sz v Hs)) as (f & R & E & H).
  exists f. split; [exact E | by exists R].
Qed.

Lemma fifo_refines_witness :
  exists f, exec_all [cmd_push 1; cmd_pop; cmd_tick; cmd_push 2; cmd_push 3; cmd_pop; cmd_flush; cmd_pop]
      (fifo.new 2 0)
    = Ok ([pushed true; popped None; clocked; pushed true; pushed false; popped (Some 1); clocked;
           popped None], f) /\
    repr f q_empty.
Proof.
  apply (fifo_refines 2 0
    [cmd_push 1; cmd_pop; cmd_tick; cmd_push 2; cmd_push 3; cmd_pop; cmd_flush; cmd_pop]).
  split; reflexivity.
Defined.

(** First in, first out, nothing lost and nothing duplicated: without flushes
    the elements delivered so far, followed by those still queued, are the
    elements whose push was accepted, in order; and the queue never holds more
    than its capacity. *)
Theorem fifo_order {T} (sz : Z) (v : T) (l : list (cmd T)) :
  0 < sz < 2 ^ 30 -> Forall no_flush l ->
  exists r f q, exec_all l (fifo.new sz v) = Ok (r, f) /\ repr f q /\
    delivered r ++ q_next q = accepted l r /\ zlen (q_next q) <= sz.
Proof.
  intros Hs Hl. destruct (exec_all_spec l _ _ _ (new_repr sz v Hs)) as (f & R & E & H).
  eexists _, f, _. split; [exact E |]. split; [by exists R |].
  split; [exact (q_order sz l q_empty Hl) |].
  pose proof (r_bound _ _ _ H). pose proof (r_popped _ _ _ H).
  assert (Hsz : fifo.size f = sz) by (eapply exec_all_size in E; exact E). lia.
Qed.

Lemma fifo_order_witness :
  exists r f q, exec_all [cmd_push 7; cmd_push 8; cmd_tick; cmd_pop; cmd_push 9] (fifo.new 2 0)
      = Ok (r, f) /\ repr f q /\
    delivered r ++ q_next q = accepted [cmd_push 7; cmd_push 8; cmd_tick; cmd_pop; cmd_push 9] r /\
    zlen (q_next q) <= 2.
Proof. apply fifo_order; [split; reflexivity | repeat constructor]. Defined.

(** Iteration: at the start of a cycle [customer_foreach] calls the function on
    the queued elements from the oldest to the newest, with the position and
    stage bit of each, and stops when it says so; on an empty queue it calls it
    never. *)
Theorem fifo_foreach_order {T S} (f : fifo_t T) q R func (st : S) :
  repr_at f q R -> q_popped q = 0 ->
  fifo.customer_foreach func f st = visit (fifo.size f) func R (q_view q) st.
Proof. apply foreach_spec_at. Qed.

(** Three elements in a ring of two turns: the last one wraps around. *)
Definition wrapped : fifo_t Z :=
  match exec_all [cmd_push 1; cmd_push 2; cmd_tick; cmd_pop; cmd_pop; cmd_tick;
                  cmd_push 3; cmd_push 4; cmd_push 5; cmd_tick] (fifo.new 4 0) with
  | Ok rf => rf.2
  | _ => fifo.new 4 0
  end.
Definition collect (p : Z) (s : bool) (x : Z) (l : list (Z * bool * Z)) :
  outcome (bool * list (Z * bool * Z)) := Ok (true, l ++ [(p, s, x)]).

Lemma wrapped_repr : repr_at wrapped (mk_queue 0 [3; 4; 5] []) 2.
Proof.
  split; try decide_closed; try (split; decide_closed).
  - intros k x Hk. destruct k as [|[|[|k]]]; [injection Hk as <- ..| discriminate].
    all: eexists; split; [reflexivity | done].
  - intros k x Hk. discriminate.
Qed.

Lemma fifo_foreach_order_witness :
  fifo.customer_foreach collect wrapped [] =
  visit 4 collect 2 [3; 4; 5] [] /\
  visit 4 collect 2 [3; 4; 5] [] = Ok [(2, false, 3); (3, false, 4); (0, true, 5)].
Proof.
  split; [| reflexivity].
  exact (fifo_foreach_order wrapped (mk_queue 0 [3; 4; 5] []) 2 collect [] wrapped_repr eq_refl).
Defined.

(** ** Ages and registers *)

(** ** C33
    Program order: number the instructions in the order they enter the ROB and
    let an instruction's age be its slot and the stage bit of its turn.  Any
    two that are fewer than a ROB length apart compare as in program order, in
    all six comparisons ([<] is "younger than"). *)
Theorem age_program_order (sz n m : Z) :
  0 < sz -> - sz < n - m < sz ->
  age_compare.lt (age_at sz n) (age_at sz m) = (m <? n) /\
  age_compare.gt (age_at sz n) (age_at sz m) = (n <? m) /\
  age_compare.eq (age_at sz n) (age_at sz m) = (n =? m) /\
  age_compare.ne (age_at sz n) (age_at sz m) = negb (n =? m) /\
  age_compare.le (age_at sz n) (age_at sz m) = (m <=? n) /\
  age_compare.ge (age_at sz n) (age_at sz m) = (n <=? m).
Proof. intros Hs. by apply age_order. Qed.

(** Slot 2 of the next turn is younger than slot 60. *)
Lemma age_program_order_witness :
  - 64 < 66 - 60 < 64 /\ age_compare.lt (age_compare.mk 2 true) (age_compare.mk 60 false) = true.
Proof.
  split; [lia |]. pose proof (age_program_order 64 66 60 eq_refl ltac:(lia)) as H. apply H.
Defined.

(** Rollback of the register file: after [restore] of the age of instruction
    [n] and the clock, a register is valid exactly when it was valid and was
    either marked as the oldest (part of the committed state) or written by an
    instruction not younger than [n]; no value changes.  [restore_equal] also
    invalidates what [n] itself wrote. *)
Theorem regfile_rollback (sz n m : Z) (f : phy_regfile.regfile_t) i x :
  0 < sz -> - sz < m - n < sz ->
  phy_regfile.regs f !! i = Some x -> settled x -> phy_regfile.age_of x = age_at sz m ->
  (exists y, phy_regfile.regs (phy_regfile.sync (phy_regfile.restore (ptr sz n) (stg sz n) f)) !! i = Some y /\
    dff.get (phy_regfile.reg_data_valid y) =
      dff.get (phy_regfile.reg_data_valid x) && (dff.get (phy_regfile.reg_oldest x) || (m <=? n)) /\
    dff.get (phy_regfile.reg_data y) = dff.get (phy_regfile.reg_data x)) /\
  (exists y, phy_regfile.regs (phy_regfile.sync (phy_regfile.restore_equal (ptr sz n) (stg sz n) f)) !! i = Some y /\
    dff.get (phy_regfile.reg_data_valid y) =
      dff.get (phy_regfile.reg_data_valid x) && (dff.get (phy_regfile.reg_oldest x) || (m <? n)) /\
    dff.get (phy_regfile.reg_data y) = dff.get (phy_regfile.reg_data x)).
Proof.
  intros Hs Hd Hx Hset Hage. destruct (age_order sz Hs m n) as (Hlt & _ & _ & _ & Hle & _); [lia |].
  split; unfold phy_regfile.restore, phy_regfile.restore_equal; fold (age_at sz n).
  - destruct (restored f age_compare.lt (age_at sz n) i x Hx) as (y & Hy & ->).
    eexists. split; [exact Hy |]. destruct (restore_if_valid age_compare.lt (age_at sz n) x Hset) as [-> ->].
    rewrite Hage, Hlt. replace (negb (n <? m)) with (m <=? n) by lia. done.
  - destruct (restored f age_compare.le (age_at sz n) i x Hx) as (y & Hy & ->).
    eexists. split; [exact Hy |]. destruct (restore_if_valid age_compare.le (age_at sz n) x Hset) as [-> ->].
    rewrite Hage, Hle. replace (negb (n <=? m)) with (m <? n) by lia. done.
Qed.

(** Register 1 was written by instruction 65 (slot 1 of the second turn). *)
Definition some_regs : phy_regfile.regfile_t :=
  match phy_regfile.write 1 42 true 1 true false (phy_regfile.new 4) with
  | Ok f => phy_regfile.sync f
  | _ => phy_regfile.new 4
  end.

Lemma regfile_rollback_witness :
  exists y, phy_regfile.regs (phy_regfile.sync (phy_regfile.restore (ptr 64 63) (stg 64 63) some_regs))
      !! 1%nat = Some y /\
    dff.get (phy_regfile.reg_data_valid y) = false /\ dff.get (phy_regfile.reg_data y) = 42.
Proof.
  destruct (regfile_rollback 64 63 65 some_regs 1
    (phy_regfile.mk_reg (dff.mk 0 42 42 false) (dff.mk false true true false) (dff.mk 0 1 1 false)
      (dff.mk false true true false) (dff.mk false false false false)))
    as [H _]; [lia | lia | vm_compute; reflexivity | split; reflexivity | vm_compute; reflexivity |].
  exact H.
Defined.

(** ** C10
    The life of a physical register: from a free list that has just been reset,
    any sequence of allocations, commits (which free the register of the
    replaced mapping), checkpoints, clocks and rollbacks to an instruction in
    flight that the pipeline can issue runs without a failed self-check, hands
    out the registers the ledger says, and at every moment each of the [sz]
    registers is in exactly one place: the committed state, an instruction in
    flight, or the free list; a rollback gives back exactly the registers of
    the instructions it cancels. *)
Theorem free_list_conserves (sz : Z) (cs : list fl_cmd) r g :
  0 < sz < 2 ^ 30 -> lg_exec_all sz cs (ledger0 sz) = Some (r, g) ->
  exists l0 l, free_list.new sz = Ok l0 /\ fl_exec_all sz cs (free_list.sync l0) = Ok (r, l) /\
    holders g ≡ₚ seqZ 0 sz /\ repr (free_list.base l) (lg_queue g) /\
    free_list.free_list_set l = list_to_set (q_next (lg_queue g)).
Proof.
  intros Hs E. destruct (boot_spec sz Hs) as (l0 & E0 & H0).
  destruct (fl_exec_all_spec sz cs _ _ r g H0 E) as (l & El & H).
  exists l0, l. split_and!; [done | done | apply (fo_all _ _ _ H) | | apply (fo_set _ _ _ H)].
  eexists. apply (fo_repr _ _ _ H).
Qed.

(** Two registers are allocated, the first commits, two more are allocated and
    taken back. *)
Definition some_life : list fl_cmd :=
  [fl_alloc; fl_tick; fl_adopt; fl_alloc; fl_save; fl_tick; fl_alloc; fl_alloc; fl_tick;
   fl_commit 0; fl_rollback 2; fl_alloc].

Lemma free_list_conserves_witness :
  exists l0 l, free_list.new 4 = Ok l0 /\
    fl_exec_all 4 some_life (free_list.sync l0) =
      Ok ([fl_register (Some 0); fl_done; fl_done; fl_register (Some 1); fl_saved 2 false; fl_done;
           fl_register (Some 2); fl_register (Some 3); fl_done; fl_pushed true; fl_done;
           fl_register (Some 2)], l) /\
    repr (free_list.base l) (mk_queue 1 [3; 0] []).
Proof.
  destruct (free_list_conserves 4 some_life
    [fl_register (Some 0); fl_done; fl_done; fl_register (Some 1); fl_saved 2 false; fl_done;
     fl_register (Some 2); fl_register (Some 3); fl_done; fl_pushed true; fl_done;
     fl_register (Some 2)]
    (mk_ledger [1] [2] 1 (mk_queue 1 [3; 0] []) 2)) as (l0 & l & E0 & E & _ & H & _);
    [split; reflexivity | vm_compute; reflexivity |].
  by exists l0, l.
Defined.

(** ** The alias table *)

(** The table after reset, and the state around it. *)
Definition booted : cycle_reset.state := Eval vm_compute in
  match boot with
  | Ok s => s
  | _ => cycle_reset.mk (free_list.mk (fifo.new 1 0) ∅) (rat.new 1 1) (rat.new 1 1) (phy_regfile.new 1)
  end.
Abbreviation boot_rat := (cycle_reset.speculative_rat booted).

(** Checking a list entry by entry. *)
Lemma lookup_check {A B} (l : list A) (g : A -> B) (h : nat -> B) i x :
  Forall (λ i, g <$> l !! i = Some (h i)) (seq 0 (length l)) -> l !! i = Some x -> g x = h i.
Proof.
  intros H Hx. pose proof (lookup_lt_Some _ _ _ Hx) as Hi. rewrite Forall_forall in H.
  specialize (H i ltac:(apply elem_of_seq; lia)). rewrite Hx in H. cbn in H. congruence.
Qed.
Lemma boot_ok : boot = Ok booted.
Proof. vm_cast_no_check (eq_refl (Ok booted)). Qed.
Lemma boot_rat_wf : rat_wf boot_rat.
Proof. apply rat_check. decide_closed. Qed.
Lemma boot_rat_complete : complete boot_rat.
Proof. apply complete_check. decide_closed. Qed.

Lemma boot_retire : cycle_reset.retire_rat booted = boot_rat.
Proof. vm_cast_no_check (eq_refl boot_rat). Qed.
Lemma boot_maps a : 0 < a < RENAME_ARCH_REG_NUM -> maps boot_rat (a - 1) a.
Proof.
  intros Ha. assert (Ha' : Forall (λ a, tbl boot_rat !! Z.to_nat (a - 1) = Some a /\
    vld boot_rat !! Z.to_nat (a - 1) = Some true) (seqZ 1 31)) by decide_closed.
  rewrite Forall_forall in Ha'. destruct (Ha' a) as [Ht Hv].
  { apply elem_of_seqZ. unfold RENAME_ARCH_REG_NUM in Ha. lia. }
  unfold maps. split_and!; [lia | exact Ht | exact Hv].
Qed.
Abbreviation boot_regfile := (cycle_reset.phy_regfile booted).
Lemma boot_regs i x : phy_regfile.regs boot_regfile !! i = Some x ->
  dff.get (phy_regfile.reg_data x) = 0 /\ dff.get (phy_regfile.reg_oldest x) = true /\
  dff.get (phy_regfile.reg_data_valid x) = (Z.of_nat i <? 31).
Proof.
  intros Hx. apply (lookup_check _ (λ x, (dff.get (phy_regfile.reg_data x),
      dff.get (phy_regfile.reg_oldest x), dff.get (phy_regfile.reg_data_valid x)))
      (λ i, (0, true, Z.of_nat i <? 31))) in Hx; [| decide_closed].
  clear - Hx. injection Hx as -> -> ->. done.
Qed.
Abbreviation boot_free_list := (cycle_reset.phy_id_free_list booted).
(** The ledger of the free list after reset. *)
Definition boot_ledger : ledger := mk_ledger (reverse (seqZ 0 31)) [] 0 (mk_queue 0 (seqZ 31 97) []) 31.
Lemma boot_follows : follows 128 boot_free_list boot_ledger.
Proof.
  destruct (boot_spec 128) as (l0 & E0 & H0); [lia |].
  destruct (fl_exec_all_spec 128 (concat (replicate 31 [fl_alloc; fl_tick; fl_adopt])) _ _
    (concat ((λ i, [fl_register (Some i); fl_done; fl_done]) <$> seqZ 0 31)) boot_ledger H0) as (l & El & H).
  { vm_compute. reflexivity. }
  assert (Hl : (l0 ← free_list.new 128;
      rl ← fl_exec_all 128 (concat (replicate 31 [fl_alloc; fl_tick; fl_adopt])) (free_list.sync l0);
      Ok rl.2) = Ok boot_free_list) by (vm_cast_no_check (eq_refl (Ok boot_free_list))).
  rewrite E0 in Hl. cbn [mbind outcome_bind] in Hl. rewrite El in Hl. cbn [mbind outcome_bind snd] in Hl.
  revert Hl. generalize boot_free_list. by intros x [= <-].
Qed.
Lemma boot_free : repr (free_list.base boot_free_list) (mk_queue 0 (seqZ 31 97) []).
Proof. eexists. apply (fo_repr _ _ _ boot_follows). Qed.
Lemma boot_free_set : free_list.free_list_set boot_free_list = list_to_set (seqZ 31 97).
Proof. apply leibniz_equiv. decide_closed. Qed.

(** Renaming: on a well-formed table that maps every architectural register
    but x0, renaming [a] to a free register [p] succeeds and returns the
    register [a] had; the new map sends [a] to [p] and every other register
    where it was, is well formed (no two entries for one register) and still
    complete, and [producer_get_phy_id] finds it. *)
Theorem rat_rename (r : rat_t) (a p : Z) :
  rat_wf r -> complete r -> 0 < a < rat.arch_reg_num r -> 0 <= p < rat.phy_reg_num r ->
  vld r !! Z.to_nat p = Some false ->
  exists old r', rat.set_map a p r = Ok (old, r') /\ maps r old a /\ rat_wf r' /\ complete r' /\
    (forall b q, maps r' q b <-> if b =? a then q = p else maps r q b) /\
    rat.producer_get_phy_id a 0 r' = Ok (true, p).
Proof.
  intros H Hc Ha Hp Hv.
  destruct (set_map_spec r a p H Hc Ha Hp Hv) as (old & r' & E & Ho & W & C & N & A & M & _).
  exists old, r'. split_and!; try done.
  destruct (get_phy_id_spec r' a 0 W) as [(q & Eq & Hq) | (_ & Hn)]; [by rewrite A | |].
  - rewrite Eq. apply M in Hq. rewrite Z.eqb_refl in Hq. by subst.
  - exfalso. apply (Hn p). apply M. by rewrite Z.eqb_refl.
Qed.

(** x5 moves from physical register 4 to 40. *)
Lemma rat_rename_witness :
  exists r', rat.set_map 5 40 boot_rat = Ok (4, r') /\
    rat.producer_get_phy_id 5 0 r' = Ok (true, 40).
Proof.
  destruct (rat_rename boot_rat 5 40) as (old & r' & E & (H0 & Ho & _) & _ & _ & _ & G).
  - exact boot_rat_wf.
  - exact boot_rat_complete.
  - vm_compute. split; reflexivity.
  - vm_compute. split; [discriminate | reflexivity].
  - vm_compute. reflexivity.
  - exists r'. split; [| exact G].
    assert (Heq : rat.set_map 5 40 boot_rat ≫= (λ x, Ok x.1) = Ok 4) by (vm_compute; reflexivity).
    rewrite E in Heq. cbn in Heq. injection Heq as ->. exact E.
Defined.

(** Checkpoint and rollback: save the valid bits of a table, rename any
    registers to physical registers that were free at the save, with the clock
    ticking in between, and restore the bits: the map is the one that was
    saved, well formed and complete. *)
Theorem rat_rollback (r : rat_t) (l : list (option (Z * Z))) cp :
  rat_wf r -> complete r -> fresh_for r (renamed l) ->
  exists r', rename_run l r = Ok r' /\
    let r'' := rat.restore_from_checkpoint (rat.producer_save_to_checkpoint cp r) r' in
    rat_wf r'' /\ complete r'' /\ forall p a, maps r'' p a <-> maps r p a.
Proof. apply rollback. Qed.

Definition no_checkpoint : checkpoint_t :=
  checkpoint.mk [] 0 false 0 false 0 false 0 false 0 false 0 false.

(** x5 and x6 are renamed, and x5 again in the next cycle. *)
Lemma rat_rollback_witness :
  exists r', rename_run [Some (5, 40); Some (6, 41); None; Some (5, 42)] boot_rat = Ok r' /\
    forall p a, maps (rat.restore_from_checkpoint
      (rat.producer_save_to_checkpoint no_checkpoint boot_rat) r') p a <-> maps boot_rat p a.
Proof.
  destruct (rat_rollback boot_rat [Some (5, 40); Some (6, 41); None; Some (5, 42)] no_checkpoint)
    as (r' & E & _ & _ & H).
  - exact boot_rat_wf.
  - exact boot_rat_complete.
  - decide_closed.
  - exists r'. split; [exact E | exact H].
Defined.

(** Reset: construction and [reset] of the renaming state pass every check of
    the code.  Both alias tables are well formed and complete and map
    architectural register [a] to physical register [a - 1]; those 31 registers
    are valid, hold 0 and count as committed, no other register is valid, and
    the free list holds exactly the other 97, in order. *)
Theorem reset_renaming_state :
  exists s, boot = Ok s /\
    rat_wf (cycle_reset.speculative_rat s) /\ complete (cycle_reset.speculative_rat s) /\
    cycle_reset.retire_rat s = cycle_reset.speculative_rat s /\
    (forall a, 0 < a < RENAME_ARCH_REG_NUM -> maps (cycle_reset.speculative_rat s) (a - 1) a) /\
    (forall i x, phy_regfile.regs (cycle_reset.phy_regfile s) !! i = Some x ->
       dff.get (phy_regfile.reg_data x) = 0 /\ dff.get (phy_regfile.reg_oldest x) = true /\
       dff.get (phy_regfile.reg_data_valid x) = (Z.of_nat i <? 31)) /\
    repr (free_list.base (cycle_reset.phy_id_free_list s)) (mk_queue 0 (seqZ 31 97) []) /\
    free_list.free_list_set (cycle_reset.phy_id_free_list s) = list_to_set (seqZ 31 97).
Proof.
  exists booted. split; [exact boot_ok |]. split; [exact boot_rat_wf |].
  split; [exact boot_rat_complete |]. split; [exact boot_retire |].
  split; [exact boot_maps |]. split; [exact boot_regs |]. split; [exact boot_free | exact boot_free_set].
Qed.

(** ** The decode stage *)

(** ** C12
    The two decoders agree: for every instruction word (and pending fetch
    exception) the decode stage produces one micro-operation whose operands,
    immediate, destination, CSR, operation and validity are those of the ISA
    model's [decode], with the ISA model's load/store unit split into load and
    store units; an instruction the ISA model finds invalid goes to the ALU. *)
Theorem decoders_agree {B C} (r : fetch2_decode.pack_t B C) :
  exists s u base, isa_decode.decode (isa_input r) = Ok s /\
    decode.decode_pack r = Ok [u; base] /\ uop_ok r s u /\ decode_rename.enable base = false.
Proof. apply decode_pack_spec. Qed.

(** ** C13
    The decode stage moves instructions in order and loses none.  Without a
    flush, on input and output queues in any state of a cycle, it takes the
    first [min 4 (min queued free)] instructions from the input and appends
    their decoded forms to the output in the same order, one micro-operation
    each with the fields of the ISA model's decoder, and leaves the rest; [idle]
    says whether there was no input.  When the branch unit, the store unit or
    the commit stage flushes, it takes nothing, leaves its input alone, and its
    output queue is empty after the clock, whatever it held.  In neither case
    does a check of the stage fail. *)
Theorem decode_stage_in_order {B C} bru sau commit (fin : fifo_t (fetch2_decode.pack_t B C))
  (fout : fifo_t (decode_rename.full_t B C)) qi qo Ri Ro :
  repr_at fin qi Ri -> repr_at fout qo Ro ->
  Forall (fun r => fetch2_decode.enable r = true) (q_view qi) ->
  let k := moved 4 qi (fifo.size fout) qo in
  exists fin' fout' l,
    decode.run bru sau commit fin fout = Ok (bool_decide (q_view qi = []), fin', fout') /\
    if (bru || sau || commit : bool) then fin' = fin /\ repr_at (fifo.sync fout') (mk_queue 0 [] []) 0
    else Forall2 decoded_as (take k (q_view qi)) l /\
         repr_at fin' (taken k qi) Ri /\ repr_at fout' (given l qo) Ro.
Proof.
  intros Hi Ho Hall. cbv zeta.
  assert (Idle : fifo.customer_is_empty fin = bool_decide (q_view qi = [])).
  { rewrite (customer_empty fin qi Ri Hi). by destruct (q_view qi). }
  unfold decode.run. rewrite Idle. destruct (bru || sau || commit) eqn:F.
  - replace (negb commit && negb bru && negb sau) with false by (by destruct bru, sau, commit).
    exists fin, (fifo.flush fout), []. split; [done |]. split; [done |].
    apply sync_pending, reset_pending; apply Ho.
  - destruct (run_from_spec 4 0 fin fout qi qo Ri Ro Hi Ho Hall) as (fin' & fout' & l & E & H2 & Hi' & Ho');
      [done | done |].
    exists fin', fout', l. split_and!; try done.
    replace (negb commit && negb bru && negb sau) with true by (by destruct bru, sau, commit).
    change (Z.to_nat decode.DECODE_WIDTH) with 4%nat. by rewrite E.
Qed.

(** Two queued instructions and room for one. *)
Definition word_in (p w : Z) : fetch2_decode.pack_t unit unit :=
  fetch2_decode.mk tt true p w false riscv_exception.instruction_address_misaligned 0 tt.
Definition demo_in : fifo_t (fetch2_decode.pack_t unit unit) :=
  match exec_all [cmd_push (word_in 0 0x00500093); cmd_push (word_in 4 0x00000013); cmd_tick]
    (fifo.new 4 (word_in 0 0)) with Ok rf => rf.2 | _ => fifo.new 4 (word_in 0 0) end.
Definition demo_out : fifo_t (decode_rename.full_t unit unit) :=
  fifo.new 1 (decode_rename.mk_full decode_rename.init tt tt).

Lemma demo_in_repr :
  exists R, repr_at demo_in (mk_queue 0 [word_in 0 0x00500093; word_in 4 0x00000013] []) R.
Proof.
  destruct (exec_all_spec [cmd_push (word_in 0 0x00500093); cmd_push (word_in 4 0x00000013); cmd_tick]
    _ _ _ (new_repr 4 (word_in 0 0) ltac:(lia))) as (f & R & E & H).
  exists R. assert (Ef : demo_in = f) by (unfold demo_in; rewrite E; done). rewrite Ef. exact H.
Qed.

Lemma decode_stage_in_order_witness :
  (exists fin' fout' o, decode.run false false false demo_in demo_out = Ok (false, fin', fout') /\
    decoded_as (word_in 0 0x00500093) o /\ repr fin' (mk_queue 1 [word_in 4 0x00000013] []) /\
    repr fout' (mk_queue 0 [] [o])) /\
  exists fout', decode.run true false false demo_in demo_out = Ok (false, demo_in, fout') /\
    repr_at (fifo.sync fout') (mk_queue 0 [] []) 0.
Proof.
  destruct demo_in_repr as [R Hi]. assert (Ho : repr_at demo_out q_empty 0) by (apply new_repr; lia). split.
  - destruct (decode_stage_in_order false false false demo_in demo_out _ q_empty R 0 Hi Ho)
      as (fin' & fout' & l & E & H2 & Hi' & Ho'); [repeat constructor |].
    change (moved 4 _ _ _) with 1%nat in *. cbn [take q_view] in H2.
    apply Forall2_cons_inv_l in H2 as (o & l' & Hd & H2 & ->). apply Forall2_nil_inv_l in H2 as ->.
    exists fin', fout', o. split_and!; [exact E | exact Hd | by exists R | by exists 0].
  - destruct (decode_stage_in_order true false false demo_in demo_out _ q_empty R 0 Hi Ho)
      as (fin' & fout' & l & E & -> & H2); [repeat constructor |].
    exists fout'. split; [exact E | exact H2].
Defined.
