(* ===== verification/FifoWindow.v ===== *)
(** * The producer's view of a clocked queue

    The store buffer, the load queue and the reorder buffer are read by the
    producer side too: from the front that the customer had at the start of the
    cycle to the elements pushed in this cycle, with the values written in this
    cycle.  [window f R l] says that the producer sees the elements [l], the
    first of them being element number [R] since reset.

    The loop the queues share, [do ... while(producer_get_next_id_stage(...) &&
    cur_id != first_id)], is [walk] with the body as a parameter. *)

From S2P Require Import Prelude Word Dff Fifo FifoSpec.

(** The body answers [inr r] to leave the loop with [return r], and [inl st] to
    go on ([continue] goes to the condition, too).  Fuel: the condition fails
    after at most [size] turns. *)
Section walk.
Context {T S R : Type} (body : Z -> bool -> S -> outcome (S + R)) (f : fifo_t T) (first : Z).
Fixpoint walk (fuel : nat) (cur : Z) (cur_stage : bool) (st : S) : outcome (S + R) :=
  match fuel with
  | O => Hang
  | Datatypes.S fuel =>
      r ← body cur cur_stage st;
      match r with
      | inr r => Ok (inr r)
      | inl st =>
          n ← fifo.producer_get_next_id_stage cur cur_stage f;
          if n.1.1 && negb (n.1.2 =? first) then walk fuel n.1.2 n.2 st else Ok (inl st)
      end
  end.
End walk.

(** [if(producer_get_front_id_stage(...)) do ...]. *)
Definition producer_walk {T S R} (body : Z -> bool -> S -> outcome (S + R)) (f : fifo_t T) (st : S) :
  outcome (S + R) :=
  match fifo.producer_get_front_id_stage f with
  | None => Ok (inl st)
  | Some (id, stage) => walk body f id (Z.to_nat (fifo.size f)) id stage st
  end.

(** The loop on the elements themselves: [g] is given the place of each. *)
Section scan.
Context {S A X : Type} (g : Z -> X -> S -> S + A).
Fixpoint scan_list (k : Z) (l : list X) (st : S) : S + A :=
  match l with
  | [] => inl st
  | x :: l => match g k x st with inr r => inr r | inl st => scan_list (k + 1) l st end
  end.

Lemma scan_list_snoc k l x st :
  scan_list k (l ++ [x]) st =
  match scan_list k l st with inr r => inr r | inl st => g (k + zlen l) x st end.
Proof.
  revert k st. induction l as [|y l IH]; intros k st; cbn [scan_list app].
  - unfold zlen. cbn. rewrite Z.add_0_r. by destruct (g k x st).
  - destruct (g k y st); [| done]. rewrite IH.
    by replace (k + 1 + zlen l) with (k + zlen (y :: l)) by (unfold zlen; cbn [length]; lia).
Qed.
End scan.

(** The test of the two [check_id_valid]: the positions between the pointers. *)
Lemma ring_valid sz R n k : 0 < sz -> 0 <= n <= sz -> 0 <= k < sz ->
  (if n =? 0 then false
   else if eqb (stg sz (R + n)) (stg sz R)
     then (ptr sz R <=? ptr sz (R + k)) && (ptr sz (R + k) <? ptr sz (R + n))
     else ((ptr sz R <=? ptr sz (R + k)) && (ptr sz (R + k) <? sz)) || (ptr sz (R + k) <? ptr sz (R + n)))
  = (k <? n).
Proof.
  intros Hs Hl Hk. destruct (n =? 0) eqn:E0; [lia |].
  pose proof (ptr_range sz Hs R) as Hr. unfold ptr in Hr.
  assert (Hc : forall d, 0 <= d <= sz -> exists c, (c = 0 \/ c = 1) /\
    ptr sz (R + d) = R mod sz + d - c * sz /\ (R + d) / sz = R / sz + c /\
    c * sz <= R mod sz + d < (c + 1) * sz).
  { intros d Hd. destruct (decide (R mod sz + d < sz)); [exists 0 | exists 1];
      (split; [lia |]);
      [destruct (turn sz Hs R d 0) | destruct (turn sz Hs R d 1)]; split_and?; lia. }
  destruct (Hc k ltac:(lia)) as (c1 & C1 & E1 & _ & B1).
  destruct (Hc n ltac:(lia)) as (c2 & C2 & E2 & E3 & B2).
  rewrite E1, E2. unfold stg. rewrite E3, Z.odd_add. unfold ptr.
  destruct C2 as [-> | ->], C1 as [-> | ->]; cbn [Z.odd];
    destruct (Z.odd (R / sz)); cbn [xorb eqb]; lia.
Qed.

Section window.
Context {T : Type}.
Implicit Types (f : fifo_t T) (l : list T) (x : T).

Record window f (R : Z) l : Prop := {
  w_size : 0 < fifo.size f < 2 ^ 30;
  w_len : zlen (fifo.buffer f) = fifo.size f;
  w_start : 0 <= R;
  w_rptr : dff.get (fifo.rptr f) = ptr (fifo.size f) R /\
           dff.get (fifo.rstage f) = stg (fifo.size f) R;
  w_wptr : dff.get_new (fifo.wptr f) = ptr (fifo.size f) (R + zlen l) /\
           dff.get_new (fifo.wstage f) = stg (fifo.size f) (R + zlen l);
  w_bound : zlen l <= fifo.size f;
  w_items : forall k x, l !! k = Some x ->
    buffer_new_is f (ptr (fifo.size f) (R + Z.of_nat k)) x
}.

(** A queue at the start of a cycle, and a queue that was only pushed to. *)
Lemma repr_window f q R : repr_at f q R -> q_popped q = 0 -> window f R (q_next q).
Proof.
  intros H H0. pose proof (r_bound _ _ _ H). pose proof (r_wptr_new _ _ _ H) as Hw.
  rewrite H0, Z.add_0_r in Hw. split; try apply H; [done | lia |].
  intros k x Hk. unfold q_next in Hk. apply lookup_app_Some in Hk as [Hk | [Hk1 Hk2]].
  - destruct (r_view _ _ _ H k x Hk) as (d & Hd & _ & Hn). exists d.
    by rewrite H0, Z.add_0_r in Hd.
  - destruct (r_fresh _ _ _ H _ x Hk2) as (d & Hd & Hn). exists d. split; [| done].
    rewrite <- Hd. rewrite H0. do 3 f_equal. unfold zlen. lia.
Qed.

Section seen.
Context f R l (H : window f R l).
#[local] Abbreviation sz := (fifo.size f).

Lemma window_bounds : 0 < sz /\ 0 <= zlen l <= sz.
Proof using H. pose proof (w_size _ _ _ H). pose proof (w_bound _ _ _ H). unfold zlen in *. lia. Qed.

Lemma window_empty : fifo.producer_is_empty f = (zlen l =? 0).
Proof using H.
  destruct window_bounds as [Hs Hl]. unfold fifo.producer_is_empty.
  destruct (w_rptr _ _ _ H) as [-> ->]. destruct (w_wptr _ _ _ H) as [-> ->].
  apply compare; lia.
Qed.

Lemma window_full : fifo.producer_is_full f = (zlen l =? sz).
Proof using H.
  destruct window_bounds as [Hs Hl]. unfold fifo.producer_is_full.
  destruct (w_rptr _ _ _ H) as [-> ->]. destruct (w_wptr _ _ _ H) as [-> ->].
  apply compare; lia.
Qed.

(** The positions of the window are the valid identifiers. *)
Lemma window_valid k : 0 <= k < sz ->
  fifo.producer_check_id_valid (ptr sz (R + k)) f = (k <? zlen l).
Proof using H.
  intros Hk. destruct window_bounds as [Hs Hl].
  unfold fifo.producer_check_id_valid. rewrite window_empty.
  destruct (w_rptr _ _ _ H) as [-> ->]. destruct (w_wptr _ _ _ H) as [-> ->].
  by apply ring_valid.
Qed.

Lemma window_item k x : l !! k = Some x ->
  fifo.producer_get_item (ptr sz (R + Z.of_nat k)) f = Ok x.
Proof using H.
  intros Hk. destruct window_bounds as [Hs _].
  destruct (w_items _ _ _ H k x Hk) as (d & Hd & Hx).
  unfold fifo.producer_get_item, fifo.buffer_get_new.
  replace (arr_get _ _) with (Ok d); [cbn; by rewrite Hx |].
  symmetry. apply arr_get_Some. split; [by apply ptr_range | done].
Qed.

Lemma window_next k : 0 <= k < zlen l ->
  exists st, st = stg sz (R + (k + 1)) /\
  fifo.producer_get_next_id_stage (ptr sz (R + k)) (stg sz (R + k)) f =
    Ok (if k + 1 =? sz then fifo.producer_check_id_valid (ptr sz R) f else k + 1 <? zlen l,
        ptr sz (R + (k + 1)), st).
Proof using H.
  intros Hk. destruct window_bounds as [Hs Hl]. pose proof (w_size _ _ _ H) as Hsz.
  eexists. split; [done |]. unfold fifo.producer_get_next_id_stage.
  rewrite window_valid by lia. replace (k <? zlen l) with true by lia.
  cbn [verify mbind outcome_bind]. unfold fifo.next_id, fifo.next_stage.
  pose proof (ptr_range sz Hs (R + k)) as Hr.
  replace (add32 (ptr sz (R + k)) 1) with (ptr sz (R + k) + 1)
    by (symmetry; apply u32_small; word_lia).
  destruct (succ sz Hs (R + k)) as [S1 S2]. rewrite Z.add_assoc.
  assert (En : (ptr sz (R + k) + 1) mod sz = ptr sz (R + k + 1)).
  { rewrite <- S1. destruct (sz - 1 <=? _) eqn:E.
    - replace (ptr sz (R + k) + 1) with sz by lia. apply Z.mod_same. lia.
    - apply Z.mod_small. lia. }
  rewrite En. f_equal. f_equal; [f_equal |].
  - destruct (k + 1 =? sz) eqn:E.
    + replace (ptr sz (R + k + 1)) with (ptr sz R); [done |].
      replace (R + k + 1) with (R + 1 * sz) by lia. unfold ptr. by rewrite Z.mod_add by lia.
    + rewrite <- Z.add_assoc. apply window_valid. lia.
  - rewrite <- S2. replace (sz <=? ptr sz (R + k) + 1) with (sz - 1 <=? ptr sz (R + k)) by lia.
    by destruct (sz - 1 <=? _), (stg sz (R + k)).
Qed.

Lemma window_front : l <> [] ->
  fifo.producer_get_front_id_stage f = Some (ptr sz R, stg sz R).
Proof using H.
  intros Hl. unfold fifo.producer_get_front_id_stage. rewrite window_empty.
  destruct l; [done |]. destruct (w_rptr _ _ _ H) as [-> ->].
  by replace (zlen (t :: l0) =? 0) with false by (unfold zlen; cbn [length]; lia).
Qed.

(** What the loop computes: the body on each position, oldest first. *)
Section visit_new.
Context {S A : Type} (body : Z -> bool -> S -> outcome (S + A)).
Fixpoint visit_new (n : nat) (k : Z) (st : S) : outcome (S + A) :=
  match n with
  | O => Ok (inl st)
  | Datatypes.S n =>
      r ← body (ptr sz (R + k)) (stg sz (R + k)) st;
      match r with inr r => Ok (inr r) | inl st => visit_new n (k + 1) st end
  end.

Lemma walk_spec n fuel k st : 0 <= k -> k + Z.of_nat n = zlen l -> (0 < n <= fuel)%nat ->
  walk body f (ptr sz R) fuel (ptr sz (R + k)) (stg sz (R + k)) st = visit_new n k st.
Proof using H.
  destruct window_bounds as [Hs Hl].
  revert fuel k st. induction n as [|n IH]; intros fuel k st Hk Hn Hf; [lia |].
  destruct fuel as [|fuel]; [lia |]. cbn [walk visit_new].
  destruct (body _ _ st) as [[st' | r]| | |]; cbn [mbind outcome_bind]; try done.
  destruct (window_next k ltac:(lia)) as (s & -> & E). rewrite E. cbn [mbind outcome_bind fst snd].
  destruct n as [|n].
  - cbn [visit_new]. replace (k + 1) with (zlen l) by lia.
    destruct (zlen l =? sz) eqn:Ez.
    + replace (zlen l) with (1 * sz) by lia. unfold ptr at 2. rewrite Z.mod_add by lia.
      fold (ptr sz R). by rewrite Z.eqb_refl, andb_false_r.
    + by rewrite Z.ltb_irrefl.
  - replace (k + 1 =? sz) with false by lia. replace (k + 1 <? zlen l) with true by lia.
    replace (ptr sz (R + (k + 1)) =? ptr sz R) with false; [cbn [negb andb] |].
    + apply IH; lia.
    + symmetry. apply Z.eqb_neq. intros Ep. rewrite <- (Z.add_0_r R) in Ep at 2.
      apply ptr_inj in Ep; lia.
Qed.

Lemma producer_walk_spec st : producer_walk body f st = visit_new (length l) 0 st.
Proof using H.
  destruct window_bounds as [Hs Hl]. unfold producer_walk.
  destruct (decide (l = [])) as [Hnil | Hne].
  { unfold fifo.producer_get_front_id_stage. by rewrite window_empty, Hnil. }
  rewrite window_front by done.
  rewrite <- (Z.add_0_r R) at 2 3. apply walk_spec; [lia | done |].
  unfold zlen in *. destruct l; [done |]. cbn [length] in *. lia.
Qed.
End visit_new.

Lemma visit_new_scan {S A X} (body : Z -> bool -> S -> outcome (S + A)) (g : Z -> X -> S -> S + A)
    (es : list X) k0 st :
  (forall k e st, es !! k = Some e ->
     body (ptr sz (R + (k0 + Z.of_nat k))) (stg sz (R + (k0 + Z.of_nat k))) st =
     Ok (g (k0 + Z.of_nat k) e st)) ->
  visit_new body (length es) k0 st = Ok (scan_list g k0 es st).
Proof using Type.
  revert k0 st. induction es as [|e es IH]; intros k0 st Hb; [done |]. cbn [visit_new scan_list length].
  pose proof (Hb O e st eq_refl) as E. rewrite !Z.add_0_r in E. rewrite E. cbn [mbind outcome_bind].
  destruct (g k0 e st) as [st' | r]; [| done]. apply IH. intros k x st'' Hk.
  replace (k0 + 1 + Z.of_nat k) with (k0 + Z.of_nat (Datatypes.S k)) by lia. by apply Hb.
Qed.

(** *** What the operations do to the window *)
Lemma window_push x :
  if zlen l =? sz then fifo.push x f = Ok (false, f)
  else exists f', fifo.push x f = Ok (true, f') /\ window f' R (l ++ [x]) /\ fifo.size f' = sz.
Proof using H.
  destruct window_bounds as [Hs Hl]. pose proof (w_size _ _ _ H) as Hsz.
  unfold fifo.push. rewrite window_full. destruct (zlen l =? sz) eqn:E; [done |].
  destruct (w_wptr _ _ _ H) as [W1 W2]. pose proof (w_len _ _ _ H) as Hlen.
  pose proof (ptr_range sz Hs (R + zlen l)) as Hr.
  destruct (buffer_set_ok f (ptr sz (R + zlen l)) x) as (d & Hd & Es); [lia |].
  rewrite W1, Es. cbn [mbind outcome_bind].
  rewrite (advance_wptr_eq _ (R + zlen l)) by done.
  eexists. split; [reflexivity |]. split; [| done].
  assert (Hz : zlen (l ++ [x]) = zlen l + 1) by (rewrite zlen_app; done).
  split; cbn [fifo.size fifo.buffer fifo.wptr fifo.wstage fifo.rptr fifo.rstage fifo.set_wptr
    with_buffer dff.set dff.get_new dff.new_value]; rewrite ?Hz; try apply H; try lia.
  - by rewrite zlen_insert.
  - by rewrite Z.add_assoc.
  - intros k y Hk. apply lookup_app_Some in Hk as [Hk | [Hk1 Hk2]].
    + pose proof (lookup_lt_Some _ _ _ Hk). destruct (w_items _ _ _ H k y Hk) as (d' & Hd' & Hy).
      exists d'. split; [| done]. cbn [fifo.buffer with_buffer fifo.set_wptr].
      pose proof (ptr_range sz Hs (R + Z.of_nat k)).
      rewrite list_lookup_insert_ne; [done |]. intros Eq.
      assert (Z.of_nat k = zlen l); [| unfold zlen in *; lia].
      apply (ptr_inj sz Hs R); unfold zlen in *; lia.
    + apply list_lookup_singleton_Some in Hk2 as [Hk2 <-]. exists (dff.set x d). split; [| done].
      replace (R + Z.of_nat k) with (R + zlen l) by (unfold zlen in *; lia).
      cbn [fifo.buffer with_buffer fifo.set_wptr].
      rewrite list_lookup_insert_eq; [done | unfold zlen in *; lia].
Qed.

Lemma window_set k x : (k < length l)%nat ->
  exists f', fifo.set_item (ptr sz (R + Z.of_nat k)) x f = Ok f' /\ window f' R (<[k := x]> l) /\
    fifo.size f' = sz.
Proof using H.
  intros Hk. destruct window_bounds as [Hs Hl]. pose proof (w_len _ _ _ H) as Hlen.
  pose proof (ptr_range sz Hs (R + Z.of_nat k)) as Hr.
  destruct (buffer_set_ok f (ptr sz (R + Z.of_nat k)) x) as (d & Hd & Es); [lia |].
  eexists. split; [exact Es |]. split; [| done].
  assert (Hz : zlen (<[k := x]> l) = zlen l) by (unfold zlen; by rewrite length_insert).
  split; cbn [fifo.size fifo.buffer fifo.wptr fifo.wstage fifo.rptr fifo.rstage with_buffer];
    rewrite ?Hz; try apply H.
  - by rewrite zlen_insert.
  - intros j y Hj. destruct (decide (j = k)) as [-> |].
    + rewrite list_lookup_insert_eq in Hj by lia. injection Hj as <-.
      exists (dff.set x d). split; [| done]. cbn [fifo.buffer with_buffer].
      rewrite list_lookup_insert_eq; [done | unfold zlen in *; lia].
    + rewrite list_lookup_insert_ne in Hj by lia.
      pose proof (lookup_lt_Some _ _ _ Hj). destruct (w_items _ _ _ H j y Hj) as (d' & Hd' & Hy).
      exists d'. split; [| done]. cbn [fifo.buffer with_buffer].
      pose proof (ptr_range sz Hs (R + Z.of_nat j)).
      rewrite list_lookup_insert_ne; [done |]. intros Eq.
      assert (Z.of_nat k = Z.of_nat j); [| lia].
      apply (ptr_inj sz Hs R); unfold zlen in *; lia.
Qed.

(** A rollback sets the write pointer back to an earlier element. *)
Lemma window_truncate n : (n <= length l)%nat ->
  window (fifo.update_wptr (ptr sz (R + Z.of_nat n)) (stg sz (R + Z.of_nat n)) f) R (take n l).
Proof using H.
  intros Hn. assert (Hz : zlen (take n l) = Z.of_nat n) by (unfold zlen; rewrite length_take; lia).
  destruct window_bounds as [Hs Hl]. unfold fifo.update_wptr.
  split; cbn [fifo.size fifo.buffer fifo.wptr fifo.wstage fifo.rptr fifo.rstage fifo.set_wptr
    dff.set dff.get_new dff.new_value]; rewrite ?Hz; try apply H; try done.
  - unfold zlen in Hl. lia.
  - intros k x Hk. apply (w_items _ _ _ H). apply lookup_take_Some in Hk. tauto.
Qed.

(** The clock: the customer has taken [p] elements. *)
Lemma window_sync p : 0 <= p <= zlen l ->
  dff.get_new (fifo.rptr f) = ptr sz (R + p) -> dff.get_new (fifo.rstage f) = stg sz (R + p) ->
  window (fifo.sync f) (R + p) (drop (Z.to_nat p) l).
Proof using H.
  intros Hp H1 H2. destruct window_bounds as [Hs Hl]. pose proof (w_start _ _ _ H).
  assert (Hz : zlen (drop (Z.to_nat p) l) = zlen l - p) by (unfold zlen in *; rewrite length_drop; lia).
  split; cbn [fifo.sync fifo.size fifo.wptr fifo.wstage fifo.rptr fifo.rstage
    dff.sync dff.get dff.get_new dff.cur_value dff.new_value]; rewrite ?Hz; try apply H; try lia.
  - cbn. unfold zlen. rewrite length_fmap. apply H.
  - done.
  - replace (R + p + (zlen l - p)) with (R + zlen l) by lia. apply H.
  - intros k x Hk. rewrite lookup_drop in Hk.
    destruct (w_items _ _ _ H _ x Hk) as (d & Hd & Hx). exists (dff.sync d). split; [| done].
    replace (R + p + Z.of_nat k) with (R + Z.of_nat (Z.to_nat p + k)) by lia.
    by apply sync_lookup.
Qed.
End seen.
End window.
