(* ===== verification/CyclePack.v ===== *)
(** * Packs and feedback of the cycle model's pipeline

    The structures the stages exchange: [inst_common_info_t] of
    pipeline_common.h, [branch_predictor_info_pack_t] of
    branch_predictor_base.h, the feedback packs of execute.h, bru_define.h,
    sau_define.h and commit.h, and the packs between register read, execute and
    write back.

    The packs after rename repeat every field of the pack before them; here
    each holds that pack in a field ([uop] is [decode_rename_pack_t]) next to
    the fields it adds, so a copy "field by field" is one field. *)

From S2P Require Import Prelude Word Ops IsaDecode Dff Fifo Rat CycleDecode.

Record inst_common_info_t := mk_info { info_id : Z }.

Module bp_info.
Record pack_t := mk {
  bi_mode_global_history : Z;
  bi_mode_pht_value : Z;
  predicted : bool;
  jump : bool;
  next_pc : Z;
  uncondition_indirect_jump : bool;
  condition_jump : bool;
  checkpoint_id_valid : bool;
  checkpoint_id : Z
}.
Definition init : pack_t := mk 0 0 false false 0 false false false 0.
End bp_info.

(** ** Feedback *)

(** [bru_feedback_pack_t] and [sau_feedback_pack_t]: a flush and the
    instruction it is for. *)
Module flush_feedback.
Record pack_t := mk { flush : bool; next_pc : Z; rob_id_stage : bool; rob_id : Z }.
Definition init : pack_t := mk false 0 false 0.
Definition age (p : pack_t) : age_t := age_compare.mk (rob_id p) (rob_id_stage p).
End flush_feedback.
Abbreviation bru_feedback_t := flush_feedback.pack_t.
Abbreviation sau_feedback_t := flush_feedback.pack_t.

Module execute_feedback.
Record channel_t := mk {
  enable : bool; phy_id : Z; value : Z; rob_id : Z; rob_id_stage : bool
}.
Definition init : channel_t := mk false 0 0 0 false.
End execute_feedback.

(** ** Packs *)

(** [integer_readreg_execute_pack_t] and [lsu_readreg_execute_pack_t]; the
    integer pack has no [store_buffer_id] and [load_queue_id], no code reads
    them there. *)
Module readreg_execute.
Record pack_t := mk {
  uop : decode_rename.pack_t;
  inst_common_info : inst_common_info_t;
  branch_predictor_info_pack : bp_info.pack_t;
  rob_id : Z;
  rob_id_stage : bool;
  rs1_phy : Z;
  src1_value : Z;
  rs2_phy : Z;
  src2_value : Z;
  rd_phy : Z;
  store_buffer_id : Z;
  load_queue_id : Z
}.
Definition init : pack_t :=
  mk decode_rename.init (mk_info 0) bp_info.init 0 false 0 0 0 0 0 0 0.
Definition age (p : pack_t) : age_t := age_compare.mk (rob_id p) (rob_id_stage p).
Definition enable (p : pack_t) : bool := decode_rename.enable (uop p).
Definition valid (p : pack_t) : bool := decode_rename.valid (uop p).
Definition has_exception (p : pack_t) : bool := decode_rename.has_exception (uop p).
Definition set_exception (id : riscv_exception_t) (v : Z) (p : pack_t) : pack_t :=
  { p with uop ::= λ u, { u with decode_rename.has_exception := true;
                                 decode_rename.exception_id := id;
                                 decode_rename.exception_value := v } }.
End readreg_execute.

(** [execute_wb_pack_t]; [execute_commit_pack_t] has the same members. *)
Module execute_wb.
Record pack_t := mk {
  base : readreg_execute.pack_t;
  bru_jump : bool;
  bru_next_pc : Z;
  rd_value : Z;
  csr_newvalue : Z;
  csr_newvalue_valid : bool
}.
Definition init : pack_t := mk readreg_execute.init false 0 0 0 false.
(** The assignments [send_pack.x = rev_pack.x] on a fresh [send_pack]. *)
Definition of_rev (r : readreg_execute.pack_t) : pack_t := { init with base := r }.
Definition age (p : pack_t) : age_t := readreg_execute.age (base p).
Definition enable (p : pack_t) : bool := readreg_execute.enable (base p).
Definition valid (p : pack_t) : bool := readreg_execute.valid (base p).
Definition has_exception (p : pack_t) : bool := readreg_execute.has_exception (base p).
Definition need_rename (p : pack_t) : bool := decode_rename.need_rename (readreg_execute.uop (base p)).
Definition set_exception (id : riscv_exception_t) (v : Z) (p : pack_t) : pack_t :=
  { p with base ::= readreg_execute.set_exception id v }.

(** [enable && valid && need_rename && !has_exception], which write back and
    the feedback of every unit compute. *)
Definition writes (p : pack_t) : bool :=
  enable p && valid p && need_rename p && negb (has_exception p).
Definition feedback (p : pack_t) : execute_feedback.channel_t :=
  execute_feedback.mk (writes p) (readreg_execute.rd_phy (base p)) (rd_value p)
    (readreg_execute.rob_id (base p)) (readreg_execute.rob_id_stage (base p)).
End execute_wb.

(** The two tests every stage makes on a flush: younger than the branch, or
    not older than the load that has to be repeated. *)
Definition squashed (bru : bru_feedback_t) (sau : sau_feedback_t) (a : age_t) : bool :=
  (flush_feedback.flush bru && age_compare.lt a (flush_feedback.age bru)) ||
  (flush_feedback.flush sau && age_compare.le a (flush_feedback.age sau)).
