(* ===== verification/LoadStore.v ===== *)
(** * Store buffers and load queue

    include/cycle_model/component/store_buffer.h, retired_store_buffer.h and
    load_queue.h: queues with tables beside them, and the searches a load and a
    store make in them.

    [retired_store_buffer::run] talks to the data bus; the calls it makes are
    the class [data_bus], which CycleBus.v implements. *)

From S2P Require Import Prelude Word Dff Fifo FifoSpec FifoWindow Rat CyclePack.

(** ** What the queues and the load unit use of the bus *)
Module bus_errno.
Inductive bus_errno_t := none | error.
End bus_errno.

Class data_bus (B : Type) := {
  bus_write8 : Z -> Z -> B -> outcome B;
  bus_write16 : Z -> Z -> B -> outcome B;
  bus_write32 : Z -> Z -> B -> outcome B;
  bus_read8 : Z -> B -> outcome B;
  bus_read16 : Z -> B -> outcome B;
  bus_read32 : Z -> B -> outcome B;
  bus_data_value : B -> option Z;
  bus_revoke : B -> B;
  bus_write_ack : B -> option bus_errno.bus_errno_t
}.

(** ** Overlaying store data on a load

    Value and mask of the bytes found so far. [bit_mask] is
    [(bit_length == 32) ? 0xffffffff : ((1 << bit_length) - 1)]. *)
Module feedback.
Definition bit_mask (bit_length : Z) : Z :=
  if bit_length =? 32 then 0xffffffff else sub32 (shl32 1 bit_length) 1.

(** The store starts inside of the load. *)
Definition overlay_up (bit_offset bit_length data : Z) (acc : Z * Z) : Z * Z :=
  let m := bit_mask bit_length in
  (Z.lor (Z.land acc.1 (not32 (shl32 m bit_offset))) (shl32 (Z.land data m) bit_offset),
   Z.lor acc.2 (shl32 m bit_offset)).
(** The store starts before the load. *)
Definition overlay_down (bit_offset bit_length data : Z) (acc : Z * Z) : Z * Z :=
  let m := bit_mask bit_length in
  (Z.lor (Z.land acc.1 (not32 m)) (Z.land (Z.shiftr data bit_offset) m), Z.lor acc.2 m).
End feedback.

(** ** Store buffer *)
Module store_buffer.
Record item_t := mk_item {
  inst_common_info : inst_common_info_t;
  data_valid : bool;
  committed : bool;
  rob_id : Z;
  rob_id_stage : bool;
  pc : Z;
  data : Z
}.
Definition item_init : item_t := mk_item (mk_info 0) false false 0 false 0 0.
Definition item_age (i : item_t) : age_t := age_compare.mk (rob_id i) (rob_id_stage i).

Record store_buffer_t := mk {
  base : fifo_t item_t;
  item_addr_valid : list (dff_t bool);
  item_addr : list (dff_t Z);
  item_size : list (dff_t Z)
}.

Definition reset (s : store_buffer_t) : store_buffer_t := { s with base ::= fifo.reset }.
Definition new (sz : Z) : store_buffer_t :=
  let n := Z.to_nat sz in
  reset (mk (fifo.new sz item_init) (replicate n (dff.new false)) (replicate n (dff.new 0))
           (replicate n (dff.new 0))).
Definition sync (s : store_buffer_t) : store_buffer_t :=
  mk (fifo.sync (base s)) (dff.sync <$> item_addr_valid s) (dff.sync <$> item_addr s)
    (dff.sync <$> item_size s).

Definition check_id_valid (id : Z) (s : store_buffer_t) : bool :=
  let f := base s in
  if fifo.customer_is_empty f then false
  else if eqb (dff.get (fifo.wstage f)) (dff.get_new (fifo.rstage f)) then
    (dff.get_new (fifo.rptr f) <=? id) && (id <? dff.get (fifo.wptr f))
  else ((dff.get_new (fifo.rptr f) <=? id) && (id <? fifo.size f)) ||
       (id <? dff.get (fifo.wptr f)).

Definition set_item (id : Z) (x : item_t) (s : store_buffer_t) : outcome store_buffer_t :=
  verify (check_id_valid id s) ;;
  f ← fifo.buffer_set id x (base s); Ok { s with base := f }.
Definition get_item (id : Z) (s : store_buffer_t) : outcome item_t :=
  verify (check_id_valid id s) ;; fifo.buffer_get id (base s).
Definition write_addr (id addr size : Z) (addr_valid : bool) (s : store_buffer_t) :
  outcome store_buffer_t :=
  a ← tset id addr (item_addr s);
  z ← tset id size (item_size s);
  v ← tset id addr_valid (item_addr_valid s);
  Ok (mk (base s) v a z).
Definition get_addr (id : Z) (s : store_buffer_t) : outcome Z :=
  verify (check_id_valid id s) ;; tget id (item_addr s).
Definition get_size (id : Z) (s : store_buffer_t) : outcome Z :=
  verify (check_id_valid id s) ;; tget id (item_size s).

(** An element with its entries in the tables. *)
Record entry_t := mk_entry { item : item_t; e_addr_valid : bool; e_addr : Z; e_size : Z }.
Definition entry (id : Z) (s : store_buffer_t) : outcome entry_t :=
  i ← fifo.producer_get_item id (base s);
  a ← tget_new id (item_addr s);
  z ← tget_new id (item_size s);
  v ← tget_new id (item_addr_valid s);
  Ok (mk_entry i v a z).

(** The body of the loop of [get_feedback_value] for a load at [addr] of
    [size] bytes and age [a]; [inr tt] is [return std::nullopt]. *)
Section feedback.
Context (addr size : Z) (a : age_t).

Definition unknown_data (e : entry_t) : bool :=
  negb (data_valid (item e)) && e_addr_valid e && age_compare.gt (item_age (item e)) a &&
  (Z.max (e_addr e) addr <? Z.min (add32 (e_addr e) (e_size e)) (add32 addr size)).
Definition skipped (e : entry_t) : bool :=
  e_addr_valid e && age_compare.lt (item_age (item e)) a.
Definition forward (e : entry_t) (acc : Z * Z) : Z * Z :=
  if data_valid (item e) && e_addr_valid e then
    if (addr <=? e_addr e) && (e_addr e <=? sub32 (add32 addr size) 1) then
      feedback.overlay_up (shl32 (sub32 (e_addr e) addr) 3)
        (shl32 (Z.min (e_size e) (sub32 (add32 addr size) (e_addr e))) 3) (data (item e)) acc
    else if (e_addr e <? addr) && (addr <=? sub32 (add32 (e_addr e) (e_size e)) 1) then
      feedback.overlay_down (shl32 (sub32 addr (e_addr e)) 3)
        (shl32 (Z.min size (sub32 (add32 (e_addr e) (e_size e)) addr)) 3) (data (item e)) acc
    else acc
  else acc.
Definition feedback_step (e : entry_t) (acc : Z * Z) : (Z * Z) + unit :=
  if unknown_data e then inr tt
  else if skipped e then inl acc
  else inl (forward e acc).
End feedback.

Definition get_feedback_value (addr size rob_id : Z) (rob_id_stage : bool) (s : store_buffer_t) :
  outcome (option (Z * Z)) :=
  r ← producer_walk (λ id _ acc, e ← entry id s;
                       Ok (feedback_step addr size (age_compare.mk rob_id rob_id_stage) e acc))
        (base s) (0, 0);
  match r with inl acc => Ok (Some acc) | inr _ => Ok None end.
End store_buffer.
Abbreviation store_buffer_t := store_buffer.store_buffer_t.

(** ** Retired store buffer *)
Module retired_store_buffer.
Record item_t := mk_item {
  inst_common_info : inst_common_info_t; addr : Z; size : Z; data : Z
}.
Definition item_init : item_t := mk_item (mk_info 0) 0 0 0.
Record retired_store_buffer_t := mk { base : fifo_t item_t; is_waiting_ack : bool }.

Definition reset (s : retired_store_buffer_t) : retired_store_buffer_t :=
  mk (fifo.reset (base s)) false.
Definition new (sz : Z) : retired_store_buffer_t := reset (mk (fifo.new sz item_init) false).
Definition sync (s : retired_store_buffer_t) : retired_store_buffer_t :=
  { s with base ::= fifo.sync }.

(** The body of the loop of [get_feedback_value]. *)
Definition forward (laddr lsize : Z) (i : item_t) (acc : Z * Z) : Z * Z :=
  if (laddr <=? addr i) && (addr i <? add32 laddr lsize) then
    feedback.overlay_up (shl32 (sub32 (addr i) laddr) 3)
      (shl32 (Z.min (size i) (sub32 (add32 laddr lsize) (addr i))) 3) (data i) acc
  else if (addr i <? laddr) && (laddr <? add32 (addr i) (size i)) then
    feedback.overlay_down (shl32 (sub32 laddr (addr i)) 3)
      (shl32 (Z.min lsize (sub32 (add32 (addr i) (size i)) laddr)) 3) (data i) acc
  else acc.
Definition get_feedback_value (laddr lsize : Z) (s : retired_store_buffer_t) : outcome (Z * Z) :=
  r ← producer_walk (R := Empty_set)
        (λ id _ acc, i ← fifo.producer_get_item id (base s); Ok (inl (forward laddr lsize i acc)))
        (base s) (0, 0);
  match r with inl acc => Ok acc | inr e => Empty_set_rect _ e end.

Section run.
Context {B : Type} {data_bus0 : data_bus B}.

(** The acknowledgement of the write in flight, then the next write. *)
Definition take_ack (s : retired_store_buffer_t) (b : B) : outcome retired_store_buffer_t :=
  if is_waiting_ack s then
    match bus_write_ack b with
    | Some _ =>
        xf ← fifo.pop (base s);
        verify (bool_decide (is_Some xf.1)) ;;
        Ok (mk xf.2 false)
    | None => Ok s
    end
  else Ok s.
Definition send_write (s : retired_store_buffer_t) (b : B) : outcome (retired_store_buffer_t * B) :=
  if negb (is_waiting_ack s) then
    front ← fifo.customer_get_front (base s);
    match front with
    | Some i =>
        verify ((size i =? 1) || (size i =? 2) || (size i =? 4)) ;;
        b ← (if size i =? 1 then bus_write8 (addr i) (u8 (data i)) b
             else if size i =? 2 then bus_write16 (addr i) (u16 (data i)) b
             else bus_write32 (addr i) (data i) b);
        Ok ({ s with is_waiting_ack := true }, b)
    | None => Ok (s, b)
    end
  else Ok (s, b).
Definition run (s : retired_store_buffer_t) (b : B) : outcome (retired_store_buffer_t * B) :=
  s ← take_ack s b; send_write s b.
End run.
End retired_store_buffer.
Abbreviation retired_store_buffer_t := retired_store_buffer.retired_store_buffer_t.

(** ** Load queue *)
Module load_queue.
Record item_t := mk_item {
  addr_valid : bool;
  pc : Z;
  rob_id : Z;
  rob_id_stage : bool;
  addr : Z;
  size : Z;
  checkpoint_id_valid : bool;
  checkpoint_id : Z
}.
Definition item_init : item_t := mk_item false 0 0 false 0 0 false 0.
Definition item_age (i : item_t) : age_t := age_compare.mk (rob_id i) (rob_id_stage i).

Record load_queue_t := mk {
  base : fifo_t item_t;
  item_conflict : list (dff_t bool);
  replay_num : list (dff_t Z)
}.

Definition clear (s : load_queue_t) : load_queue_t :=
  mk (base s) (dff.set false <$> item_conflict s) (dff.set 0 <$> replay_num s).
Definition reset (s : load_queue_t) : load_queue_t := clear { s with base ::= fifo.reset }.
Definition flush (s : load_queue_t) : load_queue_t := clear { s with base ::= fifo.flush }.
Definition new (sz : Z) : load_queue_t :=
  reset (mk (fifo.new sz item_init) (replicate (Z.to_nat sz) (dff.new false))
           (replicate (Z.to_nat sz) (dff.new 0))).
Definition sync (s : load_queue_t) : load_queue_t :=
  mk (fifo.sync (base s)) (dff.sync <$> item_conflict s) (dff.sync <$> replay_num s).

Definition write_conflict (id : Z) (conflict : bool) (s : load_queue_t) : outcome load_queue_t :=
  t ← tset id conflict (item_conflict s); Ok { s with item_conflict := t }.
Definition get_conflict (id : Z) (s : load_queue_t) : outcome bool := tget id (item_conflict s).
Definition add_replay_num (id : Z) (s : load_queue_t) : outcome load_queue_t :=
  n ← tget id (replay_num s);
  t ← tset id (add32 n 1) (replay_num s); Ok { s with replay_num := t }.
Definition clear_replay_num (id : Z) (s : load_queue_t) : outcome load_queue_t :=
  t ← tset id 0 (replay_num s); Ok { s with replay_num := t }.
Definition get_replay_num (id : Z) (s : load_queue_t) : outcome Z := tget id (replay_num s).

(** The test of the loop of [get_conflict_item] for a store at [saddr] of
    [ssize] bytes and age [a]. *)
Definition conflicts (saddr ssize : Z) (a : age_t) (i : item_t) : bool :=
  addr_valid i && age_compare.lt (item_age i) a &&
  (Z.max (addr i) saddr <? Z.min (add32 (addr i) (size i)) (add32 saddr ssize)).
Definition get_conflict_item (saddr ssize rob_id : Z) (rob_id_stage : bool) (s : load_queue_t) :
  outcome (option (Z * bool * item_t)) :=
  r ← producer_walk (λ id stage _, i ← fifo.producer_get_item id (base s);
                       Ok (if conflicts saddr ssize (age_compare.mk rob_id rob_id_stage) i
                           then inr (id, stage, i) else inl tt))
        (base s) tt;
  match r with inl _ => Ok None | inr x => Ok (Some x) end.
End load_queue.
Abbreviation load_queue_t := load_queue.load_queue_t.
