(* ===== verification/LoadStoreSpec.v ===== *)
(** * What a load gets from the store buffers

    The bytes of a load: each comes from the youngest older store that covers
    it, if there is one.  [overlaid] is the invariant of the loops of
    LoadStore.v, bit by bit; [overlay_byte] turns it into a statement on the
    bytes of the merged word. *)

From S2P Require Import Prelude Word Dff Fifo FifoSpec FifoWindow Rat AgeSpec.
From S2P Require Import CyclePack LoadStore.

Definition byte_of (v k : Z) : Z := Z.land (Z.shiftr v (8 * k)) 255.

(** ** Bits of 32-bit words *)
Lemma u32_bits x i : 0 <= i -> Z.testbit (u32 x) i = (i <? 32) && Z.testbit x i.
Proof.
  intros Hi. unfold u32. change two32 with (2 ^ 32). destruct (i <? 32) eqn:E.
  - by rewrite Z.mod_pow2_bits_low by lia.
  - by rewrite Z.mod_pow2_bits_high by lia.
Qed.
Lemma shl32_bits x n i : 0 <= n -> 0 <= i ->
  Z.testbit (shl32 x n) i = (i <? 32) && (n <=? i) && Z.testbit x (i - n).
Proof.
  intros Hn Hi. unfold shl32. rewrite u32_bits, Z.shiftl_spec by done.
  destruct (n <=? i) eqn:E; [by rewrite andb_true_r |].
  rewrite Z.testbit_neg_r by lia. by rewrite !andb_false_r.
Qed.
Lemma not32_bits x i : 0 <= i -> Z.testbit (not32 x) i = (i <? 32) && negb (Z.testbit x i).
Proof. intros Hi. unfold not32. by rewrite u32_bits, Z.lnot_spec. Qed.
Lemma shiftr_bits x n i : 0 <= i -> Z.testbit (Z.shiftr x n) i = Z.testbit x (i + n).
Proof. apply Z.shiftr_spec. Qed.
Lemma high_bits x i : is_u32 x -> 32 <= i -> Z.testbit x i = false.
Proof. intros Hx Hi. apply (testbit_high 32); [lia | exact Hx | done]. Qed.

Lemma bit_mask_ones n : 1 <= n <= 32 -> feedback.bit_mask n = Z.ones n.
Proof.
  intros Hn. unfold feedback.bit_mask. destruct (n =? 32) eqn:E.
  - by replace n with 32 by lia.
  - rewrite Z.ones_equiv. unfold shl32, sub32. rewrite Z.shiftl_1_l.
    assert (0 < 2 ^ n <= 2 ^ 31) by (split; [lia | apply Z.pow_le_mono_r; lia]).
    rewrite (u32_small (2 ^ n)) by word_lia. rewrite u32_small by word_lia. lia.
Qed.
Lemma bit_mask_bits n i : 1 <= n <= 32 -> 0 <= i -> Z.testbit (feedback.bit_mask n) i = (i <? n).
Proof. intros Hn Hi. rewrite bit_mask_ones by done. rewrite Z.testbit_ones by lia. lia. Qed.

Lemma byte_bits v k j : 0 <= k -> 0 <= j ->
  Z.testbit (byte_of v k) j = (j <? 8) && Z.testbit v (j + 8 * k).
Proof.
  intros Hk Hj. unfold byte_of. rewrite Z.land_spec, shiftr_bits by lia.
  change 255 with (Z.ones 8). rewrite Z.testbit_ones by lia.
  replace (0 <=? j) with true by lia. by rewrite andb_comm.
Qed.
Lemma byte_eq v w k : 0 <= k -> (forall j, 0 <= j < 8 -> Z.testbit v (j + 8 * k) = Z.testbit w j) ->
  0 <= w < 256 -> byte_of v k = w.
Proof.
  intros Hk Hb Hw. apply Z.bits_inj'. intros j Hj. rewrite byte_bits by lia.
  destruct (j <? 8) eqn:E; cbn [andb]; [by apply Hb; lia |].
  symmetry. apply (testbit_high 8); [lia | exact Hw | lia].
Qed.
Lemma byte_range v k : 0 <= byte_of v k < 256.
Proof. apply (mask_range 8); lia. Qed.

(** ** The merged word *)
Section overlaid.
Context (addr size : Z) (Hsize : 1 <= size <= 4).

(** [fw a] is the byte found so far for address [a]. *)
Definition overlaid (fw : Z -> option Z) (acc : Z * Z) : Prop :=
  is_u32 acc.1 /\ is_u32 acc.2 /\
  forall i, 0 <= i < 32 ->
    Z.testbit acc.2 i = (i <? 8 * size) && bool_decide (is_Some (fw (addr + i / 8))) /\
    Z.testbit acc.1 i = (i <? 8 * size) && 
      match fw (addr + i / 8) with Some b => Z.testbit b (i mod 8) | None => false end.

Lemma overlaid_empty : overlaid (λ _, None) (0, 0).
Proof using Type.
  split_and!; [done | done |]. intros i Hi. cbn [fst snd]. rewrite !Z.testbit_0_l.
  by rewrite bool_decide_eq_false_2, andb_false_r by (by intros [? ?]).
Qed.

(** What the load unit makes of it with the word [v] of the memory. *)
Lemma overlay_byte fw acc v k : overlaid fw acc -> is_u32 v -> 0 <= k < size ->
  (forall b, fw (addr + k) = Some b -> 0 <= b < 256) ->
  byte_of (Z.lor (Z.land v (not32 acc.2)) acc.1) k = default (byte_of v k) (fw (addr + k)).
Proof using Hsize.
  intros (H1 & H2 & Hb) Hv Hk Hr. apply byte_eq; [lia | |].
  - intros j Hj. rewrite Z.lor_spec, Z.land_spec, not32_bits by lia.
    destruct (Hb (j + 8 * k)) as [-> ->]; [lia |].
    replace ((j + 8 * k) / 8) with k by div_lia. replace ((j + 8 * k) mod 8) with j by div_lia.
    replace (j + 8 * k <? 8 * size) with true by lia. replace (j + 8 * k <? 32) with true by lia.
    destruct (fw (addr + k)) as [b|]; cbn [default andb].
    + rewrite bool_decide_eq_true_2 by eauto. cbn. by rewrite andb_false_r.
    + rewrite bool_decide_eq_false_2 by (by intros [? ?]). cbn.
      rewrite byte_bits by lia. replace (j <? 8) with true by lia.
      by rewrite andb_true_r, orb_false_r.
  - destruct (fw (addr + k)) eqn:E; [by apply Hr | apply byte_range].
Qed.

(** A store at [a] of [n] bytes that overlaps the load. *)
Definition overlay (a n d : Z) (fw : Z -> option Z) : Z -> option Z :=
  λ x, if (a <=? x) && (x <? a + n) then Some (byte_of d (x - a)) else fw x.

Section step.
Context (fw : Z -> option Z) (acc : Z * Z) (Hacc : overlaid fw acc).
Context (a n d : Z) (Hn : 1 <= n <= 4) (Hd : is_u32 d).

Lemma overlay_bit k r : 0 <= k < 4 -> 0 <= r < 8 ->
  match overlay a n d fw (addr + k) with Some b => Z.testbit b r | None => false end =
  if (a <=? addr + k) && (addr + k <? a + n) then Z.testbit d (r + 8 * (addr + k - a))
  else match fw (addr + k) with Some b => Z.testbit b r | None => false end.
Proof using Type.
  intros Hk Hr. unfold overlay. destruct (_ && _) eqn:E; [| done].
  rewrite byte_bits by lia. by replace (r <? 8) with true by lia.
Qed.

Lemma overlay_some k : bool_decide (is_Some (overlay a n d fw (addr + k))) =
  ((a <=? addr + k) && (addr + k <? a + n)) || bool_decide (is_Some (fw (addr + k))).
Proof using Type.
  unfold overlay. destruct (_ && _) eqn:E; [| done].
  by rewrite bool_decide_eq_true_2 by eauto.
Qed.

(** Bits [lo <= i < lo + len] of the accumulator are replaced by those of [d]
    [shift] places up. *)
Lemma overlaid_update acc' lo len shift :
  is_u32 acc'.1 -> is_u32 acc'.2 ->
  (forall i, 0 <= i < 32 ->
     Z.testbit acc'.2 i = Z.testbit acc.2 i || ((lo <=? i) && (i <? lo + len)) /\
     Z.testbit acc'.1 i = if (lo <=? i) && (i <? lo + len) then Z.testbit d (i + shift)
                          else Z.testbit acc.1 i) ->
  shift = 8 * (addr - a) -> lo = 8 * Z.max 0 (a - addr) ->
  lo + len = 8 * Z.min size (a + n - addr) -> 0 < len ->
  overlaid (overlay a n d fw) acc'.
Proof using Hacc Hsize.
  intros H1 H2 Hb -> -> Hlen Hpos. split_and!; [done | done |]. intros i Hi.
  destruct (Hb i Hi) as [-> ->]. destruct Hacc as (_ & _ & Ha). destruct (Ha i Hi) as [-> ->].
  pose proof (Z.div_mod i 8 ltac:(lia)) as Hdm. pose proof (Z.mod_pos_bound i 8 ltac:(lia)).
  rewrite overlay_bit, overlay_some by lia.
  replace ((8 * Z.max 0 (a - addr) <=? i) && (i <? 8 * Z.max 0 (a - addr) + len))
    with ((i <? 8 * size) && ((a <=? addr + i / 8) && (addr + i / 8 <? a + n))) by lia.
  destruct (i <? 8 * size) eqn:E1; cbn [andb orb]; [| done].
  destruct (_ && _) eqn:E2; cbn [andb orb].
  - rewrite orb_true_r. split; [done |]. f_equal. lia.
  - by rewrite orb_false_r.
Qed.

Lemma overlaid_up : is_u32 addr -> addr <= a < addr + size ->
  overlaid (overlay a n d fw)
    (feedback.overlay_up (8 * (a - addr)) (8 * Z.min n (addr + size - a)) d acc).
Proof using Hacc Hsize Hn Hd.
  intros Ha Hle. destruct (Hacc) as (H1 & H2 & _). unfold feedback.overlay_up.
  apply (overlaid_update _ (8 * (a - addr)) (8 * Z.min n (addr + size - a)) (8 * (addr - a)));
    cbn [fst snd]; try lia.
  - apply lor_u32; [| apply shl32_range]. apply land_u32; [done | apply not32_range].
  - apply lor_u32; [done | apply shl32_range].
  - intros i Hi. rewrite !Z.lor_spec, Z.land_spec, not32_bits, !shl32_bits, Z.land_spec by lia.
    replace (i <? 32) with true by lia. cbn [andb].
    destruct (8 * (a - addr) <=? i) eqn:E; cbn [andb].
    + rewrite !bit_mask_bits by lia.
      replace (i - 8 * (a - addr) <? 8 * Z.min n (addr + size - a))
        with (i <? 8 * (a - addr) + 8 * Z.min n (addr + size - a)) by lia.
      destruct (i <? _); cbn; [| by rewrite !andb_false_r, !orb_false_r, andb_true_r].
      rewrite andb_true_r, andb_false_r. cbn. split; [done |]. f_equal. lia.
    + by rewrite !orb_false_r, andb_true_r.
Qed.

Lemma overlaid_down : is_u32 addr -> 0 <= a < addr -> addr < a + n ->
  overlaid (overlay a n d fw)
    (feedback.overlay_down (8 * (addr - a)) (8 * Z.min size (a + n - addr)) d acc).
Proof using Hacc Hsize Hn Hd.
  intros Ha Hle Hlt. destruct (Hacc) as (H1 & H2 & _). unfold feedback.overlay_down.
  assert (Hm : is_u32 (feedback.bit_mask (8 * Z.min size (a + n - addr)))).
  { rewrite bit_mask_ones, Z.ones_equiv by lia.
    assert (2 ^ 0 <= 2 ^ (8 * Z.min size (a + n - addr)) <= 2 ^ 32)
      by (split; apply Z.pow_le_mono_r; lia). word_lia. }
  apply (overlaid_update _ 0 (8 * Z.min size (a + n - addr)) (8 * (addr - a)));
    cbn [fst snd]; try lia.
  - apply lor_u32; [apply land_u32; [done | apply not32_range] |].
    apply land_u32; [apply shiftr_u32; [done | lia] | done].
  - by apply lor_u32.
  - intros i Hi. rewrite !Z.lor_spec, !Z.land_spec, not32_bits, shiftr_bits, !bit_mask_bits by lia.
    replace (i <? 32) with true by lia. replace (0 <=? i) with true by lia. cbn [andb].
    rewrite Z.add_0_l. destruct (i <? _); cbn.
    + by rewrite andb_false_r, andb_true_r, orb_true_r.
    + by rewrite andb_false_r, andb_true_r, !orb_false_r.
Qed.
End step.
End overlaid.

Lemma overlaid_ext addr size fw fw' acc : 1 <= size <= 4 ->
  (forall k, 0 <= k < size -> fw (addr + k) = fw' (addr + k)) ->
  overlaid addr size fw acc -> overlaid addr size fw' acc.
Proof.
  intros Hs He (H1 & H2 & Hb). split_and!; [done | done |]. intros i Hi.
  destruct (Hb i Hi) as [-> ->]. destruct (i <? 8 * size) eqn:E; [| done].
  rewrite He by div_lia. done.
Qed.

Lemma shl32_3 x : 0 <= x < 2 ^ 29 -> shl32 x 3 = 8 * x.
Proof.
  intros Hx. unfold shl32. rewrite Z.shiftl_mul_pow2 by lia.
  change (2 ^ 3) with 8. rewrite u32_small; [lia | word_lia].
Qed.

(** ** Store buffer

    The stores carry their place in program order, [m]; the load's is [n]. *)
Section store_buffer.
Import store_buffer.

Definition covers (a n x : Z) : bool := (a <=? x) && (x <? a + n).
Definition overlap (a n b m : Z) : bool := (a <? b + m) && (b <? a + n).

(** The byte an older store has for address [x]. *)
Definition supplies (n x : Z) (me : Z * entry_t) : option Z :=
  let e := me.2 in
  if e_addr_valid e && data_valid (item e) && (me.1 <=? n) && covers (e_addr e) (e_size e) x
  then Some (byte_of (data (item e)) (x - e_addr e)) else None.
(** The youngest of them is the last in the queue. *)
Definition forwarded (n : Z) (l : list (Z * entry_t)) (x : Z) : option Z :=
  last (omap (supplies n x) l).
(** An older store to these addresses whose data is not there yet. *)
Definition unresolved (n addr size : Z) (me : Z * entry_t) : bool :=
  let e := me.2 in
  e_addr_valid e && negb (data_valid (item e)) && (me.1 <? n) &&
  overlap (e_addr e) (e_size e) addr size.

Definition entry_ok (e : entry_t) : Prop :=
  e_addr_valid e = true ->
  1 <= e_size e <= 4 /\ 0 <= e_addr e /\ e_addr e + e_size e < two32 /\ is_u32 (data (item e)).
Definition stored_ok (rsz n : Z) (me : Z * entry_t) : Prop :=
  entry_ok me.2 /\ item_age (item me.2) = age_at rsz me.1 /\ - rsz < me.1 - n < rsz.

Section load.
Context (rsz n addr size : Z) (Hrsz : 0 < rsz) (Hsize : 1 <= size <= 4) (Ha : 0 <= addr)
  (Hend : addr + size < two32).
#[local] Abbreviation age := (age_at rsz n).

Lemma ends a z : 0 <= a -> 1 <= z <= 4 -> a + z < two32 ->
  add32 a z = a + z /\ sub32 (add32 a z) 1 = a + z - 1.
Proof using Type.
  intros H1 H2 H3. assert (E : add32 a z = a + z) by (apply u32_small; word_lia).
  split; [done |]. rewrite E. apply u32_small. word_lia.
Qed.

Lemma unknown_unresolved me : stored_ok rsz n me ->
  unknown_data addr size age me.2 = unresolved n addr size me.
Proof using Hrsz Hsize Ha Hend.
  destruct me as [m e]. intros (Hok & Hage & Hd). cbn [fst snd] in *.
  unfold unknown_data, unresolved. cbn [fst snd]. rewrite Hage.
  destruct (age_order rsz Hrsz m n Hd) as (_ & -> & _).
  rewrite (andb_comm (negb _)). destruct (e_addr_valid e) eqn:Ev; [| done]. cbn [andb].
  destruct (Hok Ev) as (Hz & H0 & He & _).
  destruct (ends (e_addr e) (e_size e)) as [-> _]; [done.. |].
  destruct (ends addr size) as [-> _]; [done.. |]. unfold overlap.
  destruct (negb _), (m <? n); cbn [andb]; lia.
Qed.

Lemma forward_spec me fw acc : stored_ok rsz n me -> overlaid addr size fw acc ->
  overlaid addr size (λ x, match supplies n x me with Some b => Some b | None => fw x end)
    (if skipped age me.2 then acc else forward addr size me.2 acc).
Proof using Hrsz Hsize Ha Hend.
  destruct me as [m e]. intros (Hok & Hage & Hd) Hacc. cbn [fst snd] in *.
  unfold skipped, forward, supplies. cbn [fst snd]. rewrite Hage.
  destruct (age_order rsz Hrsz m n Hd) as (-> & _).
  replace (m <=? n) with (negb (n <? m)) by lia.
  destruct (e_addr_valid e) eqn:Ev; cbn [andb]; [| by rewrite andb_false_r].
  destruct (n <? m); cbn [negb andb]; [by rewrite andb_false_r |].
  destruct (data_valid (item e)); cbn [andb]; [| done].
  destruct (Hok Ev) as (Hz & H0 & He & Hdata).
  destruct (ends (e_addr e) (e_size e)) as [Ee Ee']; [done.. |].
  destruct (ends addr size) as [El El']; [done.. |]. rewrite El', Ee', El, Ee.
  assert (Hsub : forall x y, 0 <= y <= x -> x < two32 -> sub32 x y = x - y)
    by (intros; apply u32_small; word_lia).
  assert (Hov : forall x, match (if covers (e_addr e) (e_size e) x
      then Some (byte_of (data (item e)) (x - e_addr e)) else None)
      with Some b => Some b | None => fw x end =
    overlay (e_addr e) (e_size e) (data (item e)) fw x).
  { intros x. unfold overlay, covers. by destruct (_ && _). }
  apply (overlaid_ext _ _ (overlay (e_addr e) (e_size e) (data (item e)) fw));
    [done | intros k _; symmetry; apply Hov |].
  destruct ((addr <=? e_addr e) && (e_addr e <=? addr + size - 1)) eqn:E1;
    [| destruct ((e_addr e <? addr) && (addr <=? e_addr e + e_size e - 1)) eqn:E2].
  - rewrite !Hsub by lia. rewrite !shl32_3 by lia.
    apply overlaid_up; try done; [word_lia | lia].
  - rewrite !Hsub by lia. rewrite !shl32_3 by lia.
    apply overlaid_down; try done; [word_lia | lia | lia].
  - apply (overlaid_ext _ _ fw); [done | | done]. intros k Hk. unfold overlay.
    by replace ((e_addr e <=? addr + k) && (addr + k <? e_addr e + e_size e)) with false by lia.
Qed.

Lemma forwarded_snoc l me x : forwarded n (l ++ [me]) x =
  match supplies n x me with Some b => Some b | None => forwarded n l x end.
Proof using Type.
  unfold forwarded. rewrite omap_app, last_app. cbn. by destruct (supplies n x me).
Qed.

Lemma scan_feedback l : Forall (stored_ok rsz n) l ->
  match scan_list (λ _ e acc, feedback_step addr size age e acc) 0 l.*2 (0, 0) with
  | inl acc => Forall (λ me, unresolved n addr size me = false) l /\
               overlaid addr size (forwarded n l) acc
  | inr _ => Exists (λ me, unresolved n addr size me = true) l
  end.
Proof using Hrsz Hsize Ha Hend.
  induction l as [|me l IH] using rev_ind; intros Hl.
  { split; [constructor | apply overlaid_empty]. }
  apply Forall_app in Hl as [Hl Hme]. apply Forall_cons in Hme as [Hme _]. specialize (IH Hl).
  rewrite fmap_app. cbn [fmap list_fmap]. rewrite scan_list_snoc.
  destruct (scan_list _ 0 _ _) as [acc | u].
  2: { apply Exists_app. by left. }
  destruct IH as [Hno Hacc]. unfold feedback_step.
  rewrite (unknown_unresolved me Hme). destruct (unresolved n addr size me) eqn:Eu.
  { apply Exists_app. right. by constructor. }
  pose proof (forward_spec me _ _ Hme Hacc) as Hf.
  destruct (skipped age me.2); (split; [apply Forall_app; split; [done | by constructor] |]);
    (eapply overlaid_ext; [done | | exact Hf]); intros k Hk; by rewrite forwarded_snoc.
Qed.

Lemma supplies_range x me b : supplies n x me = Some b -> 0 <= b < 256.
Proof using Type. unfold supplies. destruct (_ && _); [| done]. intros [= <-]. apply byte_range. Qed.
Lemma forwarded_range l x b : forwarded n l x = Some b -> 0 <= b < 256.
Proof using Type.
  induction l as [|me l IH] using rev_ind; [done |]. rewrite forwarded_snoc.
  destruct (supplies n x me) eqn:E; [intros [= <-]; by eapply supplies_range | done].
Qed.
End load.

(** *** The queue and its tables hold the entries [es] *)
Record sb_window (s : store_buffer_t) (R : Z) (es : list entry_t) : Prop := {
  sw_base : window (base s) R (item <$> es);
  sw_len : zlen (item_addr s) = fifo.size (base s) /\ zlen (item_size s) = fifo.size (base s) /\
           zlen (item_addr_valid s) = fifo.size (base s);
  sw_entry : forall k e, es !! k = Some e ->
    let id := ptr (fifo.size (base s)) (R + Z.of_nat k) in
    tget_new id (item_addr s) = Ok (e_addr e) /\ tget_new id (item_size s) = Ok (e_size e) /\
    tget_new id (item_addr_valid s) = Ok (e_addr_valid e)
}.

Lemma sb_entry s R es k e : sb_window s R es -> es !! k = Some e ->
  entry (ptr (fifo.size (base s)) (R + Z.of_nat k)) s = Ok e.
Proof.
  intros H Hk. destruct (sw_entry _ _ _ H k e Hk) as (E1 & E2 & E3). unfold entry.
  rewrite (window_item _ _ _ (sw_base _ _ _ H) k (item e)) by (by rewrite list_lookup_fmap, Hk).
  cbn [mbind outcome_bind]. rewrite E1. cbn [mbind outcome_bind]. rewrite E2.
  cbn [mbind outcome_bind]. rewrite E3. by destruct e.
Qed.

Lemma get_feedback_scan s R es addr size id stage : sb_window s R es ->
  get_feedback_value addr size id stage s =
  Ok (match scan_list (λ _ e acc, feedback_step addr size (age_compare.mk id stage) e acc) 0 es (0, 0)
      with inl acc => Some acc | inr _ => None end).
Proof.
  intros H. unfold get_feedback_value.
  rewrite (producer_walk_spec _ _ _ (sw_base _ _ _ H)), length_fmap.
  rewrite (visit_new_scan (base s) R _
    (λ _ e acc, feedback_step addr size (age_compare.mk id stage) e acc) es 0 (0, 0)).
  - cbn [mbind outcome_bind]. by destruct (scan_list _ _ _ _).
  - intros k e st Hk. rewrite Z.add_0_l, (sb_entry _ _ _ _ _ H Hk). done.
Qed.
End store_buffer.

(** ** Retired store buffer: every element is older than every load *)
Section retired.
Import retired_store_buffer.

Definition retired_ok (i : item_t) : Prop :=
  1 <= size i <= 4 /\ 0 <= addr i /\ addr i + size i < two32 /\ is_u32 (data i).
Definition retired_supplies (x : Z) (i : item_t) : option Z :=
  if covers (addr i) (size i) x then Some (byte_of (data i) (x - addr i)) else None.
Definition retired_forwarded (l : list item_t) (x : Z) : option Z :=
  last (omap (retired_supplies x) l).

Section load.
Context (laddr lsize : Z) (Hsize : 1 <= lsize <= 4) (Ha : 0 <= laddr) (Hend : laddr + lsize < two32).

Lemma retired_forward_spec i fw acc : retired_ok i -> overlaid laddr lsize fw acc ->
  overlaid laddr lsize (overlay (addr i) (size i) (data i) fw) (forward laddr lsize i acc).
Proof using Hsize Ha Hend.
  intros (Hz & H0 & He & Hd) Hacc. unfold forward.
  destruct (ends (addr i) (size i)) as [Ee _]; [done.. |].
  destruct (ends laddr lsize) as [El _]; [done.. |]. rewrite El, Ee.
  assert (Hsub : forall x y, 0 <= y <= x -> x < two32 -> sub32 x y = x - y)
    by (intros; apply u32_small; word_lia).
  destruct ((laddr <=? addr i) && (addr i <? laddr + lsize)) eqn:E1;
    [| destruct ((addr i <? laddr) && (laddr <? addr i + size i)) eqn:E2].
  - rewrite !Hsub by lia. rewrite !shl32_3 by lia.
    apply overlaid_up; try done; [word_lia | lia].
  - rewrite !Hsub by lia. rewrite !shl32_3 by lia.
    apply overlaid_down; try done; [word_lia | lia | lia].
  - apply (overlaid_ext _ _ fw); [done | | done]. intros k Hk. unfold overlay.
    by replace ((addr i <=? laddr + k) && (laddr + k <? addr i + size i)) with false by lia.
Qed.

Lemma retired_snoc l i x : retired_forwarded (l ++ [i]) x =
  overlay (addr i) (size i) (data i) (retired_forwarded l) x.
Proof using Type.
  unfold retired_forwarded. rewrite omap_app, last_app. unfold overlay, retired_supplies, covers.
  cbn. by destruct (_ && _).
Qed.

Lemma retired_feedback s R l : window (base s) R l -> Forall retired_ok l ->
  exists acc, get_feedback_value laddr lsize s = Ok acc /\
    overlaid laddr lsize (retired_forwarded l) acc.
Proof using Hsize Ha Hend.
  intros H Hl. unfold get_feedback_value. rewrite (producer_walk_spec _ _ _ H).
  rewrite (visit_new_scan (base s) R _ (λ _ i acc, inl (forward laddr lsize i acc)) l 0 (0, 0)).
  - assert (E : exists acc, scan_list (A := Empty_set) (λ _ i acc, inl (forward laddr lsize i acc))
        0 l (0, 0) = inl acc /\ overlaid laddr lsize (retired_forwarded l) acc).
    { clear H. induction l as [|i l IH] using rev_ind.
      { eexists. split; [done |]. apply overlaid_empty. }
      apply Forall_app in Hl as [Hl Hi]. apply Forall_cons in Hi as [Hi _].
      destruct (IH Hl) as (acc & E & Hacc). rewrite scan_list_snoc, E. eexists. split; [done |].
      eapply overlaid_ext; [done | | by apply retired_forward_spec].
      intros k _. by rewrite retired_snoc. }
    destruct E as (acc & -> & Hacc). cbn. eauto.
  - intros k i st Hk. rewrite Z.add_0_l, (window_item _ _ _ H k i Hk). done.
Qed.
End load.

Lemma retired_range l x b : retired_forwarded l x = Some b -> 0 <= b < 256.
Proof.
  induction l as [|i l IH] using rev_ind; [done |]. rewrite retired_snoc. unfold overlay.
  destruct (_ && _); [intros [= <-]; apply byte_range | done].
Qed.
End retired.

(** ** Load queue: the oldest younger load that has read one of the bytes *)
Section load_queue.
Import load_queue.

Definition loaded_ok (rsz n : Z) (mi : Z * item_t) : Prop :=
  (addr_valid mi.2 = true -> 1 <= size mi.2 <= 4 /\ 0 <= addr mi.2 /\ addr mi.2 + size mi.2 < two32) /\
  item_age mi.2 = age_at rsz mi.1 /\ - rsz < mi.1 - n < rsz.
Definition violates (n saddr ssize : Z) (mi : Z * item_t) : bool :=
  addr_valid mi.2 && (n <? mi.1) && overlap (addr mi.2) (size mi.2) saddr ssize.

Context (rsz n saddr ssize : Z) (Hrsz : 0 < rsz) (Hsize : 1 <= ssize <= 4) (Ha : 0 <= saddr)
  (Hend : saddr + ssize < two32).

Lemma conflicts_violates mi : loaded_ok rsz n mi ->
  conflicts saddr ssize (age_at rsz n) mi.2 = violates n saddr ssize mi.
Proof using Hrsz Hsize Ha Hend.
  destruct mi as [m i]. intros (Hok & Hage & Hd). cbn [fst snd] in *.
  unfold conflicts, violates. cbn [fst snd]. rewrite Hage.
  destruct (age_order rsz Hrsz m n Hd) as (-> & _).
  destruct (addr_valid i) eqn:Ev; [| done]. cbn [andb].
  destruct (Hok eq_refl) as (Hz & H0 & He).
  destruct (ends (addr i) (size i)) as [-> _]; [done.. |].
  destruct (ends saddr ssize) as [-> _]; [done.. |]. unfold overlap.
  destruct (n <? m); cbn [andb]; lia.
Qed.

(** The first element that satisfies [violates], with its place. *)
Definition first_violation (k : Z) (l : list (Z * item_t)) : option (Z * item_t) :=
  match list_find (λ mi, violates n saddr ssize mi = true) l with
  | Some (j, mi) => Some (k + Z.of_nat j, mi.2)
  | None => None
  end.

Lemma get_conflict_spec s R l : window (base s) R l.*2 -> Forall (loaded_ok rsz n) l ->
  get_conflict_item saddr ssize (ptr rsz n) (stg rsz n) s =
  Ok (match first_violation R l with
      | Some (k, i) => Some (ptr (fifo.size (base s)) k, stg (fifo.size (base s)) k, i)
      | None => None
      end).
Proof using Hrsz Hsize Ha Hend.
  intros H Hl. unfold get_conflict_item. rewrite (producer_walk_spec _ _ _ H).
  rewrite (visit_new_scan (base s) R _
    (λ k i _, if conflicts saddr ssize (age_at rsz n) i
              then inr (ptr (fifo.size (base s)) (R + k), stg (fifo.size (base s)) (R + k), i)
              else inl tt) l.*2 0 tt).
  2: { intros k i st Hk. rewrite Z.add_0_l, (window_item _ _ _ H k i Hk). done. }
  cbn [mbind outcome_bind].
  assert (E : forall k,
    match scan_list (λ k i _, if conflicts saddr ssize (age_at rsz n) i
              then inr (ptr (fifo.size (base s)) (R + k), stg (fifo.size (base s)) (R + k), i)
              else inl tt) k l.*2 tt with inl _ => None | inr x => Some x end =
    match first_violation (R + k) l with
    | Some (k, i) => Some (ptr (fifo.size (base s)) k, stg (fifo.size (base s)) k, i)
    | None => None
    end).
  { clear H. unfold first_violation. induction l as [|mi l IH]; intros k; [done |].
    apply Forall_cons in Hl as [Hmi Hl]. cbn [fmap list_fmap scan_list list_find].
    rewrite (conflicts_violates mi Hmi). destruct (violates n saddr ssize mi) eqn:Ev.
    - rewrite decide_True by done. by rewrite Z.add_0_r.
    - rewrite decide_False by congruence. rewrite (IH Hl).
      destruct (list_find _ l) as [[j mj]|]; cbn; [| done].
      by replace (R + k + Z.of_nat (Datatypes.S j)) with (R + (k + 1) + Z.of_nat j) by lia. }
  specialize (E 0). rewrite Z.add_0_r in E. rewrite <- E. by destruct (scan_list _ _ _ _) as [[]|].
Qed.
End load_queue.
