(* ===== verification/CycleCsr.v ===== *)
(** * CSRs and interrupts of the cycle model

    include/cycle_model/component/csr_base.h and csr/, csrfile.h,
    interrupt_interface.h and the table src/cycle_model/cycle_model.cpp builds.

    The subclasses are those of the ISA model with the value in a flip-flop.
    Each object is referred to by the CSR file only, so the table holds the
    objects themselves. *)

From S2P Require Import Prelude Word Ops Csr IsaBus Dff.

(** ** One register *)
Module cycle_csr.
Record csr_base_t := mk {
  name : string;
  init_value : Z;
  value : dff_t Z;
  cls : csr_base.csr_class_t
}.
Definition reset (o : csr_base_t) : csr_base_t := { o with value ::= dff.set (init_value o) }.
Definition new (n : string) (c : csr_base.csr_class_t) (v : Z) : csr_base_t :=
  reset (mk n v (dff.new v) c).
Definition load (v : Z) (o : csr_base_t) : csr_base_t := { o with value ::= dff.set v }.
Definition get_value (o : csr_base_t) : Z := dff.get_new (value o).
(** The overrides of [filter] are those of the ISA model's subclasses. *)
Definition write (v : Z) (o : csr_base_t) : csr_base_t :=
  { o with value ::= dff.set (csr_base.filter (cls o) v) }.
Definition read (o : csr_base_t) : Z := dff.get (value o).
Definition read_new (o : csr_base_t) : Z := dff.get_new (value o).
Definition setbit (bit : Z) (v : bool) (o : csr_base_t) : csr_base_t :=
  write (Z.lor (Z.land (read_new o) (not32 (Z.shiftl 1 bit))) (Z.shiftl (b2z v) bit)) o.
Definition getbit (bit : Z) (o : csr_base_t) : bool :=
  negb (Z.land (read_new o) (Z.shiftl 1 bit) =? 0).
Definition sync (o : csr_base_t) : csr_base_t := { o with value ::= dff.sync }.
(** The object the ISA model would have in its place. *)
Definition to_isa (o : csr_base_t) : Csr.csr_base_t :=
  csr_base.mk (name o) (init_value o) (get_value o) (cls o).
End cycle_csr.

(** ** The CSR file *)
Module cycle_csrfile.
Record csr_item_t := mk_item { readonly : bool; csr : cycle_csr.csr_base_t }.
(** [csr_map_table], and the two character queues [charfifo] refers to. *)
Record csrfile_t := mk {
  csr_map_table : gmap Z csr_item_t;
  send_fifo : list Z;
  rev_fifo : list Z
}.
Definition new (sf rf : list Z) : csrfile_t := mk ∅ sf rf.

Definition found (addr : Z) (t : csrfile_t) : bool := bool_decide (is_Some (csr_map_table t !! addr)).
Definition item (addr : Z) (t : csrfile_t) : outcome csr_item_t := of_option (csr_map_table t !! addr).

Definition reset (t : csrfile_t) : csrfile_t :=
  { t with csr_map_table ::= fmap (λ it, { it with csr ::= cycle_csr.reset }) }.
Definition sync_item (it : csr_item_t) : csr_item_t := mk_item (readonly it) (cycle_csr.sync (csr it)).
Definition sync (t : csrfile_t) : csrfile_t := { t with csr_map_table ::= fmap sync_item }.

Definition map (addr : Z) (ro : bool) (o : cycle_csr.csr_base_t) (t : csrfile_t) : outcome csrfile_t :=
  verify (negb (found addr t)) ;;
  Ok { t with csr_map_table ::= insert addr (mk_item ro o) }.

(** The virtual [csr->read()] and [csr->write(value)]; [charfifo] is as in the
    ISA model. *)
Definition read_item (it : csr_item_t) (t : csrfile_t) : Z :=
  match cycle_csr.cls (csr it) with
  | csr_base.charfifo =>
      match rev_fifo t with [] => 0 | ch :: _ => Z.lor 0x80000000 (u32 (i8 ch)) end
  | _ => cycle_csr.read (csr it)
  end.
Definition charfifo_filter (value : Z) (t : csrfile_t) : outcome csrfile_t :=
  if Z.testbit value 31 then
    Ok match rev_fifo t with [] => t | _ :: q => { t with rev_fifo := q } end
  else if zlen (send_fifo t) <? csr_env.CHARFIFO_SEND_FIFO_SIZE then
    Ok { t with send_fifo := send_fifo t ++ [Z.land value 0xff] }
  else Hang.
Definition write_item (addr : Z) (it : csr_item_t) (value : Z) (t : csrfile_t) : outcome csrfile_t :=
  t ← match cycle_csr.cls (csr it) with
      | csr_base.charfifo => charfifo_filter value t
      | _ => Ok t
      end;
  Ok { t with csr_map_table ::= insert addr (mk_item (readonly it) (cycle_csr.write value (csr it))) }.

Definition write_sys (addr value : Z) (t : csrfile_t) : outcome csrfile_t :=
  verify (found addr t) ;; it ← item addr t; write_item addr it value t.
Definition read_sys (addr : Z) (t : csrfile_t) : outcome Z :=
  verify (found addr t) ;; it ← item addr t; Ok (read_item it t).
Definition read_sys_new (addr : Z) (t : csrfile_t) : outcome Z :=
  verify (found addr t) ;; it ← item addr t; Ok (cycle_csr.read_new (csr it)).
Definition write_check (addr value : Z) (t : csrfile_t) : bool :=
  match csr_map_table t !! addr with
  | None => false
  | Some it => if readonly it then false else true
  end.
Definition write (addr value : Z) (t : csrfile_t) : outcome (bool * csrfile_t) :=
  if negb (write_check addr value t) then Ok (false, t)
  else it ← item addr t; t ← write_item addr it value t; Ok (true, t).
(** [None] is the result [false]. *)
Definition read (addr : Z) (t : csrfile_t) : option Z :=
  match csr_map_table t !! addr with
  | None => None
  | Some it => Some (read_item it t)
  end.
End cycle_csrfile.
Abbreviation cycle_csrfile_t := cycle_csrfile.csrfile_t.

(** ** The table of [cycle_model]: that of the ISA model and the counters of
    the load queue *)
Definition cycle_csr_extra : list (Z * bool * csr_base_t) :=
  let n := csr_base.new in let p := csr_base.plain in
  [ (0xB10, true, n "loadnum" p 0); (0xB90, true, n "loadnumh" p 0);
    (0xB11, true, n "replaynum" p 0); (0xB91, true, n "replaynumh" p 0);
    (0xB12, true, n "replayloadnum" p 0); (0xB92, true, n "replayloadnumh" p 0);
    (0xB13, true, n "conflictloadnum" p 0); (0xB93, true, n "conflictloadnumh" p 0) ].
Definition cycle_csr_map_list : list (Z * bool * csr_base_t) :=
  csr_map_list ++ cycle_csr_extra ++ pmp_map_list.

Fixpoint cycle_map_all (l : list (Z * bool * csr_base_t)) (t : cycle_csrfile_t) :
  outcome cycle_csrfile_t :=
  match l with
  | [] => Ok t
  | (addr, ro, o) :: l =>
      t ← cycle_csrfile.map addr ro
            (cycle_csr.new (csr_base.name o) (csr_base.cls o) (csr_base.init_value o)) t;
      cycle_map_all l t
  end.

(** ** Interrupts *)
Module cycle_interrupt.
Record interrupt_interface_t := mk {
  pending : IsaBus.interrupt_interface_t;
  mei_ack : dff_t bool;
  msi_ack : dff_t bool;
  mti_ack : dff_t bool
}.
(** [mei_ack = false] replaces the flip-flop itself. *)
Definition reset (i : interrupt_interface_t) : interrupt_interface_t :=
  mk (pending i) (dff.new false) (dff.new false) (dff.new false).
Definition new : interrupt_interface_t :=
  reset (mk interrupt_interface.new (dff.new false) (dff.new false) (dff.new false)).
Definition sync (i : interrupt_interface_t) : interrupt_interface_t :=
  mk (pending i) (dff.sync (mei_ack i)) (dff.sync (msi_ack i)) (dff.sync (mti_ack i)).

Definition CSR_MSTATUS : Z := 0x300.
Definition CSR_MIE : Z := 0x304.
Definition CSR_MIP : Z := 0x344.
Definition mie_new : cycle_csr.csr_base_t := cycle_csr.new "mie" csr_base.mie 0.
Definition mstatus_new : cycle_csr.csr_base_t := cycle_csr.new "mstatus" csr_base.mstatus 0.
Definition mip_new : cycle_csr.csr_base_t := cycle_csr.new "mip" csr_base.mip 0.

Definition get_cause (i : interrupt_interface_t) (t : cycle_csrfile_t) :
  outcome (option riscv_interrupt_t) :=
  v ← cycle_csrfile.read_sys CSR_MIE t;
  let mie_o := cycle_csr.load v mie_new in
  v ← cycle_csrfile.read_sys CSR_MSTATUS t;
  let mstatus_o := cycle_csr.load v mstatus_new in
  let p := pending i in
  Ok (if negb (cycle_csr.getbit 3 mstatus_o) then None
      else if interrupt_interface.meip p && cycle_csr.getbit 11 mie_o then
        Some riscv_interrupt.machine_external
      else if interrupt_interface.msip p && cycle_csr.getbit 3 mie_o then
        Some riscv_interrupt.machine_software
      else if interrupt_interface.mtip p && cycle_csr.getbit 7 mie_o then
        Some riscv_interrupt.machine_timer
      else None).
Definition has_interrupt (i : interrupt_interface_t) (t : cycle_csrfile_t) : outcome bool :=
  v ← cycle_csrfile.read_sys CSR_MIE t;
  let mie_o := cycle_csr.load v mie_new in
  v ← cycle_csrfile.read_sys CSR_MSTATUS t;
  let mstatus_o := cycle_csr.load v mstatus_new in
  let p := pending i in
  Ok (cycle_csr.getbit 3 mstatus_o &&
      ((interrupt_interface.meip p && cycle_csr.getbit 11 mie_o) ||
       (interrupt_interface.msip p && cycle_csr.getbit 3 mie_o) ||
       (interrupt_interface.mtip p && cycle_csr.getbit 7 mie_o))).
Definition set_pending (cause : riscv_interrupt_t) (v : bool) (i : interrupt_interface_t) :
  outcome interrupt_interface_t :=
  p ← interrupt_interface.set_pending cause v (pending i); Ok { i with pending := p }.
Definition set_ack (cause : riscv_interrupt_t) (i : interrupt_interface_t) :
  outcome interrupt_interface_t :=
  match cause with
  | riscv_interrupt.machine_external => Ok { i with mei_ack ::= dff.set true }
  | riscv_interrupt.machine_software => Ok { i with msi_ack ::= dff.set true }
  | riscv_interrupt.machine_timer => Ok { i with mti_ack ::= dff.set true }
  | _ => Abort
  end.
Definition get_ack (cause : riscv_interrupt_t) (i : interrupt_interface_t) : bool :=
  match cause with
  | riscv_interrupt.machine_external => dff.get (mei_ack i)
  | riscv_interrupt.machine_software => dff.get (msi_ack i)
  | riscv_interrupt.machine_timer => dff.get (mti_ack i)
  | _ => false
  end.
Definition run (i : interrupt_interface_t) (t : cycle_csrfile_t) :
  outcome (interrupt_interface_t * cycle_csrfile_t) :=
  let i := mk (pending i) (dff.set false (mei_ack i)) (dff.set false (msi_ack i))
             (dff.set false (mti_ack i)) in
  v ← cycle_csrfile.read_sys CSR_MIP t;
  let o := cycle_csr.load v mip_new in
  let o := cycle_csr.setbit 11 (interrupt_interface.meip (pending i)) o in
  let o := cycle_csr.setbit 3 (interrupt_interface.msip (pending i)) o in
  let o := cycle_csr.setbit 7 (interrupt_interface.mtip (pending i)) o in
  t ← cycle_csrfile.write_sys CSR_MIP (cycle_csr.get_value o) t;
  Ok (i, t).
End cycle_interrupt.

(** ** The two models' CSRs agree

    [same_file]: at the start of a cycle the object at each address has the
    class, the value and the access right it has in the ISA model. *)
(** What [same_file] says about one address. *)
Definition same_entry (c : option cycle_csrfile.csr_item_t) (i : option csrfile.csr_item_t)
    (objs : gmap string csr_base_t) : Prop :=
  match c, i with
  | None, None => True
  | Some c, Some i => exists o, objs !! csrfile.csr i = Some o /\
      cycle_csrfile.readonly c = csrfile.readonly i /\
      cycle_csr.cls (cycle_csrfile.csr c) = csr_base.cls o /\
      cycle_csr.read (cycle_csrfile.csr c) = csr_base.value o
  | _, _ => False
  end.

(** The addresses both tables have: the counters of the load queue are the cycle
    model's own. *)
Definition shared (addr : Z) : Prop :=
  addr < csrfile.table_size /\ addr ∉ (λ x, x.1.1) <$> cycle_csr_extra.

Section agree.
Context (t : cycle_csrfile_t) (it : csrfile_t) (e : csr_env_t).

Record same_file : Prop := {
  sf_addr : forall addr, shared addr ->
    same_entry (cycle_csrfile.csr_map_table t !! addr) (csrfile.csr_map_table it !! addr)
      (csr_env.objs e);
  sf_send : cycle_csrfile.send_fifo t = csr_env.send_fifo e;
  sf_rev : cycle_csrfile.rev_fifo t = csr_env.rev_fifo e
}.

Lemma same_read addr : shared addr -> same_file ->
  csrfile.read addr it e = Ok (cycle_csrfile.read addr t).
Proof using Type.
  intros Ha H. pose proof (sf_addr H addr Ha) as Hs. unfold csrfile.read, cycle_csrfile.read,
    csrfile.enabled, csrfile.item, csr_env.read, cycle_csrfile.read_item.
  replace (csrfile.table_size <=? addr) with false by (destruct Ha; lia). cbn [orb].
  destruct (cycle_csrfile.csr_map_table t !! addr) as [c|],
    (csrfile.csr_map_table it !! addr) as [i|]; try done.
  destruct Hs as (o & Ho & _ & Hc & Hv). cbn. rewrite Ho, (sf_rev H), Hc, Hv.
  by destruct (csr_base.cls o).
Qed.

Lemma same_write_check addr v : shared addr -> same_file ->
  csrfile.write_check addr v it = cycle_csrfile.write_check addr v t.
Proof using Type.
  intros Ha H. pose proof (sf_addr H addr Ha) as Hs.
  unfold csrfile.write_check, cycle_csrfile.write_check, csrfile.enabled.
  replace (csrfile.table_size <=? addr) with false by (destruct Ha; lia). cbn [orb].
  destruct (cycle_csrfile.csr_map_table t !! addr) as [c|],
    (csrfile.csr_map_table it !! addr) as [i|]; try done.
  cbn. destruct Hs as (o & _ & -> & _). done.
Qed.
End agree.

(** Nothing written in this cycle yet; the objects of the ISA model's table are
    distinct. *)
Definition settled_file (t : cycle_csrfile_t) : Prop :=
  forall addr c, cycle_csrfile.csr_map_table t !! addr = Some c ->
    cycle_csr.read_new (cycle_csrfile.csr c) = cycle_csr.read (cycle_csrfile.csr c).
Definition distinct_file (it : csrfile_t) : Prop :=
  forall a b i j, csrfile.csr_map_table it !! a = Some i -> csrfile.csr_map_table it !! b = Some j ->
    csrfile.csr i = csrfile.csr j -> a = b.

Lemma charfifo_agree v (t : cycle_csrfile_t) (e : csr_env_t) :
  cycle_csrfile.send_fifo t = csr_env.send_fifo e -> cycle_csrfile.rev_fifo t = csr_env.rev_fifo e ->
  match cycle_csrfile.charfifo_filter v t, csr_env.charfifo_filter v e with
  | Ok t', Ok e' => cycle_csrfile.send_fifo t' = csr_env.send_fifo e' /\
      cycle_csrfile.rev_fifo t' = csr_env.rev_fifo e' /\
      cycle_csrfile.csr_map_table t' = cycle_csrfile.csr_map_table t /\ csr_env.objs e' = csr_env.objs e
  | Hang, Hang => True
  | _, _ => False
  end.
Proof.
  intros Hs Hr. unfold cycle_csrfile.charfifo_filter, csr_env.charfifo_filter.
  destruct (Z.testbit v 31).
  - rewrite Hr. destruct (csr_env.rev_fifo e) eqn:Er; cbn; rewrite ?Hr, ?Er; split_and!; done.
  - rewrite Hs. destruct (_ <? _); [| done]. cbn. split_and!; done.
Qed.

Lemma file_sync_lookup t a : cycle_csrfile.csr_map_table (cycle_csrfile.sync t) !! a =
  cycle_csrfile.sync_item <$> cycle_csrfile.csr_map_table t !! a.
Proof. apply lookup_fmap. Qed.

Lemma same_entry_sync t a c i objs : settled_file t -> cycle_csrfile.csr_map_table t !! a = c ->
  same_entry c i objs -> same_entry (cycle_csrfile.sync_item <$> c) i objs.
Proof.
  intros Hset Hc. destruct c as [c|], i as [i|]; cbn; try done.
  intros (o & Ho & Hro & Hcls & Hv). exists o. split_and!; try done.
  rewrite <- Hv. exact (Hset a c Hc).
Qed.

(** The side effect of a write: none, or the character queues. *)
Lemma write_effect c v t e :
  cycle_csrfile.send_fifo t = csr_env.send_fifo e -> cycle_csrfile.rev_fifo t = csr_env.rev_fifo e ->
  match match c with csr_base.charfifo => cycle_csrfile.charfifo_filter v t | _ => Ok t end,
    match c with csr_base.charfifo => csr_env.charfifo_filter v e | _ => Ok e end with
  | Ok t', Ok e' => cycle_csrfile.send_fifo t' = csr_env.send_fifo e' /\
      cycle_csrfile.rev_fifo t' = csr_env.rev_fifo e' /\
      cycle_csrfile.csr_map_table t' = cycle_csrfile.csr_map_table t /\ csr_env.objs e' = csr_env.objs e
  | Hang, Hang => True
  | _, _ => False
  end.
Proof.
  intros Hs Hr. pose proof (charfifo_agree v t e Hs Hr). by destruct c; try done.
Qed.

Section write.
Context (t : cycle_csrfile_t) (it : csrfile_t) (e : csr_env_t).
Context (H : same_file t it e) (Hset : settled_file t) (Hdist : distinct_file it).

(** A write and the clock in the one, a write in the other: the files agree
    again, or both refuse, or both wait for the network thread. *)
Lemma same_write addr v : shared addr ->
  match cycle_csrfile.write addr v t, csrfile.write addr v it e with
  | Ok (b, t'), Ok (b', e') => b = b' /\ same_file (cycle_csrfile.sync t') it e'
  | Hang, Hang => True
  | _, _ => False
  end.
Proof using H Hset Hdist.
  intros Ha. unfold cycle_csrfile.write, csrfile.write. rewrite (same_write_check t it e addr v Ha H).
  assert (Hs : forall a, shared a -> same_entry (cycle_csrfile.csr_map_table t !! a)
    (csrfile.csr_map_table it !! a) (csr_env.objs e)) by (intros a Hlt; by apply (sf_addr _ _ _ H)).
  destruct (cycle_csrfile.write_check addr v t) eqn:Ew; cbn [negb].
  2: { split; [done |]. split; [| apply H..]. intros a Hlt. rewrite file_sync_lookup.
       apply (same_entry_sync t a _ _ _ Hset eq_refl). by apply Hs. }
  unfold cycle_csrfile.write_check in Ew. pose proof (Hs addr Ha) as Hone.
  unfold cycle_csrfile.item, csrfile.item.
  destruct (cycle_csrfile.csr_map_table t !! addr) as [c|] eqn:Ec; [| done].
  destruct (csrfile.csr_map_table it !! addr) as [i|] eqn:Ei; [| done].
  destruct Hone as (o & Ho & Hro & Hcls & Hv). cbn [of_option mbind outcome_bind].
  unfold cycle_csrfile.write_item, csr_env.write. rewrite Ho, Hcls.
  pose proof (write_effect (csr_base.cls o) v t e (sf_send _ _ _ H) (sf_rev _ _ _ H)) as Heff.
  destruct (match csr_base.cls o with csr_base.charfifo => cycle_csrfile.charfifo_filter v t | _ => _ end)
    as [t'| | |], (match csr_base.cls o with csr_base.charfifo => csr_env.charfifo_filter v e | _ => _ end)
    as [e'| | |]; try done.
  destruct Heff as (Hsf & Hrf & Ht & He). cbn [mbind outcome_bind]. split; [done |].
  split; [| done | done]. intros a Hlt. rewrite file_sync_lookup.
  lazymatch goal with |- same_entry (_ <$> cycle_csrfile.csr_map_table ?x !! _) _ (csr_env.objs ?y) =>
    change (cycle_csrfile.csr_map_table x) with
    (<[addr := cycle_csrfile.mk_item (cycle_csrfile.readonly c) (cycle_csr.write v (cycle_csrfile.csr c))]>
      (cycle_csrfile.csr_map_table t'));
    change (csr_env.objs y) with (<[csrfile.csr i := csr_base.write v o]> (csr_env.objs e')) end.
  rewrite Ht, He. destruct (decide (a = addr)) as [-> | Hne].
  - rewrite lookup_insert_eq, Ei. eexists. rewrite lookup_insert_eq. split; [done |].
    split_and!; try done. unfold cycle_csr.read, cycle_csr.sync. cbn. by rewrite Hcls.
  - rewrite lookup_insert_ne by done.
    pose proof (same_entry_sync t a _ _ _ Hset eq_refl (Hs a Hlt)) as Hs'. revert Hs'.
    generalize (cycle_csrfile.sync_item <$> cycle_csrfile.csr_map_table t !! a). intros [c'|]; cbn; [| done].
    destruct (csrfile.csr_map_table it !! a) as [i'|] eqn:Ei'; [| done].
    intros (o' & Ho' & Hrest). exists o'. rewrite lookup_insert_ne; [done |].
    intros E. apply Hne. symmetry. by eapply Hdist.
Qed.
End write.

(** ** Interrupt selection agrees with the ISA model *)
Lemma same_cause i t it e : same_file t it e ->
  csrfile.csr_map_table it !! cycle_interrupt.CSR_MIE = Some (csrfile.mk_item false "mie") ->
  csrfile.csr_map_table it !! cycle_interrupt.CSR_MSTATUS = Some (csrfile.mk_item false "mstatus") ->
  (forall o, csr_env.objs e !! "mie"%string = Some o -> csr_base.cls o = csr_base.mie) ->
  (forall o, csr_env.objs e !! "mstatus"%string = Some o -> csr_base.cls o = csr_base.mstatus) ->
  cycle_interrupt.get_cause i t = interrupt_interface.get_cause (cycle_interrupt.pending i) e /\
  cycle_interrupt.has_interrupt i t = interrupt_interface.has_interrupt (cycle_interrupt.pending i) e.
Proof.
  intros H H1 H2 C1 C2.
  pose proof (sf_addr _ _ _ H cycle_interrupt.CSR_MIE ltac:(decide_closed)) as S1.
  pose proof (sf_addr _ _ _ H cycle_interrupt.CSR_MSTATUS ltac:(decide_closed)) as S2.
  rewrite H1 in S1. rewrite H2 in S2.
  unfold cycle_interrupt.get_cause, cycle_interrupt.has_interrupt, interrupt_interface.get_cause,
    interrupt_interface.has_interrupt, cycle_csrfile.read_sys, cycle_csrfile.found, cycle_csrfile.item,
    cycle_csrfile.read_item, csr_env.read.
  revert S1 S2.
  destruct (cycle_csrfile.csr_map_table t !! cycle_interrupt.CSR_MIE) as [c1|]; [| done].
  destruct (cycle_csrfile.csr_map_table t !! cycle_interrupt.CSR_MSTATUS) as [c2|]; [| done].
  intros (o1 & O1 & _ & K1 & V1) (o2 & O2 & _ & K2 & V2).
  cbn [csrfile.csr] in O1, O2. rewrite O1, O2. rewrite bool_decide_eq_true_2 by eauto.
  rewrite bool_decide_eq_true_2 by eauto. cbn [verify of_option mbind outcome_bind].
  rewrite K1, K2, (C1 o1 O1), (C2 o2 O2). cbn [mbind outcome_bind]. rewrite V1, V2.
  unfold cycle_csr.getbit, csr_base.getbit, mstatus.get_mie, mie.get_meie, mie.get_msie, mie.get_mtie,
    csr_base.getbit, cycle_csr.read_new, cycle_csr.load, csr_base.read, csr_base.load. cbn.
  split; done.
Qed.
