(* ===== verification/CycleExec.v ===== *)
(** * Integer execute units and write back of the cycle model

    src/cycle_model/pipeline/execute/alu.cpp, mul.cpp, div.cpp, csr.cpp, the
    computation of bru.cpp, and wb.cpp. *)

From S2P Require Import Prelude Word Ops IsaDecode IsaModel Csr Breakpoint Dff Fifo.
From S2P Require Import Rat CycleDecode CyclePack CycleCsr.

(** Reading a union member other than the one written last is undefined. *)
Module csub_op.
Definition get_alu_op (s : csub_op_t) : outcome alu_op_t :=
  match s with sub_alu_op o => Ok o | _ => Undef end.
Definition get_bru_op (s : csub_op_t) : outcome bru_op_t :=
  match s with sub_bru_op o => Ok o | _ => Undef end.
Definition get_csr_op (s : csub_op_t) : outcome csr_op_t :=
  match s with sub_csr_op o => Ok o | _ => Undef end.
Definition get_div_op (s : csub_op_t) : outcome div_op_t :=
  match s with sub_div_op o => Ok o | _ => Undef end.
Definition get_mul_op (s : csub_op_t) : outcome mul_op_t :=
  match s with sub_mul_op o => Ok o | _ => Undef end.
Definition get_lu_op (s : csub_op_t) : outcome lu_op.lu_op_t :=
  match s with sub_lu_op o => Ok o | _ => Undef end.
Definition get_sau_op (s : csub_op_t) : outcome sau_op.sau_op_t :=
  match s with sub_sau_op o => Ok o | _ => Undef end.
Definition get_sdu_op (s : csub_op_t) : outcome sdu_op.sdu_op_t :=
  match s with sub_sdu_op o => Ok o | _ => Undef end.
End csub_op.

Import readreg_execute.
Abbreviation rev_t := readreg_execute.pack_t.
Abbreviation wb_t := execute_wb.pack_t.
Abbreviation channel_t := execute_feedback.channel_t.

(** ** What the units share *)
Module unit_stage.
(** [if(!hdff->is_empty() && !commit_feedback_pack.flush) verify(hdff->pop(&rev_pack))]. *)
Definition receive (commit_flush : bool) (h : handshake_dff_t rev_t) :
  outcome (option rev_t * handshake_dff_t rev_t) :=
  if negb (handshake_dff.is_empty h) && negb commit_flush then
    let xh := handshake_dff.pop h in
    verify (bool_decide (is_Some xh.1)) ;; Ok xh
  else Ok (None, h).

(** The body of [run] of a unit with one cycle of latency: a squashed
    instruction leaves [send_pack] as it was constructed. *)
Definition run (compute : rev_t -> outcome wb_t) (bru : bru_feedback_t) (sau : sau_feedback_t)
  (commit_flush : bool) (h : handshake_dff_t rev_t) (p : port_t wb_t) :
  outcome (channel_t * handshake_dff_t rev_t * port_t wb_t) :=
  rh ← receive commit_flush h;
  s ← match (rh.1 : option rev_t) with
      | Some r => if squashed bru sau (readreg_execute.age r) then Ok execute_wb.init else compute r
      | None => Ok execute_wb.init
      end;
  Ok (execute_wb.feedback s, rh.2, port.set s p).

(** [if(rev_pack.enable) verify_only(rev_pack.op_unit == u)]. *)
Definition check_unit (u : cop_unit.op_unit_t) (r : rev_t) : outcome unit :=
  if enable r then verify (bool_decide (decode_rename.op_unit (uop r) = u)) else Ok tt.
(** The same with [verify_only(rev_pack.valid)] before it. *)
Definition check_valid_unit (u : cop_unit.op_unit_t) (r : rev_t) : outcome unit :=
  verify (valid r) ;; verify (bool_decide (decode_rename.op_unit (uop r) = u)).

Definition set_rd_value (v : Z) (s : wb_t) : wb_t := { s with execute_wb.rd_value := v }.
End unit_stage.

(** ** Arithmetic and logic *)
Module alu.
Definition result (o : alu_op_t) (r : rev_t) (s : wb_t) : wb_t :=
  let a := src1_value r in
  let b := src2_value r in
  let rd v := unit_stage.set_rd_value v s in
  match o with
  | alu_op.add => rd (add32 a b)
  | alu_op._and => rd (Z.land a b)
  | alu_op.auipc => rd (add32 (decode_rename.imm (uop r)) (decode_rename.pc (uop r)))
  | alu_op.ebreak => execute_wb.set_exception riscv_exception.breakpoint 0 (rd 0)
  | alu_op.ecall => execute_wb.set_exception riscv_exception.environment_call_from_m_mode 0 (rd 0)
  | alu_op.fence => rd 0
  | alu_op.fence_i => rd 0
  | alu_op.lui => rd (decode_rename.imm (uop r))
  | alu_op._or => rd (Z.lor a b)
  | alu_op.sll => rd (shl32 a (Z.land b 0x1f))
  | alu_op.slt => rd (b2z (i32 a <? i32 b))
  | alu_op.sltu => rd (b2z (a <? b))
  | alu_op.sra => rd (u32 (Z.shiftr (i32 a) (Z.land b 0x1f)))
  | alu_op.srl => rd (Z.shiftr a (Z.land b 0x1f))
  | alu_op.sub => rd (sub32 a b)
  | alu_op._xor => rd (Z.lxor a b)
  end.

Definition compute (r : rev_t) : outcome wb_t :=
  let s := execute_wb.of_rev r in
  unit_stage.check_unit cop_unit.alu r ;;
  if enable r && negb (has_exception r) then
    let s := if enable r && negb (valid r)
             then execute_wb.set_exception riscv_exception.illegal_instruction 0 s else s in
    if enable r && valid r then
      o ← csub_op.get_alu_op (decode_rename.sub_op (uop r)); Ok (result o r s)
    else Ok s
  else Ok s.
Definition run := unit_stage.run compute.
End alu.

(** ** Multiplication *)
Module mul.
Definition result (o : mul_op_t) (a b : Z) : Z :=
  match o with
  | mul_op.mul => Z.land (u64 (i32 a * i32 b)) 0xffffffff
  | mul_op.mulh => Z.land (Z.shiftr (u64 (i32 a * i32 b)) 32) 0xffffffff
  | mul_op.mulhsu => Z.land (Z.shiftr (u64 (u64 (i32 a) * b)) 32) 0xffffffff
  | mul_op.mulhu => Z.land (Z.shiftr (u64 (a * b)) 32) 0xffffffff
  end.
Definition compute (r : rev_t) : outcome wb_t :=
  let s := execute_wb.of_rev r in
  if enable r then
    unit_stage.check_valid_unit cop_unit.mul r ;;
    o ← csub_op.get_mul_op (decode_rename.sub_op (uop r));
    Ok (unit_stage.set_rd_value (result o (src1_value r) (src2_value r)) s)
  else Ok s.
Definition run := unit_stage.run compute.
End mul.

(** ** Division: [DIV_LATENCY] cycles *)
Module div.
Definition DIV_LATENCY : Z := 8.
Record div_t := mk { send_pack : wb_t; busy : bool; progress : Z }.
Definition reset (d : div_t) : div_t := mk execute_wb.init false 0.
Definition new : div_t := reset (mk execute_wb.init false 0).

(** [remu] divides a [uint32_t] by an [int32_t], which becomes unsigned. *)
Definition result (o : div_op_t) (a b : Z) : Z :=
  let overflow := (a =? 0x80000000) && (b =? 0xFFFFFFFF) in
  match o with
  | div_op.div => if b =? 0 then 0xFFFFFFFF
                  else if overflow then 0x80000000
                  else u32 (Z.quot (i32 a) (i32 b))
  | div_op.divu => if b =? 0 then 0xFFFFFFFF else Z.div a b
  | div_op.rem => if b =? 0 then a
                  else if overflow then 0
                  else u32 (Z.rem (i32 a) (i32 b))
  | div_op.remu => if b =? 0 then a else Z.modulo (u32 (i32 a)) (u32 (i32 b))
  end.
(** [send_pack] is a member: the fields the assignments leave alone, among
    them [rd_value] of a disabled pack, keep their values. *)
Definition compute (r : rev_t) (s : wb_t) : outcome wb_t :=
  let s := { s with execute_wb.base := r } in
  if enable r then
    unit_stage.check_valid_unit cop_unit.div r ;;
    o ← csub_op.get_div_op (decode_rename.sub_op (uop r));
    Ok (unit_stage.set_rd_value (result o (src1_value r) (src2_value r)) s)
  else Ok s.

Section run.
Context (bru : bru_feedback_t) (sau : sau_feedback_t).

(** The idle branch: [true] in the result is the early [return]. *)
Definition accept (d : div_t) (h : handshake_dff_t rev_t) :
  outcome (bool * div_t * handshake_dff_t rev_t) :=
  if negb (handshake_dff.is_empty h) then
    let xh := handshake_dff.pop h in
    r ← match (xh.1 : option rev_t) with Some r => Ok r | None => Abort end;
    if squashed bru sau (readreg_execute.age r) then Ok (true, d, xh.2)
    else s ← compute r (send_pack d);
         Ok (false, mk s true (sub32 DIV_LATENCY 1), xh.2)
  else Ok (false, d, h).

(** The busy branch: the pack for the port and the feedback. *)
Definition advance (d : div_t) : wb_t * channel_t * div_t :=
  if squashed bru sau (execute_wb.age (send_pack d)) then
    (execute_wb.init, execute_feedback.init, mk (send_pack d) false 0)
  else if progress d =? 0 then
    (send_pack d, execute_wb.feedback (send_pack d), mk (send_pack d) false (progress d))
  else (execute_wb.init, execute_feedback.init, mk (send_pack d) (busy d) (sub32 (progress d) 1)).

Definition run (commit_flush : bool) (d : div_t) (h : handshake_dff_t rev_t) (p : port_t wb_t) :
  outcome (channel_t * div_t * handshake_dff_t rev_t * port_t wb_t) :=
  if negb commit_flush then
    let idle := negb (busy d) || (progress d =? 0) in
    rdh ← (if idle then accept d h else Ok (false, d, h));
    let '(early, d, h) := rdh in
    let p := if idle then port.set execute_wb.init p else p in
    if (early : bool) then Ok (execute_feedback.init, d, h, p)
    else if busy d then
      let '(s, c, d) := advance d in Ok (c, d, h, port.set s p)
    else Ok (execute_feedback.init, d, h, p)
  else Ok (execute_feedback.init, mk (send_pack d) false 0, h, port.set execute_wb.init p).
End run.
End div.

(** ** Branches: the computation of [bru::run] and its feedback *)
Module bru.
(** Jump, target and link value. *)
Definition result (o : bru_op_t) (mepc : outcome Z) (r : rev_t) (s : wb_t) : outcome wb_t :=
  let a := src1_value r in
  let b := src2_value r in
  let pc := decode_rename.pc (uop r) in
  let imm := decode_rename.imm (uop r) in
  let jump j := Ok { s with execute_wb.bru_jump := j } in
  match o with
  | bru_op.beq => jump (a =? b)
  | bru_op.bge => jump (i32 b <=? i32 a)
  | bru_op.bgeu => jump (b <=? a)
  | bru_op.blt => jump (i32 a <? i32 b)
  | bru_op.bltu => jump (a <? b)
  | bru_op.bne => jump (negb (a =? b))
  | bru_op.jal => Ok { unit_stage.set_rd_value (add32 pc 4) s with execute_wb.bru_jump := true }
  | bru_op.jalr =>
      Ok { unit_stage.set_rd_value (add32 pc 4) s with execute_wb.bru_jump := true;
           execute_wb.bru_next_pc := Z.land (add32 imm a) (not32 0x01) }
  | bru_op.mret =>
      v ← mepc;
      Ok { s with execute_wb.bru_jump := true; execute_wb.bru_next_pc := v }
  end.
Definition CSR_MEPC : Z := 0x341.
Definition compute (csr_file : cycle_csrfile_t) (r : rev_t) : outcome wb_t :=
  let pc := decode_rename.pc (uop r) in
  let s := { execute_wb.of_rev r with
             execute_wb.bru_next_pc := add32 pc (decode_rename.imm (uop r)) } in
  s ← (if enable r then
         unit_stage.check_valid_unit cop_unit.bru r ;;
         o ← csub_op.get_bru_op (decode_rename.sub_op (uop r));
         result o (cycle_csrfile.read_sys CSR_MEPC csr_file) r s
       else Ok s);
  Ok (if negb (execute_wb.bru_jump s) then { s with execute_wb.bru_next_pc := add32 pc 4 } else s).

(** A flush is asked for when the prediction was wrong and there is a
    checkpoint to return to. *)
Definition feedback (s : wb_t) : bru_feedback_t :=
  let bp := branch_predictor_info_pack (execute_wb.base s) in
  flush_feedback.mk
    (execute_wb.enable s && execute_wb.valid s && negb (execute_wb.has_exception s) &&
     (negb (eqb (bp_info.jump bp) (execute_wb.bru_jump s)) ||
      negb (bp_info.next_pc bp =? execute_wb.bru_next_pc s)) &&
     bp_info.checkpoint_id_valid bp)
    (execute_wb.bru_next_pc s)
    (rob_id_stage (execute_wb.base s)) (rob_id (execute_wb.base s)).
End bru.

(** ** CSR instructions *)
Module csr_unit.
Definition illegal (r : rev_t) (s : wb_t) : wb_t :=
  execute_wb.set_exception riscv_exception.illegal_instruction (decode_rename.value (uop r)) s.

(** The switch on [csr_op]. *)
Definition newvalue (o : csr_op_t) (csr_value src1_value : Z) : Z :=
  match o with
  | csr_op.csrrc => Z.land csr_value (not32 src1_value)
  | csr_op.csrrs => Z.lor csr_value src1_value
  | csr_op.csrrw => src1_value
  end.

(** The new value is computed here and written at commit. *)
Definition compute (f : cycle_csrfile_t) (bs : breakpoint.breakpoint_state_t) (r : rev_t) :
  outcome (wb_t * breakpoint.breakpoint_state_t) :=
  let s := execute_wb.of_rev r in
  let u := uop r in
  if enable r then
    unit_stage.check_valid_unit cop_unit.csr r ;;
    let read_ret := cycle_csrfile.read (decode_rename.csr u) f in
    let csr_value := default 0 read_ret in
    if decode_rename.need_rename u && bool_decide (read_ret = None) then Ok (illegal r s, bs)
    else
      let bs := if decode_rename.need_rename u
                then breakpoint.breakpoint_csr_trigger (decode_rename.csr u) csr_value false bs
                else bs in
      let s := unit_stage.set_rd_value csr_value s in
      if negb (bool_decide (decode_rename.arg1_src u = arg_src.reg) &&
               negb (decode_rename.rs1_need_map u)) then
        o ← csub_op.get_csr_op (decode_rename.sub_op u);
        let v := newvalue o csr_value (src1_value r) in
        if negb (cycle_csrfile.write_check (decode_rename.csr u) v f) then Ok (illegal r s, bs)
        else Ok ({ s with execute_wb.csr_newvalue := v; execute_wb.csr_newvalue_valid := true }, bs)
      else Ok (s, bs)
  else Ok (s, bs).

Definition run (f : cycle_csrfile_t) (commit_flush : bool) (bs : breakpoint.breakpoint_state_t)
  (h : handshake_dff_t rev_t) (p : port_t wb_t) :
  outcome (channel_t * breakpoint.breakpoint_state_t * handshake_dff_t rev_t * port_t wb_t) :=
  rh ← unit_stage.receive commit_flush h;
  sb ← match (rh.1 : option rev_t) with
       | Some r => compute f bs r
       | None => Ok (execute_wb.init, bs)
       end;
  Ok (execute_wb.feedback sb.1, sb.2, rh.2, port.set sb.1 p).
End csr_unit.

(** ** Write back *)
Module wb.
Section run.
Context (bru : bru_feedback_t) (sau : sau_feedback_t).

(** One turn of the loop over the ports; a squashed pack leaves its channel as
    it was initialised. *)
Definition write_one (s : wb_t) (f : phy_regfile.regfile_t) :
  outcome (channel_t * phy_regfile.regfile_t) :=
  if squashed bru sau (execute_wb.age s) then Ok (execute_feedback.init, f)
  else
    f ← (if execute_wb.enable s && execute_wb.valid s && negb (execute_wb.has_exception s) &&
            execute_wb.need_rename s
         then phy_regfile.write (rd_phy (execute_wb.base s)) (execute_wb.rd_value s) true
                (rob_id (execute_wb.base s)) (rob_id_stage (execute_wb.base s)) false f
         else Ok f);
    Ok (execute_wb.feedback s, f).
Fixpoint write_all (l : list wb_t) (f : phy_regfile.regfile_t) :
  outcome (list channel_t * phy_regfile.regfile_t) :=
  match l with
  | [] => Ok ([], f)
  | s :: l => cf ← write_one s f; csf ← write_all l cf.2; Ok (cf.1 :: csf.1, csf.2)
  end.

(** [run] on [execute_wb_port], the ports of the units in the order of [init]. *)
Definition run (commit_flush : bool) (ports : list (port_t wb_t)) (f : phy_regfile.regfile_t) :
  outcome (list channel_t * phy_regfile.regfile_t) :=
  if negb commit_flush then write_all (port.get <$> ports) f
  else Ok ((λ _, execute_feedback.init) <$> ports, f).
End run.
End wb.
