(* ===== verification/CycleExecSpec.v ===== *)
(** * The execute units agree with the ISA model

    [cycle_execute] is the unit the dispatcher would choose; [same_inst] says
    that a pack and a state of the ISA model are about the same instruction
    with the same operands.  The second part is the schedule of the divider,
    the third what write back does. *)

From S2P Require Import Prelude Word Ops IsaDecode IsaBus IsaModel Csr Breakpoint Dff.
From S2P Require Import Fifo Rat CycleDecode CycleDecodeSpec CyclePack CycleCsr CycleExec.

Import readreg_execute.

Definition cycle_execute (f : cycle_csrfile_t) (bs : breakpoint.breakpoint_state_t) (r : rev_t) :
  outcome wb_t :=
  match decode_rename.op_unit (uop r) with
  | cop_unit.alu => alu.compute r
  | cop_unit.mul => mul.compute r
  | cop_unit.div => div.compute r execute_wb.init
  | cop_unit.bru => bru.compute f r
  | cop_unit.csr => sb ← csr_unit.compute f bs r; Ok sb.1
  | _ => Abort
  end.

Record same_inst (s : isa_state_t) (r : rev_t) : Prop := {
  si_fields : same_fields s (uop r);
  si_unit : isa_state.valid s = true ->
    unit_of (isa_state.op_unit s) (isa_state.sub_op s) =
    Some (decode_rename.op_unit (uop r), decode_rename.sub_op (uop r));
  si_illegal : isa_state.valid s = false ->
    isa_state.op_unit s = op_unit.alu /\ decode_rename.op_unit (uop r) = cop_unit.alu;
  si_enable : decode_rename.enable (uop r) = true;
  si_pc : decode_rename.pc (uop r) = isa_state.pc s;
  si_exc : decode_rename.has_exception (uop r) = isa_state.has_exception s;
  si_exc_id : decode_rename.exception_id (uop r) = isa_state.exception_id s;
  si_rs1 : decode_rename.rs1_need_map (uop r) =
    bool_decide (isa_state.arg1_src s = arg_src.reg) && (0 <? isa_state.rs1 s);
  si_rd : decode_rename.need_rename (uop r) = isa_state.rd_enable s && (0 <? isa_state.rd s);
  si_src1 : src1_value r = isa_state.src1_value s;
  si_src2 : src2_value r = isa_state.src2_value s;
  si_rd_value : isa_state.rd_value s = 0;
  si_words : is_u32 (isa_state.src1_value s) /\ is_u32 (isa_state.src2_value s);
  si_regs : 0 <= isa_state.rs1 s /\ 0 <= isa_state.rd s /\ shared (isa_state.csr s)
}.

(** The value written back and the exception raised. *)
Record same_result (s : isa_state_t) (w : wb_t) : Prop := {
  sr_rd_value : execute_wb.rd_value w = isa_state.rd_value s;
  sr_exc : execute_wb.has_exception w = isa_state.has_exception s;
  sr_exc_id : decode_rename.exception_id (uop (execute_wb.base w)) = isa_state.exception_id s
}.

Lemma csr_newvalue_agrees o v x : csr_unit.newvalue o v x = isa_model.csr_newvalue o v x.
Proof. by destruct o. Qed.

Section units.
Context (s : isa_state_t) (r : rev_t) (H : same_inst s r).

Lemma unit_sub u so : isa_state.valid s = true -> decode_rename.op_unit (uop r) = u ->
  isa_state.op_unit s = so ->
  unit_of so (isa_state.sub_op s) = Some (u, decode_rename.sub_op (uop r)).
Proof using H. intros Hv <- <-. by apply (si_unit _ _ H). Qed.

Ltac same := split; first [ done | exact (eq_sym (si_rd_value _ _ H)) | exact (si_exc _ _ H)
  | exact (si_exc_id _ _ H) ].

Lemma alu_agrees : isa_state.op_unit s = op_unit.alu ->
  both same_result (isa_model.execute_alu s) (alu.compute r).
Proof using H.
  intros Hu. unfold alu.compute, isa_model.execute_alu, unit_stage.check_unit, enable, has_exception.
  rewrite (si_enable _ _ H), (si_exc _ _ H). unfold valid. rewrite (sf_valid _ _ (si_fields _ _ H)).
  assert (Ha : decode_rename.op_unit (uop r) = cop_unit.alu).
  { destruct (isa_state.valid s) eqn:Ev; [| by apply (si_illegal _ _ H)].
    pose proof (si_unit _ _ H Ev) as E. rewrite Hu in E.
    destruct (isa_state.sub_op s); cbn in E; try discriminate E. by injection E. }
  rewrite bool_decide_eq_true_2 by done. cbn [verify mbind outcome_bind andb].
  destruct (isa_state.has_exception s) eqn:Ee; cbn [negb]; [same |].
  destruct (isa_state.valid s) eqn:Ev; cbn [negb]; [| same].
  pose proof (unit_sub _ _ Ev Ha Hu) as E.
  destruct (isa_state.sub_op s) as [o| | | | |]; cbn in E; try discriminate E. injection E as E.
  rewrite <- E. cbn [csub_op.get_alu_op isa_state.get_alu_op mbind outcome_bind].
  unfold alu.result. rewrite (si_src1 _ _ H), (si_src2 _ _ H), (sf_imm _ _ (si_fields _ _ H)),
    (si_pc _ _ H).
  destruct o; same.
Qed.

Section valid.
Context (Hv : isa_state.valid s = true) (He : isa_state.has_exception s = false).

Lemma entry_ok : isa_model.unit_entry s = Ok tt /\ enable r = true /\ valid r = true.
Proof using H Hv He.
  unfold isa_model.unit_entry, enable, valid. rewrite Hv, He, (sf_valid _ _ (si_fields _ _ H)).
  split_and!; [done | apply H | done].
Qed.

Lemma mul_agrees : isa_state.op_unit s = op_unit.mul ->
  both same_result (isa_model.execute_mul s) (mul.compute r).
Proof using H Hv He.
  intros Hu. destruct entry_ok as (E1 & E2 & E3).
  pose proof (si_unit _ _ H Hv) as E. rewrite Hu in E.
  destruct (isa_state.sub_op s) as [| | | |o|] eqn:Es; cbn in E; try discriminate E.
  injection E as E4 E5. unfold isa_model.execute_mul, mul.compute, unit_stage.check_valid_unit.
  rewrite E1, E2, E3, <- E4, <- E5, Es. rewrite bool_decide_eq_true_2 by done.
  cbn [verify mbind outcome_bind csub_op.get_mul_op isa_state.get_mul_op].
  rewrite (si_src1 _ _ H), (si_src2 _ _ H). destruct o; same.
Qed.

Lemma div_agrees w : isa_state.op_unit s = op_unit.div ->
  both same_result (isa_model.execute_div s) (div.compute r w).
Proof using H Hv He.
  intros Hu. destruct entry_ok as (E1 & E2 & E3).
  pose proof (si_unit _ _ H Hv) as E. rewrite Hu in E.
  destruct (isa_state.sub_op s) as [| |o| | |] eqn:Es; cbn in E; try discriminate E.
  injection E as E4 E5. unfold isa_model.execute_div, div.compute, unit_stage.check_valid_unit.
  rewrite E1, E2, E3, <- E4, <- E5, Es. rewrite bool_decide_eq_true_2 by done.
  cbn [verify mbind outcome_bind csub_op.get_div_op isa_state.get_div_op].
  rewrite (si_src1 _ _ H), (si_src2 _ _ H). unfold div.result.
  destruct (si_words _ _ H). rewrite !u32_i32 by done. destruct o; same.
Qed.

(** The branch unit's [bru_next_pc] is the pc of the ISA model after the
    instruction. *)
Lemma bru_agrees f m : isa_state.op_unit s = op_unit.bru ->
  isa_model.pc m = add32 (isa_state.pc s) 4 ->
  (forall v, isa_model.csr_inst_read "mepc" m = Ok v <-> cycle_csrfile.read_sys bru.CSR_MEPC f = Ok v) ->
  match isa_model.execute_bru s m, bru.compute f r with
  | Ok sm, Ok w => same_result sm.1 w /\ execute_wb.bru_next_pc w = isa_model.pc sm.2
  | Ok _, _ => False
  | _, _ => True
  end.
Proof using H Hv He.
  intros Hu Hpc Hm. destruct entry_ok as (E1 & E2 & E3).
  pose proof (si_unit _ _ H Hv) as E. rewrite Hu in E.
  destruct (isa_state.sub_op s) as [|o| | | |] eqn:Es; cbn in E; try discriminate E.
  injection E as E4 E5. unfold isa_model.execute_bru, bru.compute, unit_stage.check_valid_unit.
  rewrite E1, E2, E3, <- E4, <- E5, Es. rewrite bool_decide_eq_true_2 by done.
  cbn [verify mbind outcome_bind csub_op.get_bru_op isa_state.get_bru_op].
  unfold bru.result. rewrite (si_src1 _ _ H), (si_src2 _ _ H), (sf_imm _ _ (si_fields _ _ H)),
    (si_pc _ _ H).
  destruct o; cbn [mbind outcome_bind].
  1-6: match goal with |- context [if ?b then _ else _] => destruct b end; (split; [same |]);
    by first [done | rewrite Hpc].
  1-2: split; [same | done].
  unfold isa_model.bru_mret. destruct (isa_model.csr_inst_read "mepc" m) as [v| | |]; try done.
  rewrite (proj1 (Hm v) eq_refl). cbn [mbind outcome_bind].
  destruct (isa_model.csr_inst_read "mstatus" m); try done. cbn [mbind outcome_bind].
  destruct (isa_model.csr_inst_write _ _ m); try done. cbn [mbind outcome_bind].
  split; [same | done].
Qed.

(** A CSR instruction reads the same value and refuses in the same cases; the
    write the unit asks for is the write the ISA model makes. *)
Lemma csr_agrees f bs m : isa_state.op_unit s = op_unit.csr ->
  same_file f (isa_model.csr_file m) (isa_model.csr_env m) ->
  match isa_model.execute_csr s m, csr_unit.compute f bs r with
  | Ok sm, Ok wb => same_result sm.1 wb.1 /\
      (execute_wb.has_exception wb.1 = false ->
       if execute_wb.csr_newvalue_valid wb.1
       then csrfile.write (isa_state.csr s) (execute_wb.csr_newvalue wb.1) (isa_model.csr_file m)
              (isa_model.csr_env m) = Ok (true, isa_model.csr_env sm.2)
       else isa_model.csr_env sm.2 = isa_model.csr_env m)
  | Ok _, _ => False
  | _, _ => True
  end.
Proof using H Hv He.
  intros Hu Hf. destruct entry_ok as (E1 & E2 & E3).
  pose proof (si_unit _ _ H Hv) as E. rewrite Hu in E.
  destruct (isa_state.sub_op s) as [| | | | |o] eqn:Es; cbn in E; try discriminate E.
  injection E as E4 E5. unfold isa_model.execute_csr, csr_unit.compute, unit_stage.check_valid_unit.
  rewrite E1, E2, E3, <- E4, <- E5. rewrite (bool_decide_eq_true_2 (cop_unit.csr = cop_unit.csr)) by done.
  destruct (si_regs _ _ H) as (Hr1 & Hrd & Hcsr).
  rewrite (same_read f _ _ _ Hcsr Hf), (sf_csr _ _ (si_fields _ _ H)).
  cbn [verify mbind outcome_bind csub_op.get_csr_op isa_state.get_csr_op].
  rewrite (si_rd _ _ H), (si_rs1 _ _ H), (sf_arg1 _ _ (si_fields _ _ H)).
  replace (negb (isa_state.rd s =? 0)) with (0 <? isa_state.rd s) by lia.
  replace (negb (bool_decide (isa_state.arg1_src s = arg_src.reg) &&
             negb (bool_decide (isa_state.arg1_src s = arg_src.reg) && (0 <? isa_state.rs1 s))))
    with (negb (bool_decide (isa_state.arg1_src s = arg_src.reg) && (isa_state.rs1 s =? 0))).
  2: { destruct (bool_decide _); cbn [andb]; lia. }
  destruct (_ && bool_decide (cycle_csrfile.read _ f = None)) eqn:Ex.
  { split; [same | done]. }
  set (v0 := default 0 _).
  lazymatch goal with |- context [isa_state.get_csr_op (isa_state.sub_op ?x)] => set (s' := x) end.
  change (isa_state.arg1_src s') with (isa_state.arg1_src s).
  change (isa_state.rs1 s') with (isa_state.rs1 s). change (isa_state.csr s') with (isa_state.csr s).
  change (isa_state.sub_op s') with (isa_state.sub_op s).
  change (isa_state.src1_value s') with (isa_state.src1_value s).
  destruct (negb (bool_decide (isa_state.arg1_src s = arg_src.reg) && _)) eqn:Ew.
  2: { split; [same | done]. }
  rewrite Es. cbn [mbind outcome_bind isa_state.get_csr_op].
  rewrite (si_src1 _ _ H).
  lazymatch goal with |- context [csr_unit.newvalue ?o ?a ?b] =>
    replace (csr_unit.newvalue o a b) with (isa_model.csr_newvalue o a b) by (symmetry; apply csr_newvalue_agrees) end.
  set (v := isa_model.csr_newvalue _ _ _).
  change (isa_model.csr_file (isa_model.csr_trigger _ _ _ m)) with (isa_model.csr_file m).
  change (isa_model.csr_env (isa_model.csr_trigger _ _ _ m)) with (isa_model.csr_env m).
  destruct (csrfile.write _ v _ _) as [[b e']| | |] eqn:Ewr; try done.
  assert (Hb : b = cycle_csrfile.write_check (isa_state.csr s) v f).
  { revert Ewr. unfold csrfile.write. rewrite (same_write_check f _ _ _ v Hcsr Hf).
    destruct (cycle_csrfile.write_check _ v f); cbn [negb]; intros E; inv_ok; congruence. }
  rewrite <- Hb. cbn [mbind outcome_bind fst snd].
  destruct b; cbn [negb]; (split; [same |]); [| done]. intros _. exact Ewr.
Qed.
End valid.
End units.

(** ** The divider's schedule *)
Section schedule.
Import div.
Abbreviation div_state := (div_t * handshake_dff_t rev_t * port_t wb_t)%type.

(** A cycle: the flushes it sees, and what register read hands over behind it. *)
Record div_event := mk_div_event {
  ev_bru : bru_feedback_t;
  ev_sau : sau_feedback_t;
  ev_commit_flush : bool;
  ev_push : option rev_t
}.
Implicit Types (e : div_event) (es : list div_event) (h : handshake_dff_t rev_t) (w : wb_t).
(** The flush an instruction of age [a] falls to. *)
Definition killed (a : age_t) e : bool :=
  ev_commit_flush e || squashed (ev_bru e) (ev_sau e) a.
Definition nothing_follows e : Prop := ev_push e = None.

Definition div_cycle e (st : div_state) : outcome (channel_t * div_state) :=
  let '(d, h, p) := st in
  '(c, d, h, p) ← run (ev_bru e) (ev_sau e) (ev_commit_flush e) d h p;
  let h := match ev_push e with Some r => (handshake_dff.push r h).2 | None => h end in
  Ok (c, (d, handshake_dff.sync h, port.sync p)).
(** What the bypass network and write back get, cycle by cycle. *)
Fixpoint div_cycles es (st : div_state) : outcome (list (channel_t * wb_t) * div_state) :=
  match es with
  | [] => Ok ([], st)
  | e :: es => cs ← div_cycle e st; ls ← div_cycles es cs.2;
               Ok ((cs.1, port.get cs.2.2) :: ls.1, ls.2)
  end.
Definition silent : channel_t * wb_t := (execute_feedback.init, execute_wb.init).

(** An empty handshake register that nobody has written. *)
Definition still h : Prop :=
  dff.get (handshake_dff.has_data h) = false /\ dff.get_new (handshake_dff.has_data h) = false.
Lemma still_empty h : still h -> handshake_dff.is_empty h = true.
Proof. intros [H _]. unfold handshake_dff.is_empty. by rewrite H. Qed.

(** One cycle of a divider that counts [n] for [w]. *)
Definition turns_to e (st : div_state) (out : channel_t * wb_t) (d : div_t) (ok : handshake_dff_t rev_t -> Prop) : Prop :=
  exists h p, div_cycle e st = Ok (out.1, (d, h, p)) /\ port.get p = out.2 /\ ok h.

Section counting.
Context (w : wb_t) (e : div_event) (h : handshake_dff_t rev_t) (p : port_t wb_t) (Hs : still h).

Lemma count_down n : (S n < 8)%nat -> killed (execute_wb.age w) e = false -> nothing_follows e ->
  turns_to e (mk w true (Z.of_nat (S n)), h, p) silent (mk w true (Z.of_nat n)) still.
Proof using Hs.
  intros Hn Hk Hp. apply orb_false_iff in Hk as [Hc Hk].
  unfold turns_to, div_cycle, run. rewrite Hc. cbn [negb busy progress orb].
  replace (Z.of_nat (S n) =? 0) with false by lia. cbn [mbind outcome_bind].
  unfold advance. cbn [progress send_pack busy]. rewrite Hk, Hp.
  replace (Z.of_nat (S n) =? 0) with false by lia. cbn [mbind outcome_bind].
  replace (sub32 (Z.of_nat (S n)) 1) with (Z.of_nat n)
    by (unfold sub32; rewrite u32_small by word_lia; lia).
  eexists _, _. split; [reflexivity |]. split; [done |]. by destruct Hs.
Qed.

(** The result comes out, whatever is handed over in this cycle. *)
Lemma deliver : killed (execute_wb.age w) e = false ->
  turns_to e (mk w true 0, h, p) (execute_wb.feedback w, w) (mk w false 0) (λ _, True).
Proof using Hs.
  intros Hk. apply orb_false_iff in Hk as [Hc Hk].
  unfold turns_to, div_cycle, run. rewrite Hc. cbn [negb busy progress orb Z.eqb].
  unfold accept. rewrite (still_empty h Hs). cbn [negb mbind outcome_bind].
  unfold advance. cbn [progress send_pack busy]. rewrite Hk. cbn [Z.eqb mbind outcome_bind].
  eexists _, _. split; [reflexivity |]. done.
Qed.

(** A flush frees the divider. *)
Lemma freed n : killed (execute_wb.age w) e = true ->
  turns_to e (mk w true n, h, p) silent (mk w false 0) (λ _, True).
Proof using Hs.
  intros Hk. unfold turns_to, div_cycle, run, killed in *.
  destruct (ev_commit_flush e); cbn [negb].
  { eexists _, _. split; [reflexivity |]. done. }
  cbn [busy progress orb negb] in *.
  assert (E : (if n =? 0 then accept (ev_bru e) (ev_sau e) (mk w true n) h
               else Ok (false, mk w true n, h)) = Ok (false, mk w true n, h)).
  { unfold accept. rewrite (still_empty h Hs). by destruct (n =? 0). }
  rewrite E. cbn [mbind outcome_bind busy]. unfold advance. cbn [send_pack]. rewrite Hk.
  eexists _, _. split; [reflexivity |]. by destruct (n =? 0).
Qed.

(** What a second instruction does that waits when the count is 0: it takes the
    place of [w], which never comes out. *)
Lemma overwritten h' r w' : handshake_dff.get_data h' = Some r -> compute r w = Ok w' ->
  killed (readreg_execute.age r) e = false -> execute_wb.age w' = readreg_execute.age r ->
  turns_to e (mk w true 0, h', p) silent (mk w' true 6) (λ _, True).
Proof using Type.
  intros Hg Hr Hk Ha. apply orb_false_iff in Hk as [Hc Hk].
  unfold turns_to, div_cycle, run. rewrite Hc. cbn [negb busy progress orb Z.eqb].
  unfold accept. unfold handshake_dff.get_data in Hg. unfold handshake_dff.pop.
  destruct (handshake_dff.is_empty h'); [done |]. injection Hg as Hg. cbn [negb fst snd].
  rewrite Hg. cbn [mbind outcome_bind send_pack]. rewrite Hk, Hr. cbn [mbind outcome_bind busy].
  unfold advance. cbn [send_pack progress busy]. rewrite Ha, Hk.
  eexists _, _. split; [reflexivity |]. done.
Qed.
End counting.

Lemma compute_age r s w : compute r s = Ok w -> execute_wb.age w = readreg_execute.age r.
Proof. unfold compute. destruct (enable r); intros H; inv_ok; done. Qed.

(** The first cycle: the instruction is taken and the count starts, or a flush
    hits it. *)
Section first.
Context (d : div_t) (h : handshake_dff_t rev_t) (p : port_t wb_t) (r : rev_t) (w : wb_t) (e : div_event).
Context (Hg : handshake_dff.get_data h = Some r) (Hw : compute r (send_pack d) = Ok w).
Context (Hb : busy d = false).

Lemma first_cycle : killed (readreg_execute.age r) e = false -> nothing_follows e ->
  turns_to e (d, h, p) silent (mk w true (Z.of_nat 6)) still.
Proof using Hg Hw Hb.
  intros Hk Hp. apply orb_false_iff in Hk as [Hc Hk].
  unfold turns_to, div_cycle, run. rewrite Hc, Hb, Hp. cbn [negb orb].
  unfold accept. unfold handshake_dff.get_data in Hg. unfold handshake_dff.pop.
  destruct (handshake_dff.is_empty h); [done |]. injection Hg as E. cbn [negb fst snd].
  rewrite E. cbn [mbind outcome_bind]. rewrite Hk, Hw. cbn [mbind outcome_bind busy].
  unfold advance. cbn [send_pack progress busy]. rewrite (compute_age _ _ _ Hw), Hk.
  eexists _, _. split; [reflexivity |]. done.
Qed.
Lemma first_killed : killed (readreg_execute.age r) e = true ->
  exists d', turns_to e (d, h, p) silent d' (λ _, True) /\ busy d' = false.
Proof using Hg Hb.
  intros Hk. unfold turns_to, div_cycle, run, killed in *.
  destruct (ev_commit_flush e); cbn [negb].
  { exists (mk (send_pack d) false 0). split; [| reflexivity]. eexists _, _. split; [reflexivity |]. done. }
  rewrite Hb. cbn [orb negb] in *. unfold accept. unfold handshake_dff.get_data in Hg.
  unfold handshake_dff.pop. destruct (handshake_dff.is_empty h); [done |]. injection Hg as E.
  cbn [negb fst snd]. rewrite E. cbn [mbind outcome_bind]. rewrite Hk. cbn [mbind outcome_bind].
  exists d. split; [| done]. eexists _, _. split; [reflexivity |]. done.
Qed.
End first.

Lemma div_cycles_app es es' st :
  div_cycles (es ++ es') st =
  (ls ← div_cycles es st; lt ← div_cycles es' ls.2; Ok (ls.1 ++ lt.1, lt.2)).
Proof.
  revert st. induction es as [|e es IH]; intros st; cbn [div_cycles app].
  { cbn. by destruct (div_cycles es' st) as [[]| | |]. }
  destruct (div_cycle e st) as [cs| | |]; cbn [mbind outcome_bind]; [| done..].
  rewrite IH. destruct (div_cycles es cs.2) as [ls| | |]; cbn [mbind outcome_bind]; [| done..].
  cbn [fst snd]. by destruct (div_cycles es' ls.2).
Qed.

(** Up to seven cycles without a flush of [r] and without another instruction. *)
Lemma under_way d h p r w es :
  handshake_dff.get_data h = Some r -> compute r (send_pack d) = Ok w -> busy d = false ->
  (0 < length es < 8)%nat ->
  Forall (λ e, killed (readreg_execute.age r) e = false) es -> Forall nothing_follows es ->
  exists h' p', still h' /\ div_cycles es (d, h, p) =
    Ok (replicate (length es) silent, (mk w true (Z.of_nat (7 - length es)), h', p')).
Proof.
  intros Hg Hw Hb. induction es as [|e es IH] using rev_ind; [cbn; lia |].
  rewrite length_app. cbn [length]. intros Hl Hk Hn.
  apply Forall_app in Hk as [Hk He]. apply Forall_cons in He as [He _].
  apply Forall_app in Hn as [Hn Hp]. apply Forall_cons in Hp as [Hp _].
  destruct es as [|e0 es].
  - destruct (first_cycle d h p r w e Hg Hw Hb He Hp) as (h' & p' & E & Hq & Hs).
    exists h', p'. split; [exact Hs |]. cbn [app div_cycles]. rewrite E.
    cbn [mbind outcome_bind fst snd]. by rewrite Hq.
  - destruct IH as (h1 & p1 & Hs1 & E1); [cbn in *; lia | done | done |].
    set (l := e0 :: es) in *. rewrite div_cycles_app, E1. cbn [mbind outcome_bind fst snd].
    rewrite <- (compute_age _ _ _ Hw) in He.
    replace (7 - length l)%nat with (S (7 - (length l + 1)))%nat by (cbn in *; lia).
    destruct (count_down w e h1 p1 Hs1 (7 - (length l + 1))%nat ltac:(cbn in *; lia) He Hp)
      as (h' & p' & E & Hq & Hs).
    exists h', p'. split; [exact Hs |]. cbn [div_cycles]. rewrite E. cbn [mbind outcome_bind fst snd].
    rewrite Hq, replicate_add. done.
Qed.

Lemma division_schedule d h p r w es e :
  handshake_dff.get_data h = Some r -> compute r (send_pack d) = Ok w -> busy d = false ->
  length es = 7%nat -> Forall (λ e, killed (readreg_execute.age r) e = false) (es ++ [e]) ->
  Forall nothing_follows es ->
  exists d' h' p', busy d' = false /\ div_cycles (es ++ [e]) (d, h, p) =
    Ok (replicate 7 silent ++ [(execute_wb.feedback w, w)], (d', h', p')).
Proof.
  intros Hg Hw Hb Hl Hk Hn. apply Forall_app in Hk as [Hk He]. apply Forall_cons in He as [He _].
  destruct (under_way d h p r w es Hg Hw Hb ltac:(lia) Hk Hn) as (h1 & p1 & Hs & E1).
  rewrite Hl in E1. rewrite <- (compute_age _ _ _ Hw) in He.
  destruct (deliver w e h1 p1 Hs He) as (h' & p' & E & Hq & _).
  exists (mk w false 0), h', p'. split; [done |]. rewrite div_cycles_app, E1.
  cbn [mbind outcome_bind fst snd div_cycles]. change (Z.of_nat (7 - 7)) with 0. rewrite E.
  cbn [mbind outcome_bind fst snd]. by rewrite Hq.
Qed.

Lemma division_freed d h p r w es e :
  handshake_dff.get_data h = Some r -> compute r (send_pack d) = Ok w -> busy d = false ->
  (length es < 8)%nat -> Forall (λ e, killed (readreg_execute.age r) e = false) es ->
  Forall nothing_follows es -> killed (readreg_execute.age r) e = true ->
  exists d' h' p', busy d' = false /\ div_cycles (es ++ [e]) (d, h, p) =
    Ok (replicate (S (length es)) silent, (d', h', p')).
Proof.
  intros Hg Hw Hb Hl Hk Hn He. destruct es as [|e0 es].
  - destruct (first_killed d h p r e Hg Hb He) as (d' & (h' & p' & E & Hq & _) & Hd).
    exists d', h', p'. split; [done |]. cbn [app div_cycles]. rewrite E.
    cbn [mbind outcome_bind fst snd]. by rewrite Hq.
  - destruct (under_way d h p r w (e0 :: es) Hg Hw Hb ltac:(cbn in *; lia) Hk Hn) as (h1 & p1 & Hs & E1).
    rewrite <- (compute_age _ _ _ Hw) in He.
    destruct (freed w e h1 p1 Hs (Z.of_nat (7 - length (e0 :: es))) He) as (h' & p' & E & Hq & _).
    exists (mk w false 0), h', p'. split; [done |]. rewrite div_cycles_app, E1.
    cbn [mbind outcome_bind fst snd div_cycles]. rewrite E. cbn [mbind outcome_bind fst snd].
    rewrite Hq. rewrite (replicate_S_end (length (e0 :: es))). done.
Qed.
End schedule.

(** ** What reaches the register file *)
Section writeback.
Context (bru sau : bru_feedback_t).

(** The packs that write: enabled, valid, renamed, without an exception and not
    squashed. *)
Definition writer (s : wb_t) : bool :=
  negb (squashed bru sau (execute_wb.age s)) && execute_wb.writes s.

Definition written_reg (s : wb_t) (x : phy_regfile.reg_t) : phy_regfile.reg_t :=
  phy_regfile.set_all (execute_wb.rd_value s) true (rob_id (execute_wb.base s))
    (rob_id_stage (execute_wb.base s)) false x.

Definition quiet_channel (s : wb_t) : channel_t :=
  if squashed bru sau (execute_wb.age s) then execute_feedback.init else execute_wb.feedback s.

Lemma write_one_spec s f :
  (writer s = true -> 0 <= rd_phy (execute_wb.base s) < zlen (phy_regfile.regs f) /\
                      rd_phy (execute_wb.base s) < phy_regfile.size f) ->
  exists f', wb.write_one bru sau s f = Ok (quiet_channel s, f') /\
    phy_regfile.size f' = phy_regfile.size f /\
    phy_regfile.regs f' =
      if writer s then alter (written_reg s) (Z.to_nat (rd_phy (execute_wb.base s)))
                         (phy_regfile.regs f)
      else phy_regfile.regs f.
Proof using Type.
  intros Hr. unfold wb.write_one, quiet_channel, writer in *.
  destruct (squashed _ _ _); cbn [negb andb] in *; [by eexists |].
  replace (execute_wb.enable s && execute_wb.valid s && negb (execute_wb.has_exception s) &&
           execute_wb.need_rename s) with (execute_wb.writes s).
  2: { unfold execute_wb.writes. by destruct (execute_wb.enable s), (execute_wb.valid s),
         (execute_wb.need_rename s), (execute_wb.has_exception s). }
  destruct (execute_wb.writes s); [| by eexists].
  destruct (Hr eq_refl) as [Hi Hs]. unfold phy_regfile.write, phy_regfile.update.
  replace (_ <? _) with true by lia. cbn [verify mbind outcome_bind].
  destruct (arr_get_ok (phy_regfile.regs f) (rd_phy (execute_wb.base s)) Hi) as [x Hx].
  rewrite Hx. cbn [mbind outcome_bind]. rewrite arr_set_ok by done. cbn [mbind outcome_bind].
  eexists. split; [done |]. split; [done |]. cbn.
  apply arr_get_Some in Hx as [_ Hx]. apply list_eq. intros i.
  destruct (decide (i = Z.to_nat (rd_phy (execute_wb.base s)))) as [-> | Hne].
  - rewrite list_lookup_alter_eq, Hx. rewrite list_lookup_insert_eq; [done |].
    unfold zlen in Hi. lia.
  - by rewrite list_lookup_alter_ne, list_lookup_insert_ne by done.
Qed.

(** What the ports do to one register: the last writer decides. *)
Definition writes_to (i : nat) (s : wb_t) : bool :=
  writer s && bool_decide (Z.to_nat (rd_phy (execute_wb.base s)) = i).
Definition last_writer (i : nat) (l : list wb_t) : option wb_t := last (filter (λ s, writes_to i s = true) l).

Lemma write_all_spec l f :
  Forall (λ s, writer s = true -> 0 <= rd_phy (execute_wb.base s) < zlen (phy_regfile.regs f) /\
                      rd_phy (execute_wb.base s) < phy_regfile.size f) l ->
  exists f', wb.write_all bru sau l f = Ok (quiet_channel <$> l, f') /\
    forall i x, phy_regfile.regs f !! i = Some x -> exists y, phy_regfile.regs f' !! i = Some y /\
      match last_writer i l with
      | Some s => phy_regfile.sync_reg y =
          phy_regfile.sync_reg (written_reg s x)
      | None => y = x
      end.
Proof using Type.
  revert f. induction l as [|s l IH]; intros f Hl.
  { exists f. split; [done |]. intros i x Hx. by exists x. }
  apply Forall_cons in Hl as [Hs Hl]. destruct (write_one_spec s f Hs) as (f1 & E1 & Hsz & Hregs).
  destruct (IH f1) as (f2 & E2 & H2).
  { eapply Forall_impl; [exact Hl |]. cbn. intros s' Hs' Hw. specialize (Hs' Hw).
    rewrite Hsz, Hregs. unfold zlen in *. destruct (writer s); rewrite ?length_alter; lia. }
  exists f2. cbn [wb.write_all fmap list_fmap]. rewrite E1. cbn [mbind outcome_bind fst snd].
  rewrite E2. split; [done |]. intros i x Hx.
  assert (H1 : phy_regfile.regs f1 !! i =
    Some (if writes_to i s then written_reg s x else x)).
  { rewrite Hregs. unfold writes_to. destruct (writer s); cbn [andb]; [| done].
    case_bool_decide as Hd.
    - subst i. by rewrite list_lookup_alter_eq, Hx.
    - by rewrite list_lookup_alter_ne. }
  destruct (H2 i _ H1) as (y & Hy & Hlast). exists y. split; [done |].
  unfold last_writer. rewrite filter_cons. destruct (writes_to i s) eqn:Ew.
  - rewrite decide_True by done. rewrite last_cons. unfold last_writer in Hlast.
    destruct (last _); [| by rewrite Hlast]. rewrite Hlast. done.
  - rewrite decide_False by congruence. done.
Qed.
End writeback.

(** ** All units *)
Lemma same_mepc f m : same_file f (isa_model.csr_file m) (isa_model.csr_env m) ->
  csrfile.csr_map_table (isa_model.csr_file m) !! bru.CSR_MEPC = Some (csrfile.mk_item false "mepc") ->
  forall v, isa_model.csr_inst_read "mepc" m = Ok v <-> cycle_csrfile.read_sys bru.CSR_MEPC f = Ok v.
Proof.
  intros Hf Hm v. pose proof (same_read f _ _ bru.CSR_MEPC ltac:(decide_closed) Hf) as E.
  unfold csrfile.read, csrfile.enabled, csrfile.item in E. rewrite Hm in E.
  unfold cycle_csrfile.read_sys, cycle_csrfile.found, cycle_csrfile.item.
  unfold cycle_csrfile.read in E. unfold isa_model.csr_inst_read.
  change (csrfile.table_size <=? bru.CSR_MEPC) with false in E.
  cbn [orb negb of_option mbind outcome_bind csrfile.csr] in E. revert E.
  destruct (csr_env.read "mepc" (isa_model.csr_env m)); cbn [mbind outcome_bind]; intros E;
    try discriminate E. injection E as E.
  destruct (cycle_csrfile.csr_map_table f !! bru.CSR_MEPC) as [c|]; [| discriminate E].
  injection E as ->. rewrite bool_decide_eq_true_2 by eauto. done.
Qed.

(** What an instruction does besides its result: the pc after a branch, the
    CSR write that is left to commit. *)
Definition same_effect (s : isa_state_t) (m m' : isa_model_t) (w : wb_t) : Prop :=
  match isa_state.op_unit s with
  | op_unit.bru => execute_wb.bru_next_pc w = isa_model.pc m'
  | op_unit.csr =>
      execute_wb.has_exception w = false ->
      if execute_wb.csr_newvalue_valid w
      then csrfile.write (isa_state.csr s) (execute_wb.csr_newvalue w) (isa_model.csr_file m)
             (isa_model.csr_env m) = Ok (true, isa_model.csr_env m')
      else isa_model.csr_env m' = isa_model.csr_env m
  | _ => m' = m
  end.

Lemma unit_op s r u : same_inst s r -> isa_state.op_unit s = u -> u <> op_unit.lsu ->
  decode_rename.op_unit (uop r) =
  match u with
  | op_unit.alu => cop_unit.alu | op_unit.bru => cop_unit.bru | op_unit.csr => cop_unit.csr
  | op_unit.div => cop_unit.div | op_unit.mul => cop_unit.mul | op_unit.lsu => cop_unit.lu
  end.
Proof.
  intros H Hu Hn. destruct (isa_state.valid s) eqn:Ev.
  - pose proof (si_unit _ _ H Ev) as E. rewrite Hu in E.
    destruct u; try done; destruct (isa_state.sub_op s); cbn in E; try discriminate E;
      injection E as E1 E2; by rewrite <- E1.
  - destruct (si_illegal _ _ H Ev) as [E1 ->]. rewrite Hu in E1. by rewrite E1.
Qed.

Lemma units_agree s r m f bs :
  same_inst s r -> isa_state.op_unit s <> op_unit.lsu ->
  (isa_state.op_unit s <> op_unit.alu -> isa_state.has_exception s = false) ->
  same_file f (isa_model.csr_file m) (isa_model.csr_env m) ->
  csrfile.csr_map_table (isa_model.csr_file m) !! bru.CSR_MEPC = Some (csrfile.mk_item false "mepc") ->
  isa_model.pc m = add32 (isa_state.pc s) 4 ->
  match isa_model.dispatch s m, cycle_execute f bs r with
  | Ok sm, Ok w => same_result sm.1 w /\ same_effect s m sm.2 w
  | Ok _, _ => False
  | _, _ => True
  end.
Proof.
  intros H Hlsu Hexc Hf Hm Hpc. unfold isa_model.dispatch, cycle_execute, same_effect.
  assert (Hv : isa_state.op_unit s <> op_unit.alu -> isa_state.valid s = true).
  { intros Hn. destruct (isa_state.valid s) eqn:Ev; [done |].
    by destruct (si_illegal _ _ H Ev) as [? _]. }
  rewrite (unit_op s r _ H eq_refl Hlsu).
  destruct (isa_state.op_unit s) eqn:Eu; cbn [mbind outcome_bind].
  - pose proof (alu_agrees s r H Eu) as Ha.
    destruct (isa_model.execute_alu s), (alu.compute r); cbn; done.
  - apply (bru_agrees s r H (Hv ltac:(done)) (Hexc ltac:(done)) f m Eu Hpc). by apply same_mepc.
  - pose proof (csr_agrees s r H (Hv ltac:(done)) (Hexc ltac:(done)) f bs m Eu Hf) as Hc.
    destruct (isa_model.execute_csr s m), (csr_unit.compute f bs r); cbn; done.
  - pose proof (div_agrees s r H (Hv ltac:(done)) (Hexc ltac:(done)) execute_wb.init Eu) as Ha.
    destruct (isa_model.execute_div s), (div.compute r execute_wb.init); cbn; done.
  - pose proof (mul_agrees s r H (Hv ltac:(done)) (Hexc ltac:(done)) Eu) as Ha.
    destruct (isa_model.execute_mul s), (mul.compute r); cbn; done.
  - done.
Qed.
