(* ===== verification/CycleExecProps.v ===== *)
(** * Theorems on the execute units, write back and the load/store queues *)

From S2P Require Import Prelude Word Ops IsaDecode IsaBus IsaModel Csr Breakpoint Dff.
From S2P Require Import Fifo FifoSpec FifoWindow Rat AgeSpec CycleDecode CycleDecodeSpec.
From S2P Require Import CyclePack CycleCsr CycleExec CycleExecSpec LoadStore LoadStoreSpec.

Import readreg_execute.

(** ** Execute units *)

(** ** C9
    The execute units agree with the ISA model: on the same instruction with
    the same operands and the same CSRs, whenever the ISA model executes it,
    the unit of the cycle model computes the same destination value and raises
    the same exception; a branch unit's [bru_next_pc] is the next pc of the ISA
    model, and a CSR instruction asks commit for exactly the CSR write that the
    ISA model makes. *)
Theorem execute_agrees s r m f bs :
  same_inst s r -> isa_state.op_unit s <> op_unit.lsu ->
  (isa_state.op_unit s <> op_unit.alu -> isa_state.has_exception s = false) ->
  same_file f (isa_model.csr_file m) (isa_model.csr_env m) ->
  csrfile.csr_map_table (isa_model.csr_file m) !! bru.CSR_MEPC = Some (csrfile.mk_item false "mepc") ->
  isa_model.pc m = add32 (isa_state.pc s) 4 ->
  match isa_model.dispatch s m, cycle_execute f bs r with
  | Ok sm, Ok w => same_result sm.1 w /\ same_effect s m sm.2 w
  | Ok _, _ => False
  | _, _ => True
  end.
Proof. apply units_agree. Qed.

(** [csrrs x1, mscratch, x2] with 5 in [mscratch] and 2 in [x2]. *)
Definition two_csrs : list (Z * bool * csr_base_t) :=
  [ (0x340, false, csr_base.new "mscratch" csr_base.plain 5);
    (0x341, false, csr_base.new "mepc" csr_base.mepc 0) ].
Definition isa_csrs : csrfile_t * csr_env_t :=
  match map_all two_csrs (csrfile.new, csr_env.mk ∅ [] []) with
  | Ok x => x | _ => (csrfile.new, csr_env.mk ∅ [] []) end.
Definition cycle_csrs : cycle_csrfile_t :=
  match cycle_map_all two_csrs (cycle_csrfile.new [] []) with
  | Ok x => x | _ => cycle_csrfile.new [] [] end.
Definition demo_machine : isa_model_t :=
  isa_model.mk 0 0 0 0 0 0 0x80000004 0 bus.new isa_csrs.1 interrupt_interface.new (regfile.new 32)
    (slave_base.mk (memory._init 0) clint.new) isa_csrs.2 breakpoint.init.
Definition csr_inst : isa_state_t :=
  { isa_state.init with isa_state.valid := true; isa_state.pc := 0x80000000; isa_state.rs1 := 2;
      isa_state.src1_value := 2; isa_state.arg2_src := arg_src.disable; isa_state.rd := 1;
      isa_state.rd_enable := true; isa_state.csr := 0x340; isa_state.op := op.csrrs;
      isa_state.op_unit := op_unit.csr; isa_state.sub_op := isa_state.sub_csr_op csr_op.csrrs }.
Definition csr_pack : rev_t :=
  { readreg_execute.init with
      uop := { decode_rename.init with decode_rename.enable := true; decode_rename.valid := true;
        decode_rename.pc := 0x80000000; decode_rename.rs1 := 2; decode_rename.rs1_need_map := true;
        decode_rename.arg2_src := arg_src.disable; decode_rename.rd := 1;
        decode_rename.rd_enable := true; decode_rename.need_rename := true;
        decode_rename.csr := 0x340; decode_rename.op := op.csrrs;
        decode_rename.op_unit := cop_unit.csr; decode_rename.sub_op := sub_csr_op csr_op.csrrs };
      src1_value := 2 }.
Lemma two_csrs_same : same_file cycle_csrs isa_csrs.1 isa_csrs.2.
Proof.
  split; [| done | done]. intros addr _.
  destruct (decide (addr = 0x341)) as [-> |]; [eexists; by split_and! |].
  destruct (decide (addr = 0x340)) as [-> |]; [eexists; by split_and! |].
  assert (E1 : cycle_csrfile.csr_map_table cycle_csrs =
    <[0x341 := cycle_csrfile.mk_item false (cycle_csr.new "mepc" csr_base.mepc 0)]>
    (<[0x340 := cycle_csrfile.mk_item false (cycle_csr.new "mscratch" csr_base.plain 5)]> ∅))
    by reflexivity.
  assert (E2 : csrfile.csr_map_table isa_csrs.1 =
    <[0x341 := csrfile.mk_item false "mepc"]> (<[0x340 := csrfile.mk_item false "mscratch"]> ∅))
    by reflexivity.
  by rewrite E1, E2, !lookup_insert_ne, !lookup_empty by done.
Qed.

Lemma execute_agrees_witness :
  same_inst csr_inst csr_pack /\
  match isa_model.dispatch csr_inst demo_machine, cycle_execute cycle_csrs breakpoint.init csr_pack with
  | Ok sm, Ok w => same_result sm.1 w /\ same_effect csr_inst demo_machine sm.2 w
  | Ok _, _ => False
  | _, _ => True
  end /\
  match cycle_execute cycle_csrs breakpoint.init csr_pack with
  | Ok w => execute_wb.rd_value w = 5 /\ execute_wb.csr_newvalue w = 7
  | _ => False
  end.
Proof.
  assert (H : same_inst csr_inst csr_pack).
  { split; try done; try split_and!; try done; decide_closed. }
  split; [exact H |]. split; [| done].
  apply (execute_agrees csr_inst csr_pack demo_machine cycle_csrs breakpoint.init H);
    [done | done | exact two_csrs_same | done | done].
Defined.

(** ** C34
    The divider takes [DIV_LATENCY] cycles.  Let an idle divider find an
    instruction, and let register read hand over no other one in the first seven
    cycles (one that waits when the count ends would overwrite the result).
    When no flush hits the instruction, whatever else the flushes of these
    cycles hit, the divider sends nothing for seven cycles, sends the quotient
    or remainder to write back and the bypass network in the eighth, and is idle
    again.  When a flush hits it in one of the eight cycles, nothing is ever
    sent and the divider is idle from then on. *)
Theorem division_latency d h p r w es e :
  handshake_dff.get_data h = Some r -> div.compute r (div.send_pack d) = Ok w -> div.busy d = false ->
  Forall (λ e, killed (readreg_execute.age r) e = false) es -> Forall nothing_follows es ->
  (S (length es) <= Z.to_nat div.DIV_LATENCY)%nat ->
  (killed (readreg_execute.age r) e = false -> S (length es) = Z.to_nat div.DIV_LATENCY ->
   exists d' h' p', div.busy d' = false /\ div_cycles (es ++ [e]) (d, h, p) =
     Ok (replicate 7 silent ++ [(execute_wb.feedback w, w)], (d', h', p'))) /\
  (killed (readreg_execute.age r) e = true ->
   exists d' h' p', div.busy d' = false /\ div_cycles (es ++ [e]) (d, h, p) =
     Ok (replicate (S (length es)) silent, (d', h', p'))).
Proof.
  intros Hg Hw Hb Hk Hn Hl. change (Z.to_nat div.DIV_LATENCY) with 8%nat in *. split; intros He.
  - intros H8. apply (division_schedule d h p r w es e); try done; [lia |].
    apply Forall_app. split; [done |]. by repeat constructor.
  - by apply (division_freed d h p r w es e).
Qed.

(** [rem x0, x0, x0]-like pack with -7 and 2: the remainder is -1. *)
Definition rem_pack : rev_t :=
  { readreg_execute.init with
      uop := { decode_rename.init with decode_rename.enable := true; decode_rename.valid := true;
        decode_rename.need_rename := true; decode_rename.op := op.rem;
        decode_rename.op_unit := cop_unit.div; decode_rename.sub_op := sub_div_op div_op.rem };
      src1_value := 0xFFFFFFF9; src2_value := 2; rd_phy := 40 }.
Definition rem_wb : wb_t := unit_stage.set_rd_value 0xFFFFFFFF (execute_wb.of_rev rem_pack).
Definition rem_hdff : handshake_dff_t rev_t :=
  handshake_dff.sync (handshake_dff.push rem_pack
    (handshake_dff.sync (handshake_dff.new readreg_execute.init))).2.
(** Eight cycles in which a branch squashes younger instructions; and the same
    with a flush by commit in the fourth. *)
Definition young_flush : div_event :=
  mk_div_event (flush_feedback.mk true 1 false 0) flush_feedback.init false None.
Definition commit_flush : div_event :=
  mk_div_event flush_feedback.init flush_feedback.init true None.
Lemma division_latency_witness :
  (exists d' h' p', div.busy d' = false /\
     div_cycles (replicate 7 young_flush ++ [young_flush]) (div.new, rem_hdff, port.new execute_wb.init) =
       Ok (replicate 7 silent ++ [(execute_feedback.mk true 40 0xFFFFFFFF 0 false, rem_wb)], (d', h', p'))) /\
  (exists d' h' p', div.busy d' = false /\
     div_cycles (replicate 3 young_flush ++ [commit_flush]) (div.new, rem_hdff, port.new execute_wb.init) =
       Ok (replicate 4 silent, (d', h', p'))).
Proof.
  split.
  - apply (division_latency div.new rem_hdff (port.new execute_wb.init) rem_pack rem_wb
      (replicate 7 young_flush) young_flush);
      [reflexivity | reflexivity | reflexivity | apply Forall_replicate; reflexivity | apply Forall_replicate; reflexivity | vm_compute; lia | reflexivity | reflexivity].
  - apply (division_latency div.new rem_hdff (port.new execute_wb.init) rem_pack rem_wb
      (replicate 3 young_flush) commit_flush);
      [reflexivity | reflexivity | reflexivity | apply Forall_replicate; reflexivity | apply Forall_replicate; reflexivity | vm_compute; lia | reflexivity].
Defined.

(** ** C37
    Write back: the register file receives the results of exactly the packs
    that are enabled, valid, renamed, free of exceptions and not squashed by a
    flush, as valid values with the age of their instruction; a register two
    ports write gets the later port's value, every other register keeps its
    contents, and no check fails when those packs name registers of the file. *)
Theorem write_back bru sau (ports : list (port_t wb_t)) f :
  Forall (λ s, writer bru sau s = true ->
            0 <= rd_phy (execute_wb.base s) < zlen (phy_regfile.regs f) /\
            rd_phy (execute_wb.base s) < phy_regfile.size f) (port.get <$> ports) ->
  exists f', wb.run bru sau false ports f = Ok (quiet_channel bru sau <$> (port.get <$> ports), f') /\
    forall i x, phy_regfile.regs f !! i = Some x -> exists y, phy_regfile.regs f' !! i = Some y /\
      match last_writer bru sau i (port.get <$> ports) with
      | Some s => phy_regfile.sync_reg y = phy_regfile.sync_reg (written_reg s x)
      | None => y = x
      end.
Proof. apply write_all_spec. Qed.

Lemma write_back_witness :
  exists f', wb.run flush_feedback.init flush_feedback.init false
      [port.new execute_wb.init; port.new rem_wb] (phy_regfile.new 64) =
      Ok ([execute_feedback.init; execute_feedback.mk true 40 0xFFFFFFFF 0 false], f') /\
    exists y, phy_regfile.regs f' !! 40%nat = Some y /\
      dff.get (phy_regfile.reg_data (phy_regfile.sync_reg y)) = 0xFFFFFFFF /\
      dff.get (phy_regfile.reg_data_valid (phy_regfile.sync_reg y)) = true.
Proof.
  destruct (write_back flush_feedback.init flush_feedback.init
    [port.new execute_wb.init; port.new rem_wb] (phy_regfile.new 64)) as (f' & E & Hr).
  - repeat constructor; decide_closed.
  - exists f'. split; [exact E |].
    destruct (Hr 40%nat _ eq_refl) as (y & Hy & Hw). exists y. split; [exact Hy |].
    change (last_writer _ _ _ _) with (Some rem_wb) in Hw. cbv beta iota in Hw. rewrite Hw. done.
Defined.

(** ** Loads and stores *)

(** ** C21
    Store-to-load forwarding: a load of 1, 2 or 4 bytes that asks the store
    buffer is turned away exactly when an older store to one of its bytes has
    its address but not yet its data.  Otherwise merging the answer with any
    word [v] read from memory gives, byte by byte, the byte of the youngest
    older store that covers the address, and [v]'s byte where there is none;
    younger stores are not seen. *)
Theorem store_forwarding rsz n addr size s R (l : list (Z * store_buffer.entry_t)) v :
  0 < rsz -> 1 <= size <= 4 -> 0 <= addr -> addr + size < two32 -> is_u32 v ->
  sb_window s R l.*2 -> Forall (stored_ok rsz n) l ->
  match store_buffer.get_feedback_value addr size (ptr rsz n) (stg rsz n) s with
  | Ok (Some (value, mask)) =>
      Forall (λ me, unresolved n addr size me = false) l /\
      forall k, 0 <= k < size ->
        byte_of (Z.lor (Z.land v (not32 mask)) value) k =
        default (byte_of v k) (forwarded n l (addr + k))
  | Ok None => Exists (λ me, unresolved n addr size me = true) l
  | _ => False
  end.
Proof.
  intros Hrsz Hsize Ha Hend Hv Hw Hl.
  rewrite (get_feedback_scan s R _ addr size _ _ Hw).
  pose proof (scan_feedback rsz n addr size Hrsz Hsize Ha Hend l Hl) as Hs.
  change (age_compare.mk (ptr rsz n) (stg rsz n)) with (age_at rsz n).
  destruct (scan_list _ 0 _ _) as [[value mask] | u]; [| exact Hs].
  destruct Hs as [Hno Hacc]. split; [exact Hno |]. intros k Hk.
  apply (overlay_byte addr size Hsize _ _ v k Hacc Hv Hk). apply forwarded_range.
Qed.

(** Stores of a word to 100 and of a byte to 101, older than a load of the word
    at 100. *)
Definition store_item (m d : Z) : store_buffer.item_t :=
  { store_buffer.item_init with store_buffer.data_valid := true; store_buffer.data := d;
      store_buffer.rob_id := m }.
Definition store_entry (m a z d : Z) : store_buffer.entry_t :=
  store_buffer.mk_entry (store_item m d) true a z.
Definition two_stores : store_buffer_t :=
  match
    s ← Ok (store_buffer.sync (store_buffer.new 4));
    xf ← fifo.push (store_item 1 0x11223344) (store_buffer.base s);
    s ← store_buffer.write_addr 0 100 4 true { s with store_buffer.base := xf.2 };
    xf ← fifo.push (store_item 2 0xAA) (store_buffer.base s);
    store_buffer.write_addr 1 101 1 true { s with store_buffer.base := xf.2 }
  with Ok s => s | _ => store_buffer.new 4 end.
Definition two_entries : list (Z * store_buffer.entry_t) :=
  [(1, store_entry 1 100 4 0x11223344); (2, store_entry 2 101 1 0xAA)].

Lemma two_stores_window : sb_window two_stores 0 two_entries.*2.
Proof.
  split.
  - split; try decide_closed; try (split; decide_closed).
    intros k x Hk. destruct k as [|[|k]]; [injection Hk as <- ..| discriminate].
    all: eexists; split; [reflexivity | done].
  - split_and!; decide_closed.
  - intros k e Hk. destruct k as [|[|k]]; [injection Hk as <- ..| discriminate].
    all: split_and!; reflexivity.
Qed.

Lemma store_forwarding_witness :
  exists value mask,
    store_buffer.get_feedback_value 100 4 3 false two_stores = Ok (Some (value, mask)) /\
    (forall k, 0 <= k < 4 -> byte_of (Z.lor (Z.land 0 (not32 mask)) value) k =
       default (byte_of 0 k) (forwarded 3 two_entries (100 + k))) /\
    forwarded 3 two_entries 101 = Some 0xAA /\ forwarded 3 two_entries 102 = Some 0x22.
Proof.
  assert (Hl : Forall (stored_ok 64 3) two_entries).
  { repeat constructor; try done; intros _; split_and!; done. }
  pose proof (store_forwarding 64 3 100 4 two_stores 0 two_entries 0 eq_refl ltac:(lia) ltac:(lia)
    eq_refl ltac:(done) two_stores_window Hl) as H.
  change (ptr 64 3) with 3 in H. change (stg 64 3) with false in H.
  assert (E : store_buffer.get_feedback_value 100 4 3 false two_stores =
    Ok (Some (0x1122AA44, 0xFFFFFFFF))) by reflexivity.
  rewrite E in H. exists 0x1122AA44, 0xFFFFFFFF. split; [exact E |]. split; [apply H | done].
Defined.

(** ** C28
    Memory order violations: when the address of a store becomes known, the
    search of the load queue finds the first load in the queue that is younger,
    has read its data and overlaps the store, with its position and stage bit,
    and finds none exactly when there is none. *)
Theorem load_violation rsz n saddr ssize s R (l : list (Z * load_queue.item_t)) :
  0 < rsz -> 1 <= ssize <= 4 -> 0 <= saddr -> saddr + ssize < two32 ->
  window (load_queue.base s) R l.*2 -> Forall (loaded_ok rsz n) l ->
  exists r, load_queue.get_conflict_item saddr ssize (ptr rsz n) (stg rsz n) s = Ok r /\
    match r with
    | None => Forall (λ mi, violates n saddr ssize mi = false) l
    | Some (id, stage, i) => exists j m,
        l !! j = Some (m, i) /\ violates n saddr ssize (m, i) = true /\
        (forall j' mi, (j' < j)%nat -> l !! j' = Some mi -> violates n saddr ssize mi = false) /\
        id = ptr (fifo.size (load_queue.base s)) (R + Z.of_nat j) /\
        stage = stg (fifo.size (load_queue.base s)) (R + Z.of_nat j)
    end.
Proof.
  intros Hrsz Hs Ha He Hw Hl. eexists.
  split; [exact (get_conflict_spec rsz n saddr ssize Hrsz Hs Ha He s R l Hw Hl) |].
  unfold first_violation. destruct (list_find _ l) as [[j [m i]]|] eqn:Ef; cbn.
  - apply list_find_Some in Ef as (Hj & Hv & Hbefore). exists j, m. split_and!; try done.
    intros j' mi Hlt Hj'. apply not_true_is_false. by apply (Hbefore j' mi).
  - apply list_find_None in Ef. eapply Forall_impl; [exact Ef |]. intros mi H.
    by apply not_true_is_false.
Qed.

(** The loads 4 and 5 have read the words at 100 and 104; store 3 writes the
    byte 105. *)
Definition load_item (m a : Z) : load_queue.item_t :=
  load_queue.mk_item true 0 m false a 4 false 0.
Definition two_loads : load_queue_t :=
  match
    s ← Ok (load_queue.sync (load_queue.new 4));
    xf ← fifo.push (load_item 4 100) (load_queue.base s);
    xf ← fifo.push (load_item 5 104) xf.2;
    Ok { s with load_queue.base := xf.2 }
  with Ok s => s | _ => load_queue.new 4 end.
Lemma load_violation_witness :
  exists r, load_queue.get_conflict_item 105 1 3 false two_loads = Ok r /\
    r = Some (1, false, load_item 5 104).
Proof.
  assert (Hw : window (load_queue.base two_loads) 0 [load_item 4 100; load_item 5 104]).
  { split; try decide_closed; try (split; decide_closed).
    intros k x Hk. destruct k as [|[|k]]; [injection Hk as <- ..| discriminate].
    all: eexists; split; [reflexivity | done]. }
  destruct (load_violation 64 3 105 1 two_loads 0 [(4, load_item 4 100); (5, load_item 5 104)]
    eq_refl ltac:(lia) ltac:(lia) eq_refl Hw) as (r & E & _).
  { repeat constructor; try done; intros _; split_and!; done. }
  exists r. split; [exact E |].
  assert (E2 : load_queue.get_conflict_item 105 1 3 false two_loads = Ok (Some (1, false, load_item 5 104)))
    by reflexivity.
  change (load_queue.get_conflict_item 105 1 (ptr 64 3) (stg 64 3) two_loads) with
    (load_queue.get_conflict_item 105 1 3 false two_loads) in E. congruence.
Defined.
