(* ===== verification/Predict.v ===== *)
(** * Branch predictors of the cycle model

    include/cycle_model/component/branch_predictor_base.h, branch_predictor/
    (bi_mode.h, bi_modal.h, l0_btb.h, l1_btb.h) and branch_predictor_set.h.

    The virtual functions of [branch_predictor_base] are the class
    [branch_predictor], the four predictors its instances.  The base class keeps
    a queue of requests, which [sync] serves at the end of the cycle; a
    predictor with its queue is [with_requests].  Fixed-size arrays are lists,
    [arr_get] and [arr_set] say when an access is out of range. *)

From S2P Require Import Prelude Word Dff Ops IsaDecode Rat CycleDecode CyclePack.

Definition FETCH_WIDTH : Z := 4.

Class branch_predictor (P : Type) := {
  bp_reset : P -> P;
  bp_update : Z -> bool -> Z -> bool -> bp_info.pack_t -> P -> outcome P;
  bp_speculative_update : Z -> bool -> P -> P;
  bp_bru_speculative_update : Z -> bool -> Z -> bool -> bp_info.pack_t -> P -> P;
  bp_predict : Z -> Z -> Z -> P -> outcome P;
  bp_get_next_pc : Z -> P -> outcome Z;
  bp_is_jump : Z -> P -> outcome bool;
  bp_fill_info_pack : bp_info.pack_t -> P -> bp_info.pack_t;
  bp_restore : bp_info.pack_t -> P -> P;
  (** the flip-flops among the members *)
  bp_clock : P -> P
}.

(** ** Requests: [sync_request_t] *)
Module bp_request.
Inductive request_t :=
| update (pc : Z) (jump : bool) (next_pc : Z) (hit : bool) (bp_pack : bp_info.pack_t)
| speculative_update (pc : Z) (jump : bool)
| bru_speculative_update (pc : Z) (jump : bool) (next_pc : Z) (hit : bool) (bp_pack : bp_info.pack_t)
| restore (bp_pack : bp_info.pack_t).
End bp_request.

Record with_requests (P : Type) := mk_with { sync_request_q : list bp_request.request_t; impl : P }.
Arguments mk_with {P} _ _.
Arguments sync_request_q {P} _.
Arguments impl {P} _.

Module branch_predictor_base.
Section base.
Context {P : Type} {predictor : branch_predictor P}.
Implicit Type b : with_requests P.

Definition request (r : bp_request.request_t) (b : with_requests P) : with_requests P :=
  mk_with (sync_request_q b ++ [r]) (impl b).
Definition update_sync (pc : Z) (jump : bool) (next_pc : Z) (hit : bool) (bp_pack : bp_info.pack_t) :
  with_requests P -> with_requests P := request (bp_request.update pc jump next_pc hit bp_pack).
Definition speculative_update_sync (pc : Z) (jump : bool) : with_requests P -> with_requests P :=
  request (bp_request.speculative_update pc jump).
Definition bru_speculative_update_sync (pc : Z) (jump : bool) (next_pc : Z) (hit : bool)
    (bp_pack : bp_info.pack_t) : with_requests P -> with_requests P :=
  request (bp_request.bru_speculative_update pc jump next_pc hit bp_pack).
Definition restore_sync (bp_pack : bp_info.pack_t) : with_requests P -> with_requests P :=
  request (bp_request.restore bp_pack).

(** The [switch] of [sync], and its loop: no predictor adds a request. *)
Definition serve (r : bp_request.request_t) (p : P) : outcome P :=
  match r with
  | bp_request.update pc jump next_pc hit bp_pack => bp_update pc jump next_pc hit bp_pack p
  | bp_request.speculative_update pc jump => Ok (bp_speculative_update pc jump p)
  | bp_request.bru_speculative_update pc jump next_pc hit bp_pack =>
      Ok (bp_bru_speculative_update pc jump next_pc hit bp_pack p)
  | bp_request.restore bp_pack => Ok (bp_restore bp_pack p)
  end.
Fixpoint serve_all (q : list bp_request.request_t) (p : P) : outcome P :=
  match q with
  | [] => Ok p
  | r :: q => p ← serve r p; serve_all q p
  end.
Definition sync (b : with_requests P) : outcome (with_requests P) :=
  p ← serve_all (sync_request_q b) (impl b); Ok (mk_with [] p).
Definition predict (port pc inst : Z) (b : with_requests P) : outcome (with_requests P) :=
  p ← bp_predict port pc inst (impl b); Ok (mk_with (sync_request_q b) p).
Definition reset (b : with_requests P) : with_requests P :=
  mk_with (sync_request_q b) (bp_reset (impl b)).
Definition clock (b : with_requests P) : with_requests P :=
  mk_with (sync_request_q b) (bp_clock (impl b)).
End base.
End branch_predictor_base.

(** A two-bit counter. *)
Definition train (jump : bool) (c : Z) : Z :=
  if jump then (if c <? 3 then add32 c 1 else c) else (if 0 <? c then sub32 c 1 else c).
Definition train_at (i : Z) (jump : bool) (t : list Z) : outcome (list Z) :=
  c ← arr_get t i; arr_set t i (train jump c).

(** [imm_b] of the two direction predictors and the branch target. *)
Definition branch_imm (inst : Z) : Z :=
  Z.lor (Z.lor (Z.lor (shl32 (Z.land (Z.shiftr inst 8) 0x0f) 1)
                      (shl32 (Z.land (Z.shiftr inst 25) 0x3f) 5))
               (shl32 (Z.land (Z.shiftr inst 7) 0x01) 11))
        (shl32 (Z.land (Z.shiftr inst 31) 0x01) 12).
Definition branch_target (pc inst : Z) : outcome Z :=
  i ← sign_extend (branch_imm inst) 13; Ok (add32 pc i).

(** ** Bi-mode predictor *)
Module bi_mode.
Definition BI_MODE_PHT_SIZE : Z := 65536.
Definition BI_MODE_PHT_CHOICE_ADDR_MASK : Z := 63.
Definition BI_MODE_BRANCH_PC_MASK : Z := 65535.
Definition BI_MODE_GLOBAL_HISTORY_MASK : Z := 65535.

Record bi_mode_t := mk {
  predict_next_pc : list (dff_t Z);
  predict_jump : list (dff_t bool);
  global_history : Z;
  global_history_retired : Z;
  pht_left : list Z;
  pht_right : list Z;
  pht_choice : list Z
}.

Definition pht_addr (history pc : Z) : Z :=
  Z.lxor history (Z.land (Z.shiftr pc 2) BI_MODE_BRANCH_PC_MASK).
Definition pht_choice_addr (pc : Z) : Z := Z.land (Z.shiftr pc 2) BI_MODE_PHT_CHOICE_ADDR_MASK.
Definition shift_in (history : Z) (jump : bool) : Z :=
  Z.lor (Z.land (shl32 history 1) BI_MODE_GLOBAL_HISTORY_MASK) (b2z jump).

Definition _update (history pc : Z) (jump hit : bool) (bp_pack : bp_info.pack_t) (s : bi_mode_t) :
  outcome bi_mode_t :=
  if bp_info.condition_jump bp_pack then
    c ← arr_get (pht_choice s) (pht_choice_addr pc);
    s ← (if c <=? 1 then t ← train_at (pht_addr history pc) jump (pht_left s);
                         Ok { s with pht_left := t }
         else t ← train_at (pht_addr history pc) jump (pht_right s);
              Ok { s with pht_right := t });
    if negb (negb (eqb (2 <=? c) jump) && hit) then
      t ← train_at (pht_choice_addr pc) jump (pht_choice s); Ok { s with pht_choice := t }
    else Ok s
  else Ok s.

Definition reset (s : bi_mode_t) : bi_mode_t :=
  let zero := replicate (Z.to_nat BI_MODE_PHT_SIZE) 0 in
  mk (dff.set 0 <$> predict_next_pc s) (dff.set false <$> predict_jump s) 0 0 zero zero zero.
Definition update (pc : Z) (jump : bool) (_next_pc : Z) (hit : bool) (bp_pack : bp_info.pack_t)
    (s : bi_mode_t) : outcome bi_mode_t :=
  s ← _update (bp_info.bi_mode_global_history bp_pack) pc jump hit bp_pack s;
  if bp_info.condition_jump bp_pack then
    let s := if negb hit && negb (bp_info.checkpoint_id_valid bp_pack)
             then { s with global_history := global_history_retired s } else s in
    Ok { s with global_history_retired := shift_in (global_history_retired s) jump }
  else Ok s.
Definition bru_speculative_update (_pc : Z) (jump : bool) (_next_pc : Z) (hit : bool)
    (bp_pack : bp_info.pack_t) (s : bi_mode_t) : bi_mode_t :=
  if bp_info.condition_jump bp_pack then
    if negb hit
    then { s with global_history := shift_in (bp_info.bi_mode_global_history bp_pack) jump } else s
  else s.
Definition speculative_update (_pc : Z) (jump : bool) (s : bi_mode_t) : bi_mode_t :=
  { s with global_history := shift_in (global_history s) jump }.

Definition get_pht (pc history : Z) (s : bi_mode_t) : outcome Z :=
  c ← arr_get (pht_choice s) (pht_choice_addr pc);
  if c <=? 1 then arr_get (pht_left s) (pht_addr history pc)
  else arr_get (pht_right s) (pht_addr history pc).
Definition predict (port pc inst : Z) (s : bi_mode_t) : outcome bi_mode_t :=
  verify (port <? FETCH_WIDTH) ;;
  target ← branch_target pc inst;
  x ← get_pht pc (global_history s) s;
  let jump := 2 <=? x in
  j ← tset port jump (predict_jump s);
  n ← tset port (if jump then target else add32 pc 4) (predict_next_pc s);
  Ok { s with predict_next_pc := n; predict_jump := j }.
Definition get_next_pc (port : Z) (s : bi_mode_t) : outcome Z :=
  verify (port <? FETCH_WIDTH) ;; tget port (predict_next_pc s).
Definition is_jump (port : Z) (s : bi_mode_t) : outcome bool :=
  verify (port <? FETCH_WIDTH) ;; tget port (predict_jump s).
Definition fill_info_pack (pack : bp_info.pack_t) (s : bi_mode_t) : bp_info.pack_t :=
  { pack with bp_info.condition_jump := true;
              bp_info.bi_mode_global_history := global_history s }.
Definition fill_info_pack_debug (pc : Z) (pack : bp_info.pack_t) (s : bi_mode_t) :
  outcome bp_info.pack_t :=
  v ← get_pht pc (global_history s) s;
  Ok { fill_info_pack pack s with bp_info.bi_mode_pht_value := v }.
Definition restore (bp_pack : bp_info.pack_t) (s : bi_mode_t) : bi_mode_t :=
  { s with global_history := bp_info.bi_mode_global_history bp_pack }.
Definition clock (s : bi_mode_t) : bi_mode_t :=
  { s with predict_next_pc ::= fmap dff.sync; predict_jump ::= fmap dff.sync }.
End bi_mode.
Abbreviation bi_mode_t := bi_mode.bi_mode_t.

#[global] Instance bi_mode_predictor : branch_predictor bi_mode_t := {|
  bp_reset := bi_mode.reset; bp_update := bi_mode.update;
  bp_speculative_update := bi_mode.speculative_update;
  bp_bru_speculative_update := bi_mode.bru_speculative_update;
  bp_predict := bi_mode.predict; bp_get_next_pc := bi_mode.get_next_pc;
  bp_is_jump := bi_mode.is_jump; bp_fill_info_pack := bi_mode.fill_info_pack;
  bp_restore := bi_mode.restore; bp_clock := bi_mode.clock |}.

(** ** Bi-modal predictor *)
Module bi_modal.
Definition BI_MODAL_SIZE : Z := 16.
Definition BI_MODAL_ADDR_MASK : Z := 15.
Record bi_modal_t := mk { predict_next_pc : list Z; predict_jump : list bool; pht : list Z }.

Definition index (pc : Z) : Z := Z.land (Z.shiftr pc 2) BI_MODAL_ADDR_MASK.
Definition reset (s : bi_modal_t) : bi_modal_t :=
  mk (replicate (Z.to_nat FETCH_WIDTH) 0) (replicate (Z.to_nat FETCH_WIDTH) false)
     (replicate (Z.to_nat BI_MODAL_SIZE) 0).
Definition update (pc : Z) (jump : bool) (_next_pc : Z) (_hit : bool) (bp_pack : bp_info.pack_t)
    (s : bi_modal_t) : outcome bi_modal_t :=
  if bp_info.condition_jump bp_pack
  then t ← train_at (index pc) jump (pht s); Ok { s with pht := t }
  else Ok s.
Definition predict (port pc inst : Z) (s : bi_modal_t) : outcome bi_modal_t :=
  verify (port <? FETCH_WIDTH) ;;
  target ← branch_target pc inst;
  c ← arr_get (pht s) (index pc);
  verify ((0 <=? c) && (c <=? 3)) ;;
  let jump := 2 <=? c in
  j ← arr_set (predict_jump s) port jump;
  n ← arr_set (predict_next_pc s) port (if jump then target else add32 pc 4);
  Ok (mk n j (pht s)).
Definition get_next_pc (port : Z) (s : bi_modal_t) : outcome Z :=
  verify (port <? FETCH_WIDTH) ;; arr_get (predict_next_pc s) port.
Definition is_jump (port : Z) (s : bi_modal_t) : outcome bool :=
  verify (port <? FETCH_WIDTH) ;; arr_get (predict_jump s) port.
Definition fill_info_pack (pack : bp_info.pack_t) (_s : bi_modal_t) : bp_info.pack_t :=
  { pack with bp_info.condition_jump := true }.
End bi_modal.
Abbreviation bi_modal_t := bi_modal.bi_modal_t.

#[global] Instance bi_modal_predictor : branch_predictor bi_modal_t := {|
  bp_reset := bi_modal.reset; bp_update := bi_modal.update;
  bp_speculative_update := λ _ _ s, s;
  bp_bru_speculative_update := λ _ _ _ _ _ s, s;
  bp_predict := bi_modal.predict; bp_get_next_pc := bi_modal.get_next_pc;
  bp_is_jump := bi_modal.is_jump; bp_fill_info_pack := bi_modal.fill_info_pack;
  bp_restore := λ _ s, s; bp_clock := λ s, s |}.

(** ** Branch target buffer for indirect jumps *)
Module l0_btb.
Definition L0_BTB_ADDR_WIDTH : Z := 4.
Definition L0_BTB_SIZE : Z := 16.
Definition L0_BTB_ADDR_MASK : Z := 15.
Record l0_btb_t := mk {
  predict_next_pc : list Z; tag : list Z; target_addr : list Z; valid : list bool
}.

Definition index (pc : Z) : Z := Z.land (Z.shiftr pc 2) L0_BTB_ADDR_MASK.
Definition tag_of (pc : Z) : Z := Z.shiftr pc (L0_BTB_ADDR_WIDTH + 2).
(** [predict_next_pc] keeps its contents. *)
Definition reset (s : l0_btb_t) : l0_btb_t :=
  mk (predict_next_pc s) (replicate (Z.to_nat L0_BTB_SIZE) 0) (replicate (Z.to_nat L0_BTB_SIZE) 0)
     (replicate (Z.to_nat L0_BTB_SIZE) false).
Definition update (pc : Z) (_jump : bool) (next_pc : Z) (_hit : bool) (bp_pack : bp_info.pack_t)
    (s : l0_btb_t) : outcome l0_btb_t :=
  if bp_info.uncondition_indirect_jump bp_pack then
    t ← arr_set (tag s) (index pc) (tag_of pc);
    a ← arr_set (target_addr s) (index pc) (Z.shiftr next_pc 2);
    v ← arr_set (valid s) (index pc) true;
    Ok (mk (predict_next_pc s) t a v)
  else Ok s.
Definition lookup (pc : Z) (s : l0_btb_t) : outcome Z :=
  v ← arr_get (valid s) (index pc);
  hit ← (if (v : bool) then t ← arr_get (tag s) (index pc); Ok (t =? tag_of pc) else Ok false);
  if (hit : bool) then a ← arr_get (target_addr s) (index pc); Ok (shl32 a 2)
  else Ok (add32 pc 4).
Definition predict (port pc _inst : Z) (s : l0_btb_t) : outcome l0_btb_t :=
  x ← lookup pc s;
  n ← arr_set (predict_next_pc s) port x;
  Ok { s with predict_next_pc := n }.
Definition get_next_pc (port : Z) (s : l0_btb_t) : outcome Z :=
  verify (port <? FETCH_WIDTH) ;; arr_get (predict_next_pc s) port.
Definition fill_info_pack (pack : bp_info.pack_t) (_s : l0_btb_t) : bp_info.pack_t :=
  { pack with bp_info.uncondition_indirect_jump := true }.
End l0_btb.
Abbreviation l0_btb_t := l0_btb.l0_btb_t.

#[global] Instance l0_btb_predictor : branch_predictor l0_btb_t := {|
  bp_reset := l0_btb.reset; bp_update := l0_btb.update;
  bp_speculative_update := λ _ _ s, s;
  bp_bru_speculative_update := λ _ _ _ _ _ s, s;
  bp_predict := l0_btb.predict; bp_get_next_pc := l0_btb.get_next_pc;
  bp_is_jump := λ _ _, Ok true; bp_fill_info_pack := l0_btb.fill_info_pack;
  bp_restore := λ _ s, s; bp_clock := λ s, s |}.

(** ** The second level of the buffer has no state. *)
Module l1_btb.
Inductive l1_btb_t := mk.
End l1_btb.
#[global] Instance l1_btb_predictor : branch_predictor l1_btb.l1_btb_t := {|
  bp_reset := λ s, s; bp_update := λ _ _ _ _ _ s, Ok s;
  bp_speculative_update := λ _ _ s, s;
  bp_bru_speculative_update := λ _ _ _ _ _ s, s;
  bp_predict := λ _ _ _ s, Ok s; bp_get_next_pc := λ _ _, Ok 0;
  bp_is_jump := λ _ _, Ok true; bp_fill_info_pack := λ p _, p;
  bp_restore := λ _ s, s; bp_clock := λ s, s |}.

(** ** The predictors together: branch_predictor_set.h *)
Module branch_predictor_set.
Import branch_predictor_base.
(** The four predictors are in [branch_predictor_base::bp_list]; the order of
    the set does not matter, as a predictor changes nothing but itself. *)
Record set_t := mk {
  l0 : with_requests l0_btb_t;
  l1 : with_requests l1_btb.l1_btb_t;
  modal : with_requests bi_modal_t;
  mode : with_requests bi_mode_t
}.

Definition batch_reset (s : set_t) : set_t :=
  mk (reset (l0 s)) (reset (l1 s)) (reset (modal s)) (reset (mode s)).
Definition batch_predict (port pc inst : Z) (s : set_t) : outcome set_t :=
  a ← predict port pc inst (l0 s); b ← predict port pc inst (l1 s);
  c ← predict port pc inst (modal s); d ← predict port pc inst (mode s);
  Ok (mk a b c d).
Definition batch_speculative_update_sync (pc : Z) (jump : bool) (s : set_t) : set_t :=
  let r := bp_request.speculative_update pc jump in
  mk (request r (l0 s)) (request r (l1 s)) (request r (modal s)) (request r (mode s)).
Definition batch_restore_sync (bp_pack : bp_info.pack_t) (s : set_t) : set_t :=
  let r := bp_request.restore bp_pack in
  mk (request r (l0 s)) (request r (l1 s)) (request r (modal s)) (request r (mode s)).
Definition batch_sync (s : set_t) : outcome set_t :=
  a ← sync (l0 s); b ← sync (l1 s); c ← sync (modal s); d ← sync (mode s); Ok (mk a b c d).
Definition clock_all (s : set_t) : set_t :=
  mk (clock (l0 s)) (clock (l1 s)) (clock (modal s)) (clock (mode s)).
End branch_predictor_set.
