(* ===== verification/PredictSpec.v ===== *)
(** * What the branch predictors promise

    [predictor_ok] is the interface a predictor offers to the rest of the
    pipeline: an invariant that every operation preserves without leaving an
    array or failing a check.  The theorems on request queues are proved from
    the interface; its instances are the four predictors.

    [direction] is what a conditional branch gets predicted: one of its two
    successors, so a right direction is a right target. *)

From S2P Require Import Prelude Word Dff Ops IsaDecode Rat RatSpec CycleDecode CyclePack.
From S2P Require Import Predict.

(** ** Tables *)
Lemma tset_ok {T} (t : list (dff_t T)) i v : 0 <= i < zlen t ->
  exists t', tset i v t = Ok t' /\ zlen t' = zlen t /\
    tget i (dff.sync <$> t') = Ok v.
Proof.
  intros Hi. destruct (tset_spec t i v Hi) as (t' & E & Hl & Hn & _).
  exists t'. split; [done |]. split; [unfold zlen; lia |].
  unfold tget. assert (Hnew : (dff.get_new <$> t') !! Z.to_nat i = Some v).
  { rewrite Hn, list_lookup_insert_eq; [done |]. rewrite length_fmap. unfold zlen in Hi. lia. }
  rewrite list_lookup_fmap in Hnew. destruct (t' !! Z.to_nat i) as [d|] eqn:Ed; [| done].
  cbn in Hnew. injection Hnew as Hnew.
  replace (arr_get (dff.sync <$> t') i) with (Ok (dff.sync d)).
  { cbn. by rewrite <- Hnew. }
  symmetry. apply arr_get_Some. split; [lia |]. by rewrite list_lookup_fmap, Ed.
Qed.

(** A table of two-bit counters. *)
Definition counters (n : Z) (t : list Z) : Prop := zlen t = n /\ Forall (λ c, 0 <= c <= 3) t.

Lemma train_range j c : 0 <= c <= 3 -> 0 <= train j c <= 3.
Proof.
  intros H. unfold train. destruct j; case_match; try lia.
  - unfold add32. rewrite u32_small by word_lia. lia.
  - unfold sub32. rewrite u32_small by word_lia. lia.
Qed.

Lemma counters_get n t i : counters n t -> 0 <= i < n -> exists c, arr_get t i = Ok c /\ 0 <= c <= 3.
Proof.
  intros [Hl Ht] Hi. destruct (arr_get_ok t i) as [c Hc]; [lia |]. exists c. split; [done |].
  apply arr_get_Some in Hc as [_ Hc]. by eapply Forall_lookup_1 in Ht.
Qed.

Lemma counters_train n t i j : counters n t -> 0 <= i < n ->
  exists t', train_at i j t = Ok t' /\ counters n t'.
Proof.
  intros H Hi. destruct (counters_get n t i H Hi) as (c & Hc & Hr). destruct H as [Hl Ht].
  unfold train_at. rewrite Hc. cbn [mbind outcome_bind]. rewrite arr_set_ok by lia.
  eexists. split; [done |]. split; [by rewrite zlen_insert |].
  apply Forall_insert; [done | by apply train_range].
Qed.

Lemma counters_zero n : 0 <= n -> counters n (replicate (Z.to_nat n) 0).
Proof.
  intros H. split; [unfold zlen; rewrite length_replicate; lia |].
  apply Forall_replicate. lia.
Qed.

Lemma low_mask_range n x : 0 <= n -> 0 <= Z.land x (2 ^ n - 1) < 2 ^ n.
Proof. intros H. apply land_range_r; [done |]. pose proof (Z.pow_pos_nonneg 2 n). lia. Qed.

(** ** The interface *)
Definition pack_ok (p : bp_info.pack_t) : Prop :=
  0 <= bp_info.bi_mode_global_history p < 65536.
Definition request_ok (r : bp_request.request_t) : Prop :=
  match r with
  | bp_request.update _ _ _ _ p | bp_request.bru_speculative_update _ _ _ _ p
  | bp_request.restore p => pack_ok p
  | bp_request.speculative_update _ _ => True
  end.

Class predictor_ok (P : Type) {predictor : branch_predictor P} := {
  bp_inv : P -> Prop;
  inv_reset : forall p, bp_inv p -> bp_inv (bp_reset p);
  inv_update : forall pc j n h k p, bp_inv p -> pack_ok k ->
    exists p', bp_update pc j n h k p = Ok p' /\ bp_inv p';
  inv_speculative : forall pc j p, bp_inv p -> bp_inv (bp_speculative_update pc j p);
  inv_bru : forall pc j n h k p, bp_inv p -> pack_ok k -> bp_inv (bp_bru_speculative_update pc j n h k p);
  inv_restore : forall k p, bp_inv p -> pack_ok k -> bp_inv (bp_restore k p);
  inv_predict : forall port pc inst p, bp_inv p -> 0 <= port < FETCH_WIDTH ->
    exists p', bp_predict port pc inst p = Ok p' /\ bp_inv p';
  inv_clock : forall p, bp_inv p -> bp_inv (bp_clock p);
  inv_fill : forall k p, bp_inv p -> pack_ok k -> pack_ok (bp_fill_info_pack k p)
}.

Section requests.
Context {P : Type} {predictor : branch_predictor P} {ok : predictor_ok P}.
Import branch_predictor_base.

Definition queue_ok (b : with_requests P) : Prop :=
  bp_inv (impl b) /\ Forall request_ok (sync_request_q b).

Lemma serve_ok r p : bp_inv p -> request_ok r -> exists p', serve r p = Ok p' /\ bp_inv p'.
Proof.
  intros Hp Hr. destruct r; cbn in *; [by apply inv_update | ..]; eexists; (split; [done |]).
  - by apply inv_speculative.
  - by apply inv_bru.
  - by apply inv_restore.
Qed.

Lemma serve_all_ok q p : bp_inv p -> Forall request_ok q ->
  exists p', serve_all q p = Ok p' /\ bp_inv p'.
Proof.
  intros Hp Hq. revert p Hp. induction Hq as [|r q Hr Hq IH]; intros p Hp; cbn [serve_all].
  { by exists p. }
  destruct (serve_ok r p Hp Hr) as (p' & -> & Hp'). cbn [mbind outcome_bind]. by apply IH.
Qed.

Lemma sync_ok b : queue_ok b ->
  exists b', sync b = Ok b' /\ queue_ok b' /\ sync_request_q b' = [].
Proof.
  intros [Hp Hq]. unfold sync. destruct (serve_all_ok _ _ Hp Hq) as (p' & -> & Hp').
  eexists. split; [done |]. split; [by split |]. done.
Qed.

Lemma request_queue_ok r b : queue_ok b -> request_ok r -> queue_ok (request r b).
Proof.
  intros [Hp Hq] Hr. split; [done |]. cbn. apply Forall_app. split; [done |].
  by apply Forall_singleton.
Qed.

Lemma predict_queue_ok port pc inst b : queue_ok b -> 0 <= port < FETCH_WIDTH ->
  exists b', predict port pc inst b = Ok b' /\ queue_ok b'.
Proof.
  intros [Hp Hq] Hport. unfold predict.
  destruct (inv_predict port pc inst (impl b) Hp Hport) as (p' & -> & Hp').
  eexists. split; [done | by split].
Qed.

Lemma reset_queue_ok b : queue_ok b -> queue_ok (reset b).
Proof. intros [Hp Hq]. split; [by apply inv_reset | done]. Qed.
Lemma clock_queue_ok b : queue_ok b -> queue_ok (clock b).
Proof. intros [Hp Hq]. split; [by apply inv_clock | done]. Qed.
End requests.

(** ** Branch targets *)
Lemma mask_u32 x k n : 0 <= k -> 0 <= n -> n + k <= 32 ->
  shl32 (Z.land x (2 ^ k - 1)) n = Z.shiftl (Z.land x (2 ^ k - 1)) n.
Proof.
  intros Hk Hn Hs. apply u32_small. rewrite Z.shiftl_mul_pow2 by done.
  pose proof (low_mask_range k x Hk) as Hm. unfold is_u32, two32.
  assert (2 ^ k * 2 ^ n <= 2 ^ 32).
  { rewrite <- Z.pow_add_r by done. apply Z.pow_le_mono_r; lia. }
  change 4294967296 with (2 ^ 32). pose proof (Z.pow_pos_nonneg 2 n). nia.
Qed.

Lemma branch_imm_eq inst : branch_imm inst = fields.imm_b (fields.of_word inst).
Proof.
  unfold branch_imm. cbn [fields.of_word fields.imm_b].
  change 0x0f with (2 ^ 4 - 1). change 0x3f with (2 ^ 6 - 1). change 0x01 with (2 ^ 1 - 1).
  by rewrite !mask_u32 by lia.
Qed.

Lemma branch_target_ok pc inst : exists i,
  sign_extend (fields.imm_b (fields.of_word inst)) 13 = Ok i /\
  branch_target pc inst = Ok (add32 pc i).
Proof.
  unfold branch_target. rewrite branch_imm_eq. unfold sign_extend. cbn [verify andb Z.ltb Z.compare
    Pos.compare Pos.compare_cont mbind outcome_bind]. eexists. split; reflexivity.
Qed.

(** Jump flag and address of a prediction belong together. *)
Definition direction (pc inst : Z) (j : bool) (n : Z) : Prop :=
  exists t, branch_target pc inst = Ok t /\ n = if j then t else add32 pc 4.

(** What the pipeline reads off a predictor in the cycle after [predict] (or
    at once, for the predictors without flip-flops). *)
Definition predicts {P} {predictor : branch_predictor P} (port pc inst : Z) (p : P) : Prop :=
  exists p' j n, bp_predict port pc inst p = Ok p' /\
    bp_is_jump port (bp_clock p') = Ok j /\ bp_get_next_pc port (bp_clock p') = Ok n /\
    direction pc inst j n.

(** ** The bi-mode predictor *)
Module bi_mode_spec.
Import bi_mode.
Record wf (s : bi_mode_t) : Prop := {
  w_next : zlen (predict_next_pc s) = FETCH_WIDTH;
  w_jump : zlen (predict_jump s) = FETCH_WIDTH;
  w_history : 0 <= global_history s < 65536;
  w_retired : 0 <= global_history_retired s < 65536;
  w_left : counters 65536 (pht_left s);
  w_right : counters 65536 (pht_right s);
  w_choice : counters 65536 (pht_choice s)
}.

Lemma pht_addr_range h pc : 0 <= h < 65536 -> 0 <= pht_addr h pc < 65536.
Proof.
  intros H. apply (lxor_range 16); [lia | done | apply (low_mask_range 16); lia].
Qed.
Lemma choice_range pc : 0 <= pht_choice_addr pc < 65536.
Proof.
  pose proof (low_mask_range 6 (Z.shiftr pc 2) ltac:(lia)) as H. unfold pht_choice_addr.
  change (2 ^ 6 - 1) with BI_MODE_PHT_CHOICE_ADDR_MASK in H. lia.
Qed.
Lemma shift_in_range h j : 0 <= shift_in h j < 65536.
Proof.
  apply (lor_range 16); [lia | apply (low_mask_range 16); lia | destruct j; cbn; lia].
Qed.

Lemma _update_wf h pc j hit k s : wf s -> 0 <= h < 65536 ->
  exists s', _update h pc j hit k s = Ok s' /\ wf s'.
Proof.
  intros H Hh. unfold _update. destruct (bp_info.condition_jump k); [| by exists s].
  pose proof (pht_addr_range h pc Hh) as Ha. pose proof (choice_range pc) as Hc.
  destruct H. destruct (counters_get _ _ _ w_choice0 Hc) as (c & -> & _).
  cbn [mbind outcome_bind].
  destruct (counters_train _ _ (pht_choice_addr pc) j w_choice0 Hc) as (tc & Etc & Htc).
  destruct (c <=? 1).
  - destruct (counters_train _ _ _ j w_left0 Ha) as (t & -> & Ht). cbn [mbind outcome_bind].
    destruct (negb _); [| eexists; split; [done | by split]].
    change (train_at _ j (pht_choice _)) with (train_at (pht_choice_addr pc) j (pht_choice s)).
    rewrite Etc. cbn [mbind outcome_bind]. eexists; split; [done | by split].
  - destruct (counters_train _ _ _ j w_right0 Ha) as (t & -> & Ht). cbn [mbind outcome_bind].
    destruct (negb _); [| eexists; split; [done | by split]].
    change (train_at _ j (pht_choice _)) with (train_at (pht_choice_addr pc) j (pht_choice s)).
    rewrite Etc. cbn [mbind outcome_bind]. eexists; split; [done | by split].
Qed.

Lemma update_wf pc j n hit k s : wf s -> pack_ok k ->
  exists s', update pc j n hit k s = Ok s' /\ wf s'.
Proof.
  intros H Hk. unfold update.
  destruct (_update_wf (bp_info.bi_mode_global_history k) pc j hit k s H Hk) as (s' & -> & Hs').
  cbn [mbind outcome_bind]. destruct (bp_info.condition_jump k); [| by exists s'].
  eexists. split; [done |]. destruct (negb hit && _); destruct Hs'; split; cbn; try done;
    apply shift_in_range.
Qed.

Lemma get_pht_ok pc h s : wf s -> 0 <= h < 65536 -> exists c, get_pht pc h s = Ok c.
Proof.
  intros H Hh. unfold get_pht. destruct H.
  destruct (counters_get _ _ _ w_choice0 (choice_range pc)) as (c & -> & _).
  cbn [mbind outcome_bind]. pose proof (pht_addr_range h pc Hh) as Ha.
  destruct (c <=? 1); [destruct (counters_get _ _ _ w_left0 Ha) as (x & -> & _) |
    destruct (counters_get _ _ _ w_right0 Ha) as (x & -> & _)]; by exists x.
Qed.

Lemma bi_mode_predict port pc inst s : wf s -> 0 <= port < FETCH_WIDTH ->
  exists s' j n, predict port pc inst s = Ok s' /\ wf s' /\
    is_jump port (clock s') = Ok j /\ get_next_pc port (clock s') = Ok n /\ direction pc inst j n.
Proof.
  intros H Hp. unfold predict, direction.
  replace (port <? FETCH_WIDTH) with true by lia. cbn [verify mbind outcome_bind].
  destruct (branch_target_ok pc inst) as (i & _ & ->). cbn [mbind outcome_bind].
  destruct (get_pht_ok pc _ s H (w_history _ H)) as [c ->]. cbn [mbind outcome_bind].
  destruct (tset_ok (predict_jump s) port (2 <=? c)) as (tj & -> & Lj & Gj); [by rewrite w_jump |].
  cbn [mbind outcome_bind].
  set (next := if 2 <=? c then add32 pc i else add32 pc 4).
  destruct (tset_ok (predict_next_pc s) port next) as (tn & -> & Ln & Gn);
    [by rewrite w_next |].
  cbn [mbind outcome_bind]. do 3 eexists. split; [done |].
  split; [destruct H; split; cbn in *; try done; lia |].
  split_and!.
  - unfold is_jump, clock. replace (port <? FETCH_WIDTH) with true by lia. exact Gj.
  - unfold get_next_pc, clock. replace (port <? FETCH_WIDTH) with true by lia. exact Gn.
  - by exists (add32 pc i).
Qed.
End bi_mode_spec.

#[global] Instance bi_mode_ok : predictor_ok bi_mode_t.
Proof.
  refine {| bp_inv := bi_mode_spec.wf |}.
  - intros p []. split; cbn; unfold zlen in *; rewrite ?length_fmap; try done; try lia;
      by apply (counters_zero 65536).
  - intros. by apply bi_mode_spec.update_wf.
  - intros pc j p []. split; cbn; try done. apply bi_mode_spec.shift_in_range.
  - intros pc j n h k p [] Hk. cbn. unfold bi_mode.bru_speculative_update.
    destruct (bp_info.condition_jump k), (negb h); split; cbn; try done;
      apply bi_mode_spec.shift_in_range.
  - intros k p [] Hk. by split.
  - intros port pc inst p H Hp.
    destruct (bi_mode_spec.bi_mode_predict port pc inst p H Hp) as (s & _ & _ & E & W & _).
    by exists s.
  - intros p []. split; cbn; unfold zlen in *; rewrite ?length_fmap; done.
  - intros k p [] _. exact w_history.
Defined.

(** ** The bi-modal predictor *)
Module bi_modal_spec.
Import bi_modal.
Record wf (s : bi_modal_t) : Prop := {
  w_next : zlen (predict_next_pc s) = FETCH_WIDTH;
  w_jump : zlen (predict_jump s) = FETCH_WIDTH;
  w_pht : counters 16 (pht s)
}.
Lemma bi_modal_index pc : 0 <= index pc < 16.
Proof. exact (low_mask_range 4 (Z.shiftr pc 2) ltac:(lia)). Qed.

Lemma bi_modal_predict port pc inst s : wf s -> 0 <= port < FETCH_WIDTH ->
  exists s' j n, predict port pc inst s = Ok s' /\ wf s' /\
    is_jump port s' = Ok j /\ get_next_pc port s' = Ok n /\ direction pc inst j n.
Proof.
  intros [Hn Hj Hc] Hp. unfold predict, direction.
  replace (port <? FETCH_WIDTH) with true by lia. cbn [verify mbind outcome_bind].
  destruct (branch_target_ok pc inst) as (i & _ & ->). cbn [mbind outcome_bind].
  destruct (counters_get _ _ _ Hc (bi_modal_index pc)) as (c & -> & Hr). cbn [mbind outcome_bind].
  replace ((0 <=? c) && (c <=? 3)) with true by lia. cbn [verify mbind outcome_bind].
  rewrite !arr_set_ok by lia. cbn [mbind outcome_bind].
  do 3 eexists. split; [done |].
  split; [split; cbn; rewrite ?zlen_insert; done |].
  unfold is_jump, get_next_pc. cbn [predict_jump predict_next_pc].
  replace (port <? FETCH_WIDTH) with true by lia. cbn [verify mbind outcome_bind].
  rewrite !arr_get_insert by lia. rewrite Z.eqb_refl.
  split; [done |]. split; [done |]. by exists (add32 pc i).
Qed.
End bi_modal_spec.

#[global] Instance bi_modal_ok : predictor_ok bi_modal_t.
Proof.
  refine {| bp_inv := bi_modal_spec.wf |}; try done.
  - intros p _. split; cbn; [done | done | by apply (counters_zero 16)].
  - intros pc j n h k p [Hn Hj Hc] _. cbn. unfold bi_modal.update.
    destruct (bp_info.condition_jump k); [| eexists; split; [done | by split]].
    destruct (counters_train _ _ _ j Hc (bi_modal_spec.bi_modal_index pc)) as (t & -> & Ht).
    eexists; split; [done | by split].
  - intros port pc inst p H Hp.
    destruct (bi_modal_spec.bi_modal_predict port pc inst p H Hp) as (s & _ & _ & E & W & _).
    by exists s.
Defined.

(** ** The branch target buffer *)
Module l0_btb_spec.
Import l0_btb.
Record wf (s : l0_btb_t) : Prop := {
  w_next : zlen (predict_next_pc s) = FETCH_WIDTH;
  w_tag : zlen (tag s) = 16;
  w_target : zlen (target_addr s) = 16;
  w_valid : zlen (valid s) = 16
}.
Lemma btb_index pc : 0 <= index pc < 16.
Proof. exact (low_mask_range 4 (Z.shiftr pc 2) ltac:(lia)). Qed.

Lemma lookup_ok pc s : wf s -> exists x, lookup pc s = Ok x.
Proof.
  intros []. pose proof (btb_index pc). unfold lookup.
  destruct (arr_get_ok (valid s) (index pc)) as [v ->]; [lia |].
  destruct (arr_get_ok (tag s) (index pc)) as [t ->]; [lia |].
  destruct (arr_get_ok (target_addr s) (index pc)) as [a ->]; [lia |].
  cbn [mbind outcome_bind]. destruct v; cbn [mbind outcome_bind]; [| by eexists].
  destruct (t =? tag_of pc); by eexists.
Qed.

(** The entry of an indirect jump gives its last target; the entries of
    addresses with another index stay. *)
Lemma update_lookup pc j n h k s : wf s -> bp_info.uncondition_indirect_jump k = true ->
  exists s', update pc j n h k s = Ok s' /\ wf s' /\
    lookup pc s' = Ok (shl32 (Z.shiftr n 2) 2) /\
    (forall pc', index pc' <> index pc -> lookup pc' s' = lookup pc' s).
Proof.
  intros [Hn Ht Ha Hv] Hk. pose proof (btb_index pc). unfold update. rewrite Hk.
  rewrite !arr_set_ok by lia. cbn [mbind outcome_bind]. eexists. split; [done |].
  split; [split; cbn; rewrite ?zlen_insert; done |].
  unfold lookup. cbn [valid tag target_addr]. split.
  - rewrite !arr_get_insert by lia. rewrite Z.eqb_refl. cbn [mbind outcome_bind].
    by rewrite Z.eqb_refl.
  - intros pc' Hpc. rewrite !arr_get_insert by lia. by rewrite (proj2 (Z.eqb_neq _ _) Hpc).
Qed.
End l0_btb_spec.

#[global] Instance l0_btb_ok : predictor_ok l0_btb_t.
Proof.
  refine {| bp_inv := l0_btb_spec.wf |}; try done.
  - intros p []. by split.
  - intros pc j n h k p H _. cbn. destruct (bp_info.uncondition_indirect_jump k) eqn:E.
    + destruct (l0_btb_spec.update_lookup pc j n h k p H E) as (s & Es & W & _). by exists s.
    + exists p. unfold l0_btb.update. by rewrite E.
  - intros port pc inst p H Hp. cbn. unfold l0_btb.predict.
    destruct (l0_btb_spec.lookup_ok pc p H) as [x ->]. cbn [mbind outcome_bind].
    destruct H as [Hn Ht Ha Hv]. rewrite arr_set_ok by lia. cbn [mbind outcome_bind].
    eexists; split; [done |]. split; cbn; rewrite ?zlen_insert; done.
Defined.

#[global] Instance l1_btb_ok : predictor_ok l1_btb.l1_btb_t.
Proof. refine {| bp_inv := λ _, True |}; try done; intros; by eexists. Defined.

(** ** The branch history *)
Section history.
Import bi_mode.
Implicit Type s : bi_mode_t.

(** Speculation between a prediction and its resolution is undone: when the
    branch turns out mispredicted, the history is the one of the prediction
    with the actual outcome, whatever was predicted after it. *)
Definition speculate (l : list (Z * bool)) s : bi_mode_t :=
  foldl (λ s pj, speculative_update pj.1 pj.2 s) s l.

Lemma mispredicted_history l k k' pc j n s :
  bp_info.bi_mode_global_history k' = bp_info.bi_mode_global_history (fill_info_pack k s) ->
  bp_info.condition_jump k' = true ->
  global_history (bru_speculative_update pc j n false k' (speculate l s)) =
  global_history (speculative_update pc j s).
Proof. intros Hh Hc. unfold bru_speculative_update. by rewrite Hc, Hh. Qed.

Lemma speculate_keeps l s :
  pht_left (speculate l s) = pht_left s /\ pht_right (speculate l s) = pht_right s /\
  pht_choice (speculate l s) = pht_choice s /\
  global_history_retired (speculate l s) = global_history_retired s.
Proof.
  unfold speculate. revert s. induction l as [|pj l IH]; intros s; cbn [foldl]; [done |].
  destruct (IH (speculative_update pj.1 pj.2 s)) as (-> & -> & -> & ->). done.
Qed.
End history.

(** ** The predictors together *)
Module predictor_set_spec.
Import branch_predictor_base branch_predictor_set.
(** What the stages do to the set in the course of a run: fetch1, fetch2, bru,
    commit, and the end of the cycle. *)
Inductive event :=
| e_predict (port pc inst : Z)
| e_speculate (pc : Z) (jump : bool)
| e_l0_update (pc : Z) (jump : bool) (next_pc : Z) (hit : bool) (k : bp_info.pack_t)
| e_mode_update (pc : Z) (jump : bool) (next_pc : Z) (hit : bool) (k : bp_info.pack_t)
| e_mode_bru (pc : Z) (jump : bool) (next_pc : Z) (hit : bool) (k : bp_info.pack_t)
| e_end_of_cycle
| e_reset.

Definition step (e : event) (s : set_t) : outcome set_t :=
  match e with
  | e_predict port pc inst => batch_predict port pc inst s
  | e_speculate pc jump => Ok (batch_speculative_update_sync pc jump s)
  | e_l0_update pc jump n hit k => Ok (mk (update_sync pc jump n hit k (l0 s)) (l1 s) (modal s) (mode s))
  | e_mode_update pc jump n hit k => Ok (mk (l0 s) (l1 s) (modal s) (update_sync pc jump n hit k (mode s)))
  | e_mode_bru pc jump n hit k =>
      Ok (mk (l0 s) (l1 s) (modal s) (bru_speculative_update_sync pc jump n hit k (mode s)))
  | e_end_of_cycle => s ← batch_sync s; Ok (clock_all s)
  | e_reset => Ok (batch_reset s)
  end.
Fixpoint run (es : list event) (s : set_t) : outcome set_t :=
  match es with [] => Ok s | e :: es => s ← step e s; run es s end.

(** Ports and histories as the pipeline produces them. *)
Definition event_ok (e : event) : bool :=
  match e with
  | e_predict port _ _ => (0 <=? port) && (port <? FETCH_WIDTH)
  | e_l0_update _ _ _ _ k | e_mode_update _ _ _ _ k | e_mode_bru _ _ _ _ k =>
      (0 <=? bp_info.bi_mode_global_history k) && (bp_info.bi_mode_global_history k <? 65536)
  | _ => true
  end.

Definition inv (s : set_t) : Prop :=
  queue_ok (l0 s) /\ queue_ok (l1 s) /\ queue_ok (modal s) /\ queue_ok (mode s).

Lemma step_ok e s : inv s -> event_ok e = true -> exists s', step e s = Ok s' /\ inv s'.
Proof.
  intros (H0 & H1 & H2 & H3) He. destruct e; cbn [step event_ok] in *.
  - unfold batch_predict.
    destruct (predict_queue_ok port pc inst _ H0) as (a & -> & Ha); [lia |].
    destruct (predict_queue_ok port pc inst _ H1) as (b & -> & Hb); [lia |].
    destruct (predict_queue_ok port pc inst _ H2) as (c & -> & Hc); [lia |].
    destruct (predict_queue_ok port pc inst _ H3) as (d & -> & Hd); [lia |].
    eexists; split; [done | by split_and!].
  - eexists; split; [done |]. split_and!; by apply request_queue_ok.
  - eexists; split; [done |]. split_and!; try done. apply request_queue_ok; [done |]. cbn.
    unfold pack_ok. lia.
  - eexists; split; [done |]. split_and!; try done. apply request_queue_ok; [done |]. cbn.
    unfold pack_ok. lia.
  - eexists; split; [done |]. split_and!; try done. apply request_queue_ok; [done |]. cbn.
    unfold pack_ok. lia.
  - unfold batch_sync.
    destruct (sync_ok _ H0) as (a & -> & Ha & _). destruct (sync_ok _ H1) as (b & -> & Hb & _).
    destruct (sync_ok _ H2) as (c & -> & Hc & _). destruct (sync_ok _ H3) as (d & -> & Hd & _).
    cbn [mbind outcome_bind]. eexists; split; [done |]. split_and!; by apply clock_queue_ok.
  - eexists; split; [done |]. split_and!; by apply reset_queue_ok.
Qed.

Lemma run_ok es s : inv s -> forallb event_ok es = true -> exists s', run es s = Ok s' /\ inv s'.
Proof.
  revert s. induction es as [|e es IH]; intros s Hs He; cbn [run forallb] in *.
  { by exists s. }
  apply andb_prop in He as [He Hes]. destruct (step_ok e s Hs He) as (s' & -> & Hs').
  cbn [mbind outcome_bind]. by apply IH.
Qed.

(** A set with empty request queues and all counters 0, as [batch_reset]
    leaves it. *)
Definition cleared : set_t :=
  mk (mk_with [] (l0_btb.mk (replicate 4 0) (replicate 16 0) (replicate 16 0) (replicate 16 false)))
     (mk_with [] l1_btb.mk)
     (mk_with [] (bi_modal.mk (replicate 4 0) (replicate 4 false) (replicate 16 0)))
     (mk_with [] (bi_mode.reset (bi_mode.mk (replicate 4 (dff.new 0)) (replicate 4 (dff.new false))
                    0 0 [] [] []))).
Lemma cleared_inv : inv cleared.
Proof.
  split_and!; split; try done; split; try done; try (by apply (counters_zero 65536));
    by apply (counters_zero 16).
Qed.
End predictor_set_spec.
