(* ===== verification/Ras.v ===== *)
(** * Return address stack, wait table and memory attributes

    include/cycle_model/component/stack.h, ras.h, wait_table.h, pma_unit.h.

    The members of [stack] and [ras] read current values and set new ones, so
    the second of two operations in a cycle does not see the first. *)

From S2P Require Import Prelude Word Dff Rat.

(** ** [stack<T>] *)
Module stack.
Record stack_t (T : Type) := mk { buffer : list (dff_t T); size : Z; top_ptr : dff_t Z }.
Arguments mk {T} _ _ _.
Arguments buffer {T} _.
Arguments size {T} _.
Arguments top_ptr {T} _.

Section stack.
Context {T : Type}.
Implicit Type s : stack_t T.

Definition set_top (n : Z) (s : stack_t T) : stack_t T :=
  mk (buffer s) (size s) (dff.set n (top_ptr s)).
Definition set_buffer (b : list (dff_t T)) (s : stack_t T) : stack_t T := mk b (size s) (top_ptr s).
Definition reset (s : stack_t T) : stack_t T := set_top 0 s.
Definition flush (s : stack_t T) : stack_t T := set_top 0 s.
Definition new (sz : Z) (v : T) : stack_t T :=
  reset (mk (replicate (Z.to_nat sz) (dff.new v)) sz (dff.new 0)).
Definition is_empty (s : stack_t T) : bool := dff.get (top_ptr s) =? 0.
Definition is_full (s : stack_t T) : bool := dff.get (top_ptr s) =? size s.
(** [top_ptr - 1] in [uint32_t]. *)
Definition top_id (s : stack_t T) : Z := sub32 (dff.get (top_ptr s)) 1.
Definition push (x : T) (s : stack_t T) : outcome (bool * stack_t T) :=
  if is_full s then Ok (false, s)
  else b ← tset (dff.get (top_ptr s)) x (buffer s);
       Ok (true, set_top (add32 (dff.get (top_ptr s)) 1) (set_buffer b s)).
Definition pop (s : stack_t T) : outcome (option T * stack_t T) :=
  if is_empty s then Ok (None, s)
  else x ← tget (top_id s) (buffer s); Ok (Some x, set_top (top_id s) s).
Definition get_top (s : stack_t T) : outcome (option T) :=
  if is_empty s then Ok None else x ← tget (top_id s) (buffer s); Ok (Some x).
Definition get_size (s : stack_t T) : Z := size s.
Definition sync (s : stack_t T) : stack_t T :=
  mk (dff.sync <$> buffer s) (size s) (dff.sync (top_ptr s)).
End stack.
End stack.
Abbreviation stack_t := stack.stack_t.

(** ** Return address stack *)
Module ras.
Record item_t := mk_item { addr : Z; cnt : Z }.
Definition item_init : item_t := mk_item 0 0.
Record ras_t := mk { base : stack_t item_t; last_addr : dff_t Z }.

Definition get_item (id : Z) (s : ras_t) : outcome item_t := tget id (stack.buffer (base s)).
Definition set_item (id : Z) (x : item_t) (s : ras_t) : outcome ras_t :=
  b ← tset id x (stack.buffer (base s)); Ok { s with base ::= stack.set_buffer b }.
Definition get_top_id (s : ras_t) : option Z :=
  if stack.is_empty (base s) then None else Some (stack.top_id (base s)).

(** The loop of [throw_push]: [i] from 1 while [i < top_ptr - 1]. *)
Fixpoint shift_down (fuel : nat) (i last : Z) (b : list (dff_t item_t)) :
  outcome (list (dff_t item_t)) :=
  if i <? last then
    match fuel with
    | O => Hang
    | S fuel => x ← tget i b; b ← tset (i - 1) x b; shift_down fuel (i + 1) last b
    end
  else Ok b.
Definition throw_push (x : item_t) (s : ras_t) : outcome ras_t :=
  b ← shift_down (Z.to_nat (stack.size (base s))) 1 (stack.top_id (base s)) (stack.buffer (base s));
  b ← tset (stack.top_id (base s)) x b;
  Ok { s with base ::= stack.set_buffer b }.

Definition reset (s : ras_t) : ras_t := mk (stack.reset (base s)) (dff.set 0 (last_addr s)).
Definition new (sz : Z) : ras_t := reset (mk (stack.new sz item_init) (dff.new 0)).

Definition push_addr (a : Z) (s : ras_t) : outcome ras_t :=
  top ← stack.get_top (base s);
  match top with
  | Some t =>
      if (addr t =? a) && (cnt t <? 0xFFFFFFFF)
      then set_item (stack.top_id (base s)) (mk_item (addr t) (add32 (cnt t) 1)) s
      else if stack.is_full (base s) then throw_push (mk_item a 1) s
      else bs ← stack.push (mk_item a 1) (base s); Ok { s with base := bs.2 }
  | None =>
      if stack.is_full (base s) then throw_push (mk_item a 1) s
      else bs ← stack.push (mk_item a 1) (base s); Ok { s with base := bs.2 }
  end.
Definition pop_addr (s : ras_t) : outcome (Z * ras_t) :=
  top ← stack.get_top (base s);
  match top with
  | Some t =>
      if cnt t =? 1 then
        xs ← stack.pop (base s);
        t' ← of_option xs.1;
        Ok (addr t', mk xs.2 (dff.set (addr t) (last_addr s)))
      else s ← set_item (stack.top_id (base s)) (mk_item (addr t) (sub32 (cnt t) 1)) s;
           Ok (addr t, s)
  | None => Ok (dff.get (last_addr s), s)
  end.
Definition sync (s : ras_t) : ras_t := mk (stack.sync (base s)) (dff.sync (last_addr s)).
End ras.
Abbreviation ras_t := ras.ras_t.

(** ** Wait table *)
Module wait_table.
Record wait_table_t := mk { size : Z; addr_mask : Z; buffer : list (dff_t bool) }.
Definition reset (s : wait_table_t) : wait_table_t := { s with buffer ::= fmap (dff.set false) }.
Definition new (sz : Z) : wait_table_t :=
  reset (mk sz (sub32 sz 1) (replicate (Z.to_nat sz) (dff.new false))).
Definition run (cycle : Z) (s : wait_table_t) : wait_table_t :=
  if Z.land cycle 0x3fff =? 0x3fff then reset s else s.
Definition index (a : Z) (s : wait_table_t) : Z := Z.land (Z.shiftr a 2) (addr_mask s).
Definition set_wait_bit (a : Z) (s : wait_table_t) : outcome wait_table_t :=
  b ← tset (index a s) true (buffer s); Ok { s with buffer := b }.
Definition get_wait_bit (a : Z) (s : wait_table_t) : outcome bool := tget (index a s) (buffer s).
Definition sync (s : wait_table_t) : wait_table_t := { s with buffer ::= fmap dff.sync }.
End wait_table.
Abbreviation wait_table_t := wait_table.wait_table_t.

(** ** Physical memory attributes *)
Module pma_unit.
Record item_t := mk_item { addr : Z; size : Z; cacheable : bool }.
Definition pma_unit_t := list item_t.

Definition inside (a : Z) (i : item_t) : bool :=
  (addr i <=? a) && (a <=? sub32 (add32 (addr i) (size i)) 1).
Definition get_pma_item (a : Z) (u : pma_unit_t) : option item_t := List.find (inside a) u.
Definition clash (x y : item_t) : bool :=
  ((addr y <=? addr x) && (addr x <? add32 (addr y) (size y))) ||
  ((addr x <=? addr y) && (addr y <? add32 (addr x) (size x))).
Definition add_fixed_pma_item (x : item_t) (u : pma_unit_t) : outcome pma_unit_t :=
  verify (forallb (λ y, negb (clash x y)) u) ;; Ok (u ++ [x]).
Definition is_cacheable (a : Z) (u : pma_unit_t) : bool :=
  match get_pma_item a u with Some i => cacheable i | None => false end.
(** What [cycle_model::cycle_model] configures. *)
Definition configured : outcome pma_unit_t :=
  u ← add_fixed_pma_item (mk_item 0x00000000 0x80000000 false) [];
  add_fixed_pma_item (mk_item 0x80000000 0x80000000 true) u.
End pma_unit.
Abbreviation pma_unit_t := pma_unit.pma_unit_t.

Definition RAS_SIZE : Z := 256.
Definition WAIT_TABLE_SIZE : Z := 1024.
