(* ===== verification/RasSpec.v ===== *)
(** * What the return address stack promises

    The stack of [ras] holds runs of equal addresses with a counter.  With a
    clock after each operation [push_addr] is [push_run] and [pop_addr] is
    [pop_run] on the list of the runs, the most recent first; a push onto a full
    stack, which loses the most recent run and not the oldest, included.  [flat]
    is the stack of addresses the runs stand for, on which these are push and
    pop as long as no push finds the stack full. *)

From S2P Require Import Prelude Word Dff Rat RatSpec Ras.

(** ** Tables between two clocks *)
Section tables.
Context {T : Type}.
Implicit Type t : list (dff_t T).
Definition contents (t : list (dff_t T)) : list T := dff.get <$> t.
(** No write is pending. *)
Definition settled_table (t : list (dff_t T)) : Prop := dff.get_new <$> t = contents t.

Lemma contents_length t : length (contents t) = length t.
Proof. apply length_fmap. Qed.
Lemma contents_sync t : contents (dff.sync <$> t) = dff.get_new <$> t.
Proof. unfold contents. by rewrite <- list_fmap_compose. Qed.
Lemma sync_settled t : settled_table (dff.sync <$> t).
Proof. unfold settled_table, contents. by rewrite <- !list_fmap_compose. Qed.

Lemma tget_contents t i v : tget i t = Ok v <-> 0 <= i /\ contents t !! Z.to_nat i = Some v.
Proof.
  unfold tget, contents. rewrite list_lookup_fmap. split.
  - intros H. inv_ok. apply arr_get_Some in Hx as [H0 ->]. done.
  - intros [H0 H]. destruct (t !! Z.to_nat i) as [d|] eqn:E; [| discriminate].
    cbn in H. injection H as <-.
    replace (arr_get t i) with (Ok d) by (symmetry; by apply arr_get_Some). done.
Qed.

Lemma tset_contents t i v : settled_table t -> 0 <= i < zlen t ->
  exists t', tset i v t = Ok t' /\ length t' = length t /\
    contents (dff.sync <$> t') = <[Z.to_nat i := v]> (contents t).
Proof.
  intros Hs Hi. destruct (tset_spec t i v Hi) as (t' & E & Hl & Hn & _).
  exists t'. split_and!; [done | done |]. by rewrite contents_sync, Hn, Hs.
Qed.
End tables.

Lemma take_insert_top {A} (l : list A) n x : (n < length l)%nat ->
  take (S n) (<[n := x]> l) = take n l ++ [x].
Proof.
  intros H. rewrite (take_S_r _ _ x).
  - by rewrite take_insert_ge by lia.
  - by apply list_lookup_insert_eq.
Qed.

Section spec.
Import ras.
Implicit Type s : ras_t.

(** The addresses of the stack; the most recent run is the first. *)
Definition run_of (i : item_t) : list Z := replicate (Z.to_nat (cnt i)) (addr i).
Definition flat (rs : list item_t) : list Z := concat (run_of <$> rs).

(** A push that counts up the most recent run. *)
Definition same_run (a : Z) (t : item_t) : bool := (addr t =? a) && (cnt t <? 0xFFFFFFFF).
(** A push that needs a new entry and finds none. *)
Definition overflows (sz a : Z) (rs : list item_t) : bool :=
  match rs with [] => false | t :: _ => negb (same_run a t) && (zlen rs =? sz) end.
(** What is left of the runs below the most recent one, which is lost: the next
    is there twice and the oldest is lost as well. *)
Definition thrown (below : list item_t) : list item_t :=
  match below with [] => [] | u :: _ => u :: take (pred (length below)) below end.
Definition push_run (sz a : Z) (rs : list item_t) : list item_t :=
  match rs with
  | [] => [mk_item a 1]
  | t :: below =>
      if same_run a t then mk_item a (cnt t + 1) :: below
      else mk_item a 1 :: (if overflows sz a rs then thrown below else rs)
  end.
Definition pop_run (rs : list item_t) : list item_t :=
  match rs with
  | [] => []
  | t :: below => if cnt t =? 1 then below else mk_item (addr t) (cnt t - 1) :: below
  end.
Definition count_ok (i : item_t) : Prop := 1 <= cnt i < two32.

Lemma run_nonempty i : 1 <= cnt i -> run_of i = addr i :: replicate (Z.to_nat (cnt i - 1)) (addr i).
Proof.
  intros H. unfold run_of. replace (Z.to_nat (cnt i)) with (S (Z.to_nat (cnt i - 1))) by lia. done.
Qed.
Lemma flat_push sz a rs : Forall count_ok rs -> overflows sz a rs = false ->
  flat (push_run sz a rs) = a :: flat rs.
Proof.
  intros H O. destruct rs as [| t below]; [done |]. unfold push_run. rewrite O.
  destruct (same_run a t) eqn:E; [| done]. apply Forall_cons in H as [[H _] _].
  unfold same_run in E. assert (addr t = a) by lia. unfold flat. cbn [fmap list_fmap concat].
  rewrite run_nonempty by (cbn; lia). cbn [addr cnt]. rewrite Z.add_simpl_r. unfold run_of at 1. by subst a.
Qed.
Lemma flat_pop t below : count_ok t -> flat (t :: below) = addr t :: flat (pop_run (t :: below)).
Proof.
  intros [H _]. unfold flat. cbn [fmap list_fmap concat pop_run].
  rewrite run_nonempty by done. destruct (cnt t =? 1) eqn:E.
  - by replace (Z.to_nat (cnt t - 1)) with 0%nat by lia.
  - done.
Qed.
Lemma thrown_ok below : Forall count_ok below -> Forall count_ok (thrown below).
Proof.
  intros H. destruct below as [| u below]; [done |]. apply Forall_cons. split.
  - by apply Forall_cons in H as [? _].
  - by apply Forall_take.
Qed.
Lemma push_run_ok sz a rs : Forall count_ok rs -> Forall count_ok (push_run sz a rs).
Proof.
  intros H. assert (N : count_ok (mk_item a 1)) by (split; cbn; word_lia).
  destruct rs as [| t below]; [by repeat constructor |]. unfold push_run.
  apply Forall_cons in H as [Ht Hb]. destruct (same_run a t) eqn:E.
  - apply Forall_cons. split; [| done]. unfold same_run in E. unfold count_ok in *. cbn. word_lia.
  - apply Forall_cons. split; [done |]. case_match; [by apply thrown_ok | by apply Forall_cons].
Qed.
Lemma pop_run_ok rs : Forall count_ok rs -> Forall count_ok (pop_run rs).
Proof.
  destruct rs as [| t below]; [done |]. intros [Ht Hb]%Forall_cons. cbn [pop_run].
  destruct (cnt t =? 1) eqn:E; [done |]. apply Forall_cons. split; [| done].
  unfold count_ok in *. cbn. lia.
Qed.

(** The runs, the oldest first, in the buffer. *)
Record ras_repr s (items : list item_t) : Prop := {
  r_size : 0 < stack.size (base s) < 2147483648;
  r_len : zlen (stack.buffer (base s)) = stack.size (base s);
  r_settled : settled_table (stack.buffer (base s));
  r_top : dff.get (stack.top_ptr (base s)) = zlen items;
  r_top_new : dff.get_new (stack.top_ptr (base s)) = zlen items;
  r_items : take (length items) (contents (stack.buffer (base s))) = items;
  r_cnt : Forall count_ok items
}.

Lemma repr_bound s items : ras_repr s items -> zlen items <= stack.size (base s).
Proof.
  intros []. rewrite <- r_items0 at 1. unfold zlen in *. rewrite length_take, contents_length. lia.
Qed.
Section ops.
Context s items (H : ras_repr s items).
#[local] Abbreviation buf := (stack.buffer (base s)).
#[local] Abbreviation sz := (stack.size (base s)).

Lemma repr_empty : stack.is_empty (base s) = (zlen items =? 0).
Proof using H. unfold stack.is_empty. by rewrite (r_top _ _ H). Qed.
Lemma repr_full : stack.is_full (base s) = (zlen items =? sz).
Proof using H. unfold stack.is_full. by rewrite (r_top _ _ H). Qed.

Lemma repr_top_id : items <> [] -> stack.top_id (base s) = zlen items - 1.
Proof using H.
  intros Hne. unfold stack.top_id, sub32. rewrite (r_top _ _ H).
  pose proof (repr_bound _ _ H). pose proof (r_size _ _ H). apply u32_small.
  destruct items; [done |]. unfold zlen in *. cbn [length] in *. word_lia.
Qed.

Lemma repr_get_top : stack.get_top (base s) = Ok (last items).
Proof using H.
  unfold stack.get_top. rewrite repr_empty. destruct (last items) as [t|] eqn:E.
  2: { apply last_None in E. by rewrite E. }
  apply last_Some in E as [l E]. pose proof (r_items _ _ H) as Hi.
  assert (Hz : zlen items = zlen l + 1) by (rewrite E; unfold zlen; rewrite length_app; cbn; lia).
  replace (zlen items =? 0) with false by (unfold zlen in *; lia).
  rewrite repr_top_id by (rewrite E; by destruct l).
  replace (tget _ buf) with (Ok t); [done |]. symmetry. apply tget_contents.
  rewrite Hz. replace (zlen l + 1 - 1) with (zlen l) by lia. split; [unfold zlen; lia |].
  unfold zlen. rewrite Nat2Z.id. rewrite E, length_app in Hi. cbn in Hi.
  assert (El : take (length l + 1) (contents buf) !! length l = Some t).
  { rewrite Hi. by apply list_lookup_middle. }
  rewrite lookup_take_Some in El. tauto.
Qed.

(** A write at the top or just above it, with the new height. *)
Lemma write_repr l x last_ d : dff.get_new d = zlen l + 1 -> zlen l + 1 <= sz ->
  take (length l) (contents buf) = l -> Forall count_ok (l ++ [x]) ->
  exists b, tset (zlen l) x buf = Ok b /\
    ras_repr (sync (mk (stack.mk b sz d) last_)) (l ++ [x]).
Proof using H.
  intros Hd Hh Hl Hc. pose proof (r_len _ _ H) as Hlen.
  destruct (tset_contents buf (zlen l) x (r_settled _ _ H)) as (b & E & Lb & Cb).
  { unfold zlen in *. lia. }
  exists b. split; [done |].
  assert (Hz : zlen (l ++ [x]) = zlen l + 1) by (unfold zlen; rewrite length_app; cbn; lia).
  split; unfold sync; cbn [base stack.sync stack.buffer stack.size stack.top_ptr].
  - apply H.
  - unfold zlen in *. rewrite length_fmap. lia.
  - apply sync_settled.
  - by rewrite Hz.
  - by rewrite Hz.
  - rewrite Cb, length_app, Nat.add_1_r. unfold zlen at 1. rewrite Nat2Z.id.
    rewrite take_insert_top; [by rewrite Hl |]. rewrite contents_length. unfold zlen in *. lia.
  - done.
Qed.

(** What is below the top. *)
Lemma repr_below l t : items = l ++ [t] -> take (length l) (contents buf) = l.
Proof using H.
  intros E. pose proof (r_items _ _ H) as Hi. rewrite E, length_app in Hi. cbn in Hi.
  assert (take (length l) (take (length l + 1) (contents buf)) = l) as E2.
  { rewrite Hi. by rewrite take_app_length. }
  rewrite take_take in E2. by replace (length l `min` (length l + 1))%nat with (length l) in E2 by lia.
Qed.

(** The loop of [throw_push] reads the old entries. *)
Lemma shift_down_spec fuel i n b : (Z.to_nat (n - i) <= fuel)%nat -> 1 <= i -> n <= zlen b ->
  exists b', shift_down fuel i n b = Ok b' /\ length b' = length b /\ contents b' = contents b /\
    forall k : nat, (dff.get_new <$> b') !! k =
      if (i - 1 <=? Z.of_nat k) && (Z.of_nat k <? n - 1) then contents b !! S k else (dff.get_new <$> b) !! k.
Proof using.
  revert i b. induction fuel as [| fuel IH]; intros i b Hf Hi Hn; cbn [shift_down].
  - replace (i <? n) with false by lia. exists b. split_and!; [done.. |]. intros k.
    by replace (_ && _) with false by lia.
  - destruct (i <? n) eqn:E.
    2: { exists b. split_and!; [done.. |]. intros k. by replace (_ && _) with false by lia. }
    destruct (lookup_lt_is_Some_2 (contents b) (Z.to_nat i)) as [x Hx].
    { rewrite contents_length. unfold zlen in Hn. lia. }
    replace (tget i b) with (Ok x) by (symmetry; apply tget_contents; split; [lia | done]).
    cbn [mbind outcome_bind]. destruct (tset_spec b (i - 1) x) as (b1 & -> & L1 & N1 & C1); [lia |].
    cbn [mbind outcome_bind]. destruct (IH (i + 1) b1) as (b2 & -> & L2 & C2 & N2).
    { lia. } { lia. } { unfold zlen in *. lia. }
    exists b2. change (contents b1) with (dff.get <$> b1) in *. rewrite C1 in C2, N2.
    split_and!; [done | by rewrite L2 | done |]. intros k. rewrite N2, N1.
    destruct (decide (Z.of_nat k = i - 1)) as [Ek | Ek].
    + replace (Z.to_nat (i - 1)) with k by lia. rewrite list_lookup_insert_eq.
      2: { rewrite length_fmap. unfold zlen in Hn. lia. }
      replace (_ && _) with false by lia. replace (_ && _) with true by lia.
      by replace (S k) with (Z.to_nat i) by lia.
    + rewrite list_lookup_insert_ne by lia.
      by replace ((i + 1 - 1 <=? Z.of_nat k) && (Z.of_nat k <? n - 1))
        with ((i - 1 <=? Z.of_nat k) && (Z.of_nat k <? n - 1)) by lia.
Qed.
End ops.

Lemma lookup_thrown below (k : nat) : reverse (thrown below) !! k =
  if (S k <? length below)%nat then reverse below !! S k
  else if (k <? length below)%nat then head below else None.
Proof.
  destruct below as [| u below]; [done |]. unfold thrown. rewrite reverse_cons, reverse_take.
  set (l := u :: below). assert (E : (length l - pred (length l))%nat = 1%nat) by (subst l; cbn; lia).
  rewrite E. assert (D : length (drop 1 (reverse l)) = length below)
    by (rewrite length_drop, length_reverse; subst l; cbn; lia).
  destruct (Nat.ltb_spec (S k) (length l)) as [H | H].
  - rewrite lookup_app_l by (rewrite D; subst l; cbn in H; lia). by rewrite lookup_drop.
  - rewrite lookup_app_r by (rewrite D; subst l; cbn in H; lia). rewrite D.
    destruct (Nat.ltb_spec k (length l)) as [H' | H']; subst l; cbn in H, H'.
    + by replace (k - length below)%nat with 0%nat by lia.
    + destruct (k - length below)%nat eqn:Ed; [lia | done].
Qed.

(** The buffer after the loop and the write at the top. *)
Lemma thrown_contents below x (old new : list item_t) :
  take (length below) old = reverse below -> length old = S (length below) -> length new = length old ->
  (forall k : nat, new !! k = if (S (S k) <? length old)%nat then old !! S k else old !! k) ->
  <[length below := x]> new = reverse (x :: thrown below).
Proof.
  intros B Lo Ln N. rewrite reverse_cons. apply list_eq. intros k.
  assert (Lt : length (reverse (thrown below)) = length below).
  { rewrite length_reverse. destruct below as [| u l]; cbn; [done |]. rewrite length_take. cbn. lia. }
  destruct (decide (k = length below)) as [-> | Ek].
  { rewrite list_lookup_insert_eq by lia. rewrite lookup_app_r by lia. by rewrite Lt, Nat.sub_diag. }
  rewrite list_lookup_insert_ne by done. destruct (decide (k < length below)%nat) as [Hk | Hk].
  2: { rewrite !lookup_ge_None_2; [done | rewrite length_app, Lt; cbn; lia | lia]. }
  rewrite lookup_app_l by lia. rewrite N, lookup_thrown, Lo.
  assert (G : forall j, (j < length below)%nat -> old !! j = reverse below !! j).
  { intros j Hj. rewrite <- B. by rewrite lookup_take_lt. }
  destruct (Nat.ltb_spec (S k) (length below)) as [Hk1 | Hk1].
  - replace (S (S k) <? S (length below))%nat with true by lia. by apply G.
  - replace (S (S k) <? S (length below))%nat with false by lia.
    replace (k <? length below)%nat with true by lia. rewrite G by lia.
    destruct below as [| u l]; [cbn in Hk; lia |]. assert (k = length (reverse l)) as ->.
    { rewrite length_reverse. cbn in Hk, Hk1. lia. }
    rewrite reverse_cons. by rewrite list_lookup_middle.
Qed.

Section stack_ops.
Context s rs (H : ras_repr s (reverse rs)).
#[local] Abbreviation buf := (stack.buffer (base s)).
#[local] Abbreviation sz := (stack.size (base s)).

Lemma runs_ok : Forall count_ok rs.
Proof using H. apply Forall_reverse. by apply (r_cnt _ _ H). Qed.
Lemma runs_cases : rs = [] \/ exists t below, rs = t :: below.
Proof using. clear H. destruct rs; eauto. Qed.
Lemma runs_top t below : rs = t :: below ->
  zlen (reverse below) = zlen rs - 1 /\ stack.top_id (base s) = zlen rs - 1 /\
  take (length (reverse below)) (contents buf) = reverse below.
Proof using H.
  intros E. assert (Z1 : zlen (reverse below) = zlen rs - 1).
  { rewrite E. unfold zlen. rewrite length_reverse. cbn. lia. }
  split; [done |]. rewrite E, reverse_cons in H. split.
  - rewrite (repr_top_id _ _ H) by (by destruct (reverse below)). unfold zlen in *. rewrite length_app. cbn. lia.
  - by apply (repr_below _ _ H _ t).
Qed.

(** A push onto a full stack. *)
Lemma throw_push_spec t below x : rs = t :: below -> zlen rs = sz -> count_ok x ->
  exists s', throw_push x s = Ok s' /\ ras_repr (sync s') (reverse (x :: thrown below)) /\
    last_addr s' = last_addr s /\ stack.size (base s') = sz.
Proof using H.
  intros E Full Hx. destruct (runs_top t below E) as (Z1 & T & B). pose proof (r_len _ _ H) as L.
  pose proof (r_size _ _ H) as Hs. unfold throw_push. rewrite T.
  destruct (shift_down_spec (Z.to_nat sz) 1 (zlen rs - 1) buf) as (b1 & -> & L1 & C1 & N1); [lia.. |].
  cbn [mbind outcome_bind]. destruct (tset_spec b1 (zlen rs - 1) x) as (b2 & -> & L2 & N2 & C2).
  { unfold zlen in *. lia. }
  cbn [mbind outcome_bind]. eexists. split; [done |]. split; [| done].
  assert (Lb : Z.of_nat (length below) = zlen rs - 1) by (rewrite E; unfold zlen; cbn; lia).
  assert (Hc : dff.get_new <$> b2 = reverse (x :: thrown below)).
  { rewrite N2. replace (Z.to_nat (zlen rs - 1)) with (length below) by lia.
    rewrite length_reverse in B. pose proof (contents_length buf) as Lc. unfold zlen in L, Lb, Full.
    apply (thrown_contents _ _ (contents buf)); [done | lia | rewrite length_fmap; lia |].
    intros k. rewrite N1, (r_settled _ _ H : _ = contents _).
    by replace ((1 - 1 <=? Z.of_nat k) && (Z.of_nat k <? zlen rs - 1 - 1))
      with (S (S k) <? length (contents buf))%nat by (unfold zlen in *; lia). }
  assert (Lr : zlen (reverse (x :: thrown below)) = zlen (reverse rs)).
  { rewrite <- Hc. unfold zlen in *. rewrite length_fmap, length_reverse. lia. }
  change (ras_repr (sync (mk (stack.mk b2 sz (stack.top_ptr (base s))) (last_addr s))) (reverse (x :: thrown below))).
  split; cbn [sync base stack.sync stack.buffer stack.size stack.top_ptr].
  - done.
  - unfold zlen in L |- *. rewrite length_fmap. lia.
  - apply sync_settled.
  - transitivity (zlen (reverse rs)); [apply (r_top_new _ _ H) | done].
  - transitivity (zlen (reverse rs)); [apply (r_top_new _ _ H) | done].
  - rewrite contents_sync, Hc. apply firstn_all.
  - apply Forall_reverse, Forall_cons. split; [done |]. apply thrown_ok.
    pose proof runs_ok as R. rewrite E in R. by apply Forall_cons in R as [_ ?].
Qed.

(** [push_addr] is [push_run]. *)
Lemma push_addr_spec a :
  exists s', push_addr a s = Ok s' /\ ras_repr (sync s') (reverse (push_run sz a rs)) /\
    last_addr s' = last_addr s /\ stack.size (base s') = sz.
Proof using H.
  pose proof runs_ok as Hok. pose proof (r_size _ _ H) as Hs. pose proof (repr_bound _ _ H) as Hb.
  assert (N : count_ok (mk_item a 1)) by (split; cbn; word_lia).
  assert (Zr : zlen (reverse rs) = zlen rs) by (unfold zlen; by rewrite length_reverse). rewrite Zr in Hb.
  assert (Hnew : (zlen rs =? sz) = false -> exists s',
    (bs ← stack.push (mk_item a 1) (base s); Ok (mk bs.2 (last_addr s))) = Ok s' /\
    ras_repr (sync s') (reverse (mk_item a 1 :: rs)) /\ last_addr s' = last_addr s /\ stack.size (base s') = sz).
  { intros Hne. unfold stack.push. rewrite (repr_full _ _ H), Zr, Hne.
    destruct (write_repr s _ H (reverse rs) (mk_item a 1) (last_addr s)
      (dff.set (zlen rs + 1) (stack.top_ptr (base s)))) as (b & E & R);
      [cbn; lia | lia | apply H | apply Forall_app; split; [apply H | by apply Forall_singleton] |].
    rewrite (r_top _ _ H), E, Zr. cbn [mbind outcome_bind].
    assert (Ha : add32 (zlen rs) 1 = zlen rs + 1) by (apply u32_small; unfold zlen in *; word_lia).
    eexists. split; [done |]. rewrite Ha, reverse_cons. by split. }
  unfold push_addr. rewrite (repr_get_top _ _ H), (repr_full _ _ H), Zr. cbn [mbind outcome_bind].
  destruct runs_cases as [Ers | (t & below & Ers)].
  { assert (Hne : (zlen rs =? sz) = false) by (rewrite Ers; unfold zlen; cbn; lia).
    specialize (Hnew Hne). rewrite Hne. rewrite Ers in Hnew |- *. exact Hnew. }
  destruct (runs_top t below Ers) as (Z1 & T & B).
  replace (last (reverse rs)) with (Some t) by (by rewrite Ers, reverse_cons, last_snoc).
  change ((addr t =? a) && (cnt t <? 0xFFFFFFFF)) with (same_run a t).
  replace (push_run sz a rs) with (if same_run a t then mk_item a (cnt t + 1) :: below
    else mk_item a 1 :: (if zlen rs =? sz then thrown below else rs)).
  2: { rewrite Ers. unfold push_run, overflows. by destruct (same_run a t). }
  destruct (same_run a t) eqn:Es.
  - pose proof Hok as Hok'. rewrite Ers in Hok'. apply Forall_cons in Hok' as [Ht Hbel].
    unfold same_run in Es. unfold count_ok in Ht.
    assert (Ha : add32 (cnt t) 1 = cnt t + 1) by (apply u32_small; word_lia).
    destruct (write_repr s _ H (reverse below) (mk_item a (cnt t + 1)) (last_addr s)
      (stack.top_ptr (base s))) as (b & E & R);
      [rewrite (r_top_new _ _ H); lia | lia | done
      | apply Forall_app; split; [by apply Forall_reverse | apply Forall_singleton; unfold count_ok; cbn; word_lia] |].
    unfold set_item. rewrite T, Ha, <- Z1. replace (addr t) with a by lia. rewrite E. cbn [mbind outcome_bind].
    eexists. split; [done |]. rewrite reverse_cons. by split.
  - destruct (zlen rs =? sz) eqn:Ef; [| by apply Hnew].
    apply (throw_push_spec t); [done | lia | done].
Qed.

(** [pop_addr] is [pop_run]; with nothing to pop it returns [last_addr]. *)
Lemma pop_addr_empty : rs = [] -> pop_addr s = Ok (dff.get (last_addr s), s).
Proof using H. intros E. rewrite E in H. unfold pop_addr. by rewrite (repr_get_top _ _ H). Qed.
Lemma pop_addr_spec t below : rs = t :: below ->
  exists s', pop_addr s = Ok (addr t, s') /\ ras_repr (sync s') (reverse (pop_run (t :: below))) /\
    stack.size (base s') = sz /\ (pop_run (t :: below) = [] -> dff.get (last_addr (sync s')) = addr t).
Proof using H.
  intros Ers.
  pose proof runs_ok as Hok. pose proof (r_size _ _ H) as Hs. pose proof (repr_bound _ _ H) as Hb.
  assert (Zr : zlen (reverse rs) = zlen rs) by (unfold zlen; by rewrite length_reverse). rewrite Zr in Hb.
  unfold pop_addr. pose proof (repr_get_top _ _ H) as Hg. rewrite Hg. cbn [mbind outcome_bind].
  destruct (runs_top t below Ers) as (Z1 & T & B).
  assert (Hlast : last (reverse rs) = Some t) by (by rewrite Ers, reverse_cons, last_snoc).
  rewrite Hlast in Hg |- *. rewrite Ers in Hok. apply Forall_cons in Hok as [Ht Hbel].
  unfold count_ok in Ht. cbn [pop_run]. assert (Hz : 0 < zlen rs) by (rewrite Ers; unfold zlen; cbn; lia).
  destruct (cnt t =? 1) eqn:E1.
  - unfold stack.get_top in Hg. unfold stack.pop. rewrite (repr_empty _ _ H), Zr in *.
    replace (zlen rs =? 0) with false in * by lia.
    destruct (tget (stack.top_id (base s)) buf) as [y| | |] eqn:Ey; try discriminate Hg. injection Hg as ->.
    cbn [mbind outcome_bind of_option fst snd]. rewrite T. eexists. split; [done |]. split; [| done].
    split; cbn [sync base stack.sync stack.set_top stack.buffer stack.size stack.top_ptr]; try done.
    + pose proof (r_len _ _ H). unfold zlen in *. by rewrite length_fmap.
    + apply sync_settled.
    + by rewrite contents_sync, (r_settled _ _ H).
    + by apply Forall_reverse.
  - unfold set_item. rewrite T. assert (Ha : sub32 (cnt t) 1 = cnt t - 1) by (apply u32_small; word_lia).
    destruct (write_repr s _ H (reverse below) (mk_item (addr t) (cnt t - 1)) (last_addr s)
      (stack.top_ptr (base s))) as (b & E & R); [rewrite (r_top_new _ _ H); lia | lia | done |
        apply Forall_app; split; [by apply Forall_reverse | apply Forall_singleton; unfold count_ok; cbn; word_lia] |].
    rewrite <- Z1, Ha, E. cbn [mbind outcome_bind]. eexists. split; [done |]. rewrite reverse_cons. by split.
Qed.
End stack_ops.

Lemma ras_new_repr sz : 0 < sz < 2147483648 -> ras_repr (sync (new sz)) [].
Proof.
  intros Hs. split; cbn; try done.
  - unfold zlen. rewrite length_fmap, length_replicate. lia.
  - apply sync_settled.
Qed.

(** ** Sequences of calls and returns, one per cycle *)
Inductive call := c_push (a : Z) | c_pop.

Fixpoint run (cs : list call) s : outcome (list Z * ras_t) :=
  match cs with
  | [] => Ok ([], s)
  | c_push a :: cs => s ← push_addr a s; run cs (sync s)
  | c_pop :: cs => xs ← pop_addr s; rs ← run cs (sync xs.2); Ok (xs.1 :: rs.1, rs.2)
  end.
(** On the runs; a return without a call repeats the last address. *)
Fixpoint run_runs (sz : Z) (cs : list call) (rs : list item_t) (last : Z) : list Z * list item_t :=
  match cs with
  | [] => ([], rs)
  | c_push a :: cs => run_runs sz cs (push_run sz a rs) last
  | c_pop :: cs =>
      let a := match rs with [] => last | t :: _ => addr t end in
      let r := run_runs sz cs (pop_run rs) a in (a :: r.1, r.2)
  end.
(** On the stack of addresses, which has no bound. *)
Fixpoint calls (cs : list call) (l : list Z) (last : Z) : list Z * list Z :=
  match cs with
  | [] => ([], l)
  | c_push a :: cs => calls cs (a :: l) last
  | c_pop :: cs =>
      let a := default last (head l) in
      let r := calls cs (tail l) a in (a :: r.1, r.2)
  end.
(** No push finds the stack full. *)
Fixpoint never_full (sz : Z) (cs : list call) (rs : list item_t) : Prop :=
  match cs with
  | [] => True
  | c_push a :: cs => overflows sz a rs = false /\ never_full sz cs (push_run sz a rs)
  | c_pop :: cs => never_full sz cs (pop_run rs)
  end.

Lemma sync_idle s items : ras_repr s items -> ras_repr (sync s) items.
Proof.
  intros []. split; cbn [sync base stack.sync stack.buffer stack.size stack.top_ptr]; try done.
  - unfold zlen in *. by rewrite length_fmap.
  - apply sync_settled.
  - by rewrite contents_sync, r_settled0.
Qed.

Lemma ras_run_spec cs s rs last :
  ras_repr s (reverse rs) -> (rs = [] -> dff.get (last_addr s) = last) ->
  dff.get_new (last_addr s) = dff.get (last_addr s) ->
  exists s', run cs s = Ok ((run_runs (stack.size (base s)) cs rs last).1, s') /\
    ras_repr s' (reverse (run_runs (stack.size (base s)) cs rs last).2).
Proof.
  revert s rs last. induction cs as [|[a|] cs IH]; intros s rs last_ H Hl Hn; cbn [run_runs run].
  - by exists s.
  - destruct (push_addr_spec s rs H a) as (s' & -> & R & Ela & Esz). cbn [mbind outcome_bind].
    rewrite <- Esz. change (stack.size (base s')) with (stack.size (base (sync s'))).
    apply IH; [cbn; by rewrite Esz | | done]. intros E. destruct rs; [discriminate E |]. cbn in E. by case_match.
  - destruct rs as [| t below].
    + rewrite (pop_addr_empty s [] H eq_refl). cbn [mbind outcome_bind fst snd pop_run].
      destruct (IH (sync s) [] last_) as (s' & -> & R).
      * by apply sync_idle.
      * intros _. change (dff.get (last_addr (sync s))) with (dff.get_new (last_addr s)).
        rewrite Hn. by apply Hl.
      * done.
      * cbn [mbind outcome_bind fst snd]. exists s'. by rewrite (Hl eq_refl).
    + destruct (pop_addr_spec s _ H t below eq_refl) as (s1 & -> & R1 & Esz & Hlast). cbn [mbind outcome_bind fst snd].
      rewrite <- Esz. change (stack.size (base s1)) with (stack.size (base (sync s1))).
      destruct (IH (sync s1) (pop_run (t :: below)) (addr t)) as (s' & -> & R); [done.. |].
      cbn [mbind outcome_bind fst snd]. by exists s'.
Qed.
(** The runs are a stack of addresses. *)
Lemma run_runs_flat sz cs rs last : Forall count_ok rs -> never_full sz cs rs ->
  calls cs (flat rs) last = ((run_runs sz cs rs last).1, flat (run_runs sz cs rs last).2).
Proof.
  revert rs last. induction cs as [|[a|] cs IH]; intros rs last_ H N; cbn [run_runs calls never_full] in *; [done | |].
  - destruct N as [O N]. rewrite <- IH by (done || by apply push_run_ok). by rewrite flat_push.
  - destruct rs as [| t below].
    + pose proof (IH [] last_ H N) as E. change (flat []) with (@nil Z) in E |- *. cbn. by rewrite E.
    + pose proof H as [Ht _]%Forall_cons. rewrite (flat_pop t below Ht). pose proof (IH _ (addr t) (pop_run_ok _ H) N) as E.
      generalize dependent (pop_run (t :: below)). intros k _ E. cbn. by rewrite E.
Qed.
End spec.

(** ** A full stack

    [throw_push] means to drop the oldest run.  Its loop stops one entry short:
    the most recent run is overwritten by the new one and the run below it is
    there twice. *)
Example throw_push_drops_the_top :
  (rs ← run [c_push 4; c_push 8; c_push 12; c_push 16; c_pop; c_pop; c_pop] (ras.sync (ras.new 3));
   Ok rs.1) = Ok [16; 8; 8].
Proof. reflexivity. Qed.
