(* ===== verification/Rob.v ===== *)
(** * Reorder buffer and issue queue

    include/cycle_model/component/rob.h, ooo_issue_queue.h and io_issue_queue.h.

    Both classes inherit from [fifo]; the base object is the field [base]. *)

From S2P Require Import Prelude Word Ops IsaDecode Dff Fifo Rat CycleDecode CyclePack.

(** ** Reorder buffer *)
Module rob.
(** [rob_item_t] without [sub_op], a string for the debugger. *)
Record item_t := mk_item {
  inst_common_info : inst_common_info_t;
  new_phy_reg_id : Z;
  old_phy_reg_id : Z;
  old_phy_reg_id_valid : bool;
  finish : bool;
  pc : Z;
  inst_value : Z;
  last_uop : bool;
  rd : Z;
  has_exception : bool;
  exception_id : riscv_exception_t;
  exception_value : Z;
  bru_op : bool;
  bru_jump : bool;
  bru_next_pc : Z;
  is_mret : bool;
  csr_addr : Z;
  csr_newvalue : Z;
  csr_newvalue_valid : bool;
  old_phy_id_free_list_rptr : Z;
  old_phy_id_free_list_rstage : bool;
  new_phy_id_free_list_rptr : Z;
  new_phy_id_free_list_rstage : bool;
  branch_predictor_info_pack : bp_info.pack_t;
  load_queue_id_valid : bool;
  load_queue_id : Z;
  store_buffer_id_valid : bool;
  store_buffer_id : Z
}.
Definition item_init : item_t :=
  mk_item (mk_info 0) 0 0 false false 0 0 false 0 false
    riscv_exception.instruction_address_misaligned 0 false false 0 false 0 0 false 0 false 0 false
    bp_info.init false 0 false 0.

Record rob_t := mk { base : fifo_t item_t; committed : bool; commit_num : Z; global_commit_num : Z }.

Definition set_base (f : fifo_t item_t) (r : rob_t) : rob_t := { r with base := f }.
Definition reset (r : rob_t) : rob_t := mk (fifo.reset (base r)) false 0 0.
(** [fifo::flush], which is not overridden: the counters stay. *)
Definition flush (r : rob_t) : rob_t := set_base (fifo.flush (base r)) r.
Definition new (sz : Z) : rob_t := reset (mk (fifo.new sz item_init) false 0 0).
Definition sync (r : rob_t) : rob_t := set_base (fifo.sync (base r)) r.

Definition get_committed (r : rob_t) : bool := committed r.
Definition set_committed (v : bool) (r : rob_t) : rob_t := { r with committed := v }.
Definition add_commit_num (n : Z) (r : rob_t) : rob_t :=
  { r with commit_num ::= λ x, add32 x n; global_commit_num ::= λ x, u64 (x + n) }.
Definition get_global_commit_num (r : rob_t) : Z := global_commit_num r.
Definition get_commit_num (r : rob_t) : Z := commit_num r.
Definition clear_commit_num (r : rob_t) : rob_t := { r with commit_num := 0 }.

Definition push (x : item_t) (r : rob_t) : outcome (bool * rob_t) :=
  bf ← fifo.push x (base r); Ok (bf.1, set_base bf.2 r).
Definition pop (r : rob_t) : outcome (option item_t * rob_t) :=
  xf ← fifo.pop (base r); Ok (xf.1, set_base xf.2 r).
Definition get_item (id : Z) (r : rob_t) : outcome item_t := fifo.buffer_get id (base r).
Definition set_item (id : Z) (x : item_t) (r : rob_t) : outcome rob_t :=
  f ← fifo.set_item id x (base r); Ok (set_base f r).

Definition check_new_id_valid (id : Z) (r : rob_t) : bool :=
  let f := base r in
  if fifo.producer_is_full f then false
  else if eqb (dff.get_new (fifo.wstage f)) (dff.get (fifo.rstage f)) then
    negb ((dff.get (fifo.rptr f) <=? id) && (id <? dff.get_new (fifo.wptr f)))
  else negb (((dff.get (fifo.rptr f) <=? id) && (id <? fifo.size f)) ||
             (id <? dff.get_new (fifo.wptr f))).
(** [None] is the result [false]. *)
Definition get_new_id (r : rob_t) : option Z :=
  if fifo.producer_is_full (base r) then None else Some (dff.get_new (fifo.wptr (base r))).
Definition get_new_id_stage (r : rob_t) : option bool :=
  if fifo.producer_is_full (base r) then None else Some (dff.get_new (fifo.wstage (base r))).
(** The result, and [next_new_id] when it is written. *)
Definition get_next_new_id (cur : Z) (r : rob_t) : bool * option Z :=
  if negb (check_new_id_valid cur r) then (false, None)
  else let n := add32 cur 1 mod fifo.size (base r) in (check_new_id_valid n r, Some n).
Definition get_front_id (r : rob_t) : option Z := fifo.customer_get_front_id (base r).
Definition get_tail_id (r : rob_t) : option Z := fifo.customer_get_tail_id (base r).
Definition get_prev_id (id : Z) (r : rob_t) : outcome (bool * Z) :=
  verify (fifo.customer_check_id_valid id (base r)) ;;
  let n := u32 (id + fifo.size (base r) - 1) mod fifo.size (base r) in
  Ok (fifo.customer_check_id_valid n (base r), n).
Definition get_next_id (id : Z) (r : rob_t) : outcome (bool * Z) :=
  fifo.customer_get_next_id id (base r).
End rob.
Abbreviation rob_t := rob.rob_t.

(** ** Issue queues *)
Module ooo_issue_queue.
Section queue.
Context {T : Type}.
Record queue_t := mk { base : fifo_t T; valid : list (dff_t bool) }.

Definition invalidate (q : queue_t) : queue_t := mk (base q) (dff.set false <$> valid q).
Definition reset (q : queue_t) : queue_t := invalidate (mk (fifo.reset (base q)) (valid q)).
Definition flush (q : queue_t) : queue_t := invalidate (mk (fifo.flush (base q)) (valid q)).
Definition new (sz : Z) (v : T) : queue_t :=
  reset (mk (fifo.new sz v) (replicate (Z.to_nat sz) (dff.new false))).
Definition sync (q : queue_t) : queue_t := mk (fifo.sync (base q)) (dff.sync <$> valid q).

(** The loop of [producer_get_new_id] (and of [producer_is_full]): the first
    slot whose new valid bit is clear. *)
Fixpoint first_free (i : Z) (v : list (dff_t bool)) : option Z :=
  match v with
  | [] => None
  | d :: v => if negb (dff.get_new d) then Some i else first_free (i + 1) v
  end.
Definition producer_get_new_id (q : queue_t) : option Z := first_free 0 (valid q).
Definition producer_is_full (q : queue_t) : bool := bool_decide (first_free 0 (valid q) = None).

(** [push(data, &index)]: [None] is the result [false]. *)
Definition push (x : T) (q : queue_t) : outcome (option Z * queue_t) :=
  if negb (producer_is_full q) then
    match producer_get_new_id q with
    | None => Abort
    | Some i =>
        f ← fifo.set_item i x (base q);
        v ← tset i true (valid q);
        Ok (Some i, mk f v)
    end
  else Ok (None, q).
Definition pop (i : Z) (q : queue_t) : outcome queue_t :=
  b ← tget i (valid q); verify b ;;
  v ← tset i false (valid q); Ok (mk (base q) v).
Definition is_valid (i : Z) (q : queue_t) : outcome bool := tget i (valid q).
Definition set_valid (i : Z) (b : bool) (q : queue_t) : outcome queue_t :=
  v ← tset i b (valid q); Ok (mk (base q) v).
End queue.
Arguments queue_t T : clear implicits.
End ooo_issue_queue.
