(* ===== verification/RenameInv.v ===== *)
(** * The invariant of register renaming

    Four components hold the renaming state between them: the speculative and
    the retired alias table, the free list and, in every entry of the reorder
    buffer, the register an instruction got and the one it replaced.  [ren_inv]
    says how they fit together; the lemmas are what rename, retirement, the
    clock and a flush do to it. *)

From S2P Require Import Prelude Word Dff Fifo FifoSpec Rat RatSpec FreeList.
From S2P Require Import FreeListTrace CyclePack Rob.

(** ** An alias table that is the map [m] *)
Section rat.
Context (sz A : Z).
Implicit Types (r : rat_t) (m : gmap Z Z).

Record rat_is r m : Prop := {
  ri_wf : rat_wf r;
  ri_complete : complete r;
  ri_num : rat.phy_reg_num r = sz;
  ri_arch : rat.arch_reg_num r = A;
  ri_map : forall p a, maps r p a <-> m !! a = Some p
}.

Lemma rat_is_dom r m a : rat_is r m -> 0 < a < A -> is_Some (m !! a).
Proof.
  intros H Ha. destruct (ri_complete _ _ H a) as [p Hp]; [by rewrite (ri_arch _ _ H) |].
  exists p. by apply (ri_map _ _ H).
Qed.

Lemma rat_is_range r m a p : rat_is r m -> m !! a = Some p -> 0 < a < A /\ 0 <= p < sz.
Proof.
  intros H Hp. apply (ri_map _ _ H) in Hp. pose proof (w_arch _ (ri_wf _ _ H) _ _ Hp).
  pose proof (maps_range _ _ _ (ri_wf _ _ H) Hp).
  rewrite (ri_arch _ _ H) in *. rewrite (ri_num _ _ H) in *. done.
Qed.

Lemma rat_is_get r m a p x : rat_is r m -> m !! a = Some p ->
  rat.producer_get_phy_id a x r = Ok (true, p).
Proof.
  intros H Hp. pose proof (rat_is_range r m a p H Hp) as [Ha _].
  apply (ri_map _ _ H) in Hp.
  destruct (get_phy_id_spec r a x (ri_wf _ _ H)) as [(q & E & Hq) | (_ & Hn)].
  - by rewrite (ri_arch _ _ H).
  - by rewrite (w_inj _ (ri_wf _ _ H) _ _ _ Hp Hq).
  - by destruct (Hn p).
Qed.

Lemma rat_is_free r m p : rat_is r m -> 0 <= p < sz -> (forall a, m !! a <> Some p) ->
  vld r !! Z.to_nat p = Some false.
Proof.
  intros H Hp Hn. destruct (valid_new r p (ri_wf _ _ H)) as (v & Hv & _); [by rewrite (ri_num _ _ H) |].
  rewrite Hv. destruct v; [| done]. exfalso.
  destruct (lookup_lt_is_Some_2 (tbl r) (Z.to_nat p)) as [a Ha].
  { unfold tbl. rewrite length_fmap. pose proof (w_tbl _ (ri_wf _ _ H)) as Hl.
    rewrite (ri_num _ _ H) in Hl. unfold zlen in Hl. lia. }
  apply (Hn a). apply (ri_map _ _ H). split_and!; [lia | done | done].
Qed.

Lemma rat_is_set_map r m a p : rat_is r m -> 0 < a < A -> 0 <= p < sz ->
  (forall a, m !! a <> Some p) ->
  exists old r', rat.set_map a p r = Ok (old, r') /\ m !! a = Some old /\ rat_is r' (<[a := p]> m) /\
    tbl r' = <[Z.to_nat p := a]> (tbl r).
Proof.
  intros H Ha Hp Hn. pose proof (rat_is_free r m p H Hp Hn) as Hf.
  destruct (set_map_spec r a p (ri_wf _ _ H) (ri_complete _ _ H))
    as (old & r' & E & Hold & W & C & N & Ar & M & T & _);
    [by rewrite (ri_arch _ _ H) | by rewrite (ri_num _ _ H) | done |].
  exists old, r'. split; [done |]. split; [by apply (ri_map _ _ H) |]. split; [| done].
  split; [done | done | by rewrite N, (ri_num _ _ H) | by rewrite Ar, (ri_arch _ _ H) |].
  intros q b. rewrite M. destruct (decide (b = a)) as [-> | Hb].
  - rewrite Z.eqb_refl, lookup_insert_eq. naive_solver.
  - rewrite lookup_insert_ne by done. replace (b =? a) with false by lia. apply (ri_map _ _ H).
Qed.

Lemma rat_is_new r r' m : rat_is r m -> tbl r' = tbl r -> vld r' = vld r ->
  rat.phy_reg_num r' = rat.phy_reg_num r -> rat.arch_reg_num r' = rat.arch_reg_num r -> rat_is r' m.
Proof.
  intros H Et Ev En Ea. destruct (same_new r r' Et Ev En Ea) as [Hw Hc].
  split; [apply Hw, H | apply Hc, H | by rewrite En, (ri_num _ _ H) | by rewrite Ea, (ri_arch _ _ H) |].
  intros p a. unfold maps. rewrite Et, Ev. apply (ri_map _ _ H).
Qed.

Lemma rat_is_sync r m : rat_is r m -> rat_is (rat.sync r) m.
Proof. intros H. destruct (sync_new r). by apply (rat_is_new r). Qed.

Lemma zip_set_new {T} (l l' : list (dff_t T)) : length l = length l' ->
  dff.get_new <$> zip_with (λ d s, dff.set (dff.get_new s) d) l l' = dff.get_new <$> l'.
Proof.
  revert l'. induction l as [|x l IH]; intros [|y l'] Hl; try done.
  cbn in *. f_equal. apply IH. lia.
Qed.

(** [load] makes a table a copy of another. *)
Lemma rat_is_load e r m m' : rat_is e m -> rat_is r m' ->
  rat_is (rat.load e r) m /\ tbl (rat.load e r) = tbl e.
Proof.
  intros He Hr.
  pose proof (w_tbl _ (ri_wf _ _ He)). pose proof (w_tbl _ (ri_wf _ _ Hr)).
  pose proof (w_vld _ (ri_wf _ _ He)). pose proof (w_vld _ (ri_wf _ _ Hr)).
  pose proof (ri_num _ _ He). pose proof (ri_num _ _ Hr). unfold zlen in *.
  assert (Et : tbl (rat.load e r) = tbl e) by (unfold tbl, rat.load; cbn; apply zip_set_new; lia).
  split; [| done]. apply (rat_is_new e); [done | done | | |].
  - unfold vld, rat.load. cbn. apply zip_set_new. lia.
  - change (rat.phy_reg_num r = rat.phy_reg_num e). congruence.
  - change (rat.arch_reg_num r = rat.arch_reg_num e). by rewrite (ri_arch _ _ He), (ri_arch _ _ Hr).
Qed.
End rat.

(** ** The instructions in flight *)
Section in_flight.
Context (sz : Z).
Implicit Types (m : gmap Z Z) (it : rob.item_t) (l : list rob.item_t).

Definition new_ptr it : Z * bool :=
  (rob.new_phy_id_free_list_rptr it, rob.new_phy_id_free_list_rstage it).
Definition old_ptr it : Z * bool :=
  (rob.old_phy_id_free_list_rptr it, rob.old_phy_id_free_list_rstage it).
Definition at_count (n : Z) : Z * bool := (ptr sz n, stg sz n).

(** One entry takes the map [m] and the number [n] of registers handed out to
    [m'] and [n']. *)
Inductive flight_step m (n : Z) it : gmap Z Z -> Z -> Prop :=
| flight_rename old :
    rob.old_phy_reg_id_valid it = true -> m !! rob.rd it = Some old ->
    rob.old_phy_reg_id it = old ->
    flight_step m n it (<[rob.rd it := rob.new_phy_reg_id it]> m) (n + 1)
| flight_other :
    rob.old_phy_reg_id_valid it = false -> flight_step m n it m n.

Inductive in_flight : gmap Z Z -> Z -> list rob.item_t -> gmap Z Z -> Z -> Prop :=
| flight_nil m n : in_flight m n [] m n
| flight_cons m n it m1 n1 l m2 n2 :
    flight_step m n it m1 n1 -> old_ptr it = at_count n -> new_ptr it = at_count n1 ->
    in_flight m1 n1 l m2 n2 -> in_flight m n (it :: l) m2 n2.

Definition reg_of it : option Z :=
  if rob.old_phy_reg_id_valid it then Some (rob.new_phy_reg_id it) else None.
Definition regs_of l : list Z := omap reg_of l.

Lemma regs_of_app l l' : regs_of (l ++ l') = regs_of l ++ regs_of l'.
Proof. apply omap_app. Qed.
Lemma regs_of_length l : zlen (regs_of l) <= zlen l.
Proof.
  unfold zlen, regs_of. induction l as [|x l IH]; [done |]. cbn. destruct (reg_of x); cbn; lia.
Qed.

Lemma in_flight_snoc m n l m1 n1 it m2 n2 :
  in_flight m n l m1 n1 -> flight_step m1 n1 it m2 n2 -> old_ptr it = at_count n1 ->
  new_ptr it = at_count n2 -> in_flight m n (l ++ [it]) m2 n2.
Proof.
  intros H Hs Ho Hn. induction H as [m n|]; cbn; econstructor; try done; [constructor |].
  by apply IHin_flight.
Qed.

Lemma in_flight_count m n l m1 n1 : in_flight m n l m1 n1 -> n1 = n + zlen (regs_of l).
Proof.
  induction 1 as [m n|m n it m1 n1 l m2 n2 Hs _ _ _ IH]; [by rewrite Z.add_0_r |].
  unfold regs_of in *. cbn. unfold reg_of at 1.
  destruct Hs as [old E _ _ | E]; rewrite E; unfold zlen in *; cbn [length]; lia.
Qed.

Lemma in_flight_values m n l m1 n1 a p :
  in_flight m n l m1 n1 -> m1 !! a = Some p -> m !! a = Some p \/ p ∈ regs_of l.
Proof.
  intros H. revert p. induction H as [m n|m n it m1 n1 l m2 n2 Hs _ _ _ IH]; intros p Hp; [by left |].
  unfold regs_of in *. cbn. unfold reg_of at 1. destruct (IH p Hp) as [Hm | Hin].
  - destruct Hs as [old E _ _ | E]; rewrite E; [| by left].
    destruct (decide (rob.rd it = a)) as [<- |].
    + rewrite lookup_insert_eq in Hm. injection Hm as ->. right. left.
    + rewrite lookup_insert_ne in Hm by done. by left.
  - right. destruct Hs as [old E _ _ | E]; rewrite E; [by right | exact Hin].
Qed.

(** What a later stage writes into an entry leaves the renaming alone. *)
Definition same_renaming it it' : Prop :=
  rob.old_phy_reg_id_valid it' = rob.old_phy_reg_id_valid it /\
  rob.old_phy_reg_id it' = rob.old_phy_reg_id it /\ rob.new_phy_reg_id it' = rob.new_phy_reg_id it /\
  rob.rd it' = rob.rd it /\ old_ptr it' = old_ptr it /\ new_ptr it' = new_ptr it.
Lemma same_renaming_refl it : same_renaming it it.
Proof. by split_and!. Qed.
Lemma same_renaming_trans x y z : same_renaming x y -> same_renaming y z -> same_renaming x z.
Proof.
  intros (A1 & A2 & A3 & A4 & A5 & A6) (B1 & B2 & B3 & B4 & B5 & B6). split_and!; congruence.
Qed.

(** The registers of a map and of the entries [l], in a table that may have
    made some of them invalid since. *)
Definition recalls (t : list Z) m l : Prop :=
  (forall a p, m !! a = Some p -> t !! Z.to_nat p = Some a) /\
  Forall (λ it, rob.old_phy_reg_id_valid it = true ->
    t !! Z.to_nat (rob.new_phy_reg_id it) = Some (rob.rd it)) l.
Lemma recalls_same t m l l' : Forall2 same_renaming l l' -> recalls t m l -> recalls t m l'.
Proof.
  intros Hl [H0 H]. split; [done |]. induction Hl as [|x y l l' (E1 & _ & E3 & E4 & _) _ IH]; [done |].
  apply Forall_cons in H as [Hx H]. apply Forall_cons. split; [| by apply IH].
  rewrite E1, E3, E4. exact Hx.
Qed.
Lemma recalls_alloc t m l it : recalls t m l ->
  0 <= rob.new_phy_reg_id it < zlen t ->
  (forall a p, m !! a = Some p -> 0 <= p /\ p <> rob.new_phy_reg_id it) ->
  (forall p, p ∈ regs_of l -> 0 <= p /\ p <> rob.new_phy_reg_id it) ->
  recalls (<[Z.to_nat (rob.new_phy_reg_id it) := rob.rd it]> t) m (l ++ [it]).
Proof.
  intros [H0 H] Hd Hm Hl. unfold zlen in Hd. split.
  - intros a p Hp. destruct (Hm _ _ Hp). rewrite list_lookup_insert_ne by lia. by apply H0.
  - apply Forall_app. split; [| apply Forall_singleton; intros _; rewrite list_lookup_insert_eq; [done | lia]].
    apply Forall_forall. intros x Hx V. rewrite Forall_forall in H.
    destruct (Hl (rob.new_phy_reg_id x)) as [].
    { apply list_elem_of_omap. exists x. split; [done |]. unfold reg_of. by rewrite V. }
    rewrite list_lookup_insert_ne by lia. by apply H.
Qed.
Lemma recalls_other t m l it : recalls t m l -> rob.old_phy_reg_id_valid it = false ->
  recalls t m (l ++ [it]).
Proof.
  intros [H0 H] V. split; [done |]. apply Forall_app. split; [done |].
  apply Forall_singleton. by rewrite V.
Qed.
(** The oldest entry moves into the map. *)
Lemma recalls_retire t m n it m1 n1 l : recalls t m (it :: l) -> flight_step m n it m1 n1 -> recalls t m1 l.
Proof.
  intros [H0 H] Hs. apply Forall_cons in H as [Hx H]. split; [| done].
  intros a p. destruct Hs as [old V _ _ | V]; [| apply H0]. destruct (decide (a = rob.rd it)) as [-> |].
  - rewrite lookup_insert_eq. intros [= <-]. by apply Hx.
  - rewrite lookup_insert_ne by done. apply H0.
Qed.
(** Hence the map anywhere between them is in the table. *)
Lemma recalls_map t m n l m1 n1 a p : recalls t m l -> in_flight m n l m1 n1 -> m1 !! a = Some p ->
  t !! Z.to_nat p = Some a.
Proof.
  intros H Hf. revert a p. induction Hf as [m n|m n it m1 n1 l m2 n2 Hs _ _ _ IH]; [apply H |].
  apply IH. by apply (recalls_retire _ _ _ _ _ _ _ H Hs).
Qed.

Lemma in_flight_same m n l l' m1 n1 :
  Forall2 same_renaming l l' -> in_flight m n l m1 n1 -> in_flight m n l' m1 n1.
Proof.
  intros Hl H. revert l' Hl. induction H as [m n|m n it m1 n1 l m2 n2 Hs Ho Hn _ IH]; intros l' Hl.
  - apply Forall2_nil_inv_l in Hl as ->. constructor.
  - apply Forall2_cons_inv_l in Hl as (it' & l2 & Hsame & Hl & ->).
    destruct Hsame as (E1 & E2 & E3 & E4 & E5 & E6).
    econstructor; [| by rewrite E5 | by rewrite E6 | by apply IH].
    destruct Hs as [old V M O | V].
    + rewrite <- E3, <- E4. apply (flight_rename _ _ _ old); congruence.
    + apply flight_other. congruence.
Qed.
Lemma regs_of_same l l' : Forall2 same_renaming l l' -> regs_of l' = regs_of l.
Proof.
  unfold regs_of. induction 1 as [|x y l l' (E1 & _ & E3 & _) _ IH]; [done |].
  assert (E : reg_of y = reg_of x) by (unfold reg_of; by rewrite E1, E3).
  cbn. rewrite E. destruct (reg_of x); [f_equal |]; exact IH.
Qed.
End in_flight.

(** ** The invariant *)
Section inv.
Context (sz A : Z).
Implicit Types (srat rrat : rat_t) (fl : free_list_t) (l : list rob.item_t) (g : ledger)
  (mr ms : gmap Z Z).

(** How many registers have been handed out since reset. *)
Definition handed_out g : Z := lg_base g + zlen (lg_spec g).

Record ren_inv srat rrat fl l g mr ms : Prop := {
  i_srat : rat_is sz A srat ms;
  i_rrat : rat_is sz A rrat mr;
  i_flight : in_flight sz mr (lg_base g) l ms (handed_out g);
  i_follows : follows sz fl g;
  i_out : forall a p, mr !! a = Some p -> p ∈ lg_out g;
  i_spec : lg_spec g = regs_of l;
  i_recalls : recalls (tbl srat) mr l
}.

Lemma save_spec fl g : follows sz fl g -> free_list.save fl = at_count sz (handed_out g).
Proof.
  intros H. destruct (fl_exec_spec sz fl_save fl g _ g H eq_refl) as (fl' & E & _).
  cbn [fl_exec] in E. injection E as E1 E2 _. unfold free_list.save.
  by rewrite E1, E2.
Qed.

(** Every register has one holder. *)
Lemma holders_count fl g : follows sz fl g -> 0 <= sz ->
  zlen (lg_out g) + zlen (lg_spec g) + zlen (q_next (lg_queue g)) = sz.
Proof.
  intros H Hs. assert (Hl : zlen (holders g) = sz).
  { unfold zlen. rewrite (Permutation_length (fo_all _ _ _ H)), length_seqZ. lia. }
  unfold holders in Hl. rewrite !zlen_app in Hl. lia.
Qed.

Section steps.
Context srat rrat fl l g mr ms (H : ren_inv srat rrat fl l g mr ms).

(** The registers handed out are different, and no retired instruction has them. *)
Lemma regs_nodup : NoDup (regs_of l) /\ forall a p, mr !! a = Some p -> p ∉ regs_of l.
Proof using H.
  destruct (follows_nodup _ _ _ (i_follows _ _ _ _ _ _ _ H)) as [Hnd _]. unfold holders in Hnd.
  rewrite (i_spec _ _ _ _ _ _ _ H) in Hnd. apply NoDup_app in Hnd as (_ & Hdis & Hnd).
  apply NoDup_app in Hnd as (Hnd & _ & _). split; [done |]. intros a p Hp Hin.
  apply (Hdis p); [by eapply i_out |]. apply elem_of_app. by left.
Qed.

(** A free register is not mapped. *)
Lemma free_unmapped d a : d ∈ q_next (lg_queue g) -> ms !! a <> Some d /\ mr !! a <> Some d.
Proof using H.
  intros Hd. destruct (follows_nodup _ _ _ (i_follows _ _ _ _ _ _ _ H)) as [Hnd _].
  unfold holders in Hnd. rewrite app_assoc in Hnd. apply NoDup_app in Hnd as (_ & Hdis & _).
  assert (Hmr : mr !! a <> Some d).
  { intros Hm. apply (Hdis d); [| done]. apply elem_of_app. left. by eapply i_out. }
  split; [| done]. intros Hm.
  destruct (in_flight_values _ _ _ _ _ _ a d (i_flight _ _ _ _ _ _ _ H) Hm) as [Hx | Hx]; [done |].
  apply (Hdis d); [| done]. apply elem_of_app. right. by rewrite (i_spec _ _ _ _ _ _ _ H).
Qed.

Lemma free_not_in_flight d : d ∈ q_next (lg_queue g) -> d ∉ lg_spec g.
Proof using H.
  intros Hd Hs. destruct (follows_nodup _ _ _ (i_follows _ _ _ _ _ _ _ H)) as [Hnd _].
  unfold holders in Hnd. rewrite app_assoc in Hnd. apply NoDup_app in Hnd as (_ & Hdis & _).
  apply (Hdis d); [| done]. apply elem_of_app. by right.
Qed.

Lemma inv_alloc a d v :
  0 < a < A -> q_view (lg_queue g) = d :: v ->
  exists fl' old srat' g', free_list.pop fl = Ok (Some d, fl') /\ ms !! a = Some old /\
    rat.set_map a d srat = Ok (old, srat') /\ free_list.save fl' = at_count sz (handed_out g + 1) /\
    lg_out g' = lg_out g /\ q_view (lg_queue g') = v /\ q_fresh (lg_queue g') = q_fresh (lg_queue g) /\
    forall it, rob.old_phy_reg_id_valid it = true -> rob.rd it = a -> rob.old_phy_reg_id it = old ->
      rob.new_phy_reg_id it = d -> old_ptr it = at_count sz (handed_out g) ->
      new_ptr it = at_count sz (handed_out g + 1) ->
      ren_inv srat' rrat fl' (l ++ [it]) g' mr (<[a := d]> ms).
Proof using H.
  intros Ha Hv. pose proof (i_follows _ _ _ _ _ _ _ H) as Hf.
  destruct (step_alloc sz fl g Hf d v Hv) as (fl' & Epop & Hf').
  assert (Hd : d ∈ q_next (lg_queue g)) by (unfold q_next; rewrite Hv; left).
  destruct (follows_nodup _ _ _ Hf) as [_ Hr]. rewrite Forall_forall in Hr.
  destruct (rat_is_set_map sz A srat ms a d (i_srat _ _ _ _ _ _ _ H) Ha) as (old & srat' & Eset & Hold & Hs' & Et).
  { apply Hr. unfold holders. set_solver. }
  { intros b. by apply free_unmapped. }
  set (g' := mk_ledger _ _ _ _ _) in Hf'.
  assert (Hout : handed_out g' = handed_out g + 1).
  { unfold handed_out, g'. cbn. rewrite zlen_app. unfold zlen. cbn. lia. }
  exists fl', old, srat', g'. split_and!; try done; [by rewrite (save_spec fl' g' Hf'), Hout |].
  intros it V Rd O N Po Pn. split; try done.
  - apply H.
  - rewrite Hout. apply (in_flight_snoc _ _ _ _ ms (handed_out g)); try done; [apply H |].
    rewrite <- Rd, <- N. by apply (flight_rename _ _ _ old); rewrite ?Rd.
  - apply H.
  - unfold g'. cbn [lg_spec]. rewrite (i_spec _ _ _ _ _ _ _ H), regs_of_app.
    unfold regs_of at 3. cbn. unfold reg_of. by rewrite V, N.
  - rewrite Et, <- Rd, <- N. pose proof (i_srat _ _ _ _ _ _ _ H) as Hs.
    pose proof (w_tbl _ (ri_wf _ _ _ _ Hs)) as Hl. rewrite (ri_num _ _ _ _ Hs) in Hl.
    apply recalls_alloc; rewrite ?N; [apply H | | |].
    + unfold zlen, tbl in *. rewrite length_fmap, Hl. apply Hr. unfold holders. set_solver.
    + intros b p Hp. split; [by apply (rat_is_range _ _ _ _ _ _ (i_rrat _ _ _ _ _ _ _ H) Hp) |].
      intros ->. by destruct (free_unmapped d b Hd).
    + rewrite <- (i_spec _ _ _ _ _ _ _ H). intros p Hp. split.
      * apply Hr. unfold holders. set_solver.
      * intros ->. by apply (free_not_in_flight d Hd).
Qed.

(** An instruction without destination register. *)
Lemma inv_other it :
  rob.old_phy_reg_id_valid it = false -> old_ptr it = at_count sz (handed_out g) ->
  new_ptr it = at_count sz (handed_out g) -> ren_inv srat rrat fl (l ++ [it]) g mr ms.
Proof using H.
  intros V Po Pn. split; try apply H.
  - apply (in_flight_snoc _ _ _ _ ms (handed_out g)); try done; [apply H | by apply flight_other].
  - rewrite (i_spec _ _ _ _ _ _ _ H), regs_of_app. unfold regs_of at 3. cbn. unfold reg_of.
    by rewrite V, app_nil_r.
  - apply recalls_other; [apply H | done].
Qed.

Lemma inv_same l' : Forall2 same_renaming l l' -> ren_inv srat rrat fl l' g mr ms.
Proof using H.
  intros Hl. split; try apply H.
  - apply (in_flight_same _ _ _ l); [done | apply H].
  - rewrite (i_spec _ _ _ _ _ _ _ H). symmetry. by apply regs_of_same.
  - apply (recalls_same _ _ l); [done | apply H].
Qed.

(** The clock. *)
Definition tick g : ledger :=
  mk_ledger (lg_out g) (lg_spec g) 0 (mk_queue 0 (q_next (lg_queue g)) []) (lg_base g).
Lemma inv_tick : ren_inv (rat.sync srat) (rat.sync rrat) (free_list.sync fl) l (tick g) mr ms.
Proof using H.
  destruct H. split; try done; try (by apply rat_is_sync); [by apply step_tick |].
  by destruct (sync_new srat) as [-> _].
Qed.
End steps.

(** *** Retirement of the oldest instruction *)
Section retire.
Context srat rrat fl it l g mr ms (H : ren_inv srat rrat fl (it :: l) g mr ms) (Hnow : lg_now g = O).

(** The register of a retiring instruction replaces [old] in the retired
    table, and [old] becomes free. *)
Lemma inv_retire : rob.old_phy_reg_id_valid it = true ->
  exists rrat' fl' g', mr !! rob.rd it = Some (rob.old_phy_reg_id it) /\
    rat.set_map (rob.rd it) (rob.new_phy_reg_id it) rrat = Ok (rob.old_phy_reg_id it, rrat') /\
    free_list.push (rob.old_phy_reg_id it) fl = Ok (true, fl') /\
    lg_now g' = O /\ zlen (lg_out g') = zlen (lg_out g) /\
    q_view (lg_queue g') = q_view (lg_queue g) /\
    q_fresh (lg_queue g') = q_fresh (lg_queue g) ++ [rob.old_phy_reg_id it] /\
    new_ptr it = at_count sz (lg_base g') /\
    ren_inv srat rrat' fl' l g' (<[rob.rd it := rob.new_phy_reg_id it]> mr) ms.
Proof using H Hnow.
  intros V. pose proof (i_follows _ _ _ _ _ _ _ H) as Hf. pose proof (i_rrat _ _ _ _ _ _ _ H) as Hrr.
  pose proof (i_spec _ _ _ _ _ _ _ H) as Hspec. unfold regs_of in Hspec. cbn in Hspec.
  unfold reg_of at 1 in Hspec. rewrite V in Hspec. fold (regs_of l) in Hspec.
  pose proof (i_flight _ _ _ _ _ _ _ H) as Hfl. inversion Hfl; subst.
  match goal with X : flight_step _ _ _ _ _ |- _ => inversion X; subst; [| congruence] end.
  set (old := rob.old_phy_reg_id it) in *. set (new := rob.new_phy_reg_id it) in *.
  match goal with X : mr !! _ = Some _ |- _ => rename X into Hold end.
  destruct (follows_nodup _ _ _ Hf) as [Hnd Hr].
  assert (Hnew : forall a, mr !! a <> Some new).
  { intros a Ha. pose proof (i_out _ _ _ _ _ _ _ H _ _ Ha) as Hin. unfold holders in Hnd.
    apply NoDup_app in Hnd as (_ & Hdis & _). apply (Hdis new); [done |].
    rewrite Hspec. apply elem_of_app. left. left. }
  destruct (rat_is_range _ _ _ _ _ _ Hrr Hold) as [Ha _].
  destruct (rat_is_set_map sz A rrat mr (rob.rd it) new Hrr Ha) as (o & rrat' & Eset & Ho & Hrr' & _).
  { rewrite Forall_forall in Hr. apply Hr. unfold holders. rewrite Hspec. set_solver. }
  { done. }
  assert (o = old) as -> by congruence.
  assert (Hin : old ∈ lg_out g) by (by eapply i_out).
  assert (Hcmd : lg_exec sz (fl_commit old) g = Some (fl_pushed true,
    mk_ledger (new :: list_difference (lg_out g) [old]) (regs_of l) (lg_now g)
      (mk_queue (q_popped (lg_queue g)) (q_view (lg_queue g)) (q_fresh (lg_queue g) ++ [old]))
      (lg_base g + 1))).
  { cbn [lg_exec]. rewrite Hspec. rewrite decide_True by (split; [done | lia]). done. }
  destruct (fl_exec_spec sz _ fl g _ _ Hf Hcmd) as (fl' & E & Hf').
  cbn [fl_exec] in E. destruct (free_list.push old fl) as [[b f]| | |] eqn:Ep; try discriminate E.
  cbn in E. injection E as -> ->.
  assert (Hperm : old :: list_difference (lg_out g) [old] ≡ₚ lg_out g).
  { unfold holders in Hnd. apply NoDup_app in Hnd as (Hno & _ & _).
    apply NoDup_Permutation; [| done |].
    - constructor; [rewrite list_elem_of_difference; set_solver | by apply NoDup_list_difference].
    - intros y. rewrite elem_of_cons, list_elem_of_difference. destruct (decide (y = old)); set_solver. }
  exists rrat', fl', (mk_ledger (new :: list_difference (lg_out g) [old]) (regs_of l) (lg_now g)
    (mk_queue (q_popped (lg_queue g)) (q_view (lg_queue g)) (q_fresh (lg_queue g) ++ [old]))
    (lg_base g + 1)).
  split_and!; try done.
  - cbn [lg_out]. apply Permutation_length in Hperm. unfold zlen. cbn [length] in *. lia.
  - assert (Hh : handed_out (mk_ledger (new :: list_difference (lg_out g) [old]) (regs_of l) (lg_now g)
      (mk_queue (q_popped (lg_queue g)) (q_view (lg_queue g)) (q_fresh (lg_queue g) ++ [old]))
      (lg_base g + 1)) = handed_out g).
    { unfold handed_out. cbn. rewrite Hspec. unfold zlen. cbn [length]. lia. }
    split; cbn [lg_base lg_spec]; try done;
      [apply H | rewrite Hh; done | |
       by apply (recalls_retire _ mr (lg_base g) it _ (lg_base g + 1)); [apply H |]].
    cbn [lg_out]. intros a p Hp. destruct (decide (a = rob.rd it)) as [-> | Hne].
    + rewrite lookup_insert_eq in Hp. injection Hp as <-. left.
    + rewrite lookup_insert_ne in Hp by done. right. rewrite list_elem_of_difference.
      split; [by eapply i_out |]. intros Hp'. apply list_elem_of_singleton in Hp' as ->.
      apply (ri_map _ _ _ _ Hrr) in Hp as (_ & T1 & _), Hold as (_ & T2 & _). congruence.
Qed.

Lemma inv_retire_other : rob.old_phy_reg_id_valid it = false ->
  new_ptr it = at_count sz (lg_base g) /\ ren_inv srat rrat fl l g mr ms.
Proof using H.
  intros V. pose proof (i_flight _ _ _ _ _ _ _ H) as Hfl. inversion Hfl; subst.
  match goal with X : flight_step _ _ _ _ _ |- _ => inversion X; subst; [congruence |] end.
  split; [done |]. split; try apply H; [done | |].
  - rewrite (i_spec _ _ _ _ _ _ _ H). unfold regs_of. cbn. unfold reg_of at 1. by rewrite V.
  - pose proof (i_recalls _ _ _ _ _ _ _ H) as [Hm Hl]. apply Forall_cons in Hl as [_ Hl]. by split.
Qed.

(** What the entry saved: the read pointer of the free list before and after
    the instruction took its register. *)
Lemma head_ptrs : old_ptr it = at_count sz (lg_base g) /\
  new_ptr it = at_count sz (lg_base g + if rob.old_phy_reg_id_valid it then 1 else 0).
Proof using H.
  pose proof (i_flight _ _ _ _ _ _ _ H) as Hfl. inversion Hfl; subst. split; [done |].
  match goal with X : flight_step _ _ _ _ _ |- _ => inversion X; subst end;
    match goal with X : rob.old_phy_reg_id_valid it = _ |- _ => rewrite X end; [done |].
  by rewrite Z.add_0_r.
Qed.
End retire.

(** *** A flush *)

(** The read pointer of the free list goes back to where the oldest
    instruction in flight found it, and the speculative table becomes the
    retired one. *)
Lemma flush_ledger srat rrat fl g mr ms :
  rat_is sz A srat ms -> rat_is sz A rrat mr -> follows sz fl g -> lg_now g = O ->
  (forall a p, mr !! a = Some p -> p ∈ lg_out g) ->
  exists fl' g', free_list.restore (at_count sz (lg_base g)).1 (at_count sz (lg_base g)).2 fl = Ok fl' /\
    ren_inv (rat.sync (rat.load rrat srat)) (rat.sync rrat) (free_list.sync fl') [] g' mr mr /\
    lg_out g' = lg_out g /\ lg_now g' = O.
Proof.
  intros Hs Hr Hf Hnow Hout.
  destruct (step_rollback sz fl g Hf (lg_base g)) as (fl' & E & Hf'); [lia | lia | done |].
  replace (Z.to_nat (lg_base g - lg_base g)) with O in Hf' by lia.
  exists fl', (mk_ledger (lg_out g) [] 0 (mk_queue 0 (lg_spec g ++ q_next (lg_queue g)) []) (lg_base g)).
  split; [exact E |]. split; [| done].
  destruct (rat_is_load sz A rrat srat mr ms Hr Hs) as [Hload Et].
  split; [by apply rat_is_sync | by apply rat_is_sync | | exact Hf' | done | done |].
  - unfold handed_out. cbn. rewrite Z.add_0_r. constructor.
  - destruct (sync_new (rat.load rrat srat)) as [-> _]. rewrite Et. split; [| constructor].
    intros a p Hp. apply (ri_map _ _ _ _ Hr) in Hp. apply Hp.
Qed.

Section flush.
Context srat rrat fl l g mr ms (H : ren_inv srat rrat fl l g mr ms) (Hnow : lg_now g = O).

Lemma inv_flush :
  exists fl' g', free_list.restore (at_count sz (lg_base g)).1 (at_count sz (lg_base g)).2 fl = Ok fl' /\
    ren_inv (rat.sync (rat.load rrat srat)) (rat.sync rrat) (free_list.sync fl') [] g' mr mr /\
    lg_out g' = lg_out g /\ lg_now g' = O.
Proof using H Hnow. apply (flush_ledger srat rrat fl g mr ms); try done; apply H. Qed.

(** [take_exception] restores the pointer the instruction left behind: if it
    had been given a register, that register is neither mapped nor free from
    then on. *)
Lemma inv_flush_behind it l' : l = it :: l' -> rob.old_phy_reg_id_valid it = true ->
  exists fl' g', free_list.restore (new_ptr it).1 (new_ptr it).2 fl = Ok fl' /\
    ren_inv (rat.sync (rat.load rrat srat)) (rat.sync rrat) (free_list.sync fl') [] g' mr mr /\
    lg_out g' = rob.new_phy_reg_id it :: lg_out g /\ lg_now g' = O.
Proof using H Hnow.
  intros -> V. pose proof (i_follows _ _ _ _ _ _ _ H) as Hf.
  destruct (head_ptrs _ _ _ _ _ _ _ _ H) as [_ ->]. rewrite V.
  pose proof (i_spec _ _ _ _ _ _ _ H) as Hspec. unfold regs_of in Hspec. cbn in Hspec.
  unfold reg_of at 1 in Hspec. rewrite V in Hspec. fold (regs_of l') in Hspec.
  assert (Hcmd : lg_exec sz fl_adopt g = Some (fl_done,
    mk_ledger (rob.new_phy_reg_id it :: lg_out g) (regs_of l') (lg_now g) (lg_queue g) (lg_base g + 1))).
  { cbn [lg_exec]. rewrite Hspec. rewrite decide_True by lia. done. }
  destruct (fl_exec_spec sz _ fl g _ _ Hf Hcmd) as (fl1 & E & Hf'). injection E as <-.
  apply (flush_ledger srat rrat fl _ mr ms) in Hf'; try apply H; try done.
  intros a p Hp. right. by eapply i_out.
Qed.
End flush.
End inv.

(** ** What a checkpoint is of *)

(** [cp] was saved when the map was [m], [n] registers had been handed out
    since reset, and the next elements of the load queue, the store buffer and
    the checkpoint buffer were numbers [nl], [ns] and [nc]. *)
Record marks (sz lsz ssz csz : Z) (cp : checkpoint_t) (m : gmap Z Z) (n nl ns nc : Z) : Prop := {
  mk_len : zlen (checkpoint.phy_map_table_valid cp) = sz;
  mk_valid : forall p, 0 <= p < sz ->
    checkpoint.phy_map_table_valid cp !! Z.to_nat p = Some true <-> exists a, m !! a = Some p;
  mk_free : (checkpoint.new_phy_id_free_list_rptr cp, checkpoint.new_phy_id_free_list_rstage cp) = at_count sz n;
  mk_loads : (checkpoint.old_load_queue_wptr cp, checkpoint.old_load_queue_wstage cp) = at_count lsz nl;
  mk_stores : (checkpoint.old_store_buffer_wptr cp, checkpoint.old_store_buffer_wstage cp) = at_count ssz ns;
  mk_cps : (checkpoint.new_checkpoint_buffer_wptr cp, checkpoint.new_checkpoint_buffer_wstage cp) = at_count csz nc
}.

(** The valid bits of a table are those of its map. *)
Lemma rat_is_valid sz A r m p : rat_is sz A r m -> 0 <= p < sz ->
  vld r !! Z.to_nat p = Some true <-> exists a, m !! a = Some p.
Proof.
  intros H Hp. split.
  - intros Hv. destruct (lookup_lt_is_Some_2 (tbl r) (Z.to_nat p)) as [a Ha].
    { unfold tbl. rewrite length_fmap. pose proof (w_tbl _ (ri_wf _ _ _ _ H)) as Hl.
      rewrite (ri_num _ _ _ _ H) in Hl. unfold zlen in Hl. lia. }
    exists a. apply (ri_map _ _ _ _ H). split_and!; [lia | done | done].
  - intros [a Ha]. by apply (ri_map _ _ _ _ H) in Ha as (_ & _ & Hv).
Qed.
