(* ===== verification/RegsInv.v ===== *)
(** * The invariant of the register file

    What the bits beside a physical register say about the instruction that
    wrote it: [regs_hold] relates them to the retired map and to the entries of
    the reorder buffer.  The lemmas are what retirement, write back, a flush
    and the clock do to it. *)

From S2P Require Import Prelude Word Dff Fifo FifoSpec Rat RatSpec AgeSpec.
From S2P Require Import FreeList FreeListTrace CyclePack Rob RenameInv.

Section registers.
Import phy_regfile.
Implicit Types (f : regfile_t) (x : reg_t) (l : list rob.item_t).

(** Whether the data of a register is valid, the age of the instruction that
    wrote it and whether that instruction has retired, in this cycle and in
    the next. *)
Definition now x : bool * age_t * bool := (dff.get (reg_data_valid x), age_of x, dff.get (reg_oldest x)).
Definition next x : bool * age_t * bool :=
  (dff.get_new (reg_data_valid x),
   age_compare.mk (dff.get_new (reg_rob_id x)) (dff.get_new (reg_rob_id_stage x)),
   dff.get_new (reg_oldest x)).

(** A register of the retired map is marked as the oldest, what an entry of
    the reorder buffer has written has its age, and a register nobody has is
    not valid. *)
Definition regs_hold (rsz : Z) (v : reg_t -> bool * age_t * bool) f (R : Z) (m : gmap Z Z) l : Prop :=
  forall p x, 0 <= p -> regs f !! Z.to_nat p = Some x ->
    (forall a, m !! a = Some p -> (v x).2 = true) /\
    (forall k it, l !! k = Some it -> reg_of it = Some p -> (v x).1.1 = true ->
       (v x).1.2 = age_at rsz (R + Z.of_nat k) /\ (v x).2 = false) /\
    ((forall a, m !! a <> Some p) -> p ∉ regs_of l -> (v x).1.1 = false).

Lemma now_sync x : now (sync_reg x) = next x.
Proof. done. Qed.

(** After the clock the two views are the same. *)
Lemma regs_hold_sync rsz f R m l : regs_hold rsz now (sync f) R m l -> regs_hold rsz next (sync f) R m l.
Proof.
  intros H p x Hp Hx. assert (E : next x = now x).
  { change (regs (sync f)) with (sync_reg <$> regs f) in Hx. apply list_lookup_fmap_Some in Hx as (y & -> & _).
    done. }
  rewrite E. by apply H.
Qed.

Lemma reg_of_elem p l : p ∈ regs_of l <-> exists k it, l !! k = Some it /\ reg_of it = Some p.
Proof.
  unfold regs_of. rewrite list_elem_of_omap. split.
  - intros (it & Hin & E). apply list_elem_of_lookup in Hin as [k Hk]. by exists k, it.
  - intros (k & it & Hk & E). exists it. split; [by apply list_elem_of_lookup; exists k | done].
Qed.

Lemma regs_of_inj l k k' it it' p : NoDup (regs_of l) -> l !! k = Some it -> l !! k' = Some it' ->
  reg_of it = Some p -> reg_of it' = Some p -> k = k'.
Proof.
  revert k k'. induction l as [|x l IH]; intros k k' Hnd Hk Hk' E E'; [done |].
  assert (Hin : forall j i, l !! j = Some i -> reg_of i = Some p -> p ∈ regs_of l).
  { intros j i Hj Hi. apply reg_of_elem. by exists j, i. }
  assert (Hl : NoDup (regs_of l) /\ (reg_of x = Some p -> p ∉ regs_of l)).
  { unfold regs_of in *. cbn in Hnd. destruct (reg_of x); [| by split].
    apply NoDup_cons in Hnd as [Hn Hd]. split; [done |]. by intros [= ->]. }
  destruct Hl as [Hd Hx]. destruct k as [|k], k' as [|k']; cbn in Hk, Hk'; [done | | |].
  - injection Hk as ->. destruct (Hx E). by apply (Hin k' it').
  - injection Hk' as ->. destruct (Hx E'). by apply (Hin k it).
  - f_equal. by apply (IH k k').
Qed.

(** *** Checking it on a closed state *)
Definition held_by (m : gmap Z Z) (p : Z) : Prop := map_Exists (λ _ q, q = p) m.
Definition regs_hold_at (rsz : Z) (v : reg_t -> bool * age_t * bool) (R : Z) (m : gmap Z Z) l (p : Z) x : Prop :=
  (held_by m p -> (v x).2 = true) /\
  Forall (λ ki : nat * rob.item_t, reg_of ki.2 = Some p -> (v x).1.1 = true ->
            (v x).1.2 = age_at rsz (R + Z.of_nat ki.1) /\ (v x).2 = false) (zip (seq 0 (length l)) l) /\
  (~ held_by m p -> p ∉ regs_of l -> (v x).1.1 = false).
#[local] Instance age_eq_dec : EqDecision age_t.
Proof. solve_decision. Defined.
#[global] Instance regs_hold_at_dec rsz v R m l p x : Decision (regs_hold_at rsz v R m l p x).
Proof. unfold regs_hold_at, held_by. apply _. Defined.

Lemma regs_hold_check rsz v f R m l :
  Forall (λ px : Z * reg_t, regs_hold_at rsz v R m l px.1 px.2) (zip (seqZ 0 (zlen (regs f))) (regs f)) ->
  regs_hold rsz v f R m l.
Proof.
  intros H p x Hp Hx. rewrite Forall_forall in H.
  destruct (H (p, x)) as (H1 & H2 & H3).
  { apply list_elem_of_lookup. exists (Z.to_nat p). apply lookup_zip_Some. split; [| done].
    apply lookup_lt_Some in Hx. rewrite lookup_seqZ_lt by (unfold zlen; lia). f_equal. lia. }
  cbn [fst snd] in *. split_and!.
  - intros a Ha. apply H1. by exists a, p.
  - intros k it Hk. rewrite Forall_forall in H2. apply (H2 (k, it)).
    apply list_elem_of_lookup. exists k. apply lookup_zip_Some. split; [| done].
    apply lookup_lt_Some in Hk. by apply lookup_seq_lt.
  - intros Hm. apply H3. intros (a & q & Ha & ->). by apply (Hm a).
Qed.

(** *** Steps *)

(** The clock. *)
Lemma regs_hold_tick rsz f R m l : regs_hold rsz next f R m l -> regs_hold rsz now (sync f) R m l.
Proof.
  intros H p x Hp Hx. change (regs (sync f)) with (sync_reg <$> regs f) in Hx.
  apply list_lookup_fmap_Some in Hx as (y & -> & Hy). rewrite now_sync. by apply H.
Qed.

Lemma regs_hold_clock rsz f R m l : regs_hold rsz next f R m l -> regs_hold rsz next (sync f) R m l.
Proof. intros H. by apply regs_hold_sync, regs_hold_tick. Qed.

(** What a later stage writes into an entry. *)
Lemma regs_hold_same rsz v f R m l l' : Forall2 same_renaming l l' ->
  regs_hold rsz v f R m l -> regs_hold rsz v f R m l'.
Proof.
  intros Hl H p x Hp Hx. destruct (H p x Hp Hx) as (H1 & H2 & H3). split_and!; [done | |].
  - intros k it' Hk Hit. apply Forall2_lookup_r with (i := k) (y := it') in Hl as (it & Hk' & E1 & _ & E3 & _);
      [| done].
    apply (H2 k it Hk'). unfold reg_of in *. by rewrite <- E1, <- E3.
  - rewrite (regs_of_same l l') by done. done.
Qed.

(** Retirement: the register replaced is not valid any more, that of the
    entry becomes the oldest. *)
Lemma regs_hold_retire rsz f f1 f2 R m it l h :
  regs_hold rsz next f R m (it :: l) -> NoDup (regs_of (it :: l)) ->
  rob.old_phy_reg_id_valid it = true -> m !! rob.rd it = Some (rob.old_phy_reg_id it) ->
  0 <= rob.old_phy_reg_id it -> 0 <= rob.new_phy_reg_id it ->
  (forall a b, m !! a = Some (rob.old_phy_reg_id it) -> m !! b = Some (rob.old_phy_reg_id it) -> a = b) ->
  regs f1 = alter (set_all 0 false 0 false true) (Z.to_nat (rob.old_phy_reg_id it)) (regs f) ->
  regs f2 = alter h (Z.to_nat (rob.new_phy_reg_id it)) (regs f1) -> (forall x, (next (h x)).2 = true) ->
  regs_hold rsz next f2 (R + 1) (<[rob.rd it := rob.new_phy_reg_id it]> m) l.
Proof.
  intros H Hnd V Hm Hpo Hpn Hinj L1 L2 Hh p y Hp Hy.
  set (old := rob.old_phy_reg_id it) in *. set (new := rob.new_phy_reg_id it) in *.
  assert (Hregs : regs_of (it :: l) = new :: regs_of l).
  { unfold regs_of. cbn. unfold reg_of at 1. by rewrite V. }
  rewrite Hregs in Hnd. apply NoDup_cons in Hnd as [Hnew _]. rewrite L2 in Hy.
  destruct (decide (p = new)) as [-> | Hn].
  { rewrite list_lookup_alter_eq in Hy. apply fmap_Some in Hy as (x & _ & ->). split_and!; [done | |].
    - intros k i Hk Hi. destruct Hnew. apply reg_of_elem. by exists k, i.
    - intros Hno. destruct (Hno (rob.rd it)). by rewrite lookup_insert_eq. }
  rewrite list_lookup_alter_ne in Hy by lia. rewrite L1 in Hy.
  destruct (decide (p = old)) as [-> | Ho].
  { rewrite list_lookup_alter_eq in Hy. apply fmap_Some in Hy as (x & _ & ->). by split_and!. }
  rewrite list_lookup_alter_ne in Hy by lia. destruct (H p y Hp Hy) as (H1 & H2 & H3). split_and!.
  - intros a Ha. destruct (decide (a = rob.rd it)) as [-> | Hne].
    + rewrite lookup_insert_eq in Ha. congruence.
    + rewrite lookup_insert_ne in Ha by done. by apply (H1 a).
  - intros k i Hk Hi. replace (R + 1 + Z.of_nat k) with (R + Z.of_nat (S k)) by lia. by apply (H2 (S k) i).
  - intros Hno Hl. apply H3.
    + intros a Ha. destruct (decide (a = rob.rd it)) as [-> | Hne]; [congruence |].
      apply (Hno a). by rewrite lookup_insert_ne.
    + rewrite Hregs. by intros [->|?]%elem_of_cons.
Qed.
Lemma regs_hold_retire_other rsz f R m it l : rob.old_phy_reg_id_valid it = false ->
  regs_hold rsz next f R m (it :: l) -> regs_hold rsz next f (R + 1) m l.
Proof.
  intros V H p x Hp Hx. destruct (H p x Hp Hx) as (H1 & H2 & H3). split_and!; [done | |].
  - intros k i Hk. replace (R + 1 + Z.of_nat k) with (R + Z.of_nat (S k)) by lia. by apply (H2 (S k) i).
  - intros Hm Hl. apply H3; [done |]. unfold regs_of in *. cbn. unfold reg_of at 1. by rewrite V.
Qed.

(** A flush. *)
Lemma regs_hold_flush rsz sz A f R m l r R' : regs_hold rsz next f R m l -> rat_is sz A r m ->
  zlen (regs f) = sz -> regs_hold rsz next (restore_rat r f) R' m [].
Proof.
  intros H Hr Hsz p y Hp Hy. cbn in Hy. apply lookup_zip_with_Some in Hy as (x & d & -> & Hx & Hd).
  destruct (H p x Hp Hx) as (H1 & _ & _). split_and!; [exact H1 | done |].
  intros Hno _. cbn. destruct (dff.get_new d) eqn:Ed; [| done]. exfalso.
  assert (Hps : 0 <= p < sz) by (apply lookup_lt_Some in Hx; unfold zlen in *; lia).
  destruct (proj1 (rat_is_valid sz A r m p Hr Hps)) as [a Ha]; [| by apply (Hno a)].
  unfold vld. by rewrite list_lookup_fmap, Hd, <- Ed.
Qed.

(** What an entry has computed is written. *)
Lemma regs_hold_write rsz f f' R m l k it p h :
  regs_hold rsz next f R m l -> NoDup (regs_of l) -> (forall a, m !! a <> Some p) -> 0 <= p ->
  l !! k = Some it -> reg_of it = Some p ->
  regs f' = alter h (Z.to_nat p) (regs f) ->
  (forall x, next (h x) = (true, age_at rsz (R + Z.of_nat k), false)) ->
  regs_hold rsz next f' R m l.
Proof.
  intros H Hnd Hno Hp Hk Hit L Hh q y Hq Hy. rewrite L in Hy. destruct (decide (q = p)) as [-> | Hne].
  - rewrite list_lookup_alter_eq in Hy. apply fmap_Some in Hy as (x & _ & ->). rewrite Hh. split_and!.
    + intros a Ha. by destruct (Hno a).
    + intros k' it' Hk' Hit' _. by rewrite (regs_of_inj l k k' it it' p Hnd Hk Hk' Hit Hit').
    + intros _ Hl. destruct Hl. apply reg_of_elem. by exists k, it.
  - rewrite list_lookup_alter_ne in Hy by lia. by apply H.
Qed.
End registers.
