(* ===== verification/CycleRename.v ===== *)
(** * The rename stage of the cycle model

    src/cycle_model/pipeline/rename.cpp and rename.h, with the pack of
    rename_dispatch.h.

    [rename_t] is the part of [cycle_model] the stage has pointers to.  The
    loop over [RENAME_WIDTH] instructions is [rename_from]; each block of its
    body is a definition, named after the comment that opens the block. *)

From S2P Require Import Prelude Word Ops IsaDecode Dff Fifo Rat FreeList.
From S2P Require Import CycleDecode CyclePack LoadStore Rob FifoWindow.

Definition RENAME_WIDTH : Z := 4.

(** ** [rename_dispatch_op_info_t] *)
Module rename_dispatch.
Record op_info_t := mk {
  uop : decode_rename.pack_t;
  inst_common_info : inst_common_info_t;
  branch_predictor_info_pack : bp_info.pack_t;
  rob_id : Z;
  rob_id_stage : bool;
  rs1_phy : Z;
  rs2_phy : Z;
  rd_phy : Z;
  store_buffer_id : Z;
  load_queue_id : Z
}.
Definition init : op_info_t :=
  mk decode_rename.init (mk_info 0) bp_info.init 0 false 0 0 0 0 0.
(** [rename_dispatch_pack_t]. *)
Definition pack_t := list op_info_t.
Definition pack_init : pack_t := replicate (Z.to_nat RENAME_WIDTH) init.
(** [enable && valid && !has_exception]. *)
Definition acts (u : decode_rename.pack_t) : bool :=
  decode_rename.enable u && decode_rename.valid u && negb (decode_rename.has_exception u).
End rename_dispatch.
Abbreviation op_info_t := rename_dispatch.op_info_t.

Module rename.
Import decode_rename.
Abbreviation in_t := (full_t bp_info.pack_t inst_common_info_t).

Record rename_t := mk {
  decode_rename_fifo : fifo_t in_t;
  rename_dispatch_port : port_t rename_dispatch.pack_t;
  speculative_rat : rat_t;
  rob : rob_t;
  phy_id_free_list : free_list_t;
  checkpoint_buffer : fifo_t checkpoint_t;
  load_queue : load_queue_t;
  store_buffer : store_buffer_t
}.

Definition is_unit (x : cop_unit.op_unit_t) (u : pack_t) : bool := bool_decide (op_unit u = x).
Definition is_op (x : op_t) (u : pack_t) : bool := bool_decide (op u = x).
Definition is_lsu (u : pack_t) : bool :=
  is_unit cop_unit.lu u || is_unit cop_unit.sau u || is_unit cop_unit.sdu u.

(** The tests before an instruction is taken, given whether the load queue and
    the store buffer are full: [None] stops the loop, otherwise the new values
    of [ready_to_stop_rename] and [found_fence]. *)
Definition gate (i : Z) (found_fence lq_full sb_full : bool) (u : pack_t) : option (bool * bool) :=
  if rename_dispatch.acts u then
    if is_unit cop_unit.csr u || is_op op.mret u then
      if i =? 0 then Some (true, found_fence) else None
    else if is_op op.fence u then Some (false, true)
    else if found_fence && is_lsu u then None
    else if is_unit cop_unit.lu u then
      if lq_full then None else Some (false, found_fence)
    else if is_unit cop_unit.sdu u then
      if sb_full then None else Some (false, found_fence)
    else Some (false, found_fence)
  else Some (false, found_fence).

(** The copy of the fields of [rev_pack]. *)
Definition copy (r : in_t) : op_info_t :=
  { rename_dispatch.init with
    rename_dispatch.uop := uop r;
    rename_dispatch.inst_common_info := inst_common_info r;
    rename_dispatch.branch_predictor_info_pack := branch_predictor_info_pack r }.

(** [verify(speculative_rat->producer_get_phy_id(...))] under its flag. *)
Definition map_source (need : bool) (a phy : Z) (r : rat_t) : outcome Z :=
  if need then bp ← rat.producer_get_phy_id a phy r; verify bp.1 ;; Ok bp.2 else Ok phy.

(** "start to map source registers" *)
Definition map_sources (o : op_info_t) (s : rename_t) : outcome op_info_t :=
  let u := rename_dispatch.uop o in
  p1 ← map_source (rs1_need_map u) (rs1 u) (rename_dispatch.rs1_phy o) (speculative_rat s);
  p2 ← map_source (rs2_need_map u) (rs2 u) (rename_dispatch.rs2_phy o) (speculative_rat s);
  Ok { o with rename_dispatch.rs1_phy := p1; rename_dispatch.rs2_phy := p2 }.

(** The destination register: the old and the new physical register. *)
Definition rename_rd (o : op_info_t) (s : rename_t) : outcome (option Z * op_info_t * rename_t) :=
  let u := rename_dispatch.uop o in
  if valid u && need_rename u then
    old ← map_source true (rd u) 0 (speculative_rat s);
    dl ← free_list.pop (phy_id_free_list s);
    p ← match (dl.1 : option Z) with Some p => Ok p | None => Abort end;
    mr ← rat.set_map (rd u) p (speculative_rat s);
    Ok (Some old, { o with rename_dispatch.rd_phy := p },
        { s with speculative_rat := mr.2; phy_id_free_list := dl.2 })
  else Ok (None, o, s).

(** The fields of [rob_item] up to "get rob id". *)
Definition rob_item_of (o : op_info_t) (old : option Z) (old_fl new_fl : Z * bool) : rob.item_t :=
  let u := rename_dispatch.uop o in
  { rob.item_init with
    rob.inst_common_info := rename_dispatch.inst_common_info o;
    rob.old_phy_reg_id_valid := bool_decide (is_Some old);
    rob.old_phy_reg_id := default 0 old;
    rob.finish := false;
    rob.new_phy_reg_id := rename_dispatch.rd_phy o;
    rob.pc := pc u;
    rob.inst_value := value u;
    rob.last_uop := last_uop u;
    rob.rd := rd u;
    rob.has_exception := has_exception u;
    rob.exception_id := exception_id u;
    rob.exception_value := exception_value u;
    rob.bru_op := is_unit cop_unit.bru u;
    rob.bru_jump := false;
    rob.bru_next_pc := 0;
    rob.is_mret := is_op op.mret u;
    rob.csr_addr := csr u;
    rob.csr_newvalue := 0;
    rob.csr_newvalue_valid := false;
    rob.old_phy_id_free_list_rptr := old_fl.1;
    rob.old_phy_id_free_list_rstage := old_fl.2;
    rob.new_phy_id_free_list_rptr := new_fl.1;
    rob.new_phy_id_free_list_rstage := new_fl.2 }.

(** "get rob id" *)
Definition get_rob_id (o : op_info_t) (s : rename_t) : outcome op_info_t :=
  id ← match rob.get_new_id (rob s) with Some id => Ok id | None => Abort end;
  st ← match rob.get_new_id_stage (rob s) with Some st => Ok st | None => Abort end;
  Ok { o with rename_dispatch.rob_id := id; rename_dispatch.rob_id_stage := st }.

(** The entry of a load in the load queue and of a store in the store buffer. *)
Definition alloc_load (o : op_info_t) (it : rob.item_t) (s : rename_t) :
  outcome (op_info_t * rob.item_t * rename_t) :=
  let q := load_queue s in
  let id := fifo.producer_get_wptr (load_queue.base q) in
  bf ← fifo.push load_queue.item_init (load_queue.base q); verify bf.1 ;;
  q ← load_queue.clear_replay_num id { q with load_queue.base := bf.2 };
  Ok ({ o with rename_dispatch.load_queue_id := id },
      { it with rob.load_queue_id_valid := true; rob.load_queue_id := id },
      { s with load_queue := q }).
Definition alloc_store (o : op_info_t) (it : rob.item_t) (s : rename_t) :
  outcome (op_info_t * rob.item_t * rename_t) :=
  let b := store_buffer s in
  let id := fifo.producer_get_wptr (store_buffer.base b) in
  let x := { store_buffer.item_init with
             store_buffer.inst_common_info := rename_dispatch.inst_common_info o;
             store_buffer.rob_id := rename_dispatch.rob_id o;
             store_buffer.rob_id_stage := rename_dispatch.rob_id_stage o } in
  bf ← fifo.push x (store_buffer.base b); verify bf.1 ;;
  let b := { b with store_buffer.base := bf.2 } in
  tail ← match fifo.producer_get_tail_id (store_buffer.base b) with Some t => Ok t | None => Abort end;
  b ← store_buffer.write_addr tail 0 0 false b;
  Ok ({ o with rename_dispatch.store_buffer_id := tail },
      { it with rob.store_buffer_id_valid := true; rob.store_buffer_id := id },
      { s with store_buffer := b }).
Definition alloc (o : op_info_t) (it : rob.item_t) (s : rename_t) :
  outcome (op_info_t * rob.item_t * rename_t) :=
  let u := rename_dispatch.uop o in
  if rename_dispatch.acts u then
    if is_unit cop_unit.lu u then alloc_load o it s
    else if is_unit cop_unit.sdu u then alloc_store o it s
    else Ok (o, it, s)
  else Ok (o, it, s).

(** "generate checkpoint items"; the queue pointers are those from before
    [alloc]. *)
Definition queue_ptrs (s : rename_t) : Z * bool * Z * bool :=
  (fifo.producer_get_wptr (load_queue.base (load_queue s)),
   fifo.producer_get_wstage (load_queue.base (load_queue s)),
   fifo.producer_get_wptr (store_buffer.base (store_buffer s)),
   fifo.producer_get_wstage (store_buffer.base (store_buffer s))).
Definition checkpoint_of (it : rob.item_t) (ptrs : Z * bool * Z * bool) (s : rename_t) : checkpoint_t :=
  let c := checkpoint_buffer s in
  let next := fifo.static_get_next_id_stage (fifo.producer_get_wptr c) (fifo.producer_get_wstage c) c in
  let tail := default (0, false) (fifo.producer_get_tail_id_stage c) in
  rat.producer_save_to_checkpoint
    (checkpoint.mk []
       (rob.old_phy_id_free_list_rptr it) (rob.old_phy_id_free_list_rstage it)
       (rob.new_phy_id_free_list_rptr it) (rob.new_phy_id_free_list_rstage it)
       tail.1 tail.2 next.1 next.2
       ptrs.1.1.1 ptrs.1.1.2 ptrs.1.2 ptrs.2)
    (speculative_rat s).
Definition take_checkpoint (o : op_info_t) (it : rob.item_t) (ptrs : Z * bool * Z * bool)
    (s : rename_t) : outcome (op_info_t * rename_t) :=
  let u := rename_dispatch.uop o in
  if enable u && valid u &&
     (bp_info.predicted (rename_dispatch.branch_predictor_info_pack o) || is_unit cop_unit.lu u) then
    if negb (fifo.producer_is_full (checkpoint_buffer s)) then
      bf ← fifo.push (checkpoint_of it ptrs s) (checkpoint_buffer s); verify bf.1 ;;
      id ← match fifo.producer_get_tail_id bf.2 with Some t => Ok t | None => Abort end;
      Ok ({ o with rename_dispatch.branch_predictor_info_pack ::= λ b,
              { b with bp_info.checkpoint_id_valid := true; bp_info.checkpoint_id := id } },
          { s with checkpoint_buffer := bf.2 })
    else Ok (o, s)
  else Ok (o, s).

(** "generate rob items": all that happens for an instruction that has been
    popped. *)
Definition rename_op (o : op_info_t) (s : rename_t) : outcome (op_info_t * rename_t) :=
  if enable (rename_dispatch.uop o) then
    o ← map_sources o s;
    let old_fl := free_list.save (phy_id_free_list s) in
    x ← rename_rd o s;
    let '(old, o, s) := x in
    o ← get_rob_id o s;
    let it := rob_item_of o old old_fl (free_list.save (phy_id_free_list s)) in
    let ptrs := queue_ptrs s in
    y ← alloc o it s;
    let '(o, it, s) := y in
    br ← rob.push it (rob s); verify br.1 ;;
    take_checkpoint o it ptrs { s with rob := br.2 }
  else Ok (o, s).

(** The loop: [None] is a [break]. *)
Definition rename_step (i : Z) (found_fence : bool) (s : rename_t) :
  outcome (option (op_info_t * bool * bool * rename_t)) :=
  if fifo.customer_is_empty (decode_rename_fifo s) then Ok None
  else if negb (fifo.producer_is_empty (free_list.base (phy_id_free_list s))) &&
          negb (fifo.producer_is_full (rob.base (rob s))) then
    front ← fifo.customer_get_front (decode_rename_fifo s);
    r ← match front with Some r => Ok r | None => Abort end;
    match gate i found_fence (fifo.producer_is_full (load_queue.base (load_queue s)))
            (fifo.producer_is_full (store_buffer.base (store_buffer s))) (uop r) with
    | None => Ok None
    | Some (ready, fence) =>
        xf ← fifo.pop (decode_rename_fifo s);
        r ← match xf.1 with Some r => Ok r | None => Abort end;
        os ← rename_op (copy r) { s with decode_rename_fifo := xf.2 };
        Ok (Some (os.1, ready, fence, os.2))
    end
  else Ok None.
Fixpoint rename_from (fuel : nat) (i : Z) (found_fence : bool) (send_pack : rename_dispatch.pack_t)
    (s : rename_t) : outcome (rename_dispatch.pack_t * rename_t) :=
  match fuel with
  | O => Ok (send_pack, s)
  | S fuel =>
      r ← rename_step i found_fence s;
      match r with
      | None => Ok (send_pack, s)
      | Some (o, ready, fence, s) =>
          send_pack ← arr_set send_pack i o;
          if (ready : bool) then Ok (send_pack, s)
          else rename_from fuel (i + 1) fence send_pack s
      end
  end.

(** The assertions at the end of [run]. *)
Fixpoint check_fence (found_fence : bool) (i : Z) (l : rename_dispatch.pack_t) : outcome unit :=
  match l with
  | [] => Ok tt
  | o :: l =>
      let u := rename_dispatch.uop o in
      if rename_dispatch.acts u then
        verify ((i =? 0) || negb (is_unit cop_unit.csr u)) ;;
        verify (negb found_fence || negb (is_lsu u)) ;;
        check_fence (if is_op op.fence u then true else found_fence) (i + 1) l
      else check_fence found_fence (i + 1) l
  end.
Definition check_csr (l : rename_dispatch.pack_t) : outcome unit :=
  match l with
  | [] => Ok tt
  | o :: l =>
      let u := rename_dispatch.uop o in
      if rename_dispatch.acts u && is_unit cop_unit.csr u
      then verify (forallb (λ o, negb (enable (rename_dispatch.uop o))) l)
      else Ok tt
  end.

(** [run]: the feedback [idle] and the next state.  The port is not written
    when dispatch stalls. *)
Definition run (dispatch_stall bru_flush sau_flush commit_flush waiting_for_interrupt : bool)
    (s : rename_t) : outcome (bool * rename_t) :=
  let idle := fifo.customer_is_empty (decode_rename_fifo s) in
  ps ← (if negb commit_flush && negb bru_flush && negb sau_flush then
          if negb dispatch_stall then
            ps ← (if negb waiting_for_interrupt
                  then rename_from (Z.to_nat RENAME_WIDTH) 0 false rename_dispatch.pack_init s
                  else Ok (rename_dispatch.pack_init, s));
            Ok (ps.1, { ps.2 with rename_dispatch_port ::= port.set ps.1 })
          else Ok (rename_dispatch.pack_init, s)
        else Ok (rename_dispatch.pack_init,
                 { s with rename_dispatch_port ::= port.set rename_dispatch.pack_init }));
  check_csr ps.1 ;;
  check_fence false 0 ps.1 ;;
  Ok (idle, ps.2).
End rename.
