(* ===== verification/CycleCommit.v ===== *)
(** * The commit stage of the cycle model

    src/cycle_model/pipeline/commit.cpp and commit.h.

    [commit_t] is the part of [cycle_model] the stage has pointers to, with its
    own flag [is_waiting_ack].  The loop over [COMMIT_WIDTH] instructions is
    [retire_from]; [retire] is its body for an instruction that has finished. *)

From S2P Require Import Prelude Word Ops IsaDecode Breakpoint Csr Dff Fifo Rat.
From S2P Require Import FreeList CycleDecode CyclePack LoadStore CycleCsr Predict Ras Rob.

Definition COMMIT_WIDTH : Z := 4.

(** ** Statistics: src/cycle_model's global_inst.h *)
Module global_inst.
Record global_t := mk {
  branch_num : Z; branch_predicted : Z; branch_hit : Z; branch_miss : Z;
  load_num : Z; replay_num : Z; replay_load_num : Z; conflict_load_num : Z
}.
Definition add (n x : Z) : Z := u64 (x + n).
Definition branch_num_add (g : global_t) : global_t := { g with branch_num ::= add 1 }.
Definition branch_predicted_add (g : global_t) : global_t := { g with branch_predicted ::= add 1 }.
Definition branch_hit_add (g : global_t) : global_t := { g with branch_hit ::= add 1 }.
Definition branch_miss_add (g : global_t) : global_t := { g with branch_miss ::= add 1 }.
Definition load_num_add (g : global_t) : global_t := { g with load_num ::= add 1 }.
Definition replay_num_add (n : Z) (g : global_t) : global_t := { g with replay_num ::= add n }.
Definition replay_load_num_add (g : global_t) : global_t := { g with replay_load_num ::= add 1 }.
Definition conflict_load_num_add (g : global_t) : global_t := { g with conflict_load_num ::= add 1 }.
End global_inst.

(** ** [commit_feedback_pack_t] *)
Module commit_feedback.
Record pack_t := mk {
  idle : bool;
  next_handle_rob_id_valid : bool;
  next_handle_rob_id : Z;
  has_exception : bool;
  exception_pc : Z;
  flush : bool;
  committed_rob_id : list Z;
  committed_rob_id_valid : list bool;
  jump_enable : bool;
  jump : bool;
  jump_next_pc : Z;
  waiting_for_interrupt : bool;
  has_interrupt : bool;
  interrupt_id : riscv_interrupt_t
}.
Definition init : pack_t :=
  mk false false 0 false 0 false (replicate (Z.to_nat COMMIT_WIDTH) 0)
    (replicate (Z.to_nat COMMIT_WIDTH) false) false false 0 false false riscv_interrupt.user_software.
(** [jump_enable], [jump] and [jump_next_pc]. *)
Definition set_jump (j : bool) (pc : Z) (f : pack_t) : pack_t :=
  { f with jump_enable := true; jump := j; jump_next_pc := pc }.
Definition set_trap (pc : Z) (f : pack_t) : pack_t :=
  { f with has_exception := true; exception_pc := pc; flush := true }.
End commit_feedback.
Abbreviation commit_feedback_t := commit_feedback.pack_t.

Module commit.
Section commit.
Context {B : Type} {data_bus0 : data_bus B}.

Record commit_t := mk {
  is_waiting_ack : bool;
  execute_commit_port : list (port_t execute_wb.pack_t);
  speculative_rat : rat_t;
  retire_rat : rat_t;
  rob : rob_t;
  csr_file : cycle_csrfile_t;
  phy_regfile : phy_regfile.regfile_t;
  phy_id_free_list : free_list_t;
  interrupt_interface : cycle_interrupt.interrupt_interface_t;
  bi_mode : with_requests bi_mode_t;
  l1_btb : with_requests l1_btb.l1_btb_t;
  checkpoint_buffer : fifo_t checkpoint_t;
  load_queue : load_queue_t;
  store_buffer : store_buffer_t;
  retired_store_buffer : retired_store_buffer_t;
  decode_rename_fifo : fifo_t (decode_rename.full_t bp_info.pack_t inst_common_info_t);
  bus_if : B;
  pma_unit : pma_unit_t;
  global : global_inst.global_t;
  breakpoints : breakpoint_state_t;
  rob_retire_queue : list (Z * rob.item_t)
}.
Implicit Type s : commit_t.

Definition CSR_MSTATUS : Z := 0x300.
Definition CSR_MTVEC : Z := 0x305.
Definition CSR_MEPC : Z := 0x341.
Definition CSR_MCAUSE : Z := 0x342.
Definition CSR_MTVAL : Z := 0x343.

Definition reset (s : commit_t) : commit_t := { s with is_waiting_ack := false }.

Definition csr_write_sys (addr v : Z) (s : commit_t) : outcome commit_t :=
  f ← cycle_csrfile.write_sys addr v (csr_file s); Ok { s with csr_file := f }.
(** The writes every trap begins with, and the address it goes to. *)
Definition trap_csrs (epc cause value : Z) (s : commit_t) : outcome commit_t :=
  s ← csr_write_sys CSR_MEPC epc s;
  s ← csr_write_sys CSR_MTVAL value s;
  csr_write_sys CSR_MCAUSE cause s.
(** [mstatus.load(read_sys(CSR_MSTATUS)); ...; write_sys(CSR_MSTATUS, ...)]. *)
Definition update_mstatus (g : cycle_csr.csr_base_t -> cycle_csr.csr_base_t) (s : commit_t) :
  outcome commit_t :=
  v ← cycle_csrfile.read_sys CSR_MSTATUS (csr_file s);
  csr_write_sys CSR_MSTATUS (cycle_csr.get_value (g (cycle_csr.load v cycle_interrupt.mstatus_new))) s.

(** The seven lines that throw away all that is in flight. *)
Definition flush_all (rptr : Z) (rstage : bool) (s : commit_t) : outcome commit_t :=
  l ← free_list.restore rptr rstage (phy_id_free_list s);
  Ok { s with speculative_rat ::= rat.load (retire_rat s);
              rob ::= rob.flush;
              phy_regfile ::= phy_regfile.restore_rat (retire_rat s);
              phy_id_free_list := l;
              load_queue ::= load_queue.flush;
              store_buffer ::= λ b, { b with store_buffer.base ::= fifo.flush };
              checkpoint_buffer ::= fifo.flush }.

(** *** Interrupts: the first block of [run], and [need_flush] *)
Definition run_interrupt (fb : commit_feedback_t) (s : commit_t) :
  outcome (bool * commit_feedback_t * commit_t) :=
  c ← cycle_interrupt.get_cause (interrupt_interface s) (csr_file s);
  match c with
  | None => Ok (false, fb, s)
  | Some id =>
      if negb (fifo.customer_is_empty (rob.base (rob s))) ||
         fifo.customer_is_empty (decode_rename_fifo s)
      then Ok (false, { fb with commit_feedback.waiting_for_interrupt := true }, s)
      else
        front ← fifo.customer_get_front (decode_rename_fifo s);
        p ← match front with Some p => Ok p | None => Abort end;
        s ← trap_csrs (decode_rename.pc (decode_rename.uop p))
              (Z.lor 0x80000000 (riscv_interrupt.to_uint32 id)) 0 s;
        s ← update_mstatus (λ o, cycle_csr.setbit 3 false (cycle_csr.setbit 7 (cycle_csr.getbit 3 o) o)) s;
        i ← cycle_interrupt.set_ack id (interrupt_interface s);
        pc ← cycle_csrfile.read_sys CSR_MTVEC (csr_file s);
        Ok (true,
            { commit_feedback.set_trap pc fb with commit_feedback.has_interrupt := true;
                                                  commit_feedback.interrupt_id := id },
            { s with interrupt_interface := i; rob ::= rob.set_committed true })
  end.

(** *** Exceptions at the head of the ROB *)
Definition retire_queue_add (id : Z) (it : rob.item_t) (s : commit_t) : commit_t :=
  { s with rob_retire_queue ::= λ q, q ++ [(id, it)] }.
Definition count_commit (s : commit_t) : commit_t :=
  { s with rob ::= λ r, rob.add_commit_num 1 (rob.set_committed true r) }.
Definition take_exception (id : Z) (it : rob.item_t) (cause value : Z) (fb : commit_feedback_t)
    (s : commit_t) : outcome (commit_feedback_t * commit_t) :=
  s ← trap_csrs (rob.pc it) cause value (retire_queue_add id it s);
  pc ← cycle_csrfile.read_sys CSR_MTVEC (csr_file s);
  s ← flush_all (rob.new_phy_id_free_list_rptr it) (rob.new_phy_id_free_list_rstage it) s;
  Ok (commit_feedback.set_trap pc fb, count_commit s).

(** What a block of the loop's body decides. *)
Inductive verdict :=
| go_on (s : commit_t)
| stop (need_flush : bool) (fb : commit_feedback_t) (s : commit_t).

(** *** "load handle" *)
Definition has_checkpoint (it : rob.item_t) : bool :=
  bp_info.checkpoint_id_valid (rob.branch_predictor_info_pack it).
Definition pop_checkpoint (it : rob.item_t) (s : commit_t) : outcome commit_t :=
  if has_checkpoint it then
    xf ← fifo.pop (checkpoint_buffer s); Ok { s with checkpoint_buffer := xf.2 }
  else Ok s.
Definition count_load (replay : Z) (conflict : bool) (s : commit_t) : commit_t :=
  { s with global ::= λ g,
      let g := global_inst.load_num_add g in
      let g := if 0 <? replay
               then global_inst.replay_num_add replay (global_inst.replay_load_num_add g) else g in
      if conflict then global_inst.conflict_load_num_add g else g }.
Definition handle_load (it : rob.item_t) (fb : commit_feedback_t) (s : commit_t) : outcome verdict :=
  if rob.load_queue_id_valid it then
    replay ← load_queue.get_replay_num (rob.load_queue_id it) (load_queue s);
    conflict ← load_queue.get_conflict (rob.load_queue_id it) (load_queue s);
    let s := count_load replay conflict s in
    if conflict && negb (has_checkpoint it) then
      s ← flush_all (rob.old_phy_id_free_list_rptr it) (rob.old_phy_id_free_list_rstage it) s;
      Ok (stop true { commit_feedback.set_jump true (rob.pc it) fb with commit_feedback.flush := true } s)
    else
      s ← pop_checkpoint it s;
      xf ← fifo.pop (load_queue.base (load_queue s));
      Ok (go_on { s with load_queue ::= λ q, { q with load_queue.base := xf.2 } })
  else Ok (go_on s).

(** *** "store handle" *)
Definition pop_store (s : commit_t) : outcome commit_t :=
  xf ← fifo.pop (store_buffer.base (store_buffer s));
  Ok { s with store_buffer ::= λ b, { b with store_buffer.base := xf.2 } }.
Definition store_to_bus (addr size data : Z) (b : B) : outcome B :=
  if size =? 1 then bus_write8 addr (u8 data) b
  else if size =? 2 then bus_write16 addr (u16 data) b
  else if size =? 4 then bus_write32 addr data b else Ok b.
Definition handle_store (id : Z) (it : rob.item_t) (fb : commit_feedback_t) (s : commit_t) :
  outcome verdict :=
  if rob.store_buffer_id_valid it then
    let sid := rob.store_buffer_id it in
    x ← store_buffer.get_item sid (store_buffer s);
    addr ← store_buffer.get_addr sid (store_buffer s);
    size ← store_buffer.get_size sid (store_buffer s);
    verify ((size =? 1) || (size =? 2) || (size =? 4)) ;;
    if is_waiting_ack s then
      match bus_write_ack (bus_if s) with
      | Some bus_errno.error =>
          fs ← take_exception id it (riscv_exception.to_uint32 riscv_exception.store_amo_access_fault)
                 addr fb { s with is_waiting_ack := false };
          Ok (stop true fs.1 fs.2)
      | Some bus_errno.none =>
          s ← pop_store { s with is_waiting_ack := false }; Ok (go_on s)
      | None => Ok (stop false fb s)
      end
    else if pma_unit.is_cacheable addr (pma_unit s) then
      bf ← fifo.push (retired_store_buffer.mk_item (store_buffer.inst_common_info x) addr size
                        (store_buffer.data x))
             (retired_store_buffer.base (retired_store_buffer s));
      verify bf.1 ;;
      s ← pop_store { s with retired_store_buffer ::= λ r, { r with retired_store_buffer.base := bf.2 } };
      Ok (go_on s)
    else
      b ← store_to_bus addr size (store_buffer.data x) (bus_if s);
      Ok (stop false fb { s with bus_if := b; is_waiting_ack := true })
  else Ok (go_on s).

(** *** Retirement proper *)
Definition retire_register (it : rob.item_t) (s : commit_t) : outcome commit_t :=
  if rob.old_phy_reg_id_valid it then
    mr ← rat.set_map (rob.rd it) (rob.new_phy_reg_id it) (retire_rat s);
    f ← phy_regfile.write (rob.old_phy_reg_id it) 0 false 0 false true (phy_regfile s);
    f ← phy_regfile.write_age_information (rob.new_phy_reg_id it) 0 false true f;
    bl ← free_list.push (rob.old_phy_reg_id it) (phy_id_free_list s);
    Ok { s with retire_rat := mr.2; phy_regfile := f; phy_id_free_list := bl.2 }
  else Ok s.
Definition retire_csr (it : rob.item_t) (s : commit_t) : outcome commit_t :=
  if rob.csr_newvalue_valid it then
    bf ← cycle_csrfile.write (rob.csr_addr it) (rob.csr_newvalue it) (csr_file s);
    Ok { s with csr_file := bf.2;
                breakpoints ::= breakpoint.breakpoint_csr_trigger (rob.csr_addr it)
                                  (rob.csr_newvalue it) true }
  else Ok s.

(** *** "branch handle" *)
Definition count_if (b : bool) (g : global_inst.global_t -> global_inst.global_t) (s : commit_t) : commit_t :=
  if b then { s with global ::= g } else s.
Definition train_predictors (hit : bool) (it : rob.item_t) (s : commit_t) : commit_t :=
  let bp := rob.branch_predictor_info_pack it in
  { s with
    bi_mode ::= branch_predictor_base.update_sync (rob.pc it) (rob.bru_jump it) (rob.bru_next_pc it) hit bp;
    l1_btb ::= branch_predictor_base.update_sync (rob.pc it) (rob.bru_jump it) (rob.bru_next_pc it) hit bp }.
Definition right_prediction (it : rob.item_t) : bool :=
  let bp := rob.branch_predictor_info_pack it in
  eqb (rob.bru_jump it) (bp_info.jump bp) && (rob.bru_next_pc it =? bp_info.next_pc bp).
(** The case the code excludes with [verify_only(false)]. *)
Definition right_direction_wrong_target (it : rob.item_t) : bool :=
  let bp := rob.branch_predictor_info_pack it in
  eqb (rob.bru_jump it) (bp_info.jump bp) && negb (rob.bru_next_pc it =? bp_info.next_pc bp) &&
  bp_info.condition_jump bp.
(** The result: [need_flush], the feedback and the state. *)
Definition handle_branch (it : rob.item_t) (fb : commit_feedback_t) (s : commit_t) :
  outcome (bool * commit_feedback_t * commit_t) :=
  let bp := rob.branch_predictor_info_pack it in
  let cond := bp_info.condition_jump bp in
  let s := count_if cond global_inst.branch_num_add s in
  s ← (if rob.is_mret it
       then update_mstatus (λ o, cycle_csr.setbit 3 (cycle_csr.getbit 7 o) o) s else Ok s);
  if bp_info.predicted bp then
    let s := count_if cond global_inst.branch_predicted_add s in
    r ← (if right_prediction it then
           Ok (false, fb, train_predictors true it (count_if cond global_inst.branch_hit_add s))
         else if right_direction_wrong_target it then Abort
         else
           let s := train_predictors false it (count_if cond global_inst.branch_miss_add s) in
           if negb (has_checkpoint it) then
             s ← flush_all (rob.new_phy_id_free_list_rptr it) (rob.new_phy_id_free_list_rstage it) s;
             Ok (true, { commit_feedback.set_jump true (rob.bru_next_pc it) fb with
                         commit_feedback.flush := true }, s)
           else Ok (false, fb, s));
    s ← pop_checkpoint it r.2;
    Ok (r.1.1, r.1.2, s)
  else
    Ok (false, commit_feedback.set_jump (rob.bru_jump it)
                 (if rob.bru_jump it then rob.bru_next_pc it else add32 (rob.pc it) 4) fb, s).

(** *** The body of the loop *)

(** An instruction that leaves the ROB; the booleans are [need_flush] and
    whether the loop goes on. *)
Definition retire_done (id : Z) (it : rob.item_t) (fb : commit_feedback_t) (s : commit_t) :
  outcome (bool * bool * commit_feedback_t * commit_t) :=
  xr ← rob.pop (rob (retire_queue_add id it s));
  s ← retire_register it { retire_queue_add id it s with rob := xr.2 };
  let s := if rob.last_uop it then count_commit s else s in
  s ← retire_csr it s;
  if rob.bru_op it then
    r ← handle_branch it fb s; Ok (r.1.1, false, r.1.2, r.2)
  else Ok (false, true, fb, s).
Definition retire (i id : Z) (it : rob.item_t) (fb : commit_feedback_t) (s : commit_t) :
  outcome (bool * bool * commit_feedback_t * commit_t) :=
  if rob.has_exception it then
    fs ← take_exception id it (riscv_exception.to_uint32 (rob.exception_id it)) (rob.exception_value it) fb s;
    Ok (true, false, fs.1, fs.2)
  else if rob.store_buffer_id_valid it && negb (i =? 0) then Ok (false, false, fb, s)
  else
    full ← (if rob.store_buffer_id_valid it then
              addr ← store_buffer.get_addr (rob.store_buffer_id it) (store_buffer s);
              Ok (pma_unit.is_cacheable addr (pma_unit s) &&
                  fifo.producer_is_full (retired_store_buffer.base (retired_store_buffer s)))
            else Ok false);
    if (full : bool) then Ok (false, false, fb, s)
    else
      v ← handle_load it fb s;
      match v with
      | stop nf fb s => Ok (nf, false, fb, s)
      | go_on s =>
          v ← handle_store id it fb s;
          match v with
          | stop nf fb s => Ok (nf, false, fb, s)
          | go_on s => retire_done id it fb s
          end
      end.
Definition note_commit (i id first_id : Z) (next : bool * Z) (fb : commit_feedback_t) :
  outcome commit_feedback_t :=
  v ← arr_set (commit_feedback.committed_rob_id_valid fb) i true;
  c ← arr_set (commit_feedback.committed_rob_id fb) i id;
  Ok { fb with commit_feedback.next_handle_rob_id_valid := next.1 && negb (next.2 =? first_id);
               commit_feedback.next_handle_rob_id := next.2;
               commit_feedback.committed_rob_id_valid := v;
               commit_feedback.committed_rob_id := c }.
(** [need_flush] is an accumulator; no iteration follows one that sets it. *)
Fixpoint retire_from (fuel : nat) (i first_id : Z) (fb : commit_feedback_t) (s : commit_t) :
  outcome (bool * commit_feedback_t * commit_t) :=
  match fuel with
  | O => Ok (false, fb, s)
  | S fuel =>
      match rob.get_front_id (rob s) with
      | None => retire_from fuel (i + 1) first_id fb s
      | Some id =>
          it ← rob.get_item id (rob s);
          if rob.finish it then
            next ← rob.get_next_id id (rob s);
            fb ← note_commit i id first_id next fb;
            r ← retire i id it fb s;
            if (r.1.1.2 : bool) then retire_from fuel (i + 1) first_id r.1.2 r.2
            else Ok (r.1.1.1, r.1.2, r.2)
          else Ok (false, fb, s)
      end
  end.

(** *** The results of the execute units *)
Definition record_result (p : execute_wb.pack_t) (it : rob.item_t) : rob.item_t :=
  let b := execute_wb.base p in
  let u := readreg_execute.uop b in
  let it := { it with rob.finish := decode_rename.last_uop u || rob.finish it } in
  let it := if rob.has_exception it then it
            else { it with rob.has_exception := decode_rename.has_exception u;
                           rob.exception_id := decode_rename.exception_id u;
                           rob.exception_value := decode_rename.exception_value u } in
  { it with rob.branch_predictor_info_pack := readreg_execute.branch_predictor_info_pack b;
            rob.bru_op := bool_decide (decode_rename.op_unit u = cop_unit.bru);
            rob.bru_jump := execute_wb.bru_jump p;
            rob.bru_next_pc := execute_wb.bru_next_pc p;
            rob.csr_newvalue := execute_wb.csr_newvalue p;
            rob.csr_newvalue_valid := execute_wb.csr_newvalue_valid p }.
Fixpoint handle_input (ports : list (port_t execute_wb.pack_t)) (r : rob_t) : outcome rob_t :=
  match ports with
  | [] => Ok r
  | p :: ports =>
      let rev_pack := port.get p in
      r ← (if execute_wb.enable rev_pack then
             let id := readreg_execute.rob_id (execute_wb.base rev_pack) in
             it ← rob.get_item id r; rob.set_item id (record_result rev_pack it) r
           else Ok r);
      handle_input ports r
  end.

(** [run].  The loop over all ROB slots before the last block only reads. *)
Definition run (s : commit_t) : outcome (commit_feedback_t * commit_t) :=
  let fb : commit_feedback_t := { commit_feedback.init with commit_feedback.idle := true } in
  x ← run_interrupt fb s;
  let '(nf0, fb, s) := x in
  match rob.get_front_id (rob s) with
  | None => Ok (fb, s)
  | Some first =>
      let fb := { fb with commit_feedback.idle := false;
                          commit_feedback.next_handle_rob_id := first;
                          commit_feedback.next_handle_rob_id_valid := true } in
      x ← retire_from (Z.to_nat COMMIT_WIDTH) 0 first fb s;
      let '(nf, fb, s) := x in
      if negb (nf0 || nf) then
        r ← handle_input (execute_commit_port s) (rob s); Ok (fb, { s with rob := r })
      else Ok (fb, s)
  end.
End commit.
Arguments commit_t B : clear implicits.
Arguments verdict B : clear implicits.
End commit.
