(* ===== verification/CycleRenameSpec.v ===== *)
(** * What the rename stage does

    [queues_ok] ties the queues of the stage to lists; with the invariant of
    RenameInv.v it is [stage_inv].  [rename_op_spec] is one instruction,
    [rename_from_spec] the loop and [rename_run_stage] the stage: it takes the
    instructions [taken] counts, in order, and [renamed_list] says how. *)

From S2P Require Import Prelude Word Ops IsaDecode Dff Fifo FifoSpec FifoWindow.
From S2P Require Import Rat RatSpec FreeList FreeListTrace CycleDecode CyclePack LoadStore.
From S2P Require Import Rob RenameInv CycleRename.

(** ** Views *)
Section window.
Context {T : Type}.
Implicit Types (f : fifo_t T) (l : list T) (x : T).

Lemma window_push_ok f R l x : window f R l -> fifo.producer_is_full f = false ->
  exists f', fifo.push x f = Ok (true, f') /\ window f' R (l ++ [x]) /\ fifo.size f' = fifo.size f.
Proof.
  intros H Hf. pose proof (window_push f R l H x) as Hp. rewrite (window_full f R l H) in Hf.
  by rewrite Hf in Hp.
Qed.

Lemma window_wptr f R l : window f R l -> 0 <= fifo.producer_get_wptr f < fifo.size f.
Proof.
  intros H. destruct (window_bounds f R l H) as [Hs _]. unfold fifo.producer_get_wptr.
  destruct (w_wptr _ _ _ H) as [-> _]. by apply ptr_range.
Qed.

Lemma window_tail f R l : window f R l -> l <> [] ->
  exists t, fifo.producer_get_tail_id f = Some t /\ 0 <= t < fifo.size f /\
    t = ptr (fifo.size f) (R + zlen l - 1).
Proof.
  intros H Hl. destruct (window_bounds f R l H) as [Hs _]. pose proof (w_size _ _ _ H) as Hsz.
  unfold fifo.producer_get_tail_id. rewrite (window_empty f R l H).
  destruct l as [|y l]; [done |].
  replace (zlen (y :: l) =? 0) with false by (unfold zlen; cbn [length]; lia).
  eexists. split; [done |]. unfold fifo.before. split; [by apply Z.mod_pos_bound |].
  destruct (w_wptr _ _ _ H) as [-> _]. pose proof (ptr_range _ Hs (R + zlen (y :: l))).
  rewrite u32_small by word_lia. unfold ptr.
  replace (_ + fifo.size f - 1) with ((R + zlen (y :: l)) mod fifo.size f + (fifo.size f - 1)) by lia.
  rewrite Z.add_mod_idemp_l by lia.
  replace (R + zlen (y :: l) + (fifo.size f - 1)) with (R + zlen (y :: l) - 1 + 1 * fifo.size f) by lia.
  by rewrite Z.mod_add by lia.
Qed.

(** The number after the next element's. *)
Lemma window_after f R l : window f R l ->
  fifo.static_get_next_id_stage (fifo.producer_get_wptr f) (fifo.producer_get_wstage f) f =
    (ptr (fifo.size f) (R + zlen l + 1), stg (fifo.size f) (R + zlen l + 1)).
Proof.
  intros H. destruct (window_bounds f R l H) as [Hs _]. pose proof (w_size _ _ _ H) as Hsz.
  unfold fifo.static_get_next_id_stage, fifo.producer_get_wptr, fifo.producer_get_wstage.
  destruct (w_wptr _ _ _ H) as [-> ->]. set (n := R + zlen l).
  unfold fifo.next_id, fifo.next_stage. pose proof (ptr_range _ Hs n) as Hr.
  replace (add32 (ptr (fifo.size f) n) 1) with (ptr (fifo.size f) n + 1)
    by (symmetry; apply u32_small; word_lia).
  destruct (succ _ Hs n) as [S1 S2]. f_equal.
  - rewrite <- S1. destruct (fifo.size f - 1 <=? _) eqn:E; [| apply Z.mod_small; lia].
    replace (ptr (fifo.size f) n + 1) with (fifo.size f) by lia. apply Z.mod_same. lia.
  - rewrite <- S2. replace (fifo.size f <=? ptr (fifo.size f) n + 1)
      with (fifo.size f - 1 <=? ptr (fifo.size f) n) by lia.
    by destruct (fifo.size f - 1 <=? _), (stg (fifo.size f) n).
Qed.

Lemma repr_full_empty f q R : repr_at f q R -> q_view q <> [] -> fifo.producer_is_empty f = false.
Proof.
  intros H Hq. destruct (repr_bounds f q R H) as (Hs & Hv & Hf & Hn).
  pose proof (r_popped _ _ _ H). pose proof (r_bound _ _ _ H).
  unfold fifo.producer_is_empty. destruct (r_rptr _ _ _ H) as [-> ->].
  destruct (r_wptr_new _ _ _ H) as [-> ->]. rewrite <- Z.add_assoc.
  destruct (compare (fifo.size f) Hs R (q_popped q + zlen (q_next q))) as [-> _]; [lia |].
  assert (0 < zlen (q_view q)); [| lia]. destruct (q_view q); [done |]. unfold zlen. cbn [length]. lia.
Qed.
End window.

Section stage.
Import rename decode_rename.
Context (sz A : Z).
Implicit Types (s : rename_t) (u : pack_t) (r : in_t) (o : op_info_t) (it : rob.item_t).

Record view := mk_view {
  v_in : queue in_t; v_in_at : Z;
  v_rob : list rob.item_t; v_rob_at : Z;
  v_loads : list load_queue.item_t; v_loads_at : Z;
  v_stores : list store_buffer.item_t; v_stores_at : Z;
  v_cps : list checkpoint_t; v_cps_at : Z
}.

Record queues_ok s (v : view) : Prop := {
  qo_in : repr_at (decode_rename_fifo s) (v_in v) (v_in_at v);
  qo_rob : window (rob.base (rob s)) (v_rob_at v) (v_rob v);
  qo_loads : window (load_queue.base (load_queue s)) (v_loads_at v) (v_loads v);
  qo_replay : zlen (load_queue.replay_num (load_queue s)) = fifo.size (load_queue.base (load_queue s));
  qo_stores : window (store_buffer.base (store_buffer s)) (v_stores_at v) (v_stores v);
  qo_addr : zlen (store_buffer.item_addr (store_buffer s)) = fifo.size (store_buffer.base (store_buffer s));
  qo_size : zlen (store_buffer.item_size (store_buffer s)) = fifo.size (store_buffer.base (store_buffer s));
  qo_valid : zlen (store_buffer.item_addr_valid (store_buffer s)) =
    fifo.size (store_buffer.base (store_buffer s));
  qo_cps : window (checkpoint_buffer s) (v_cps_at v) (v_cps v)
}.

(** The part the blocks of [rename_op] do not share with the queues. *)
Definition same_renaming_state s s' : Prop :=
  speculative_rat s' = speculative_rat s /\ phy_id_free_list s' = phy_id_free_list s /\
  rename_dispatch_port s' = rename_dispatch_port s.

(** What decode guarantees of its output. *)
Record pack_wf u : Prop := {
  pw_rs1 : rs1_need_map u = true -> 0 < rs1 u < A;
  pw_rs2 : rs2_need_map u = true -> 0 < rs2 u < A;
  pw_rd : need_rename u = true -> 0 < rd u < A;
  pw_fence : is_op op.fence u = true -> is_lsu u = false;
  pw_mret : is_op op.mret u = true -> is_lsu u = false
}.

(** *** Allocation in the load queue and the store buffer *)
Definition with_queue_ids (lv : bool) (l : Z) (sv : bool) (sb : Z) it : rob.item_t :=
  { it with rob.load_queue_id_valid := lv; rob.load_queue_id := l;
            rob.store_buffer_id_valid := sv; rob.store_buffer_id := sb }.
(** The fields of an operation that do not depend on the queues. *)
Definition same_op o o' : Prop :=
  rename_dispatch.uop o' = rename_dispatch.uop o /\
  rename_dispatch.inst_common_info o' = rename_dispatch.inst_common_info o /\
  rename_dispatch.rob_id o' = rename_dispatch.rob_id o /\
  rename_dispatch.rob_id_stage o' = rename_dispatch.rob_id_stage o /\
  rename_dispatch.rs1_phy o' = rename_dispatch.rs1_phy o /\
  rename_dispatch.rs2_phy o' = rename_dispatch.rs2_phy o /\
  rename_dispatch.rd_phy o' = rename_dispatch.rd_phy o.
Lemma same_op_refl o : same_op o o.
Proof. by split_and!. Qed.

(** The elements the two queues gain. *)
Definition new_load u : list load_queue.item_t :=
  if rename_dispatch.acts u && is_unit cop_unit.lu u then [load_queue.item_init] else [].
Definition new_store o : list store_buffer.item_t :=
  let u := rename_dispatch.uop o in
  if rename_dispatch.acts u && negb (is_unit cop_unit.lu u) && is_unit cop_unit.sdu u then
    [{ store_buffer.item_init with
       store_buffer.inst_common_info := rename_dispatch.inst_common_info o;
       store_buffer.rob_id := rename_dispatch.rob_id o;
       store_buffer.rob_id_stage := rename_dispatch.rob_id_stage o }]
  else [].
Definition with_queues (loads : list load_queue.item_t) (stores : list store_buffer.item_t) (v : view) : view :=
  { v with v_loads := v_loads v ++ loads; v_stores := v_stores v ++ stores }.

Definition has_room s u : Prop :=
  rename_dispatch.acts u = true ->
  (is_unit cop_unit.lu u = true -> fifo.producer_is_full (load_queue.base (load_queue s)) = false) /\
  (is_unit cop_unit.lu u = false -> is_unit cop_unit.sdu u = true ->
   fifo.producer_is_full (store_buffer.base (store_buffer s)) = false).

Definition same_sizes s s' : Prop :=
  fifo.size (rob.base (rob s')) = fifo.size (rob.base (rob s)) /\
  fifo.size (load_queue.base (load_queue s')) = fifo.size (load_queue.base (load_queue s)) /\
  fifo.size (store_buffer.base (store_buffer s')) = fifo.size (store_buffer.base (store_buffer s)).

Lemma alloc_spec s v o it :
  queues_ok s v -> has_room s (rename_dispatch.uop o) ->
  exists o' it' s', alloc o it s = Ok (o', it', s') /\ same_op o o' /\
    rename_dispatch.branch_predictor_info_pack o' = rename_dispatch.branch_predictor_info_pack o /\
    (exists a b c d, it' = with_queue_ids a b c d it) /\
    queues_ok s' (with_queues (new_load (rename_dispatch.uop o)) (new_store o) v) /\
    same_renaming_state s s' /\ rob s' = rob s /\ same_sizes s s' /\
    checkpoint_buffer s' = checkpoint_buffer s.
Proof.
  intros H Hroom. unfold alloc, new_load, new_store, with_queues.
  assert (Hsame : exists a b c d, it = with_queue_ids a b c d it).
  { exists (rob.load_queue_id_valid it), (rob.load_queue_id it), (rob.store_buffer_id_valid it),
      (rob.store_buffer_id it). by destruct it. }
  destruct (rename_dispatch.acts _) eqn:Ea; cbn [andb].
  2: { exists o, it, s. rewrite !app_nil_r. split_and!; try done. by destruct v. }
  destruct (Hroom Ea) as [Hl Hs]. destruct H.
  destruct (is_unit cop_unit.lu _) eqn:Eu; cbn [negb andb].
  - unfold alloc_load. pose proof (window_wptr _ _ _ qo_loads0) as Hw.
    destruct (window_push_ok _ _ _ load_queue.item_init qo_loads0) as (f & -> & Hwin & Hsz); [by apply Hl |].
    cbn [mbind outcome_bind fst snd verify]. unfold load_queue.clear_replay_num.
    change (load_queue.replay_num _) with (load_queue.replay_num (load_queue s)).
    destruct (tset_spec (load_queue.replay_num (load_queue s))
      (fifo.producer_get_wptr (load_queue.base (load_queue s))) 0) as (t & Et & Lt & _); [lia |].
    rewrite Et. cbn [mbind outcome_bind]. do 3 eexists. split; [done |].
    split; [done |]. split; [done |]. split.
    { exists true, (fifo.producer_get_wptr (load_queue.base (load_queue s))),
        (rob.store_buffer_id_valid it), (rob.store_buffer_id it). by destruct it. }
    split; [| done]. rewrite app_nil_r. split; try done; cbn.
    unfold zlen in *. lia.
  - destruct (is_unit cop_unit.sdu _) eqn:Ed.
    2: { exists o, it, s. rewrite !app_nil_r. split_and!; try done; by destruct v. }
    unfold alloc_store. set (x := { store_buffer.item_init with _ := _; _ := _; _ := _ }).
    destruct (window_push_ok _ _ _ x qo_stores0) as (f & -> & Hwin & Hsz); [by apply Hs |].
    cbn [mbind outcome_bind fst snd verify].
    change (fifo.producer_get_tail_id _) with (fifo.producer_get_tail_id f).
    destruct (window_tail _ _ _ Hwin) as (t & -> & Ht & _); [by destruct (v_stores v) |].
    cbn [mbind outcome_bind]. unfold store_buffer.write_addr.
    change (store_buffer.item_addr _) with (store_buffer.item_addr (store_buffer s)).
    change (store_buffer.item_size _) with (store_buffer.item_size (store_buffer s)).
    change (store_buffer.item_addr_valid _) with (store_buffer.item_addr_valid (store_buffer s)).
    rewrite Hsz in Ht.
    destruct (tset_spec (store_buffer.item_addr (store_buffer s)) t 0) as (t1 & -> & L1 & _); [lia |].
    cbn [mbind outcome_bind].
    destruct (tset_spec (store_buffer.item_size (store_buffer s)) t 0) as (t2 & -> & L2 & _); [lia |].
    cbn [mbind outcome_bind].
    destruct (tset_spec (store_buffer.item_addr_valid (store_buffer s)) t false) as (t3 & -> & L3 & _); [lia |].
    cbn [mbind outcome_bind]. do 3 eexists. split; [done |].
    split; [done |]. split; [done |]. split.
    { exists (rob.load_queue_id_valid it), (rob.load_queue_id it), true,
        (fifo.producer_get_wptr (store_buffer.base (store_buffer s))). by destruct it. }
    split; [| done]. rewrite app_nil_r. split; try done; cbn; unfold zlen in *; lia.
Qed.

(** *** Source and destination registers *)
Lemma map_source_spec rt m need a x : rat_is sz A rt m -> (need = true -> 0 < a < A) ->
  exists p, map_source need a x rt = Ok p /\ (need = true -> m !! a = Some p).
Proof.
  intros H Ha. unfold map_source. destruct need; [| by exists x].
  destruct (rat_is_dom sz A rt m a H) as [p Hp]; [by apply Ha |].
  rewrite (rat_is_get sz A rt m a p x H Hp). cbn. by exists p.
Qed.

Lemma map_sources_spec s m o : rat_is sz A (speculative_rat s) m -> pack_wf (rename_dispatch.uop o) ->
  exists p1 p2, map_sources o s =
      Ok { o with rename_dispatch.rs1_phy := p1; rename_dispatch.rs2_phy := p2 } /\
    (rs1_need_map (rename_dispatch.uop o) = true -> m !! rs1 (rename_dispatch.uop o) = Some p1) /\
    (rs2_need_map (rename_dispatch.uop o) = true -> m !! rs2 (rename_dispatch.uop o) = Some p2).
Proof.
  intros H W. unfold map_sources.
  destruct (map_source_spec (speculative_rat s) m (rs1_need_map (rename_dispatch.uop o))
    (rs1 (rename_dispatch.uop o)) (rename_dispatch.rs1_phy o) H (pw_rs1 _ W)) as (p1 & -> & H1).
  destruct (map_source_spec (speculative_rat s) m (rs2_need_map (rename_dispatch.uop o))
    (rs2 (rename_dispatch.uop o)) (rename_dispatch.rs2_phy o) H (pw_rs2 _ W)) as (p2 & -> & H2).
  exists p1, p2. done.
Qed.

Lemma map_source_spec_eq srat rrat fl live g mr ms a old :
  ren_inv sz A srat rrat fl live g mr ms -> ms !! a = Some old -> map_source true a 0 srat = Ok old.
Proof.
  intros H Ha. unfold map_source.
  by rewrite (rat_is_get sz A srat ms a old 0 (i_srat _ _ _ _ _ _ _ _ _ H) Ha).
Qed.

(** The map before and after an instruction; its register is not in use. *)
Definition destination u (p : Z) (old : option Z) (m m' : gmap Z Z) : Prop :=
  if valid u && need_rename u
  then old = m !! rd u /\ is_Some old /\ (forall a, m !! a <> Some p) /\ m' = <[rd u := p]> m
  else old = None /\ m' = m.

(** The entry that makes the invariant hold again. *)
Definition entry_for u (p : Z) (old : option Z) (p0 p1 : Z * bool) it : Prop :=
  rob.old_phy_reg_id_valid it = bool_decide (is_Some old) /\ rob.rd it = rd u /\
  rob.old_phy_reg_id it = default 0 old /\ rob.new_phy_reg_id it = p /\
  old_ptr it = p0 /\ new_ptr it = p1.

Section one.
Context (rrat : rat_t) (mr : gmap Z Z).

Lemma rename_rd_spec s v o live g ms :
  queues_ok s v -> ren_inv sz A (speculative_rat s) rrat (phy_id_free_list s) live g mr ms ->
  pack_wf (rename_dispatch.uop o) -> q_view (lg_queue g) <> [] ->
  exists old p s' g' ms', rename_rd o s =
      Ok (old, (if valid (rename_dispatch.uop o) && need_rename (rename_dispatch.uop o)
                then { o with rename_dispatch.rd_phy := p } else o), s') /\
    queues_ok s' v /\ destination (rename_dispatch.uop o) p old ms ms' /\
    rob s' = rob s /\ load_queue s' = load_queue s /\ store_buffer s' = store_buffer s /\
    checkpoint_buffer s' = checkpoint_buffer s /\
    rename_dispatch_port s' = rename_dispatch_port s /\ lg_out g' = lg_out g /\ q_fresh (lg_queue g') = q_fresh (lg_queue g) /\
    forall it x, entry_for (rename_dispatch.uop o)
        (if valid (rename_dispatch.uop o) && need_rename (rename_dispatch.uop o) then p else x) old
        (free_list.save (phy_id_free_list s)) (free_list.save (phy_id_free_list s')) it ->
      ren_inv sz A (speculative_rat s') rrat (phy_id_free_list s') (live ++ [it]) g' mr ms'.
Proof.
  intros Hq H W Hv. unfold rename_rd, destination.
  pose proof (save_spec _ _ _ (i_follows _ _ _ _ _ _ _ _ _ H)) as Esave.
  destruct (valid (rename_dispatch.uop o) && need_rename (rename_dispatch.uop o)) eqn:E.
  2: { exists None, 0, s, g, ms. split_and!; try done.
       intros it x (V & _ & _ & _ & P0 & P1). apply inv_other; [done | done | | ]; congruence. }
  apply andb_prop in E as [_ En]. pose proof (pw_rd _ W En) as Hrd.
  destruct (q_view (lg_queue g)) as [|d w] eqn:Eq; [done |].
  destruct (inv_alloc _ _ _ _ _ _ _ _ _ H (rd (rename_dispatch.uop o)) d w Hrd Eq)
    as (fl' & old & srat' & g' & Epop & Hold & Eset & Esave' & Hout & _ & Hfresh & Hinv).
  rewrite (map_source_spec_eq _ _ _ _ _ _ _ _ _ H Hold). cbn [mbind outcome_bind].
  rewrite Epop. cbn [mbind outcome_bind fst snd]. rewrite Eset. cbn [mbind outcome_bind fst snd].
  exists (Some old), d, { s with speculative_rat := srat'; phy_id_free_list := fl' }, g',
    (<[rd (rename_dispatch.uop o) := d]> ms).
  split; [done |]. split; [destruct Hq; by split |].
  split. { split_and!; [done | by eexists | | done]. intros a.
    apply (free_unmapped _ _ _ _ _ _ _ _ _ H). unfold q_next. rewrite Eq. left. }
  split_and!; try done.
  intros it x (V & Rd & O & N & P0 & P1). apply Hinv; try done.
  - by rewrite P0.
  - rewrite P1. exact Esave'.
Qed.

(** *** One instruction *)
Record stage_inv s (v : view) (pre live : list rob.item_t) (g : ledger) (ms : gmap Z Z) : Prop := {
  si_queues : queues_ok s v;
  si_rob : v_rob v = pre ++ live;
  si_ren : ren_inv sz A (speculative_rat s) rrat (phy_id_free_list s) live g mr ms;
  si_fresh : zlen (q_fresh (lg_queue g)) <= zlen pre;
  si_room : zlen (lg_out g) + fifo.size (rob.base (rob s)) < sz
}.

(** There is always a register left: those in flight and those freed in this
    cycle are no more than the ROB has entries. *)
Lemma register_left s v pre live g ms :
  stage_inv s v pre live g ms -> fifo.producer_is_full (rob.base (rob s)) = false ->
  q_view (lg_queue g) <> [].
Proof using Type.
  intros H Hf. pose proof (qo_rob _ _ (si_queues _ _ _ _ _ _ H)) as Hw.
  rewrite (window_full _ _ _ Hw) in Hf. destruct (window_bounds _ _ _ Hw) as [Hs Hb].
  rewrite (si_rob _ _ _ _ _ _ H), zlen_app in Hf, Hb.
  pose proof (i_follows _ _ _ _ _ _ _ _ _ (si_ren _ _ _ _ _ _ H)) as Hfo.
  pose proof (holders_count sz _ _ Hfo) as Hc.
  pose proof (si_room _ _ _ _ _ _ H). pose proof (si_fresh _ _ _ _ _ _ H).
  pose proof (regs_of_length live) as Hl. rewrite <- (i_spec _ _ _ _ _ _ _ _ _ (si_ren _ _ _ _ _ _ H)) in Hl.
  pose proof (zlen_nonneg (lg_out g)). unfold q_next in Hc. rewrite zlen_app in Hc.
  intros E. rewrite E in Hc. unfold zlen at 3 in Hc. cbn in Hc. lia.
Qed.

(** The entry of the ROB repeats the instruction. *)
Definition describes u it : Prop :=
  rob.pc it = pc u /\ rob.inst_value it = value u /\ rob.rd it = rd u /\
  rob.last_uop it = last_uop u /\ rob.finish it = false /\
  rob.has_exception it = has_exception u /\ rob.exception_id it = exception_id u /\
  rob.exception_value it = exception_value u /\ rob.is_mret it = is_op op.mret u /\
  rob.csr_newvalue_valid it = false.

(** [o'] is the instruction [o] with its registers renamed in the map [m],
    [it] its entry in the ROB at the counter [n], [m'] the map for the next. *)
Record renamed_as (rsz : Z) (n : Z) (m : gmap Z Z) o o' it (m' : gmap Z Z) : Prop := {
  ra_uop : rename_dispatch.uop o' = rename_dispatch.uop o;
  ra_rs1 : rs1_need_map (rename_dispatch.uop o) = true ->
    m !! rs1 (rename_dispatch.uop o) = Some (rename_dispatch.rs1_phy o');
  ra_rs2 : rs2_need_map (rename_dispatch.uop o) = true ->
    m !! rs2 (rename_dispatch.uop o) = Some (rename_dispatch.rs2_phy o');
  ra_rd : destination (rename_dispatch.uop o) (rename_dispatch.rd_phy o')
    (if rob.old_phy_reg_id_valid it then Some (rob.old_phy_reg_id it) else None) m m';
  ra_new : rob.new_phy_reg_id it = rename_dispatch.rd_phy o';
  ra_id : rename_dispatch.rob_id o' = ptr rsz n /\ rename_dispatch.rob_id_stage o' = stg rsz n;
  ra_item : describes (rename_dispatch.uop o) it
}.

(** The view after an instruction. *)
Definition grown u (it : rob.item_t) (v v' : view) : Prop :=
  v_in v' = v_in v /\ v_in_at v' = v_in_at v /\ v_rob v' = v_rob v ++ [it] /\
  v_rob_at v' = v_rob_at v /\ v_loads v' = v_loads v ++ new_load u /\
  (exists ns, v_stores v' = v_stores v ++ ns /\
     zlen ns = b2z (rename_dispatch.acts u && negb (is_unit cop_unit.lu u) && is_unit cop_unit.sdu u)).

Lemma get_rob_id_spec s v o : queues_ok s v -> fifo.producer_is_full (rob.base (rob s)) = false ->
  get_rob_id o s = Ok { o with
    rename_dispatch.rob_id := ptr (fifo.size (rob.base (rob s))) (v_rob_at v + zlen (v_rob v));
    rename_dispatch.rob_id_stage := stg (fifo.size (rob.base (rob s))) (v_rob_at v + zlen (v_rob v)) }.
Proof using Type.
  intros H Hf. unfold get_rob_id, rob.get_new_id, rob.get_new_id_stage. rewrite Hf.
  destruct (w_wptr _ _ _ (qo_rob _ _ H)) as [-> ->]. done.
Qed.

(** Whether a checkpoint is taken. *)
Definition takes_checkpoint s o : bool :=
  enable (rename_dispatch.uop o) && valid (rename_dispatch.uop o) &&
  (bp_info.predicted (rename_dispatch.branch_predictor_info_pack o) ||
   is_unit cop_unit.lu (rename_dispatch.uop o)) &&
  negb (fifo.producer_is_full (checkpoint_buffer s)).
(** The checkpoint buffer and what the instruction says about it afterwards. *)
Definition checkpoint_added s v o (cp : checkpoint_t) o' v' : Prop :=
  v_cps_at v' = v_cps_at v /\
  if takes_checkpoint s o then
    v_cps v' = v_cps v ++ [cp] /\
    rename_dispatch.branch_predictor_info_pack o' =
      { rename_dispatch.branch_predictor_info_pack o with
        bp_info.checkpoint_id_valid := true;
        bp_info.checkpoint_id := ptr (fifo.size (checkpoint_buffer s)) (v_cps_at v + zlen (v_cps v)) }
  else v_cps v' = v_cps v /\
    rename_dispatch.branch_predictor_info_pack o' = rename_dispatch.branch_predictor_info_pack o.

Lemma take_checkpoint_spec s v o it ptrs : queues_ok s v ->
  exists o' s' v', take_checkpoint o it ptrs s = Ok (o', s') /\ same_op o o' /\ queues_ok s' v' /\
    same_renaming_state s s' /\ same_sizes s s' /\
    v_in v' = v_in v /\ v_in_at v' = v_in_at v /\ v_rob v' = v_rob v /\ v_rob_at v' = v_rob_at v /\
    v_loads v' = v_loads v /\ v_stores v' = v_stores v /\
    checkpoint_added s v o (checkpoint_of it ptrs s) o' v'.
Proof using Type.
  intros H. unfold take_checkpoint, checkpoint_added, takes_checkpoint.
  destruct (_ && _); [| exists o, s, v; split_and!; try done].
  destruct (fifo.producer_is_full (checkpoint_buffer s)) eqn:Ef; cbn [negb];
    [exists o, s, v; split_and!; try done |].
  destruct (window_push_ok _ _ _ (checkpoint_of it ptrs s) (qo_cps _ _ H) Ef) as (f & -> & Hw & Hs).
  cbn [mbind outcome_bind fst snd verify].
  destruct (window_tail _ _ _ Hw) as (t & -> & _ & Et); [by destruct (v_cps v) |].
  rewrite zlen_app in Et. change (zlen [_]) with 1 in Et. rewrite Hs, Z.add_assoc, Z.add_simpl_r in Et.
  cbn [mbind outcome_bind]. do 2 eexists.
  exists { v with v_cps := v_cps v ++ [checkpoint_of it ptrs s] }.
  split; [done |]. split; [done |].
  split; [destruct H; by split | cbn [andb]; split_and!; try done]. by rewrite <- Et.
Qed.

(** What it is a checkpoint of; [s] is the state before the queues grow. *)
Lemma checkpoint_marks s s' v v' it m n :
  queues_ok s v -> queues_ok s' v' -> rat_is sz A (speculative_rat s') m -> new_ptr it = at_count sz n ->
  marks sz (fifo.size (load_queue.base (load_queue s))) (fifo.size (store_buffer.base (store_buffer s)))
    (fifo.size (checkpoint_buffer s')) (checkpoint_of it (queue_ptrs s) s') m n
    (v_loads_at v + zlen (v_loads v)) (v_stores_at v + zlen (v_stores v))
    (v_cps_at v' + zlen (v_cps v') + 1).
Proof using Type.
  intros H H' Hr Hn. pose proof (w_vld _ (ri_wf _ _ _ _ Hr)) as Hl. rewrite (ri_num _ _ _ _ Hr) in Hl. split.
  - change (zlen (vld (speculative_rat s')) = sz). unfold zlen, vld in *. by rewrite length_fmap.
  - intros p Hp. apply (rat_is_valid sz A _ m p Hr Hp).
  - exact Hn.
  - destruct (w_wptr _ _ _ (qo_loads _ _ H)) as [E1 E2].
    change ((fifo.producer_get_wptr (load_queue.base (load_queue s)),
             fifo.producer_get_wstage (load_queue.base (load_queue s))) = at_count
      (fifo.size (load_queue.base (load_queue s))) (v_loads_at v + zlen (v_loads v))).
    unfold fifo.producer_get_wptr, fifo.producer_get_wstage. by rewrite E1, E2.
  - destruct (w_wptr _ _ _ (qo_stores _ _ H)) as [E1 E2].
    change ((fifo.producer_get_wptr (store_buffer.base (store_buffer s)),
             fifo.producer_get_wstage (store_buffer.base (store_buffer s))) = at_count
      (fifo.size (store_buffer.base (store_buffer s))) (v_stores_at v + zlen (v_stores v))).
    unfold fifo.producer_get_wptr, fifo.producer_get_wstage. by rewrite E1, E2.
  - pose proof (window_after _ _ _ (qo_cps _ _ H')) as E.
    change (fifo.static_get_next_id_stage (fifo.producer_get_wptr (checkpoint_buffer s'))
      (fifo.producer_get_wstage (checkpoint_buffer s')) (checkpoint_buffer s') =
      at_count (fifo.size (checkpoint_buffer s')) (v_cps_at v' + zlen (v_cps v') + 1)). exact E.
Qed.

Lemma push_rob_spec s v it : queues_ok s v -> fifo.producer_is_full (rob.base (rob s)) = false ->
  exists rb, rob.push it (rob s) = Ok (true, rb) /\
    queues_ok { s with rob := rb } { v with v_rob := v_rob v ++ [it] } /\
    same_sizes s { s with rob := rb }.
Proof using Type.
  intros H Hf. destruct (window_push_ok _ _ _ it (qo_rob _ _ H) Hf) as (f & E & Hw & Hs).
  unfold rob.push. rewrite E. cbn [mbind outcome_bind fst snd]. eexists. split; [done |].
  split; [destruct H; by split | by split_and!].
Qed.

Lemma rename_op_spec s v pre live g ms o :
  stage_inv s v pre live g ms -> pack_wf (rename_dispatch.uop o) -> has_room s (rename_dispatch.uop o) ->
  enable (rename_dispatch.uop o) = true -> fifo.producer_is_full (rob.base (rob s)) = false ->
  exists o' it s' v' g' ms', rename_op o s = Ok (o', s') /\
    stage_inv s' v' pre (live ++ [it]) g' ms' /\ grown (rename_dispatch.uop o) it v v' /\ same_sizes s s' /\
    lg_out g' = lg_out g /\
    rename_dispatch_port s' = rename_dispatch_port s /\
    renamed_as (fifo.size (rob.base (rob s))) (v_rob_at v + zlen (v_rob v)) ms o o' it ms' /\
    exists cp, checkpoint_added s v o cp o' v' /\
      marks sz (fifo.size (load_queue.base (load_queue s))) (fifo.size (store_buffer.base (store_buffer s)))
        (fifo.size (checkpoint_buffer s)) cp ms' (handed_out g')
        (v_loads_at v + zlen (v_loads v)) (v_stores_at v + zlen (v_stores v)) (v_cps_at v + zlen (v_cps v) + 1).
Proof using Type.
  intros H W Hroom He Hfull. pose proof (register_left _ _ _ _ _ _ H Hfull) as Hleft.
  destruct H as [Hq Hrob Hren Hfresh Hsz]. unfold rename_op. rewrite He.
  destruct (map_sources_spec s ms o (i_srat _ _ _ _ _ _ _ _ _ Hren) W) as (p1 & p2 & -> & Hp1 & Hp2).
  cbn [mbind outcome_bind]. match goal with |- context [rename_rd ?x s] => set (o1 := x) end.
  destruct (rename_rd_spec s v o1 live g ms Hq Hren W Hleft)
    as (old & p & s1 & g' & ms' & -> & Hq1 & Hdest & Er & El & Eb & Ec & Ep & Hout & Hfr & Hinv).
  cbn [mbind outcome_bind]. match goal with |- context [get_rob_id ?x s1] => set (o2 := x) end.
  assert (Hu : rename_dispatch.uop o2 = rename_dispatch.uop o) by (unfold o2; by destruct (_ && _)).
  rewrite <- Er in Hfull. rewrite (get_rob_id_spec s1 v o2 Hq1 Hfull). cbn [mbind outcome_bind].
  match goal with |- context [rob_item_of ?x ?a ?b ?c] =>
    set (o3 := x); set (it0 := rob_item_of o3 a b c) end.
  set (ptrs := queue_ptrs s1).
  destruct (alloc_spec s1 v o3 it0 Hq1) as (o4 & it & s2 & -> & Hsame & Hbp & Hit & Hq2 & Hrs & Er2 & Hsz2 & Ec2).
  { unfold has_room. change (rename_dispatch.uop o3) with (rename_dispatch.uop o2).
    rewrite Hu, El, Eb. exact Hroom. }
  change (rename_dispatch.uop o3) with (rename_dispatch.uop o2) in Hq2. rewrite Hu in Hq2.
  cbn [mbind outcome_bind].
  destruct (push_rob_spec s2 _ it Hq2) as (rb & -> & Hq3 & Hsz3); [by rewrite Er2 |].
  cbn [mbind outcome_bind fst snd verify].
  destruct (take_checkpoint_spec _ _ o4 it ptrs Hq3)
    as (o5 & s4 & v4 & E4 & Hsame5 & Hq4 & Hrs4 & Hsz4 & V1 & V2 & V3 & V4 & V5 & V6 & V7).
  exists o5, it, s4, v4, g', ms'. split; [exact E4 |].
  assert (Hsizes : same_sizes s s4).
  { destruct Hsz2 as (A1 & A2 & A3), Hsz3 as (B1 & B2 & B3), Hsz4 as (C1 & C2 & C3).
    unfold same_sizes. rewrite C1, B1, A1, C2, B2, A2, C3, B3, A3, Er, El, Eb. done. }
  destruct Hrs as (R1 & R2 & R3), Hrs4 as (T1 & T2 & T3).
  change (speculative_rat { s2 with rob := rb }) with (speculative_rat s2) in T1.
  change (phy_id_free_list { s2 with rob := rb }) with (phy_id_free_list s2) in T2.
  change (rename_dispatch_port { s2 with rob := rb }) with (rename_dispatch_port s2) in T3.
  destruct Hit as (ia & ib & ic & id & Hit).
  assert (Hphy : rename_dispatch.rd_phy o2 = if valid (rename_dispatch.uop o) && need_rename (rename_dispatch.uop o)
    then p else rename_dispatch.rd_phy o1).
  { unfold o2. change (rename_dispatch.uop o1) with (rename_dispatch.uop o). by destruct (_ && _). }
  assert (Hentry : entry_for (rename_dispatch.uop o1) (rename_dispatch.rd_phy o2) old
    (free_list.save (phy_id_free_list s)) (free_list.save (phy_id_free_list s1)) it).
  { rewrite Hit. unfold entry_for, old_ptr, new_ptr.
    rewrite (surjective_pairing (free_list.save (phy_id_free_list s))),
      (surjective_pairing (free_list.save (phy_id_free_list s1))).
    split_and!; try done. change (rd (rename_dispatch.uop o2) = rd (rename_dispatch.uop o)).
    by rewrite Hu. }
  assert (Hren4 : ren_inv sz A (speculative_rat s4) rrat (phy_id_free_list s4) (live ++ [it]) g' mr ms').
  { rewrite T1, T2, R1, R2. apply (Hinv it (rename_dispatch.rd_phy o1)).
    change (rename_dispatch.uop o1) with (rename_dispatch.uop o) at 2 3. by rewrite <- Hphy. }
  destruct Hsame as (S1 & _ & S2 & S3 & S4 & S5 & S6), Hsame5 as (U1 & _ & U2 & U3 & U4 & U5 & U6).
  destruct Hentry as (N1 & N2 & N3 & N4 & _ & N6).
  split_and!.
  - split; [done | | done | by rewrite Hfr | rewrite Hout; destruct Hsizes as (-> & _); done].
    rewrite V3. change (v_rob v ++ [it] = pre ++ live ++ [it]). by rewrite Hrob, app_assoc.
  - split_and!; try done. eexists. split; [exact V6 |]. unfold new_store.
    change (rename_dispatch.uop o3) with (rename_dispatch.uop o2). rewrite Hu. by destruct (rename_dispatch.acts _ && _ && _).
  - done.
  - done.
  - by rewrite T3, R3.
  - split.
    + rewrite U1, S1. exact Hu.
    + intros Hn. rewrite U4, S4. rewrite (Hp1 Hn). f_equal. unfold o3, o2. by destruct (_ && _).
    + intros Hn. rewrite U5, S5. rewrite (Hp2 Hn). f_equal. unfold o3, o2. by destruct (_ && _).
    + rewrite U6, S6. change (rename_dispatch.rd_phy o3) with (rename_dispatch.rd_phy o2).
      rewrite Hphy, N1, N3. unfold destination in *.
      change (rename_dispatch.uop o1) with (rename_dispatch.uop o) in Hdest.
      destruct (_ && _).
      * destruct Hdest as (Ho & [old' ->] & Hd & Hm). by split_and!.
      * destruct Hdest as (-> & ->). done.
    + by rewrite U6, S6, N4.
    + rewrite U2, U3, S2, S3, <- Er. done.
    + rewrite Hit, <- Hu. by split_and!.
  - exists (checkpoint_of it ptrs { s2 with rob := rb }).
    assert (Eo : rename_dispatch.branch_predictor_info_pack o4 = rename_dispatch.branch_predictor_info_pack o).
    { rewrite Hbp. unfold o3, o2. by destruct (_ && _). }
    assert (Es : checkpoint_buffer { s2 with rob := rb } = checkpoint_buffer s) by (rewrite <- Ec; exact Ec2).
    split.
    + unfold checkpoint_added, takes_checkpoint in V7 |- *.
      rewrite Es, Eo, S1 in V7. change (rename_dispatch.uop o3) with (rename_dispatch.uop o2) in V7.
      rewrite Hu in V7. exact V7.
    + rewrite <- Es, <- El, <- Eb.
      apply (checkpoint_marks s1 { s2 with rob := rb } v _ it ms' (handed_out g') Hq1 Hq3).
      * change (rat_is sz A (speculative_rat s2) ms'). rewrite <- T1. apply Hren4.
      * rewrite N6. rewrite <- (save_spec _ _ _ (i_follows _ _ _ _ _ _ _ _ _ Hren4)). by rewrite T2, R2.
Qed.

(** *** The loop *)

(** How many instructions the stage takes, from the room in the ROB, the load
    queue and the store buffer. *)
Definition is_store u : bool :=
  rename_dispatch.acts u && negb (is_unit cop_unit.lu u) && is_unit cop_unit.sdu u.
Fixpoint taken (fuel : nat) (i : Z) (fence : bool) (rr lr sr : Z) (l : list in_t) : nat :=
  match fuel, l with
  | S fuel, r :: l =>
      if rr =? 0 then O
      else match gate i fence (lr =? 0) (sr =? 0) (uop r) with
           | None => O
           | Some (ready, fence) =>
               S (if (ready : bool) then O
                  else if enable (uop r) then
                    taken fuel (i + 1) fence (rr - 1) (lr - zlen (new_load (uop r)))
                      (sr - b2z (is_store (uop r))) l
                  else taken fuel (i + 1) fence rr lr sr l)
           end
  | _, _ => O
  end.

Inductive renamed_list (rsz : Z) : Z -> gmap Z Z -> list in_t -> list op_info_t -> list rob.item_t ->
  gmap Z Z -> Prop :=
| renamed_nil n m : renamed_list rsz n m [] [] [] m
| renamed_skip n m r l os its m' : enable (uop r) = false ->
    renamed_list rsz n m l os its m' -> renamed_list rsz n m (r :: l) (copy r :: os) its m'
| renamed_cons n m r o it m1 l os its m' : enable (uop r) = true ->
    renamed_as rsz n m (copy r) o it m1 -> renamed_list rsz (n + 1) m1 l os its m' ->
    renamed_list rsz n m (r :: l) (o :: os) (it :: its) m'.

Definition rob_room s v : Z := fifo.size (rob.base (rob s)) - zlen (v_rob v).
Definition load_room s v : Z := fifo.size (load_queue.base (load_queue s)) - zlen (v_loads v).
Definition store_room s v : Z := fifo.size (store_buffer.base (store_buffer s)) - zlen (v_stores v).

Lemma full_room s v : queues_ok s v ->
  fifo.producer_is_full (rob.base (rob s)) = (rob_room s v =? 0) /\
  fifo.producer_is_full (load_queue.base (load_queue s)) = (load_room s v =? 0) /\
  fifo.producer_is_full (store_buffer.base (store_buffer s)) = (store_room s v =? 0).
Proof using Type.
  intros H. unfold rob_room, load_room, store_room.
  rewrite (window_full _ _ _ (qo_rob _ _ H)), (window_full _ _ _ (qo_loads _ _ H)),
    (window_full _ _ _ (qo_stores _ _ H)). lia.
Qed.

Lemma gate_room i fence lf sf u x : pack_wf u -> gate i fence lf sf u = Some x ->
  rename_dispatch.acts u = true ->
  (is_unit cop_unit.lu u = true -> lf = false) /\
  (is_unit cop_unit.lu u = false -> is_unit cop_unit.sdu u = true -> sf = false).
Proof using Type.
  intros W Hg Ha. unfold gate in Hg. rewrite Ha in Hg.
  pose proof (pw_fence _ W) as Hf. pose proof (pw_mret _ W) as Hm. unfold is_lsu in *.
  destruct (is_unit cop_unit.csr u) eqn:Ec.
  { unfold is_unit in *. apply bool_decide_eq_true in Ec. rewrite Ec. done. }
  destruct (is_op op.mret u); [specialize (Hm eq_refl); destruct (is_unit cop_unit.lu u),
    (is_unit cop_unit.sdu u); rewrite ?orb_true_r in Hm; try done; by split |].
  destruct (is_op op.fence u); [specialize (Hf eq_refl); destruct (is_unit cop_unit.lu u),
    (is_unit cop_unit.sdu u); rewrite ?orb_true_r in Hf; try done; by split |].
  cbn [orb] in Hg. destruct (fence && _); [done |].
  destruct (is_unit cop_unit.lu u); [by destruct lf |].
  destruct (is_unit cop_unit.sdu u); [by destruct sf | done].
Qed.

Lemma pop_input s v pre live g ms r l : stage_inv s v pre live g ms -> q_view (v_in v) = r :: l ->
  exists f, fifo.customer_is_empty (decode_rename_fifo s) = false /\
    fifo.customer_get_front (decode_rename_fifo s) = Ok (Some r) /\
    fifo.pop (decode_rename_fifo s) = Ok (Some r, f) /\
    stage_inv { s with decode_rename_fifo := f }
      { v with v_in := mk_queue (q_popped (v_in v) + 1) l (q_fresh (v_in v)) } pre live g ms.
Proof using Type.
  intros H Hv. pose proof (qo_in _ _ (si_queues _ _ _ _ _ _ H)) as Hi.
  pose proof (pop_spec_at _ _ _ Hi) as Hp. rewrite Hv in Hp. destruct Hp as (f & Ep & Hf & _).
  exists f. assert (He : fifo.customer_is_empty (decode_rename_fifo s) = false).
  { rewrite (customer_empty _ _ _ Hi), Hv. unfold zlen. cbn [length]. lia. }
  split; [done |]. split; [| split; [done |]].
  - unfold fifo.customer_get_front. unfold fifo.pop in Ep. rewrite He in *.
    destruct (fifo.buffer_get _ _); try discriminate Ep. cbn in Ep. by injection Ep as -> _.
  - destruct H as [[]]. by split.
Qed.

(** One turn that takes an instruction. *)
Lemma rename_step_spec i fence s v pre live g ms r l ready fence' :
  stage_inv s v pre live g ms -> q_view (v_in v) = r :: l -> pack_wf (uop r) ->
  rob_room s v <> 0 ->
  gate i fence (load_room s v =? 0) (store_room s v =? 0) (uop r) = Some (ready, fence') ->
  exists o its s' v' g' ms', rename_step i fence s = Ok (Some (o, ready, fence', s')) /\
    stage_inv s' v' pre (live ++ its) g' ms' /\
    v_in v' = mk_queue (q_popped (v_in v) + 1) l (q_fresh (v_in v)) /\ v_in_at v' = v_in_at v /\
    v_rob v' = v_rob v ++ its /\ v_rob_at v' = v_rob_at v /\
    same_sizes s s' /\ lg_out g' = lg_out g /\ rename_dispatch_port s' = rename_dispatch_port s /\
    (if enable (uop r) then
       exists it, its = [it] /\ rob_room s' v' = rob_room s v - 1 /\
         load_room s' v' = load_room s v - zlen (new_load (uop r)) /\
         store_room s' v' = store_room s v - b2z (is_store (uop r)) /\
         renamed_as (fifo.size (rob.base (rob s))) (v_rob_at v + zlen (v_rob v)) ms (copy r) o it ms'
     else its = [] /\ o = copy r /\ ms' = ms /\ rob_room s' v' = rob_room s v /\
       load_room s' v' = load_room s v /\ store_room s' v' = store_room s v).
Proof using Type.
  intros H Hv W Hroom Hg. destruct (full_room s v (si_queues _ _ _ _ _ _ H)) as (Fr & Fl & Fs).
  assert (Hfull : fifo.producer_is_full (rob.base (rob s)) = false) by (rewrite Fr; lia).
  pose proof (register_left _ _ _ _ _ _ H Hfull) as Hleft.
  destruct (pop_input _ _ _ _ _ _ _ _ H Hv) as (f & He & Ef & Ep & H').
  pose proof (fo_repr _ _ _ (i_follows _ _ _ _ _ _ _ _ _ (si_ren _ _ _ _ _ _ H))) as Hfl.
  unfold rename_step. rewrite He, (repr_full_empty _ _ _ Hfl Hleft), Hfull. cbn [negb andb].
  rewrite Ef. cbn [mbind outcome_bind]. rewrite Fl, Fs, Hg, Ep. cbn [mbind outcome_bind fst snd].
  destruct (enable (uop r)) eqn:Een.
  - destruct (rename_op_spec _ _ _ _ _ _ (copy r) H' W) as
      (o & it & s' & v' & g' & ms' & E & Hs' & Hgr & Hsz & Hout & Hport & Hra & _).
    { unfold has_room. intros Ha.
      change (fifo.producer_is_full _) with (fifo.producer_is_full (load_queue.base (load_queue s))) at 1.
      rewrite Fl. change (is_unit ?x _) with (is_unit x (uop r)).
      change (fifo.producer_is_full _) with (fifo.producer_is_full (store_buffer.base (store_buffer s))).
      rewrite Fs. by apply (gate_room i fence _ _ (uop r) _ W Hg). }
    { done. }
    { done. }
    rewrite E. cbn [mbind outcome_bind fst snd].
    destruct Hgr as (G1 & G2 & G3 & G4 & G5 & ns & G6 & G7).
    assert (Hsz' : same_sizes s s') by exact Hsz. destruct Hsz as (Z1 & Z2 & Z3).
    change (v_rob _) with (v_rob v) in G3 at 2. change (v_loads _) with (v_loads v) in G5 at 2.
    change (v_stores _) with (v_stores v) in G6 at 2.
    change (rename_dispatch.uop (copy r)) with (uop r) in G5, G7.
    exists o, [it], s', v', g', ms'. split; [done |].
    split; [done |]. split_and!; try done.
    exists it. split; [done |]. destruct Hsz' as (Y1 & Y2 & Y3).
    unfold rob_room, load_room, store_room. rewrite Y1, Y2, Y3, G3, G5, G6, !zlen_app, G7.
    change (zlen [it]) with 1. fold (is_store (uop r)). split_and!; [lia | lia | lia | exact Hra].
  - unfold rename_op. change (rename_dispatch.uop (copy r)) with (uop r).
    rewrite Een. cbn [mbind outcome_bind fst snd].
    eexists _, [], _, _, g, ms. split; [done |]. rewrite !app_nil_r.
    split; [exact H' |]. by split_and!.
Qed.

(** [send_pack] with the slots from [i] on filled. *)
Definition fill (i : Z) (os sp : rename_dispatch.pack_t) : rename_dispatch.pack_t :=
  take (Z.to_nat i) sp ++ os ++ drop (Z.to_nat i + length os) sp.
Lemma fill_nil i sp : fill i [] sp = sp.
Proof using Type. unfold fill. cbn. by rewrite Nat.add_0_r, take_drop. Qed.
Lemma fill_cons i o os sp : 0 <= i < zlen sp ->
  fill (i + 1) os (<[Z.to_nat i := o]> sp) = fill i (o :: os) sp.
Proof using Type.
  intros Hi. unfold fill, zlen in *. replace (Z.to_nat (i + 1)) with (S (Z.to_nat i)) by lia.
  rewrite (take_S_r _ _ o) by (apply list_lookup_insert_eq; lia).
  rewrite take_insert_ge by lia. rewrite drop_insert_lt by lia.
  rewrite <- app_assoc. cbn [app length]. do 4 f_equal. lia.
Qed.

Definition moved (k : nat) (q : queue in_t) : queue in_t :=
  mk_queue (q_popped q + Z.of_nat k) (drop k (q_view q)) (q_fresh q).

(** What the loop is to establish, having taken [k] instructions. *)
Definition loop_result (i : Z) (k : nat) s v pre live g ms sp (x : outcome (rename_dispatch.pack_t * rename_t)) :
  Prop :=
  exists os its s' v' g' ms', x = Ok (fill i os sp, s') /\
    stage_inv s' v' pre (live ++ its) g' ms' /\ v_rob v' = v_rob v ++ its /\
    v_in v' = moved k (v_in v) /\ length os = k /\ same_sizes s s' /\ lg_out g' = lg_out g /\
    rename_dispatch_port s' = rename_dispatch_port s /\
    renamed_list (fifo.size (rob.base (rob s))) (v_rob_at v + zlen (v_rob v)) ms
      (take k (q_view (v_in v))) os its ms'.

Lemma loop_stops i s v pre live g ms sp : stage_inv s v pre live g ms ->
  loop_result i 0 s v pre live g ms sp (Ok (sp, s)).
Proof using Type.
  intros H. exists [], [], s, v, g, ms. rewrite fill_nil, !app_nil_r. split_and!; try done.
  - unfold moved. destruct (v_in v). cbn. by rewrite Z.add_0_r.
  - rewrite take_0. constructor.
Qed.

Lemma rename_step_stops i fence s v pre live g ms : stage_inv s v pre live g ms ->
  match q_view (v_in v) with
  | [] => True
  | r :: _ => rob_room s v = 0 \/
      gate i fence (load_room s v =? 0) (store_room s v =? 0) (uop r) = None
  end -> rename_step i fence s = Ok None.
Proof using Type.
  intros H Hx. destruct (full_room s v (si_queues _ _ _ _ _ _ H)) as (Fr & Fl & Fs).
  pose proof (qo_in _ _ (si_queues _ _ _ _ _ _ H)) as Hi. unfold rename_step.
  rewrite (customer_empty _ _ _ Hi). destruct (q_view (v_in v)) as [|r l] eqn:Hv; [done |].
  destruct (pop_input _ _ _ _ _ _ _ _ H Hv) as (f & He & Ef & _).
  rewrite (customer_empty _ _ _ Hi), Hv in He. rewrite He, Fr.
  destruct Hx as [-> | Hg]; [by rewrite andb_false_r |].
  destruct (_ && _); [| done]. rewrite Ef. cbn [mbind outcome_bind]. by rewrite Fl, Fs, Hg.
Qed.

Lemma rename_from_spec fuel i fence s v pre live g ms sp :
  stage_inv s v pre live g ms -> Forall (λ r, pack_wf (uop r)) (q_view (v_in v)) ->
  0 <= i -> i + Z.of_nat fuel = zlen sp ->
  loop_result i (taken fuel i fence (rob_room s v) (load_room s v) (store_room s v) (q_view (v_in v)))
    s v pre live g ms sp (rename_from fuel i fence sp s).
Proof using Type.
  revert i fence s v live g ms sp. induction fuel as [|fuel IH];
    intros i fence s v live g ms sp H Hwf Hi Hlen; [by apply loop_stops |].
  cbn [rename_from taken]. pose proof (rename_step_stops i fence s v pre live g ms H) as Hstop.
  destruct (q_view (v_in v)) as [|r l] eqn:Hv.
  { rewrite Hstop by done. by apply loop_stops. }
  destruct (rob_room s v =? 0) eqn:Er.
  { rewrite Hstop by (left; lia). by apply loop_stops. }
  destruct (gate _ _ _ _ _) as [[ready fence'] |] eqn:Eg.
  2: { rewrite Hstop by (by right). by apply loop_stops. }
  apply Forall_cons in Hwf as [Wr Hwf].
  destruct (rename_step_spec i fence s v pre live g ms r l ready fence' H Hv Wr)
    as (o & its & s1 & v1 & g1 & ms1 & -> & H1 & Vin & _ & Vrob & Vat & Hsz & Hout & Hport & Hen);
    [lia | done |].
  cbn [mbind outcome_bind fst snd]. rewrite arr_set_ok by lia. cbn [mbind outcome_bind].
  assert (Hrest : exists k os its' s' v' g' ms',
    (if ready then Ok (<[Z.to_nat i:=o]> sp, s1)
     else rename_from fuel (i + 1) fence' (<[Z.to_nat i:=o]> sp) s1) =
      Ok (fill (i + 1) os (<[Z.to_nat i:=o]> sp), s') /\
    k = (if ready then O else taken fuel (i + 1) fence' (rob_room s1 v1) (load_room s1 v1) (store_room s1 v1) l) /\
    stage_inv s' v' pre ((live ++ its) ++ its') g' ms' /\ v_rob v' = v_rob v1 ++ its' /\
    v_in v' = moved k (v_in v1) /\ length os = k /\ same_sizes s1 s' /\ lg_out g' = lg_out g1 /\
    rename_dispatch_port s' = rename_dispatch_port s1 /\
    renamed_list (fifo.size (rob.base (rob s1))) (v_rob_at v1 + zlen (v_rob v1)) ms1 (take k l) os its' ms').
  { assert (Hl : q_view (v_in v1) = l) by (by rewrite Vin). destruct ready.
    - destruct (loop_stops (i + 1) s1 v1 pre (live ++ its) g1 ms1 (<[Z.to_nat i:=o]> sp) H1)
        as (os & its' & s' & v' & g' & ms' & X).
      exists O, os, its', s', v', g', ms'. rewrite Hl in X. destruct X as (X1 & X). split_and!; tauto.
    - destruct (IH (i + 1) fence' s1 v1 (live ++ its) g1 ms1 (<[Z.to_nat i:=o]> sp) H1)
        as (os & its' & s' & v' & g' & ms' & X); [by rewrite Hl | lia | rewrite zlen_insert; lia |].
      rewrite Hl in X. destruct X as (X1 & X). eexists _, os, its', s', v', g', ms'.
      split; [exact X1 |]. split; [reflexivity | exact X]. }
  destruct Hrest as (k & os & its' & s' & v' & g' & ms' & E & Ek & H' & Vrob' & Vin' & Hk & Hsz' & Hout' & Hport' & Hl').
  exists (o :: os), (its ++ its'), s', v', g', ms'. rewrite <- fill_cons by lia.
  split; [exact E |]. rewrite app_assoc. split; [exact H' |].
  destruct Hsz as (Z1 & Z2 & Z3), Hsz' as (Y1 & Y2 & Y3).
  split; [by rewrite Vrob', Vrob, app_assoc |].
  assert (Hlen' : length (o :: os) = S (if ready then O else if enable (uop r) then
      taken fuel (i + 1) fence' (rob_room s v - 1) (load_room s v - zlen (new_load (uop r)))
        (store_room s v - b2z (is_store (uop r))) l
    else taken fuel (i + 1) fence' (rob_room s v) (load_room s v) (store_room s v) l)).
  { cbn [length]. f_equal. rewrite Hk, Ek. destruct ready; [done |].
    destruct (enable (uop r)).
    - destruct Hen as (it & _ & -> & -> & -> & _). done.
    - destruct Hen as (_ & _ & _ & -> & -> & ->). done. }
  rewrite <- Hlen'. cbn [length]. rewrite Hk.
  split.
  { rewrite Vin', Vin. unfold moved. cbn. rewrite Hv. f_equal; lia. }
  split; [done |].
  split; [unfold same_sizes; rewrite Y1, Y2, Y3; done |].
  split; [by rewrite Hout' |]. split; [by rewrite Hport' |]. rewrite Hv. cbn [take app].
  rewrite Z1, Vat, Vrob in Hl'. destruct (enable (uop r)) eqn:Een.
  - destruct Hen as (it & -> & _ & _ & _ & Hra). apply (renamed_cons _ _ _ _ _ _ ms1); [done | done |].
    rewrite zlen_app in Hl'. change (zlen [it]) with 1 in Hl'. by rewrite <- Z.add_assoc.
  - destruct Hen as (-> & -> & -> & _). rewrite app_nil_r in Hl'. by apply renamed_skip.
Qed.

(** *** The assertions at the end of [run] *)

(** The instructions that passed [gate], one after the other. *)
Fixpoint passed (i : Z) (fence : bool) (l : list pack_t) : Prop :=
  match l with
  | [] => True
  | u :: l => pack_wf u /\ exists lf sf ready fence', gate i fence lf sf u = Some (ready, fence') /\
                if (ready : bool) then l = [] else passed (i + 1) fence' l
  end.
Definition idle_ops (l : rename_dispatch.pack_t) : Prop :=
  Forall (λ o, enable (rename_dispatch.uop o) = false) l.

Lemma taken_passed fuel i fence rr lr sr l : Forall (λ r, pack_wf (uop r)) l ->
  passed i fence (uop <$> take (taken fuel i fence rr lr sr l) l).
Proof using Type.
  revert i fence rr lr sr l. induction fuel as [|fuel IH]; intros i fence rr lr sr l Hl; [done |].
  cbn [taken]. destruct Hl as [|r l Hr Hl]; [done |]. destruct (rr =? 0); [done |].
  destruct (gate _ _ _ _ _) as [[ready fence'] |] eqn:Eg; [| done].
  cbn [take fmap list_fmap passed]. split; [done |]. do 4 eexists. split; [exact Eg |].
  destruct ready; [done |]. destruct (enable _); by apply IH.
Qed.

Lemma renamed_uops rsz n m l os its m' : renamed_list rsz n m l os its m' ->
  rename_dispatch.uop <$> os = uop <$> l.
Proof using Type.
  induction 1 as [| n m r l os its m' _ _ IH | n m r o it m1 l os its m' _ [E _ _ _ _ _ _] _ IH]; [done | |];
    cbn; f_equal; done.
Qed.

Lemma acts_enable u : enable u = false -> rename_dispatch.acts u = false.
Proof using Type. unfold rename_dispatch.acts. by intros ->. Qed.

Lemma check_fence_idle i fence l : idle_ops l -> check_fence fence i l = Ok tt.
Proof using Type.
  intros H. revert i fence. induction H as [|o l Ho _ IH]; intros i fence; [done |].
  cbn [check_fence]. by rewrite (acts_enable _ Ho).
Qed.

Lemma gate_checked i fence lf sf u ready fence' :
  pack_wf u -> gate i fence lf sf u = Some (ready, fence') -> rename_dispatch.acts u = true ->
  ((i =? 0) || negb (is_unit cop_unit.csr u)) = true /\ (negb fence || negb (is_lsu u)) = true /\
  (ready = false -> fence' = if is_op op.fence u then true else fence) /\
  (is_unit cop_unit.csr u = true -> ready = true).
Proof using Type.
  intros W Hg Ha. unfold gate in Hg. rewrite Ha in Hg.
  pose proof (pw_fence _ W) as Hf. pose proof (pw_mret _ W) as Hm.
  destruct (is_unit cop_unit.csr u) eqn:Ec; cbn [orb] in Hg.
  - destruct (i =? 0); [| done]. injection Hg as <- <-. split_and!; try done.
    unfold is_lsu, is_unit in *. apply bool_decide_eq_true in Ec. rewrite Ec. by rewrite orb_true_r.
  - rewrite orb_true_r. split; [done |].
    destruct (is_op op.mret u) eqn:Em.
    + destruct (i =? 0); [| done]. injection Hg as <- <-. rewrite Hm by done. by rewrite orb_true_r.
    + destruct (is_op op.fence u) eqn:Ef.
      * injection Hg as <- <-. rewrite Hf by done. by rewrite orb_true_r.
      * destruct (fence && is_lsu u) eqn:El; [done |].
        assert (E : negb fence || negb (is_lsu u) = true) by (rewrite <- negb_andb; by rewrite El).
        rewrite E. repeat case_match; try done; injection Hg as <- <-; by split_and!.
Qed.

Lemma check_fence_ok i fence os rest : passed i fence (rename_dispatch.uop <$> os) -> idle_ops rest ->
  check_fence fence i (os ++ rest) = Ok tt.
Proof using Type.
  revert i fence. induction os as [|o os IH]; intros i fence Hp Hrest; [by apply check_fence_idle |].
  destruct Hp as (W & lf & sf & ready & fence' & Hg & Hnext).
  cbn [app check_fence].
  destruct (rename_dispatch.acts (rename_dispatch.uop o)) eqn:Ea.
  - destruct (gate_checked _ _ _ _ _ _ _ W Hg Ea) as (-> & -> & Hf & _).
    cbn [verify mbind outcome_bind]. destruct ready.
    + destruct os; [by apply check_fence_idle | discriminate Hnext].
    + rewrite <- Hf by done. by apply IH.
  - unfold gate in Hg. rewrite Ea in Hg. injection Hg as <- <-. by apply IH.
Qed.

Lemma check_csr_ok fence os rest : passed 0 fence (rename_dispatch.uop <$> os) -> idle_ops rest ->
  check_csr (os ++ rest) = Ok tt.
Proof using Type.
  intros Hp Hrest. destruct os as [|o os].
  - destruct Hrest as [|o rest Ho _]; [done |]. cbn [app check_csr]. by rewrite (acts_enable _ Ho).
  - destruct Hp as (W & lf & sf & ready & fence' & Hg & Hnext). cbn [app check_csr].
    destruct (rename_dispatch.acts (rename_dispatch.uop o)) eqn:Ea; [| done]. cbn [andb].
    destruct (is_unit cop_unit.csr _) eqn:Ec; [| done].
    destruct (gate_checked _ _ _ _ _ _ _ W Hg Ea) as (_ & _ & _ & Hr). rewrite (Hr Ec) in Hnext.
    destruct os; [| discriminate Hnext]. cbn [app].
    enough (E : forallb (λ o, negb (enable (rename_dispatch.uop o))) rest = true) by (by rewrite E).
    clear -Hrest. induction Hrest as [|x l Hx _ IH]; [done |]. cbn. by rewrite Hx.
Qed.

(** *** The stage *)
Lemma stage_inv_port x s v pre live g ms : stage_inv s v pre live g ms ->
  stage_inv { s with rename_dispatch_port := x } v pre live g ms.
Proof using Type. intros [[]]. by split. Qed.

Lemma idle_rest k : idle_ops (drop k rename_dispatch.pack_init).
Proof using Type. apply Forall_drop. repeat constructor. Qed.

(** The number of instructions a cycle takes. *)
Definition count (dispatch_stall flush waiting : bool) s v : nat :=
  if flush || dispatch_stall || waiting then O
  else taken (Z.to_nat RENAME_WIDTH) 0 false (rob_room s v) (load_room s v) (store_room s v) (q_view (v_in v)).
(** The port is a flip-flop that keeps its value when dispatch stalls. *)
Definition sent (dispatch_stall flush : bool) (os : rename_dispatch.pack_t) (p : port_t rename_dispatch.pack_t) :
  port_t rename_dispatch.pack_t :=
  if negb flush && dispatch_stall then p
  else port.set (os ++ drop (length os) rename_dispatch.pack_init) p.

Lemma rename_run_stage s v pre live g ms dispatch_stall bru sau com waiting :
  stage_inv s v pre live g ms -> Forall (λ r, pack_wf (uop r)) (q_view (v_in v)) ->
  let flush := com || bru || sau in
  let k := count dispatch_stall flush waiting s v in
  exists os its s' v' g' ms',
    run dispatch_stall bru sau com waiting s = Ok (zlen (q_view (v_in v)) =? 0, s') /\
    stage_inv s' v' pre (live ++ its) g' ms' /\ v_rob v' = v_rob v ++ its /\
    v_in v' = moved k (v_in v) /\ length os = k /\
    rename_dispatch_port s' = sent dispatch_stall flush os (rename_dispatch_port s) /\
    renamed_list (fifo.size (rob.base (rob s))) (v_rob_at v + zlen (v_rob v)) ms
      (take k (q_view (v_in v))) os its ms'.
Proof using Type.
  intros H Hwf flush k. pose proof (qo_in _ _ (si_queues _ _ _ _ _ _ H)) as Hi.
  unfold run. rewrite (customer_empty _ _ _ Hi).
  assert (Hstay : forall x, exists os its s' v' g' ms', { s with rename_dispatch_port := x } = s' /\
    stage_inv s' v' pre (live ++ its) g' ms' /\ v_rob v' = v_rob v ++ its /\
    v_in v' = moved 0 (v_in v) /\ length os = 0%nat /\ os = [] /\
    renamed_list (fifo.size (rob.base (rob s))) (v_rob_at v + zlen (v_rob v)) ms
      (take 0 (q_view (v_in v))) os its ms').
  { intros x. destruct (loop_stops 0 s v pre live g ms [] H) as (os & its & s' & v' & g' & ms' & E & X).
    injection E as E <-. exists [], [], { s with rename_dispatch_port := x }, v, g, ms.
    rewrite !app_nil_r. split; [done |]. split; [by apply stage_inv_port |]. split; [done |].
    split; [unfold moved; destruct (v_in v); cbn; by rewrite Z.add_0_r |].
    split; [done |]. split; [done |]. rewrite take_0. constructor. }
  assert (Hflush : negb com && negb bru && negb sau = negb flush).
  { unfold flush. by destruct com, bru, sau. }
  rewrite Hflush. unfold k, count, sent. destruct flush; cbn [negb orb andb].
  { destruct (Hstay (port.set rename_dispatch.pack_init (rename_dispatch_port s)))
      as (os & its & s' & v' & g' & ms' & <- & H1 & H2 & H3 & H4 & -> & H5).
    eexists [], its, _, v', g', ms'. split; [reflexivity |]. by split_and!. }
  destruct dispatch_stall; cbn [negb orb].
  { destruct (Hstay (rename_dispatch_port s)) as (os & its & s' & v' & g' & ms' & E & H1 & H2 & H3 & H4 & -> & H5).
    assert (s' = s) as -> by (rewrite <- E; by destruct s).
    exists [], its, s, v', g', ms'. split; [reflexivity |]. by split_and!. }
  destruct waiting; cbn [negb].
  { destruct (Hstay (port.set rename_dispatch.pack_init (rename_dispatch_port s)))
      as (os & its & s' & v' & g' & ms' & <- & H1 & H2 & H3 & H4 & -> & H5).
    eexists [], its, _, v', g', ms'. split; [reflexivity |]. by split_and!. }
  destruct (rename_from_spec (Z.to_nat RENAME_WIDTH) 0 false s v pre live g ms rename_dispatch.pack_init H Hwf)
    as (os & its & s' & v' & g' & ms' & E & H1 & H2 & H3 & H4 & H5 & H6 & H7 & H8); [lia | done |].
  rewrite E. cbn [mbind outcome_bind fst snd].
  change (fill 0 os rename_dispatch.pack_init) with (os ++ drop (length os) rename_dispatch.pack_init).
  assert (Hp : passed 0 false (rename_dispatch.uop <$> os)).
  { rewrite (renamed_uops _ _ _ _ _ _ _ H8). by apply taken_passed. }
  rewrite (check_csr_ok _ _ _ Hp (idle_rest _)), (check_fence_ok _ _ _ _ Hp (idle_rest _)).
  cbn [mbind outcome_bind].
  eexists os, its, _, v', g', ms'. split; [reflexivity |].
  split; [by apply stage_inv_port |]. split_and!; try done.
  change (port.set (os ++ drop (length os) rename_dispatch.pack_init) (rename_dispatch_port s') =
    port.set (os ++ drop (length os) rename_dispatch.pack_init) (rename_dispatch_port s)).
  by rewrite H7.
Qed.
End one.
End stage.
