(* ===== verification/CycleCommitSpec.v ===== *)
(** * What the commit stage does

    [commit_inv] ties the reorder buffer to the list of the instructions in
    flight and carries the invariant of RenameInv.v.  [retire_prefix] says what
    the loop does with instructions that need nothing but their register and
    CSR written ([plain]); [stop_spec] and [exception_spec] say how it ends. *)

From S2P Require Import Prelude Word Ops IsaDecode Breakpoint Csr Dff Fifo FifoSpec.
From S2P Require Import FifoWindow Rat RatSpec FreeList FreeListTrace CycleDecode CyclePack.
From S2P Require Import LoadStore CycleCsr Predict Ras Rob RenameInv RegsInv CycleCommit.

(** ** The customer's view of a queue *)
Section customer.
Context {T : Type} (f : fifo_t T) (q : queue T) (R : Z) (H : repr_at f q R).
#[local] Abbreviation sz := (fifo.size f).
#[local] Abbreviation C := (R + q_popped q).

Lemma customer_valid k : 0 <= k < sz ->
  fifo.customer_check_id_valid (ptr sz (C + k)) f = (k <? zlen (q_view q)).
Proof using H.
  intros Hk. destruct (repr_bounds f q R H) as (Hs & Hv & Hf & Hn).
  pose proof (r_bound _ _ _ H). pose proof (r_popped _ _ _ H).
  unfold fifo.customer_check_id_valid. rewrite (customer_empty f q R H).
  destruct (r_rptr_new _ _ _ H) as [-> ->]. destruct (r_wptr _ _ _ H) as [-> ->].
  apply ring_valid; lia.
Qed.

Lemma customer_front x l : q_view q = x :: l ->
  fifo.customer_get_front_id f = Some (ptr sz C) /\ fifo.buffer_get (ptr sz C) f = Ok x /\
  fifo.customer_get_next_id (ptr sz C) f =
    Ok (if 1 =? sz then true else 1 <? zlen (q_view q), ptr sz (C + 1)).
Proof using H.
  intros Hq. destruct (repr_bounds f q R H) as (Hs & Hv & Hf & Hn). pose proof (r_size _ _ _ H).
  assert (Hl : 0 < zlen (q_view q)) by (rewrite Hq; unfold zlen; cbn [length]; lia).
  unfold fifo.customer_get_front_id. rewrite (customer_empty f q R H).
  replace (zlen (q_view q) =? 0) with false by lia. destruct (r_rptr_new _ _ _ H) as [-> _].
  split; [done |]. split.
  - destruct (r_view _ _ _ H O x) as (d & Hd & Hx & _); [by rewrite Hq |].
    change (Z.of_nat 0) with 0 in Hd. rewrite Z.add_0_r in Hd. unfold fifo.buffer_get.
    replace (arr_get _ _) with (Ok d); [cbn; by rewrite Hx |].
    symmetry. apply arr_get_Some. split; [by apply ptr_range | done].
  - unfold fifo.customer_get_next_id. pose proof (customer_valid 0 ltac:(lia)) as E0.
    rewrite Z.add_0_r in E0. rewrite E0. replace (0 <? _) with true by lia.
    cbn [verify mbind outcome_bind]. unfold fifo.next_id. pose proof (ptr_range sz Hs C) as Hr.
    replace (add32 (ptr sz C) 1) with (ptr sz C + 1) by (symmetry; apply u32_small; word_lia).
    assert (En : (ptr sz C + 1) mod sz = ptr sz (C + 1)).
    { destruct (succ sz Hs C) as [S1 _]. rewrite <- S1. destruct (sz - 1 <=? _) eqn:E.
      - replace (ptr sz C + 1) with sz by lia. apply Z.mod_same. lia.
      - apply Z.mod_small. lia. }
    rewrite En. do 2 f_equal. destruct (1 =? sz) eqn:E1.
    + replace (ptr sz (C + 1)) with (ptr sz (C + 0)); [rewrite customer_valid; lia |].
      replace (C + 1) with (C + 0 + 1 * sz) by lia. unfold ptr. by rewrite Z.mod_add by lia.
    + apply customer_valid. lia.
Qed.

(** The producer does not see a pop. *)
Lemma pop_window x f' W l : fifo.pop f = Ok (x, f') -> window f W l -> window f' W l.
Proof using Type.
  unfold fifo.pop. destruct (fifo.customer_is_empty f); [by intros [= <- <-] |].
  destruct (fifo.buffer_get _ _); try done. cbn [mbind outcome_bind]. intros [= <- <-] [].
  unfold fifo.advance_rptr. case_match; by split.
Qed.
Lemma pop_buffer x f' : fifo.pop f = Ok (x, f') -> fifo.buffer f' = fifo.buffer f.
Proof using Type.
  unfold fifo.pop. destruct (fifo.customer_is_empty f); [by intros [= <- <-] |].
  destruct (fifo.buffer_get _ _); try done. cbn [mbind outcome_bind]. intros [= <- <-].
  unfold fifo.advance_rptr. by case_match.
Qed.
End customer.

(** ** CSRs *)
Section csrs.
Implicit Type f : cycle_csrfile_t.

(** What a write leaves alone. *)
Definition stable (it : cycle_csrfile.csr_item_t) : bool * csr_base.csr_class_t * Z :=
  (cycle_csrfile.readonly it, cycle_csr.cls (cycle_csrfile.csr it), cycle_csr.read (cycle_csrfile.csr it)).
Definition same_now f f' : Prop := forall addr,
  stable <$> cycle_csrfile.csr_map_table f' !! addr = stable <$> cycle_csrfile.csr_map_table f !! addr.

Lemma write_item_spec addr it v f f' :
  cycle_csrfile.csr_map_table f !! addr = Some it -> cycle_csrfile.write_item addr it v f = Ok f' ->
  same_now f f' /\
  cycle_csrfile.csr_map_table f' =
    <[addr := cycle_csrfile.mk_item (cycle_csrfile.readonly it) (cycle_csr.write v (cycle_csrfile.csr it))]>
      (cycle_csrfile.csr_map_table f).
Proof.
  intros Hit. unfold cycle_csrfile.write_item.
  assert (Ht : forall t, (match cycle_csr.cls (cycle_csrfile.csr it) with
      | csr_base.charfifo => cycle_csrfile.charfifo_filter v f | _ => Ok f end) = Ok t ->
      cycle_csrfile.csr_map_table t = cycle_csrfile.csr_map_table f).
  { intros t Et. destruct (cycle_csr.cls _); try by injection Et as <-.
    unfold cycle_csrfile.charfifo_filter in Et. repeat case_match; try done; by injection Et as <-. }
  destruct (match cycle_csr.cls (cycle_csrfile.csr it) with
      | csr_base.charfifo => cycle_csrfile.charfifo_filter v f | _ => Ok f end) as [t| | |] eqn:Et;
    try done.
  cbn [mbind outcome_bind]. intros Ef. injection Ef as Ef.
  assert (Em : cycle_csrfile.csr_map_table f' =
    <[addr := cycle_csrfile.mk_item (cycle_csrfile.readonly it) (cycle_csr.write v (cycle_csrfile.csr it))]>
      (cycle_csrfile.csr_map_table f)) by (rewrite <- (Ht t eq_refl), <- Ef; done).
  split; [| done]. intros a. rewrite Em. destruct (decide (a = addr)) as [-> |].
  - by rewrite lookup_insert_eq, Hit.
  - by rewrite lookup_insert_ne.
Qed.

Lemma same_now_refl f : same_now f f.
Proof. done. Qed.
Lemma same_now_trans f f' f'' : same_now f f' -> same_now f' f'' -> same_now f f''.
Proof. intros H H' a. by rewrite H'. Qed.

Lemma write_same addr v f b f' : cycle_csrfile.write addr v f = Ok (b, f') -> same_now f f'.
Proof.
  unfold cycle_csrfile.write. destruct (negb _); [intros [= _ <-]; apply same_now_refl |].
  unfold cycle_csrfile.item. destruct (cycle_csrfile.csr_map_table f !! addr) as [it|] eqn:E; [| done].
  cbn [of_option mbind outcome_bind]. destruct (cycle_csrfile.write_item _ _ _ _) eqn:Ew; try done.
  intros [= _ <-]. by destruct (write_item_spec _ _ _ _ _ E Ew).
Qed.

(** A register a trap can write. *)
Definition trap_csr f (addr : Z) : Prop := exists it,
  cycle_csrfile.csr_map_table f !! addr = Some it /\
  cycle_csr.cls (cycle_csrfile.csr it) <> csr_base.charfifo.
Lemma trap_csr_same f f' addr : same_now f f' -> trap_csr f addr -> trap_csr f' addr.
Proof.
  intros H (it & E & Hc). pose proof (H addr) as Ha. rewrite E in Ha.
  destruct (cycle_csrfile.csr_map_table f' !! addr) as [it'|] eqn:E'; [| done].
  exists it'. split; [done |]. cbn in Ha. injection Ha as _ Ha _. by rewrite Ha.
Qed.

(** The value a register will have in the next cycle. *)
Definition csr_next f (addr : Z) : option Z :=
  (λ it, cycle_csr.read_new (cycle_csrfile.csr it)) <$> cycle_csrfile.csr_map_table f !! addr.
Definition csr_class f (addr : Z) : option csr_base.csr_class_t :=
  (λ it, cycle_csr.cls (cycle_csrfile.csr it)) <$> cycle_csrfile.csr_map_table f !! addr.
Lemma csr_class_same f f' addr : same_now f f' -> csr_class f' addr = csr_class f addr.
Proof.
  intros H. pose proof (H addr) as Ha. unfold csr_class.
  destruct (cycle_csrfile.csr_map_table f' !! addr), (cycle_csrfile.csr_map_table f !! addr); try done.
  cbn in *. by injection Ha as _ -> _.
Qed.

Lemma write_sys_spec addr v f : trap_csr f addr ->
  exists f', cycle_csrfile.write_sys addr v f = Ok f' /\ same_now f f' /\
    csr_next f' addr = (λ c, csr_base.filter c v) <$> csr_class f addr /\
    forall a, a <> addr -> csr_next f' a = csr_next f a.
Proof.
  intros (it & E & Hc). unfold cycle_csrfile.write_sys, cycle_csrfile.found, cycle_csrfile.item.
  rewrite bool_decide_eq_true_2 by eauto. rewrite E. cbn [verify of_option mbind outcome_bind].
  assert (Ew : exists f', cycle_csrfile.write_item addr it v f = Ok f').
  { unfold cycle_csrfile.write_item.
    destruct (cycle_csr.cls (cycle_csrfile.csr it)) eqn:Ec; try done; eexists; reflexivity. }
  destruct Ew as [f' Ew]. destruct (write_item_spec _ _ _ _ _ E Ew) as [Hs Ht].
  exists f'. split; [done |]. split; [done |]. unfold csr_next, csr_class. rewrite Ht. split.
  - by rewrite lookup_insert_eq, E.
  - intros a Ha. by rewrite lookup_insert_ne.
Qed.

Lemma read_sys_spec addr f : trap_csr f addr ->
  exists it, cycle_csrfile.csr_map_table f !! addr = Some it /\
    cycle_csrfile.read_sys addr f = Ok (cycle_csr.read (cycle_csrfile.csr it)).
Proof.
  intros (it & E & Hc). exists it. split; [done |].
  unfold cycle_csrfile.read_sys, cycle_csrfile.found, cycle_csrfile.item, cycle_csrfile.read_item.
  rewrite bool_decide_eq_true_2 by eauto. rewrite E. cbn. by destruct (cycle_csr.cls _).
Qed.
End csrs.

(** ** The register file *)
Section regs.
Import phy_regfile.
Implicit Type f : regfile_t.

Definition regs_ok (sz : Z) f : Prop := zlen (regs f) = sz /\ size f = sz.
(** The contents of a register in the next cycle. *)
Definition reg_next f (p : Z) : option (Z * bool) :=
  (λ x, (dff.get_new (reg_data x), dff.get_new (reg_data_valid x))) <$> regs f !! Z.to_nat p.

Lemma update_spec sz f p (g : reg_t -> reg_t) : regs_ok sz f -> 0 <= p < sz ->
  exists f', update p g f = Ok f' /\ regs_ok sz f' /\ regs f' = alter g (Z.to_nat p) (regs f).
Proof.
  intros [Hl Hs] Hp. unfold update. replace (p <? size f) with true by lia.
  destruct (arr_get_ok (regs f) p) as [x Hx]; [lia |]. cbn [verify mbind outcome_bind]. rewrite Hx.
  cbn [mbind outcome_bind]. rewrite arr_set_ok by lia. cbn [mbind outcome_bind].
  apply arr_get_Some in Hx as [_ Hx].
  eexists. split; [done |]. split; [split; [cbn; by rewrite zlen_insert | done] |].
  cbn. apply list_eq. intros i. destruct (decide (i = Z.to_nat p)) as [-> |].
  - rewrite list_lookup_alter_eq, Hx, list_lookup_insert_eq; [done | unfold zlen in *; lia].
  - by rewrite list_lookup_alter_ne, list_lookup_insert_ne by done.
Qed.

Lemma reg_next_alter f f' p p' (g : reg_t -> reg_t) : 0 <= p -> 0 <= p' ->
  regs f' = alter g (Z.to_nat p) (regs f) ->
  (p' = p -> forall x, dff.get_new (reg_data (g x)) = dff.get_new (reg_data x) /\
                       dff.get_new (reg_data_valid (g x)) = dff.get_new (reg_data_valid x)) ->
  reg_next f' p' = reg_next f p'.
Proof.
  intros H0 H1 E Hg. unfold reg_next. rewrite E. destruct (decide (p' = p)) as [-> | Hne].
  - rewrite list_lookup_alter_eq. destruct (regs f !! Z.to_nat p) as [x|]; [| done]. cbn.
    by destruct (Hg eq_refl x) as [-> ->].
  - rewrite list_lookup_alter_ne by lia. done.
Qed.
End regs.

(** ** The loop *)
Section stage.
Import commit.
Context {B : Type} {data_bus0 : data_bus B} (sz A : Z).
Implicit Types (s : commit_t B) (fb : commit_feedback_t) (it : rob.item_t) (q : queue rob.item_t)
  (g : ledger).

(** [R]: the number of the entry at the front when the cycle began. *)
Record commit_inv s q (R : Z) g (mr ms : gmap Z Z) : Prop := {
  ci_rob : repr_at (rob.base (rob s)) q R;
  ci_ren : ren_inv sz A (speculative_rat s) (retire_rat s) (phy_id_free_list s) (q_next q) g mr ms;
  ci_now : lg_now g = O;
  ci_regs : regs_ok sz (phy_regfile s);
  ci_hold : regs_hold (fifo.size (rob.base (rob s))) next (phy_regfile s) (R + q_popped q) mr (q_next q)
}.

(** An instruction that has finished without an exception and is neither a
    load, a store nor a branch. *)
Definition plain it : bool :=
  rob.finish it && negb (rob.has_exception it) && negb (rob.load_queue_id_valid it) &&
  negb (rob.store_buffer_id_valid it) && negb (rob.bru_op it).

(** What retirement does to the retired map and to the CSRs. *)
Definition retire_map (m : gmap Z Z) it : gmap Z Z :=
  if rob.old_phy_reg_id_valid it then <[rob.rd it := rob.new_phy_reg_id it]> m else m.
Definition retire_maps (m : gmap Z Z) (l : list rob.item_t) : gmap Z Z := foldl retire_map m l.
Fixpoint csr_after (l : list rob.item_t) (f : cycle_csrfile_t) : outcome cycle_csrfile_t :=
  match l with
  | [] => Ok f
  | it :: l =>
      f ← (if rob.csr_newvalue_valid it
           then bf ← cycle_csrfile.write (rob.csr_addr it) (rob.csr_newvalue it) f; Ok bf.2
           else Ok f);
      csr_after l f
  end.

(** The parts the plain instructions do not touch. *)
Definition same_rest s s' : Prop :=
  load_queue s' = load_queue s /\ store_buffer s' = store_buffer s /\
  retired_store_buffer s' = retired_store_buffer s /\ bus_if s' = bus_if s /\
  checkpoint_buffer s' = checkpoint_buffer s /\ speculative_rat s' = speculative_rat s /\
  execute_commit_port s' = execute_commit_port s /\ is_waiting_ack s' = is_waiting_ack s.
Lemma same_rest_refl s : same_rest s s.
Proof using Type. by split_and!. Qed.
Lemma same_rest_trans s s' s'' : same_rest s s' -> same_rest s' s'' -> same_rest s s''.
Proof using Type.
  intros (A1 & A2 & A3 & A4 & A5 & A6 & A7 & A8) (B1 & B2 & B3 & B4 & B5 & B6 & B7 & B8).
  split_and!; congruence.
Qed.

(** Registers that stay in use keep their contents. *)
Definition same_values g' s s' : Prop := forall p,
  0 <= p < sz -> p ∉ q_next (lg_queue g') ->
  reg_next (phy_regfile s') p = reg_next (phy_regfile s) p.

Lemma retire_register_spec s it l g mr ms :
  ren_inv sz A (speculative_rat s) (retire_rat s) (phy_id_free_list s) (it :: l) g mr ms ->
  lg_now g = O -> regs_ok sz (phy_regfile s) ->
  exists s' g', retire_register it s = Ok s' /\
    ren_inv sz A (speculative_rat s') (retire_rat s') (phy_id_free_list s') l g' (retire_map mr it) ms /\
    lg_now g' = O /\ regs_ok sz (phy_regfile s') /\ same_rest s s' /\ same_values g' s s' /\
    (exists fr, q_next (lg_queue g') = q_next (lg_queue g) ++ fr) /\
    rob s' = rob s /\ csr_file s' = csr_file s /\ rob_retire_queue s' = rob_retire_queue s /\
    breakpoints s' = breakpoints s /\ decode_rename_fifo s' = decode_rename_fifo s /\
    zlen (lg_out g') = zlen (lg_out g) /\
    forall rsz C, regs_hold rsz next (phy_regfile s) C mr (it :: l) ->
      regs_hold rsz next (phy_regfile s') (C + 1) (retire_map mr it) l.
Proof using Type.
  intros H Hnow Hr. unfold retire_register, retire_map.
  destruct (rob.old_phy_reg_id_valid it) eqn:V.
  2: { exists s, g. split; [done |].
       split; [by apply (inv_retire_other _ _ _ _ _ it) |]. split_and!; try done.
       - exists []. by rewrite app_nil_r.
       - intros rsz C. by apply regs_hold_retire_other. }
  destruct (inv_retire _ _ _ _ _ _ _ _ _ _ H Hnow V)
    as (rrat' & fl' & g' & Hold & -> & Epush & Hnow' & Hz & Hview & Hfresh & _ & H').
  cbn [mbind outcome_bind fst snd].
  destruct (rat_is_range _ _ _ _ _ _ (i_rrat _ _ _ _ _ _ _ _ _ H) Hold) as [_ Hpo].
  assert (Hnew : retire_map mr it !! rob.rd it = Some (rob.new_phy_reg_id it)).
  { unfold retire_map. by rewrite V, lookup_insert_eq. }
  unfold retire_map in Hnew. rewrite V in Hnew.
  destruct (rat_is_range _ _ _ _ _ _ (i_rrat _ _ _ _ _ _ _ _ _ H') Hnew) as [_ Hpn].
  destruct (update_spec sz (phy_regfile s) (rob.old_phy_reg_id it)
    (phy_regfile.set_all 0 false 0 false true) Hr Hpo) as (f1 & E1 & R1 & L1).
  unfold phy_regfile.write. rewrite E1. cbn [mbind outcome_bind].
  unfold phy_regfile.write_age_information.
  match goal with |- context [phy_regfile.update _ ?h f1] =>
    destruct (update_spec sz f1 (rob.new_phy_reg_id it) h R1 Hpn) as (f2 & E2 & R2 & L2) end.
  rewrite E2. cbn [mbind outcome_bind]. rewrite Epush. cbn [mbind outcome_bind fst snd].
  assert (Hq : q_next (lg_queue g') = q_next (lg_queue g) ++ [rob.old_phy_reg_id it]).
  { unfold q_next. by rewrite Hview, Hfresh, app_assoc. }
  eexists _, g'. split; [reflexivity |]. split; [exact H' |]. split_and!; try done; [| by eexists |].
  2: { intros rsz C Hh. eapply (regs_hold_retire rsz (phy_regfile s) f1 f2 C mr it l);
         [exact Hh | | done | done | lia | lia | | exact L1 | exact L2 | done].
       - by apply (regs_nodup _ _ _ _ _ _ _ _ _ H).
       - intros a b Ha Hb. apply (ri_map _ _ _ _ (i_rrat _ _ _ _ _ _ _ _ _ H)) in Ha as (_ & Ha & _), Hb as (_ & Hb & _).
         congruence. }
  intros p Hp Hn. change (reg_next f2 p = reg_next (phy_regfile s) p).
  rewrite (reg_next_alter f1 f2 _ _ _ (proj1 Hpn) (proj1 Hp) L2) by (by intros _ []).
  apply (reg_next_alter _ _ _ _ _ (proj1 Hpo) (proj1 Hp) L1). intros ->. destruct Hn.
  rewrite Hq. apply elem_of_app. right. left.
Qed.

(** What is kept from [s] to [s'] when the entries [l] retire. *)
Record retired (l : list rob.item_t) (ids : list Z) s s' g g' : Prop := {
  rt_rest : same_rest s s';
  rt_values : same_values g' s s';
  rt_free : exists fr, q_next (lg_queue g') = q_next (lg_queue g) ++ fr;
  rt_window : forall W wl, window (rob.base (rob s)) W wl -> window (rob.base (rob s')) W wl;
  rt_size : fifo.size (rob.base (rob s')) = fifo.size (rob.base (rob s));
  rt_buffer : fifo.buffer (rob.base (rob s')) = fifo.buffer (rob.base (rob s));
  rt_trace : rob_retire_queue s' = rob_retire_queue s ++ zip ids l;
  rt_csr : csr_after l (csr_file s) = Ok (csr_file s');
  rt_input : decode_rename_fifo s' = decode_rename_fifo s;
  rt_out : zlen (lg_out g') = zlen (lg_out g)
}.

Lemma retired_nil s g : retired [] [] s s g g.
Proof using Type.
  split; try done; [exists []; by rewrite app_nil_r | by rewrite app_nil_r].
Qed.

Lemma csr_after_app l l' f : csr_after (l ++ l') f = (f ← csr_after l f; csr_after l' f).
Proof using Type.
  revert f. induction l as [|it l IH]; intros f; [done |]. cbn [app csr_after].
  match goal with |- context [mbind _ ?x] => destruct x as [f1| | |] end; try done.
  cbn [mbind outcome_bind]. apply IH.
Qed.

Lemma retired_trans l l' ids ids' s s1 s2 g g1 g2 : length ids = length l ->
  retired l ids s s1 g g1 -> retired l' ids' s1 s2 g1 g2 ->
  retired (l ++ l') (ids ++ ids') s s2 g g2.
Proof using Type.
  intros Hl [] []. split.
  - by eapply same_rest_trans.
  - intros p Hp Hn. rewrite rt_values1 by done. apply rt_values0; [done |].
    destruct rt_free1 as [fr E]. rewrite E in Hn. intros Hx. apply Hn. apply elem_of_app. by left.
  - destruct rt_free1 as [fr' ->], rt_free0 as [fr ->]. exists (fr ++ fr'). by rewrite app_assoc.
  - auto.
  - congruence.
  - congruence.
  - rewrite rt_trace1, rt_trace0, <- app_assoc. f_equal. symmetry. by apply zip_with_app.
  - by rewrite csr_after_app, rt_csr0.
  - congruence.
  - congruence.
Qed.

Lemma retire_csr_spec it s f : csr_after [it] (csr_file s) = Ok f ->
  exists s', retire_csr it s = Ok s' /\ csr_file s' = f /\ rob s' = rob s /\
    speculative_rat s' = speculative_rat s /\ retire_rat s' = retire_rat s /\
    phy_id_free_list s' = phy_id_free_list s /\ phy_regfile s' = phy_regfile s /\
    rob_retire_queue s' = rob_retire_queue s /\ decode_rename_fifo s' = decode_rename_fifo s /\
    same_rest s s'.
Proof using Type.
  unfold retire_csr. cbn [csr_after]. destruct (rob.csr_newvalue_valid it).
  - destruct (cycle_csrfile.write _ _ _) as [bf| | |]; cbn [mbind outcome_bind]; intros [= <-].
    eexists. split; [reflexivity |]. by split_and!.
  - cbn [mbind outcome_bind]. intros [= <-]. exists s. split; [done |]. by split_and!.
Qed.

Lemma retire_plain i id it l fb s q R g mr ms f :
  commit_inv s q R g mr ms -> q_view q = it :: l -> plain it = true ->
  csr_after [it] (csr_file s) = Ok f ->
  exists s' g', retire i id it fb s = Ok (false, true, fb, s') /\
    commit_inv s' (mk_queue (q_popped q + 1) l (q_fresh q)) R g' (retire_map mr it) ms /\
    retired [it] [id] s s' g g'.
Proof using Type.
  intros [Hrob Hren Hnow Hregs Hhold] Hq Hp Hcsr. unfold plain in Hp.
  destruct (rob.finish it), (rob.has_exception it) eqn:E1, (rob.load_queue_id_valid it) eqn:E2,
    (rob.store_buffer_id_valid it) eqn:E3, (rob.bru_op it) eqn:E4; try discriminate Hp. clear Hp.
  unfold retire. rewrite E1, E3. cbn [andb negb mbind outcome_bind].
  unfold handle_load. rewrite E2. cbn [mbind outcome_bind].
  unfold handle_store. rewrite E3. cbn [mbind outcome_bind].
  unfold retire_done, rob.pop. pose proof (pop_spec_at _ _ _ Hrob) as Hpop. rewrite Hq in Hpop.
  destruct Hpop as (f' & Epop & Hrob' & Hsz).
  change (rob (retire_queue_add id it s)) with (rob s). rewrite Epop. cbn [mbind outcome_bind fst snd].
  match goal with |- context [retire_register it ?x] => set (s0 := x) end.
  unfold q_next in Hren, Hhold. rewrite Hq in Hren, Hhold. cbn [app] in Hren, Hhold.
  destruct (retire_register_spec s0 it (l ++ q_fresh q) g mr ms Hren Hnow Hregs)
    as (s1 & g' & -> & Hren1 & Hnow1 & Hregs1 & Hrest1 & Hval1 & Hfree1 & Erob1 & Ecsr1 & Etr1 & _ & Ein1 & Hout & Hhold1).
  cbn [mbind outcome_bind].
  match goal with |- context [retire_csr it ?x] => set (s2 := x) end.
  assert (Hs2 : csr_file s2 = csr_file s1 /\ rob.base (rob s2) = rob.base (rob s1) /\
    speculative_rat s2 = speculative_rat s1 /\ retire_rat s2 = retire_rat s1 /\
    phy_id_free_list s2 = phy_id_free_list s1 /\ phy_regfile s2 = phy_regfile s1 /\
    rob_retire_queue s2 = rob_retire_queue s1 /\ decode_rename_fifo s2 = decode_rename_fifo s1 /\
    same_rest s1 s2).
  { unfold s2. destruct (rob.last_uop it); split_and!; try done; apply same_rest_refl. }
  destruct Hs2 as (C1 & C2 & C3 & C4 & C5 & C6 & C7 & C8 & C9).
  destruct (retire_csr_spec it s2 f) as (s3 & -> & D1 & D2 & D3 & D4 & D5 & D6 & D7 & D8 & D9).
  { rewrite C1, Ecsr1. exact Hcsr. }
  cbn [mbind outcome_bind]. rewrite E4. exists s3, g'. split; [done |].
  assert (Ebase : rob.base (rob s3) = f') by (rewrite D2, C2, Erob1; done).
  split.
  - split; [by rewrite Ebase | | done | by rewrite D6, C6 |].
    + by rewrite D3, C3, D4, C4, D5, C5.
    + rewrite D6, C6, Ebase, Hsz. cbn [q_popped]. rewrite Z.add_assoc. by apply Hhold1.
  - split; try done.
    + eapply same_rest_trans; [| eapply same_rest_trans; [exact C9 | exact D9]]. exact Hrest1.
    + intros p Hp Hn. rewrite D6, C6. by apply (Hval1 p).
    + intros W wl Hw. rewrite Ebase. by apply (pop_window _ _ _ _ _ Epop).
    + by rewrite Ebase.
    + rewrite Ebase. by apply (pop_buffer _ _ _ Epop).
    + rewrite D7, C7, Etr1. done.
    + rewrite D1. exact Hcsr.
    + by rewrite D8, C8, Ein1.
Qed.

(** *** The feedback *)
Definition fb_ok fb : Prop :=
  zlen (commit_feedback.committed_rob_id fb) = COMMIT_WIDTH /\
  zlen (commit_feedback.committed_rob_id_valid fb) = COMMIT_WIDTH.
Definition same_feedback fb fb' : Prop :=
  commit_feedback.idle fb' = commit_feedback.idle fb /\
  commit_feedback.flush fb' = commit_feedback.flush fb /\
  commit_feedback.has_exception fb' = commit_feedback.has_exception fb /\
  commit_feedback.jump_enable fb' = commit_feedback.jump_enable fb.
(** The slots [ids] have been reported from index [i] on, and nothing else. *)
Record noted (i : nat) (ids : list Z) fb fb' : Prop := {
  nt_ok : fb_ok fb -> fb_ok fb';
  nt_ids : forall k id, ids !! k = Some id ->
    commit_feedback.committed_rob_id fb' !! (i + k)%nat = Some id /\
    commit_feedback.committed_rob_id_valid fb' !! (i + k)%nat = Some true;
  nt_others : forall j, (j < i \/ i + length ids <= j)%nat ->
    commit_feedback.committed_rob_id fb' !! j = commit_feedback.committed_rob_id fb !! j /\
    commit_feedback.committed_rob_id_valid fb' !! j = commit_feedback.committed_rob_id_valid fb !! j;
  nt_same : same_feedback fb fb'
}.
Lemma noted_nil i fb : noted i [] fb fb.
Proof using Type. split; try done. Qed.
Lemma noted_trans i ids ids' fb fb1 fb2 :
  noted i ids fb fb1 -> noted (i + length ids) ids' fb1 fb2 -> noted i (ids ++ ids') fb fb2.
Proof using Type.
  intros [] []. split; [auto | | |].
  3: { destruct nt_same0 as (? & ? & ? & ?), nt_same1 as (? & ? & ? & ?). split_and!; congruence. }
  - intros k id Hk. apply lookup_app_Some in Hk as [Hk | [Hk1 Hk2]].
    + pose proof (lookup_lt_Some _ _ _ Hk). destruct (nt_others1 (i + k)%nat) as [-> ->]; [lia | auto].
    + replace (i + k)%nat with (i + length ids + (k - length ids))%nat by lia. auto.
  - intros j Hj. rewrite length_app in Hj. destruct (nt_others1 j) as [-> ->]; [lia |].
    apply nt_others0. lia.
Qed.

Lemma note_commit_spec (i : nat) id first next fb : fb_ok fb -> Z.of_nat i < COMMIT_WIDTH ->
  exists fb', note_commit (Z.of_nat i) id first next fb = Ok fb' /\ noted i [id] fb fb'.
Proof using Type.
  intros [H1 H2] Hi. unfold note_commit. rewrite arr_set_ok by lia. cbn [mbind outcome_bind].
  rewrite arr_set_ok by lia. cbn [mbind outcome_bind]. eexists. split; [reflexivity |].
  rewrite Nat2Z.id. unfold zlen in *. split; try done.
  - intros _. unfold fb_ok, zlen in *. cbn. by rewrite !length_insert.
  - intros [|k] x Hk; [| by destruct k]. injection Hk as ->. rewrite Nat.add_0_r. cbn.
    by rewrite !list_lookup_insert_eq by lia.
  - intros j Hj. cbn in *. by rewrite !list_lookup_insert_ne by lia.
Qed.

(** *** The loop *)
(** The slots of [l], the first of them number [n]. *)
Fixpoint slots (rsz n : Z) (l : list rob.item_t) : list Z :=
  match l with [] => [] | _ :: l => ptr rsz n :: slots rsz (n + 1) l end.
Lemma slots_length rsz n l : length (slots rsz n l) = length l.
Proof using Type. revert n. induction l; intros n; cbn; by f_equal. Qed.

Lemma slots_app rsz n l l' : slots rsz n (l ++ l') = slots rsz n l ++ slots rsz (n + zlen l) l'.
Proof using Type.
  revert n. induction l as [|x l IH]; intros n; cbn [slots app]; [by rewrite Z.add_0_r |].
  rewrite IH. do 2 f_equal. f_equal. unfold zlen. cbn [length]. lia.
Qed.

Lemma retire_from_step fuel (i : nat) first fb s q R g mr ms it l :
  commit_inv s q R g mr ms -> q_view q = it :: l -> rob.finish it = true ->
  fb_ok fb -> Z.of_nat i < COMMIT_WIDTH ->
  let id := ptr (fifo.size (rob.base (rob s))) (R + q_popped q) in
  exists fb', noted i [id] fb fb' /\
    retire_from (S fuel) (Z.of_nat i) first fb s =
      (r ← retire (Z.of_nat i) id it fb' s;
       if (r.1.1.2 : bool) then retire_from fuel (Z.of_nat (S i)) first r.1.2 r.2
       else Ok (r.1.1.1, r.1.2, r.2)).
Proof using Type.
  intros H Hq Hf Hfb Hi id. destruct (customer_front _ _ _ (ci_rob _ _ _ _ _ _ H) it l Hq) as (E1 & E2 & E3).
  cbn [retire_from]. unfold rob.get_front_id. rewrite E1.
  unfold rob.get_item. rewrite E2. cbn [mbind outcome_bind]. rewrite Hf.
  unfold rob.get_next_id. rewrite E3. cbn [mbind outcome_bind].
  match goal with |- context [note_commit _ _ _ ?n _] =>
    destruct (note_commit_spec i id first n fb Hfb Hi) as (fb' & E & Hn) end.
  unfold id in E. rewrite E. cbn [mbind outcome_bind].
  replace (Z.of_nat i + 1) with (Z.of_nat (S i)) by lia. by exists fb'.
Qed.

Lemma retire_prefix pl : forall fuel (i : nat) first fb s q R g mr ms rest f,
  commit_inv s q R g mr ms -> q_view q = pl ++ rest -> Forall (λ it, plain it = true) pl ->
  fb_ok fb -> Z.of_nat (i + length pl) <= COMMIT_WIDTH -> csr_after pl (csr_file s) = Ok f ->
  let ids := slots (fifo.size (rob.base (rob s))) (R + q_popped q) pl in
  exists fb' s' g',
    retire_from (length pl + fuel) (Z.of_nat i) first fb s =
      retire_from fuel (Z.of_nat (i + length pl)) first fb' s' /\
    commit_inv s' (mk_queue (q_popped q + zlen pl) rest (q_fresh q)) R g' (retire_maps mr pl) ms /\
    retired pl ids s s' g g' /\ noted i ids fb fb'.
Proof using Type.
  induction pl as [|it pl IH]; intros fuel i first fb s q R g mr ms rest f H Hq Hpl Hfb Hi Hcsr ids.
  { exists fb, s, g. rewrite Nat.add_0_r. split; [done |]. split_and!; [| apply retired_nil | apply noted_nil].
    change (zlen []) with 0. rewrite Z.add_0_r. destruct q. cbn in Hq. by subst. }
  apply Forall_cons in Hpl as [Hit Hpl]. change (it :: pl) with ([it] ++ pl) in Hcsr.
  rewrite csr_after_app in Hcsr. destruct (csr_after [it] (csr_file s)) as [f1| | |] eqn:Ec1; try done.
  cbn [mbind outcome_bind] in Hcsr. cbn [length] in Hi.
  assert (Hfin : rob.finish it = true).
  { unfold plain in Hit. by destruct (rob.finish it). }
  destruct (retire_from_step (length pl + fuel) i first fb s q R g mr ms it (pl ++ rest) H Hq Hfin Hfb)
    as (fb1 & Hn1 & E1); [lia |].
  destruct (retire_plain (Z.of_nat i) (ptr (fifo.size (rob.base (rob s))) (R + q_popped q)) it
    (pl ++ rest) fb1 s q R g mr ms f1 H Hq Hit Ec1) as (s1 & g1 & E2 & H1 & T1).
  change (length (it :: pl) + fuel)%nat with (S (length pl + fuel)).
  rewrite E1, E2. cbn [mbind outcome_bind fst snd].
  destruct (IH fuel (S i) first fb1 s1 _ R g1 _ ms rest f H1 eq_refl Hpl) as (fb' & s' & g' & E & H' & T & N).
  { by apply (nt_ok _ _ _ _ Hn1). }
  { lia. }
  { pose proof (rt_csr _ _ _ _ _ _ T1) as Ec. rewrite Ec1 in Ec. injection Ec as <-. done. }
  exists fb', s', g'. cbn [q_popped q_fresh] in *.
  replace (i + length (it :: pl))%nat with (S i + length pl)%nat by (cbn; lia).
  split; [exact E |]. split.
  { replace (q_popped q + zlen (it :: pl)) with (q_popped q + 1 + zlen pl)
      by (unfold zlen; cbn [length]; lia). exact H'. }
  unfold ids. cbn [slots]. rewrite (rt_size _ _ _ _ _ _ T1), Z.add_assoc in T, N.
  split; [by apply (retired_trans [it] pl [_] _ s s1 s' g g1 g') |].
  apply (noted_trans i [_] _ fb fb1 fb'); [done |]. cbn [length]. by rewrite Nat.add_1_r.
Qed.

(** The loop ends: nothing is left, or the oldest instruction has not finished,
    or the width is used up. *)
Lemma retire_from_end fuel i first fb s q R g mr ms : commit_inv s q R g mr ms ->
  match q_view q with [] => True | it :: _ => fuel = O \/ rob.finish it = false end ->
  retire_from fuel i first fb s = Ok (false, fb, s).
Proof using Type.
  intros H Hq. revert i. induction fuel as [|fuel IH]; intros i; [done |]. cbn [retire_from].
  pose proof (ci_rob _ _ _ _ _ _ H) as Hr. unfold rob.get_front_id.
  destruct (q_view q) as [|it l] eqn:Eq.
  - unfold fifo.customer_get_front_id. rewrite (customer_empty _ _ _ Hr), Eq. apply IH. done.
  - destruct Hq as [? | Hf]; [done |]. destruct (customer_front _ _ _ Hr it l Eq) as (-> & E & _).
    unfold rob.get_item. rewrite E. cbn [mbind outcome_bind]. by rewrite Hf.
Qed.

(** *** A trap *)
Definition trap_ready (f : cycle_csrfile_t) : Prop :=
  Forall (trap_csr f) [CSR_MEPC; CSR_MTVAL; CSR_MCAUSE; CSR_MTVEC].

(** The next value of the register [addr] is [v], as the register stores it. *)
Definition stored (f f' : cycle_csrfile_t) (addr v : Z) : Prop :=
  csr_next f' addr = (λ c, csr_base.filter c v) <$> csr_class f addr.

Lemma trap_csrs_spec epc cause value s : trap_ready (csr_file s) ->
  exists f, trap_csrs epc cause value s = Ok { s with csr_file := f } /\ same_now (csr_file s) f /\
    stored (csr_file s) f CSR_MEPC epc /\ stored (csr_file s) f CSR_MTVAL value /\
    stored (csr_file s) f CSR_MCAUSE cause /\
    (forall a, a <> CSR_MEPC -> a <> CSR_MTVAL -> a <> CSR_MCAUSE ->
       csr_next f a = csr_next (csr_file s) a).
Proof using Type.
  intros Ht. unfold trap_ready in Ht. apply Forall_cons in Ht as [H1 Ht].
  apply Forall_cons in Ht as [H2 Ht]. apply Forall_cons in Ht as [H3 _].
  unfold trap_csrs, csr_write_sys.
  destruct (write_sys_spec CSR_MEPC epc (csr_file s) H1) as (f1 & E1 & S1 & N1 & O1).
  rewrite E1. cbn [mbind outcome_bind]. change (csr_file { s with csr_file := f1 }) with f1.
  destruct (write_sys_spec CSR_MTVAL value f1 (trap_csr_same _ _ _ S1 H2)) as (f2 & E2 & S2 & N2 & O2).
  rewrite E2. cbn [mbind outcome_bind].
  match goal with |- context [csr_file ?x] => change (csr_file x) with f2 end.
  pose proof (same_now_trans _ _ _ S1 S2) as S12.
  destruct (write_sys_spec CSR_MCAUSE cause f2 (trap_csr_same _ _ _ S12 H3)) as (f3 & E3 & S3 & N3 & O3).
  rewrite E3. cbn [mbind outcome_bind]. exists f3. split; [done |].
  split; [by eapply same_now_trans |]. unfold stored.
  split_and!.
  - rewrite O3, O2 by done. exact N1.
  - rewrite O3 by done. rewrite N2. by rewrite (csr_class_same _ _ _ S1).
  - rewrite N3. by rewrite (csr_class_same _ _ _ S12).
  - intros a Ha Hb Hc. by rewrite O3, O2, O1.
Qed.

(** The valid bit of a mapped register is set, its value stays. *)
Lemma restore_rat_spec f r m a p : regs_ok sz f -> rat_is sz A r m -> m !! a = Some p ->
  reg_next (phy_regfile.restore_rat r f) p = (λ x, (x.1, true)) <$> reg_next f p.
Proof using Type.
  intros [Hl Hs] Hr Hm. apply (ri_map _ _ _ _ Hr) in Hm as (_ & _ & Hv).
  unfold vld in Hv. apply list_lookup_fmap_Some in Hv as (d & Hd & Hv).
  unfold reg_next, phy_regfile.restore_rat. cbn.
  rewrite lookup_zip_with, Hv. destruct (phy_regfile.regs f !! Z.to_nat p) as [x|]; [| done].
  cbn. by rewrite <- Hd.
Qed.

Lemma regs_ok_restore f r m : regs_ok sz f -> rat_is sz A r m ->
  regs_ok sz (phy_regfile.restore_rat r f).
Proof using Type.
  intros [Hl Hs] Hr. split; [| done]. pose proof (w_vld _ (ri_wf _ _ _ _ Hr)).
  pose proof (ri_num _ _ _ _ Hr). unfold zlen in *. cbn. rewrite length_zip_with. lia.
Qed.

(** What a flush leaves: nothing is in flight and the speculative map is the
    retired one.  [leaked] is a register no longer mapped nor free. *)
Record flushed (s s' : commit_t B) g g' (mr : gmap Z Z) (leaked : list Z) : Prop := {
  fl_rob : repr_at (fifo.sync (rob.base (rob s'))) (mk_queue 0 [] []) 0;
  fl_loads : load_queue s' = load_queue.flush (load_queue s);
  fl_stores : store_buffer.base (store_buffer s') = fifo.flush (store_buffer.base (store_buffer s));
  fl_cps : checkpoint_buffer s' = fifo.flush (checkpoint_buffer s);
  fl_ren : ren_inv sz A (rat.sync (speculative_rat s')) (rat.sync (retire_rat s'))
    (free_list.sync (phy_id_free_list s')) [] g' mr mr;
  fl_now : lg_now g' = O;
  fl_out : lg_out g' = leaked ++ lg_out g;
  fl_file : regs_ok sz (phy_regfile s');
  fl_hold : regs_hold (fifo.size (rob.base (rob s'))) next (phy_regfile s') 0 mr [];
  fl_regs : forall a p, mr !! a = Some p ->
    reg_next (phy_regfile s') p = (λ x, (x.1, true)) <$> reg_next (phy_regfile s) p;
  fl_retired : retired_store_buffer s' = retired_store_buffer s /\ bus_if s' = bus_if s /\
    is_waiting_ack s' = is_waiting_ack s
}.

Lemma flush_all_spec s q R g mr ms rptr rstage fl g' leaked : commit_inv s q R g mr ms ->
  free_list.restore rptr rstage (phy_id_free_list s) = Ok fl ->
  ren_inv sz A (rat.sync (rat.load (retire_rat s) (speculative_rat s))) (rat.sync (retire_rat s))
    (free_list.sync fl) [] g' mr mr -> lg_now g' = O -> lg_out g' = leaked ++ lg_out g ->
  exists s', flush_all rptr rstage s = Ok s' /\ flushed s s' g g' mr leaked /\
    csr_file s' = csr_file s /\ rob_retire_queue s' = rob_retire_queue s.
Proof using Type.
  intros H E Hren Hnow Hout. unfold flush_all. rewrite E. cbn [mbind outcome_bind].
  eexists. split; [reflexivity |]. split; [| done]. split; try done.
  - pose proof (ci_rob _ _ _ _ _ _ H) as Hr.
    apply (sync_pending (fifo.flush (rob.base (rob s))) []). apply reset_pending; apply Hr.
  - apply (regs_ok_restore _ _ mr); [apply H | apply (i_rrat _ _ _ _ _ _ _ _ _ (ci_ren _ _ _ _ _ _ H))].
  - destruct (ci_regs _ _ _ _ _ _ H) as [Hsz _].
    apply (regs_hold_flush _ sz A _ _ _ _ _ _ (ci_hold _ _ _ _ _ _ H)); [| exact Hsz].
    apply (i_rrat _ _ _ _ _ _ _ _ _ (ci_ren _ _ _ _ _ _ H)).
  - intros a p Hm.
    apply (restore_rat_spec _ _ mr a p (ci_regs _ _ _ _ _ _ H) (i_rrat _ _ _ _ _ _ _ _ _ (ci_ren _ _ _ _ _ _ H)) Hm).
Qed.

Definition new_register it : list Z :=
  if rob.old_phy_reg_id_valid it then [rob.new_phy_reg_id it] else [].

Lemma take_exception_spec id it l cause value fb s q R g mr ms :
  commit_inv s q R g mr ms -> q_view q = it :: l -> trap_ready (csr_file s) ->
  exists tv s' g', take_exception id it cause value fb s = Ok (commit_feedback.set_trap (cycle_csr.read (cycle_csrfile.csr tv)) fb, s') /\
    cycle_csrfile.csr_map_table (csr_file s) !! CSR_MTVEC = Some tv /\
    flushed s s' g g' mr (new_register it) /\
    stored (csr_file s) (csr_file s') CSR_MEPC (rob.pc it) /\
    stored (csr_file s) (csr_file s') CSR_MTVAL value /\
    stored (csr_file s) (csr_file s') CSR_MCAUSE cause /\
    rob_retire_queue s' = rob_retire_queue s ++ [(id, it)].
Proof using Type.
  intros H Hq Ht. unfold take_exception.
  change (csr_file s) with (csr_file (retire_queue_add id it s)) in Ht.
  destruct (trap_csrs_spec (rob.pc it) cause value (retire_queue_add id it s) Ht)
    as (f & -> & Hsame & Hepc & Hval & Hcause & Hoth).
  cbn [mbind outcome_bind]. change (csr_file { retire_queue_add id it s with csr_file := f }) with f.
  assert (Hv : trap_csr (csr_file s) CSR_MTVEC).
  { unfold trap_ready in Ht. do 3 apply Forall_cons in Ht as [_ Ht]. by apply Forall_cons in Ht as [? _]. }
  destruct (read_sys_spec CSR_MTVEC f (trap_csr_same _ _ _ Hsame Hv)) as (tv' & Etv & ->).
  cbn [mbind outcome_bind]. pose proof (Hsame CSR_MTVEC) as Hm. rewrite Etv in Hm.
  change (csr_file (retire_queue_add id it s)) with (csr_file s) in *.
  destruct (cycle_csrfile.csr_map_table (csr_file s) !! CSR_MTVEC) as [tv|] eqn:Etv0; [| done].
  cbn in Hm. injection Hm as _ _ ->.
  set (s1 := { retire_queue_add id it s with csr_file := f }).
  assert (H1 : commit_inv s1 q R g mr ms) by (destruct H; by split).
  pose proof (ci_ren _ _ _ _ _ _ H) as Hren. unfold q_next in Hren. rewrite Hq in Hren. cbn [app] in Hren.
  pose proof (ci_now _ _ _ _ _ _ H) as Hnow.
  assert (Hfl : exists fl g', free_list.restore (rob.new_phy_id_free_list_rptr it)
      (rob.new_phy_id_free_list_rstage it) (phy_id_free_list s1) = Ok fl /\
    ren_inv sz A (rat.sync (rat.load (retire_rat s1) (speculative_rat s1))) (rat.sync (retire_rat s1))
      (free_list.sync fl) [] g' mr mr /\ lg_now g' = O /\ lg_out g' = new_register it ++ lg_out g).
  { unfold new_register. destruct (rob.old_phy_reg_id_valid it) eqn:V.
    - destruct (inv_flush_behind _ _ _ _ _ _ _ _ _ Hren Hnow it _ eq_refl V) as (fl & g' & E & Hi & Ho & Hn).
      exists fl, g'. split; [exact E |]. by split_and!.
    - destruct (inv_flush _ _ _ _ _ _ _ _ _ Hren Hnow) as (fl & g' & E & Hi & Ho & Hn).
      exists fl, g'. split; [| by split_and!]. destruct (head_ptrs _ _ _ _ _ _ _ _ _ _ Hren) as [_ Hp].
      rewrite V, Z.add_0_r in Hp. rewrite <- Hp in E. exact E. }
  destruct Hfl as (fl & g' & Efl & Hi & Hn & Ho).
  destruct (flush_all_spec s1 q R g mr ms _ _ fl g' (new_register it) H1 Efl Hi Hn Ho) as (s2 & -> & Hf & Ec & Et).
  cbn [mbind outcome_bind]. exists tv, (count_commit s2), g'. split; [done |]. split; [done |].
  change (csr_file (count_commit s2)) with (csr_file s2). rewrite Ec.
  split; [destruct Hf; by split |]. split_and!; try done.
Qed.

(** *** Results arriving *)
Definition result_id (p : execute_wb.pack_t) : Z := readreg_execute.rob_id (execute_wb.base p).
(** The place in the window of the slot [id]. *)
Definition place (rsz R id : Z) : Z := (id - R) mod rsz.
Definition for_window (rsz R n : Z) (p : execute_wb.pack_t) : Prop :=
  execute_wb.enable p = true -> 0 <= result_id p < rsz /\ place rsz R (result_id p) < n.

(** Each result is merged with the entry as it was when the cycle began. *)
Definition deliver (rsz R : Z) (olds : list rob.item_t) (news : list rob.item_t) (p : execute_wb.pack_t) :
  list rob.item_t :=
  let k := Z.to_nat (place rsz R (result_id p)) in
  if execute_wb.enable p
  then match olds !! k with Some x => <[k := record_result p x]> news | None => news end
  else news.

Lemma place_ptr rsz R id : 0 < rsz -> 0 <= id < rsz -> ptr rsz (R + place rsz R id) = id.
Proof using Type.
  intros Hs Hi. unfold ptr, place. rewrite Z.add_mod_idemp_r by lia.
  replace (R + (id - R)) with id by lia. by apply Z.mod_small.
Qed.

Definition old_items (f : fifo_t rob.item_t) (R : Z) (olds : list rob.item_t) : Prop :=
  forall k x, olds !! k = Some x -> exists d, fifo.buffer f !! Z.to_nat (ptr (fifo.size f) (R + Z.of_nat k)) = Some d /\
    dff.get d = x.

Lemma old_items_repr f R l : repr_at f (mk_queue 0 l []) R -> old_items f R l.
Proof using Type.
  intros H k x Hk. destruct (r_view _ _ _ H k x Hk) as (d & Hd & Hx & _).
  cbn [q_popped] in Hd. rewrite Z.add_0_r in Hd. by exists d.
Qed.

Lemma handle_input_spec ports : forall r R olds news,
  window (rob.base r) R news -> old_items (rob.base r) R olds -> length olds = length news ->
  Forall (λ p, for_window (fifo.size (rob.base r)) R (zlen olds) (port.get p)) ports ->
  exists r', handle_input ports r = Ok r' /\ fifo.size (rob.base r') = fifo.size (rob.base r) /\
    fifo.rptr (rob.base r') = fifo.rptr (rob.base r) /\
    fifo.rstage (rob.base r') = fifo.rstage (rob.base r) /\
    window (rob.base r') R (foldl (deliver (fifo.size (rob.base r)) R olds) news (port.get <$> ports)).
Proof using Type.
  induction ports as [|p ports IH]; intros r R olds news Hw Ho Hl Hp.
  { exists r. by split_and!. }
  apply Forall_cons in Hp as [Hp Hps]. cbn [handle_input fmap list_fmap foldl].
  destruct (window_bounds _ _ _ Hw) as [Hs Hb]. unfold deliver at 2.
  destruct (execute_wb.enable (port.get p)) eqn:En.
  2: { cbn [mbind outcome_bind]. by apply IH. }
  specialize (Hp En). destruct Hp as [Hid Hk]. fold (result_id (port.get p)).
  set (k := Z.to_nat (place (fifo.size (rob.base r)) R (result_id (port.get p)))).
  assert (Hpl : 0 <= place (fifo.size (rob.base r)) R (result_id (port.get p))) by (by apply Z.mod_pos_bound).
  assert (Eid : ptr (fifo.size (rob.base r)) (R + Z.of_nat k) = result_id (port.get p)).
  { unfold k. rewrite Z2Nat.id by done. by apply place_ptr. }
  assert (Hkl : (k < length olds)%nat) by (unfold k, zlen in *; lia).
  destruct (lookup_lt_is_Some_2 _ _ Hkl) as [x Hx]. rewrite Hx.
  destruct (Ho k x Hx) as (d & Hd & Hg). rewrite Eid in Hd.
  unfold rob.get_item, fifo.buffer_get.
  rewrite (proj2 (arr_get_Some _ _ _) (conj (proj1 Hid) Hd)).
  cbn [mbind outcome_bind]. rewrite Hg. unfold rob.set_item.
  destruct (window_set _ _ _ Hw k (record_result (port.get p) x)) as (f & Ef & Hw' & Hsz); [lia |].
  rewrite Eid in Ef. rewrite Ef. cbn [mbind outcome_bind].
  unfold fifo.set_item in Ef. destruct (buffer_set_ok (rob.base r) (result_id (port.get p)) (record_result (port.get p) x))
    as (d2 & Hd2 & Es); [rewrite (w_len _ _ _ Hw); lia |].
  rewrite Ef in Es. injection Es as Es.
  destruct (IH (rob.set_base f r) R olds _ Hw') as (r' & E & Hsz' & Hp1 & Hp2 & Hw2).
  - intros j y Hj. change (rob.base (rob.set_base f r)) with f. rewrite Hsz.
    destruct (Ho j y Hj) as (d' & Hd' & Hg').
    rewrite Es. cbn [fifo.buffer with_buffer].
    destruct (decide (Z.to_nat (ptr (fifo.size (rob.base r)) (R + Z.of_nat j)) = Z.to_nat (result_id (port.get p))))
      as [He | He].
    + rewrite He in *. rewrite list_lookup_insert_eq by (apply lookup_lt_Some in Hd2; done).
      eexists. split; [done |]. rewrite Hd2 in Hd'. injection Hd' as ->. done.
    + rewrite list_lookup_insert_ne by done. by eexists.
  - by rewrite length_insert.
  - change (rob.base (rob.set_base f r)) with f. by rewrite Hsz.
  - exists r'. change (rob.base (rob.set_base f r)) with f in *. rewrite Hsz in *.
    split_and!; try done; by rewrite ?Hp1, ?Hp2, Es.
Qed.

Lemma record_result_renaming p it : same_renaming it (record_result p it).
Proof using Type. destruct it as [? ? ? ? ? ? ? ? ? [|]]; by split_and!. Qed.

Lemma deliver_renaming rsz R olds news ports : Forall2 same_renaming olds news ->
  Forall2 same_renaming olds (foldl (deliver rsz R olds) news ports).
Proof using Type.
  revert news. induction ports as [|p ports IH]; intros news H; [done |]. cbn [foldl]. apply IH.
  unfold deliver. destruct (execute_wb.enable p); [| done].
  set (k := Z.to_nat _). destruct (olds !! k) as [x|] eqn:Ex; [| done].
  rewrite <- (list_insert_id olds k x Ex). apply Forall2_insert; [done |]. apply record_result_renaming.
Qed.

(** *** The clock *)
(** [dff_base::sync_all] on the parts the renaming invariant speaks of. *)
Definition clock s : commit_t B :=
  { s with rob ::= rob.sync; speculative_rat ::= rat.sync; retire_rat ::= rat.sync;
           phy_id_free_list ::= free_list.sync; phy_regfile ::= phy_regfile.sync }.

Lemma regs_ok_sync f : regs_ok sz f -> regs_ok sz (phy_regfile.sync f).
Proof using Type. intros [Hl Hs]. split; [| done]. unfold zlen in *. cbn. by rewrite length_fmap. Qed.

Lemma window_repr {T} (f : fifo_t T) R l : window (fifo.sync f) R l ->
  repr_at (fifo.sync f) (mk_queue 0 l []) R.
Proof using Type.
  intros H. pose proof (w_items _ _ _ H) as Hitems.
  split; unfold q_next; cbn [q_popped q_view q_fresh]; rewrite ?app_nil_r, ?Z.add_0_r; try apply H; try done.
  intros k x Hk. destruct (Hitems k x Hk) as (d & Hd & Hx). exists d. split; [done |].
  cbn in Hd. apply list_lookup_fmap_Some in Hd as (d' & -> & _). by split.
Qed.

Lemma flushed_inv s s' g g' mr leaked : flushed s s' g g' mr leaked ->
  commit_inv (clock s') (mk_queue 0 [] []) 0 g' mr mr.
Proof using Type. intros []. split; try done; [by apply regs_ok_sync | by apply regs_hold_clock]. Qed.

(** *** The stage *)
Definition no_interrupt s : Prop :=
  cycle_interrupt.get_cause (interrupt_interface s) (csr_file s) = Ok None.
Definition started (rsz R : Z) : commit_feedback_t :=
  { commit_feedback.init with commit_feedback.next_handle_rob_id := ptr rsz R;
                              commit_feedback.next_handle_rob_id_valid := true }.

Lemma run_begin s live R g mr ms : commit_inv s (mk_queue 0 live []) R g mr ms -> live <> [] ->
  no_interrupt s ->
  run s = (x ← retire_from (Z.to_nat COMMIT_WIDTH) 0 (ptr (fifo.size (rob.base (rob s))) R)
                 (started (fifo.size (rob.base (rob s))) R) s;
           let '(nf, fb, s) := x in
           if negb nf then r ← handle_input (execute_commit_port s) (rob s); Ok (fb, { s with rob := r })
           else Ok (fb, s)).
Proof using Type.
  intros H Hl Hno. unfold run, run_interrupt. rewrite Hno. cbn [mbind outcome_bind].
  destruct live as [|it l]; [done |].
  destruct (customer_front _ _ _ (ci_rob _ _ _ _ _ _ H) it l eq_refl) as (E & _).
  cbn [q_popped] in E. rewrite Z.add_0_r in E. unfold rob.get_front_id. rewrite E. done.
Qed.

Lemma run_plain s pl rest R g mr ms f :
  commit_inv s (mk_queue 0 (pl ++ rest) []) R g mr ms -> pl ++ rest <> [] -> no_interrupt s ->
  Forall (λ it, plain it = true) pl -> zlen pl <= COMMIT_WIDTH ->
  match rest with [] => True | it :: _ => zlen pl = COMMIT_WIDTH \/ rob.finish it = false end ->
  csr_after pl (csr_file s) = Ok f ->
  let rsz := fifo.size (rob.base (rob s)) in
  Forall (λ p, for_window rsz R (zlen (pl ++ rest)) (port.get p)) (execute_commit_port s) ->
  let rest' := drop (length pl) (foldl (deliver rsz R (pl ++ rest)) (pl ++ rest)
                                   (port.get <$> execute_commit_port s)) in
  exists fb s' g', run s = Ok (fb, s') /\
    commit_inv (clock s') (mk_queue 0 rest' []) (R + zlen pl) (tick g') (retire_maps mr pl) ms /\
    Forall2 same_renaming rest rest' /\ noted 0 (slots rsz R pl) (started rsz R) fb /\
    csr_file s' = f /\ rob_retire_queue s' = rob_retire_queue s ++ zip (slots rsz R pl) pl /\
    same_rest s s' /\ zlen (lg_out g') = zlen (lg_out g) /\
    forall a p, retire_maps mr pl !! a = Some p ->
      reg_next (phy_regfile s') p = reg_next (phy_regfile s) p.
Proof using Type.
  intros H Hl Hno Hpl Hlen Hrest Hcsr rsz Hports rest'. rewrite (run_begin _ _ _ _ _ _ H Hl Hno).
  fold rsz. destruct (retire_prefix pl (Z.to_nat COMMIT_WIDTH - length pl) 0 (ptr rsz R) (started rsz R)
    s _ R g mr ms rest f H eq_refl Hpl) as (fb & s1 & g1 & E & H1 & T & N); [done | unfold zlen in *; lia | done |].
  replace (length pl + (Z.to_nat COMMIT_WIDTH - length pl))%nat with (Z.to_nat COMMIT_WIDTH) in E
    by (unfold zlen in *; lia).
  change (Z.of_nat 0) with 0 in E. rewrite E.
  rewrite (retire_from_end _ _ _ _ _ _ _ _ _ _ H1).
  2: { cbn [q_view]. destruct rest as [|it rest]; [done |].
       destruct Hrest as [Hw | Hf]; [left | by right]. unfold zlen in *. lia. }
  cbn [mbind outcome_bind negb]. cbn [q_popped q_fresh] in *. rewrite Z.add_0_l, Z.add_0_r in *.
  fold rsz in T, N.
  pose proof (repr_window _ _ _ (ci_rob _ _ _ _ _ _ H) eq_refl) as Hw.
  unfold q_next in Hw. cbn [q_view q_fresh] in Hw. rewrite app_nil_r in Hw.
  pose proof (rt_size _ _ _ _ _ _ T) as Hsz. fold rsz in Hsz.
  pose proof (rt_rest _ _ _ _ _ _ T) as (_ & _ & _ & _ & _ & _ & Eports & _).
  destruct (handle_input_spec (execute_commit_port s1) (rob s1) R (pl ++ rest) (pl ++ rest))
    as (r & Er & Hrsz & Hp1 & Hp2 & Hwr).
  { by apply (rt_window _ _ _ _ _ _ T). }
  { unfold old_items. rewrite Hsz, (rt_buffer _ _ _ _ _ _ T).
    apply (old_items_repr _ _ _ (ci_rob _ _ _ _ _ _ H)). }
  { done. }
  { by rewrite Hsz, Eports. }
  rewrite Er. cbn [mbind outcome_bind].
  eexists fb, _, g1. split; [reflexivity |].
  rewrite Hsz, Eports in Hwr.
  assert (Hsame : Forall2 same_renaming rest rest').
  { unfold rest'. rewrite <- (drop_app_length pl rest) at 1. apply Forall2_drop, deliver_renaming.
    apply Forall_Forall2_diag, Forall_true. apply same_renaming_refl. }
  assert (Hlive : zlen (foldl (deliver rsz R (pl ++ rest)) (pl ++ rest)
    (port.get <$> execute_commit_port s)) = zlen pl + zlen rest).
  { rewrite <- zlen_app. unfold zlen. f_equal. symmetry. apply (Forall2_length same_renaming).
    apply deliver_renaming, Forall_Forall2_diag, Forall_true. apply same_renaming_refl. }
  pose proof (r_rptr_new _ _ _ (ci_rob _ _ _ _ _ _ H1)) as [P1 P2]. cbn [q_popped] in P1, P2.
  split_and!.
  - split.
    + change (rob.base (rob (clock _))) with (fifo.sync (rob.base r)). apply window_repr.
      unfold rest'. replace (length pl) with (Z.to_nat (zlen pl)) by (unfold zlen; lia).
      apply window_sync; [done | unfold zlen in *; lia | |].
      * by rewrite Hp1, Hrsz.
      * by rewrite Hp2, Hrsz.
    + unfold q_next. cbn [q_view q_fresh]. rewrite app_nil_r. apply inv_tick.
      apply (inv_same _ _ _ _ _ rest); [| done].
      pose proof (ci_ren _ _ _ _ _ _ H1) as Hr1. unfold q_next in Hr1. cbn in Hr1. by rewrite app_nil_r in Hr1.
    + done.
    + apply regs_ok_sync, H1.
    + change (rob.base (rob (clock _))) with (fifo.sync (rob.base r)). cbn [q_popped].
      rewrite Z.add_0_r. unfold q_next. cbn [q_view q_fresh]. rewrite app_nil_r.
      change (fifo.size (fifo.sync (rob.base r))) with (fifo.size (rob.base r)). rewrite Hrsz.
      apply regs_hold_clock, (regs_hold_same _ _ _ _ _ rest); [done |].
      pose proof (ci_hold _ _ _ _ _ _ H1) as Hh1. unfold q_next in Hh1. cbn in Hh1.
      by rewrite app_nil_r in Hh1.
  - done.
  - exact N.
  - pose proof (rt_csr _ _ _ _ _ _ T) as Ec. rewrite Hcsr in Ec. by injection Ec.
  - apply T.
  - apply T.
  - apply T.
  - intros a p Hm. change (reg_next (phy_regfile s1) p = reg_next (phy_regfile s) p).
    pose proof (ci_ren _ _ _ _ _ _ H1) as Hr1.
    apply (rt_values _ _ _ _ _ _ T).
    + by apply (rat_is_range _ _ _ _ _ _ (i_rrat _ _ _ _ _ _ _ _ _ Hr1) Hm).
    + intros Hf. by destruct (free_unmapped _ _ _ _ _ _ _ _ _ Hr1 p a Hf).
Qed.

Lemma csr_after_same l f f' : csr_after l f = Ok f' -> same_now f f'.
Proof using Type.
  revert f. induction l as [|it l IH]; intros f; cbn [csr_after]; [by intros [= <-] |].
  destruct (rob.csr_newvalue_valid it); [| apply IH].
  destruct (cycle_csrfile.write _ _ f) as [[b f1]| | |] eqn:E; cbn [mbind outcome_bind]; try done.
  intros H. apply (same_now_trans f f1); [by eapply write_same | by apply IH].
Qed.

Lemma trap_ready_same f f' : same_now f f' -> trap_ready f -> trap_ready f'.
Proof using Type.
  intros Hs Hf. eapply Forall_impl; [exact Hf |]. intros a. by apply trap_csr_same.
Qed.

(** The address of the handler. *)
Definition handler (f : cycle_csrfile_t) : option Z :=
  (λ c, cycle_csr.read (cycle_csrfile.csr c)) <$> cycle_csrfile.csr_map_table f !! CSR_MTVEC.
Lemma handler_same f f' : same_now f f' -> handler f' = handler f.
Proof using Type.
  intros H. pose proof (H CSR_MTVEC) as Ha. unfold handler.
  destruct (cycle_csrfile.csr_map_table f' !! CSR_MTVEC), (cycle_csrfile.csr_map_table f !! CSR_MTVEC);
    try done. cbn in *. by injection Ha as _ _ ->.
Qed.

Lemma commit_exception s pl e rest R g mr ms f :
  commit_inv s (mk_queue 0 (pl ++ e :: rest) []) R g mr ms -> no_interrupt s ->
  Forall (λ it, plain it = true) pl -> zlen pl < COMMIT_WIDTH ->
  rob.finish e = true -> rob.has_exception e = true ->
  csr_after pl (csr_file s) = Ok f -> trap_ready (csr_file s) ->
  let rsz := fifo.size (rob.base (rob s)) in
  exists fb s' g', run s = Ok (fb, s') /\
    commit_inv (clock s') (mk_queue 0 [] []) 0 g' (retire_maps mr pl) (retire_maps mr pl) /\
    commit_feedback.flush fb = true /\ commit_feedback.has_exception fb = true /\
    handler (csr_file s) = Some (commit_feedback.exception_pc fb) /\
    stored f (csr_file s') CSR_MEPC (rob.pc e) /\
    stored f (csr_file s') CSR_MTVAL (rob.exception_value e) /\
    stored f (csr_file s') CSR_MCAUSE (riscv_exception.to_uint32 (rob.exception_id e)) /\
    rob_retire_queue s' = rob_retire_queue s ++ zip (slots rsz R (pl ++ [e])) (pl ++ [e]) /\
    load_queue s' = load_queue.flush (load_queue s) /\
    store_buffer.base (store_buffer s') = fifo.flush (store_buffer.base (store_buffer s)) /\
    retired_store_buffer s' = retired_store_buffer s /\ bus_if s' = bus_if s /\
    zlen (lg_out g') = zlen (lg_out g) + zlen (new_register e) /\
    forall a p, retire_maps mr pl !! a = Some p ->
      reg_next (phy_regfile s') p = (λ x, (x.1, true)) <$> reg_next (phy_regfile s) p.
Proof using Type.
  intros H Hno Hpl Hlen Hfin Hexc Hcsr Ht rsz.
  rewrite (run_begin _ _ _ _ _ _ H) by (done || by destruct pl). fold rsz.
  destruct (retire_prefix pl (S (Z.to_nat COMMIT_WIDTH - length pl - 1)) 0 (ptr rsz R) (started rsz R)
    s _ R g mr ms (e :: rest) f H eq_refl Hpl) as (fb & s1 & g1 & E & H1 & T & N);
    [done | unfold zlen in *; lia | done |].
  replace (length pl + S (Z.to_nat COMMIT_WIDTH - length pl - 1))%nat with (Z.to_nat COMMIT_WIDTH) in E
    by (unfold zlen in *; lia).
  change (Z.of_nat 0) with 0 in E. rewrite E. cbn [q_popped q_fresh] in *.
  rewrite Z.add_0_l, Z.add_0_r in *. fold rsz in T, N.
  pose proof (rt_size _ _ _ _ _ _ T) as Hsz. fold rsz in Hsz.
  pose proof (rt_csr _ _ _ _ _ _ T) as Ec. rewrite Hcsr in Ec. injection Ec as Ec.
  pose proof (csr_after_same _ _ _ Hcsr) as Hsame.
  destruct (retire_from_step (Z.to_nat COMMIT_WIDTH - length pl - 1) (0 + length pl) (ptr rsz R) fb s1 _ R g1 _ ms
    e rest H1 eq_refl Hfin) as (fb1 & N1 & E1); [by apply (nt_ok _ _ _ _ N) | unfold zlen in *; lia |].
  rewrite E1. cbn [q_popped] in *. rewrite Hsz in *. unfold retire. rewrite Hexc.
  destruct (take_exception_spec (ptr rsz (R + zlen pl)) e rest (riscv_exception.to_uint32 (rob.exception_id e))
    (rob.exception_value e) fb1 s1 _ R g1 _ ms H1 eq_refl) as (tv & s2 & g2 & E2 & Etv & F & C1 & C2 & C3 & Tr).
  { rewrite <- Ec. by eapply trap_ready_same. }
  rewrite E2. cbn [mbind outcome_bind fst snd negb].
  eexists _, s2, g2. split; [reflexivity |]. split; [by eapply flushed_inv |].
  rewrite <- Ec in C1, C2, C3, Etv.
  assert (Hh : handler (csr_file s) = Some (cycle_csr.read (cycle_csrfile.csr tv))).
  { rewrite <- (handler_same _ _ Hsame). unfold handler. by rewrite Etv. }
  pose proof (rt_rest _ _ _ _ _ _ T) as (L1 & L2 & L3 & L4 & _).
  pose proof (fl_retired _ _ _ _ _ _ F) as (L5 & L6 & _).
  split_and!; try done.
  - rewrite Tr, (rt_trace _ _ _ _ _ _ T), <- app_assoc. f_equal.
    rewrite slots_app, zip_with_app by apply slots_length. done.
  - by rewrite (fl_loads _ _ _ _ _ _ F), L1.
  - by rewrite (fl_stores _ _ _ _ _ _ F), L2.
  - by rewrite L5.
  - by rewrite L6.
  - rewrite (fl_out _ _ _ _ _ _ F), zlen_app, (rt_out _ _ _ _ _ _ T). lia.
  - intros a p Hm. rewrite (fl_regs _ _ _ _ _ _ F a p Hm). f_equal.
    pose proof (ci_ren _ _ _ _ _ _ H1) as Hr1. apply (rt_values _ _ _ _ _ _ T).
    + by apply (rat_is_range _ _ _ _ _ _ (i_rrat _ _ _ _ _ _ _ _ _ Hr1) Hm).
    + intros Hf. by destruct (free_unmapped _ _ _ _ _ _ _ _ _ Hr1 p a Hf).
Qed.
End stage.
