(* ===== verification/PredictProps.v ===== *)
(** * Properties of the branch predictors and the return address stack *)

From S2P Require Import Prelude Word Ops IsaDecode Dff Fifo CycleDecode CyclePack CycleCsr.
From S2P Require Import CycleExec Predict PredictSpec Ras RasSpec Rob CycleCommit.

Lemma ok_head {T} (x y : T) l l' : Ok (x :: l) = Ok (y :: l') -> x = y.
Proof. by intros [= -> _]. Qed.

(** ** A conditional branch in the pipeline *)
Section branch.
Context {B C : Type} (f2 : fetch2_decode.pack_t B C) (u : decode_rename.pack_t) (l : list decode_rename.pack_t).

Definition conditional (o : bru_op_t) : bool :=
  match o with
  | bru_op.beq | bru_op.bne | bru_op.blt | bru_op.bge | bru_op.bltu | bru_op.bgeu => true
  | _ => false
  end.

Lemma decode_branch :
  fetch2_decode.enable f2 = true -> decode.op_info f2 = Ok (u :: l) ->
  fields.opcode (fields.of_word (fetch2_decode.value f2)) = 0x63 -> decode_rename.valid u = true ->
  decode_rename.op_unit u = cop_unit.bru /\ decode_rename.pc u = fetch2_decode.pc f2 /\
  decode_rename.enable u = true /\
  (exists o, decode_rename.sub_op u = sub_bru_op o /\ conditional o = true) /\
  sign_extend (fields.imm_b (fields.of_word (fetch2_decode.value f2))) 13 = Ok (decode_rename.imm u).
Proof using Type.
  intros He Hd Ho Hv. unfold decode.op_info in Hd. rewrite He in Hd.
  unfold decode.decode_pack in Hd. set (b := decode.prepare _ _ _) in Hd.
  assert (Hpc : decode_rename.pc b = fetch2_decode.pc f2) by done. clearbody b.
  unfold decode.switch_opcode in Hd. cbv zeta in Hd. rewrite Ho in Hd.
  unfold decode.case_branch in Hd. cbn [Z.eqb Pos.eqb] in Hd.
  destruct (sign_extend _ _) as [i| | |] eqn:Ei; cbn [mbind outcome_bind] in Hd; try discriminate Hd.
  apply ok_head in Hd. destruct b as [? ? v]. cbn in Hpc. subst u.
  generalize dependent (fields.funct3 (fields.of_word (fetch2_decode.value f2))). intros c Hv.
  repeat match type of Hv with
  | context [if c =? ?y then _ else _] => destruct (c =? y)
  end; destruct v; cbn in Hv; try discriminate Hv; split_and!; try done; by eexists.
Qed.

(** The branch unit's outcome is one of the two directions. *)
Lemma branch_direction csr r w :
  readreg_execute.uop r = u -> decode_rename.op_unit u = cop_unit.bru ->
  (exists o, decode_rename.sub_op u = sub_bru_op o /\ conditional o = true) ->
  decode_rename.enable u = true ->
  sign_extend (fields.imm_b (fields.of_word (fetch2_decode.value f2))) 13 = Ok (decode_rename.imm u) ->
  decode_rename.pc u = fetch2_decode.pc f2 -> bru.compute csr r = Ok w ->
  direction (fetch2_decode.pc f2) (fetch2_decode.value f2) (execute_wb.bru_jump w) (execute_wb.bru_next_pc w).
Proof using Type.
  intros Hu Hop (o & Hso & Hc) He Hi Hpc Hw.
  destruct (branch_target_ok (fetch2_decode.pc f2) (fetch2_decode.value f2)) as (i & Ei & Et).
  rewrite Hi in Ei. injection Ei as Ei. unfold direction. eexists. split; [exact Et |].
  unfold bru.compute in Hw. rewrite Hu in Hw.
  assert (Hen : readreg_execute.enable r = true) by (unfold readreg_execute.enable; by rewrite Hu).
  rewrite Hen in Hw. destruct (unit_stage.check_valid_unit _ _) as [[]| | |]; try discriminate Hw.
  rewrite Hso in Hw. cbn [mbind outcome_bind csub_op.get_bru_op] in Hw. subst i. rewrite <- Hpc.
  unfold bru.result in Hw.
  destruct o; try discriminate Hc; cbn [mbind outcome_bind] in Hw; injection Hw as <-;
    match goal with |- context [if negb ?b then _ else _] => destruct b end; done.
Qed.
End branch.

(** The entry of the reorder buffer of a branch that executed with the result
    [w] and was predicted to go to [n], with [j] for "taken". *)
Definition branch_entry (w : execute_wb.pack_t) (j : bool) (n : Z) (it : rob.item_t) : Prop :=
  rob.bru_jump it = execute_wb.bru_jump w /\ rob.bru_next_pc it = execute_wb.bru_next_pc w /\
  bp_info.jump (rob.branch_predictor_info_pack it) = j /\
  bp_info.next_pc (rob.branch_predictor_info_pack it) = n.

Lemma directions_agree pc inst w j n it :
  direction pc inst (execute_wb.bru_jump w) (execute_wb.bru_next_pc w) -> direction pc inst j n ->
  branch_entry w j n it ->
  commit.right_direction_wrong_target it = false /\
  commit.right_prediction it = eqb (execute_wb.bru_jump w) j.
Proof.
  intros (t & Et & En) (t' & Et' & En') (E1 & E2 & E3 & E4). rewrite Et in Et'. injection Et' as <-.
  unfold commit.right_direction_wrong_target, commit.right_prediction. rewrite E1, E2, E3, E4, En, En'.
  destruct (execute_wb.bru_jump w), j; cbn [eqb andb]; by rewrite ?Z.eqb_refl.
Qed.

(** ** C24
    A conditional branch predicted by the bi-modal predictor of fetch1 or the
    bi-mode predictor of fetch2, decoded by the decode stage and executed by the
    branch unit: prediction and execution compute the same target, so that at
    commit the prediction is right exactly when the direction is, and the case
    "right direction, wrong target", on which the commit stage aborts, does
    not arise. *)
Theorem branch_prediction_target {B C} (f2 : fetch2_decode.pack_t B C) u l r csr w port a b :
  fetch2_decode.enable f2 = true -> decode.op_info f2 = Ok (u :: l) ->
  fields.opcode (fields.of_word (fetch2_decode.value f2)) = 0x63 -> decode_rename.valid u = true ->
  readreg_execute.uop r = u -> bru.compute csr r = Ok w ->
  0 <= port < FETCH_WIDTH -> bi_modal_spec.wf a -> bi_mode_spec.wf b ->
  let pc := fetch2_decode.pc f2 in
  let inst := fetch2_decode.value f2 in
  exists a' b' ja na jb nb,
    bi_modal.predict port pc inst a = Ok a' /\ bi_modal.is_jump port a' = Ok ja /\
    bi_modal.get_next_pc port a' = Ok na /\
    bi_mode.predict port pc inst b = Ok b' /\ bi_mode.is_jump port (bi_mode.clock b') = Ok jb /\
    bi_mode.get_next_pc port (bi_mode.clock b') = Ok nb /\
    forall j n it, (j = ja /\ n = na) \/ (j = jb /\ n = nb) -> branch_entry w j n it ->
      commit.right_direction_wrong_target it = false /\
      commit.right_prediction it = eqb (execute_wb.bru_jump w) j.
Proof.
  intros He Hd Ho Hv Hu Hw Hp Ha Hb pc inst.
  destruct (decode_branch f2 u l He Hd Ho Hv) as (Hop & Hpc & Hen & Hso & Hi).
  pose proof (branch_direction f2 u csr r w Hu Hop Hso Hen Hi Hpc Hw) as Hdir.
  destruct (bi_modal_spec.bi_modal_predict port pc inst a Ha Hp) as (a' & ja & na & Ea & _ & Ja & Na & Da).
  destruct (bi_mode_spec.bi_mode_predict port pc inst b Hb Hp) as (b' & jb & nb & Eb & _ & Jb & Nb & Db).
  exists a', b', ja, na, jb, nb. split_and!; try done.
  intros j n it [[-> ->] | [-> ->]]; by apply (directions_agree pc inst).
Qed.

(** beq x1, x2, -4 at 0x80000008; the operands are 1 and 1. *)
Definition demo_branch : fetch2_decode.pack_t unit unit :=
  fetch2_decode.mk tt true 0x80000008 0xfe208ee3 false riscv_exception.instruction_address_misaligned 0 tt.
Definition demo_uops : list decode_rename.pack_t := Eval vm_compute in
  match decode.op_info demo_branch with Ok l => l | _ => [] end.
Definition demo_operands : readreg_execute.pack_t :=
  { readreg_execute.init with readreg_execute.uop := default decode_rename.init (head demo_uops);
                              readreg_execute.src1_value := 1; readreg_execute.src2_value := 1 }.
Definition demo_outcome : execute_wb.pack_t :=
  { execute_wb.of_rev demo_operands with execute_wb.bru_jump := true;
                                         execute_wb.bru_next_pc := 0x80000004 }.

(** Taken, and predicted taken: the target is the predicted one. *)
Lemma branch_prediction_target_witness :
  bru.compute (cycle_csrfile.new [] []) demo_operands = Ok demo_outcome /\
  exists na, forall it, branch_entry demo_outcome false na it ->
    commit.right_direction_wrong_target it = false /\ commit.right_prediction it = false.
Proof.
  split; [reflexivity |].
  destruct (branch_prediction_target demo_branch (default decode_rename.init (head demo_uops))
    (tail demo_uops) demo_operands (cycle_csrfile.new [] []) demo_outcome 1
    (impl (branch_predictor_set.modal predictor_set_spec.cleared))
    (impl (branch_predictor_set.mode predictor_set_spec.cleared)))
    as (a' & b' & ja & na & jb & nb & Ea & Ja & _ & _ & _ & _ & H).
  - reflexivity.
  - reflexivity.
  - reflexivity.
  - reflexivity.
  - reflexivity.
  - reflexivity.
  - split; [discriminate | reflexivity].
  - apply predictor_set_spec.cleared_inv.
  - apply predictor_set_spec.cleared_inv.
  - assert (ja = false) as ->.
    { vm_compute in Ea. injection Ea as <-. vm_compute in Ja. by injection Ja. }
    exists na. intros it Hit. apply (H false na it); [by left | exact Hit].
Defined.

(** ** C29
    The predictors never abort: from the state after reset, every sequence of
    predictions on the fetch ports, speculative updates, trainings from the
    pipeline (with histories of 16 bits, which is what the predictors hand
    out), clocks and resets runs to the end. *)
Theorem predictors_run (es : list predictor_set_spec.event) :
  forallb predictor_set_spec.event_ok es = true ->
  exists s, predictor_set_spec.run es predictor_set_spec.cleared = Ok s /\ predictor_set_spec.inv s.
Proof. apply predictor_set_spec.run_ok, predictor_set_spec.cleared_inv. Qed.

Lemma predictors_run_witness :
  exists s, predictor_set_spec.run
    [predictor_set_spec.e_predict 0 0x80000008 0xfe208ee3;
     predictor_set_spec.e_speculate 0x80000008 true; predictor_set_spec.e_end_of_cycle;
     predictor_set_spec.e_mode_bru 0x80000008 false 0x8000000c false bp_info.init;
     predictor_set_spec.e_reset; predictor_set_spec.e_end_of_cycle]
    predictor_set_spec.cleared = Ok s /\ predictor_set_spec.inv s.
Proof. apply predictors_run. reflexivity. Defined.

(** ** C31
    Speculative history: a branch that was predicted with the history
    [bi_mode::fill_info_pack] put into its pack, and that turns out
    mispredicted, leaves the global history it would have left had its outcome
    [j] been known: the speculative updates [l] made after the prediction are
    undone, and they have not touched the counters or the retired history. *)
Theorem branch_history_recovered (l : list (Z * bool)) (s : bi_mode_t) k k' pc j n :
  bp_info.bi_mode_global_history k' = bp_info.bi_mode_global_history (bi_mode.fill_info_pack k s) ->
  bp_info.condition_jump k' = true ->
  let s' := bi_mode.bru_speculative_update pc j n false k' (speculate l s) in
  bi_mode.global_history s' = bi_mode.global_history (bi_mode.speculative_update pc j s) /\
  bi_mode.pht_left s' = bi_mode.pht_left s /\ bi_mode.pht_right s' = bi_mode.pht_right s /\
  bi_mode.pht_choice s' = bi_mode.pht_choice s /\
  bi_mode.global_history_retired s' = bi_mode.global_history_retired s.
Proof.
  intros Hh Hc s'. destruct (speculate_keeps l s) as (E1 & E2 & E3 & E4).
  split; [by apply (mispredicted_history l k) |].
  unfold s', bi_mode.bru_speculative_update. rewrite Hc. by split_and!.
Qed.

Definition demo_mode : bi_mode_t :=
  bi_mode.mk (replicate 4 (dff.new 0)) (replicate 4 (dff.new false)) 0x2b 0x15 [] [] [].
Lemma branch_history_recovered_witness :
  bi_mode.global_history
    (bi_mode.bru_speculative_update 8 true 16 false
       { bi_mode.fill_info_pack bp_info.init demo_mode with bp_info.condition_jump := true }
       (speculate [(8, false); (12, true); (20, false)] demo_mode)) = 0x57.
Proof.
  destruct (branch_history_recovered [(8, false); (12, true); (20, false)] demo_mode bp_info.init
    { bi_mode.fill_info_pack bp_info.init demo_mode with bp_info.condition_jump := true } 8 true 16)
    as [E _]; [reflexivity | reflexivity |].
  rewrite E. reflexivity.
Defined.

(** ** C30
    The return address stack, for any sequence of calls and returns from its
    construction with room for [sz] entries, one per cycle.  It always completes
    (no failed check, no access out of range), and its entries are those of
    [run_runs]: equal addresses in a row share one entry and a counter, and a
    push that needs an entry when all [sz] are used loses the most recent one,
    keeps the next one twice and loses the oldest (the code means to lose only
    the oldest).  As long as no push finds the stack full in this way, it is a
    stack: every return gets the address of the innermost call that has not
    returned (the last address returned, when there is none). *)
Theorem return_addresses (sz : Z) (cs : list call) : 0 < sz < 2147483648 ->
  let '(out, rs) := run_runs sz cs [] 0 in
  (exists s, run cs (ras.sync (ras.new sz)) = Ok (out, s) /\ ras_repr s (reverse rs)) /\
  (never_full sz cs [] -> calls cs [] 0 = (out, flat rs)).
Proof.
  intros Hs. destruct (ras_run_spec cs (ras.sync (ras.new sz)) [] 0) as (s & E & R); [by apply ras_new_repr | done | done |].
  change (stack.size (ras.base (ras.sync (ras.new sz)))) with sz in E, R.
  pose proof (run_runs_flat sz cs [] 0 (List.Forall_nil _)) as F.
  destruct (run_runs sz cs [] 0) as [out rs]. split; [by exists s | exact F].
Qed.

(** Two calls of one function, one of another, four returns. *)
Lemma return_addresses_witness :
  (exists s, run [c_push 8; c_push 8; c_push 12; c_pop; c_pop; c_pop; c_pop] (ras.sync (ras.new 3)) =
    Ok ([12; 8; 8; 8], s)) /\
  calls [c_push 8; c_push 8; c_push 12; c_pop; c_pop; c_pop; c_pop] [] 0 = ([12; 8; 8; 8], []).
Proof.
  destruct (return_addresses 3 [c_push 8; c_push 8; c_push 12; c_pop; c_pop; c_pop; c_pop])
    as [(s & E & _) F]; [split; reflexivity |].
  split; [by exists s |]. apply F. repeat split.
Defined.
