(* ===== verification/CycleOrderProps.v ===== *)
(** * Properties of the rename and commit stages

    Instructions enter the reorder buffer in program order with their registers
    renamed, leave it in program order, and an exception leaves the state of
    the instructions before it. *)

From S2P Require Import Prelude Word Ops IsaDecode IsaSafe Breakpoint Csr Dff Fifo FifoSpec.
From S2P Require Import FifoWindow Rat RatSpec FreeList FreeListTrace CycleBoot CycleDecode CycleDecodeSpec.
From S2P Require Import CycleProps CyclePack LoadStore CycleCsr Predict PredictSpec Ras Rob.
From S2P Require Import RenameInv RegsInv CycleRename CycleRenameSpec CycleCommit CycleCommitSpec.

(** ** What decode guarantees *)

(** Fences and [mret] do not go to the load and store units. *)
Definition fence_unit (s : isa_state_t) : Prop :=
  (isa_state.op s = op.fence -> isa_state.op_unit s = op_unit.alu) /\
  (isa_state.op s = op.mret -> isa_state.op_unit s = op_unit.bru).

Lemma isa_fence_unit s s' : isa_decode.decode s = Ok s' -> fence_unit s'.
Proof.
  intros E. assert (H : safe fence_unit (isa_decode.decode s)); [| by rewrite E in H].
  clear s' E. unfold isa_decode.decode, isa_decode.switch_opcode. cbv zeta.
  generalize (fields.of_word (isa_state.value s)). intros f.
  assert (Hp : isa_state.op (isa_decode.prepare s) = op.add) by done.
  generalize dependent (isa_decode.prepare s). intros t Hp.
  assert (Hi : forall u, isa_state.op u = op.add -> fence_unit (isa_decode.invalid u)).
  { intros u Hu. by split; change (isa_state.op (isa_decode.invalid u)) with (isa_state.op u); rewrite Hu. }
  repeat match goal with |- safe _ (if ?b then _ else _) => destruct b end.
  12: by apply Hi.
  all: unfold isa_decode.case_lui, isa_decode.case_auipc,
    isa_decode.case_jal, isa_decode.case_jalr, isa_decode.case_branch, isa_decode.case_load,
    isa_decode.case_store, isa_decode.case_op_imm, isa_decode.case_op, isa_decode.case_fence,
    isa_decode.case_system, isa_decode.case_system_priv.
  all: try match goal with |- safe _ (mbind _ (sign_extend ?x ?n)) =>
    destruct (sign_extend x n); cbn [mbind outcome_bind]; [| done..] end.
  all: cbv zeta; cbn [safe]; split_ifs; first [by split | by apply Hi].
Qed.

Lemma decoded_pack_wf {B C} (r : fetch2_decode.pack_t B C) o :
  is_u32 (fetch2_decode.value r) -> decoded_as r o -> pack_wf RENAME_ARCH_REG_NUM (decode_rename.uop o).
Proof.
  intros Hw [(s & Es & Hu) _ _ _]. pose proof (decode_safe (isa_input r)) as Hd. rewrite Es in Hd.
  destruct Hd as [(_ & _ & H1 & H2 & H3 & _) _].
  { unfold values_wf. cbn. split_and!; try done. }
  pose proof (isa_fence_unit _ _ Es) as [Hf Hm].
  destruct Hu as [[] Hunit Hill _ _ _ R1 R2 R3 _]. unfold RENAME_ARCH_REG_NUM.
  assert (Hno : forall x, (isa_state.op_unit s = op_unit.alu \/ isa_state.op_unit s = op_unit.bru) ->
    rename.is_op x (decode_rename.uop o) = true -> rename.is_lsu (decode_rename.uop o) = false).
  { intros x Hx _. unfold rename.is_lsu, rename.is_unit.
    destruct (isa_state.valid s) eqn:Ev; [| by rewrite Hill].
    specialize (Hunit eq_refl).
    destruct Hx as [Hx | Hx]; rewrite Hx in Hunit; destruct (isa_state.sub_op s); try discriminate Hunit;
      cbn in Hunit; injection Hunit as <- _; done. }
  split.
  - rewrite R1. intros E. apply andb_prop in E as [_ E]. lia.
  - rewrite R2. intros E. apply andb_prop in E as [_ E]. lia.
  - rewrite R3. intros E. apply andb_prop in E as [_ E]. lia.
  - intros E. apply (Hno op.fence); [| done]. left. apply Hf. unfold rename.is_op in E.
    apply bool_decide_eq_true in E. congruence.
  - intros E. apply (Hno op.mret); [| done]. right. apply Hm. unfold rename.is_op in E.
    apply bool_decide_eq_true in E. congruence.
Qed.

(** ** The state after reset *)
Abbreviation sz := PHY_REG_NUM.
Abbreviation A := RENAME_ARCH_REG_NUM.
Definition boot_map : gmap Z Z := list_to_map ((λ a, (a, a - 1)) <$> seqZ 1 31).
Lemma boot_map_spec a p : boot_map !! a = Some p <-> 0 < a < A /\ p = a - 1.
Proof.
  unfold A. split.
  - intros H. apply elem_of_list_to_map_2 in H. apply list_elem_of_fmap in H as (b & E & Hb).
    injection E as -> ->. apply elem_of_seqZ in Hb. lia.
  - intros [Ha ->].
    assert (H : Forall (λ a, boot_map !! a = Some (a - 1)) (seqZ 1 31)) by decide_closed.
    rewrite Forall_forall in H. apply H. apply elem_of_seqZ. lia.
Qed.

Lemma boot_rat_is : rat_is sz A boot_rat boot_map.
Proof.
  split; [exact boot_rat_wf | exact boot_rat_complete | done | done |]. intros p a. rewrite boot_map_spec.
  split.
  - intros H. pose proof (w_arch _ boot_rat_wf _ _ H) as Ha. change (rat.arch_reg_num boot_rat) with A in Ha.
    split; [done |]. apply (w_inj _ boot_rat_wf _ _ a H). by apply boot_maps.
  - intros [Ha ->]. by apply boot_maps.
Qed.

Lemma boot_ren : ren_inv sz A boot_rat boot_rat boot_free_list [] boot_ledger boot_map boot_map.
Proof.
  split; [exact boot_rat_is | exact boot_rat_is | constructor | exact boot_follows | | done |].
  - intros a p H. apply boot_map_spec in H as [Ha ->]. apply elem_of_reverse, elem_of_seqZ.
    unfold A in Ha. lia.
  - split; [| constructor]. intros a p H. by apply (ri_map _ _ _ _ boot_rat_is) in H as (_ & H & _).
Qed.

Lemma empty_repr {T} (n : Z) (x : T) : 0 < n < 2 ^ 30 ->
  repr_at (fifo.sync (fifo.new n x)) (mk_queue 0 [] []) 0.
Proof. intros Hn. by apply sync_pending, new_pending. Qed.
Lemma empty_window {T} (n : Z) (x : T) : 0 < n < 2 ^ 30 -> window (fifo.sync (fifo.new n x)) 0 [].
Proof. intros Hn. by apply (repr_window _ _ _ (empty_repr n x Hn)). Qed.

(** ** C4
    Renaming in order: in a state with the renaming invariant (the map of the
    instructions in flight, the retired map and the free list agree, and there
    are more physical registers than the retired state and the reorder buffer
    can use), with outputs of the decode stage in its queue, the rename stage
    runs without a failed check and keeps the invariant.  It takes the [k]
    oldest instructions the rules for fences, CSR instructions and full queues
    allow; each enabled one gets the next entry of the reorder buffer, its
    sources are mapped as all older instructions left the map, its destination
    gets a register nothing else uses, and its entry remembers the register it
    replaces. *)
Theorem rename_in_order n rrat mr s v pre live g ms dispatch_stall bru sau com waiting :
  stage_inv n A rrat mr s v pre live g ms ->
  Forall (λ o, exists r : fetch2_decode.pack_t bp_info.pack_t inst_common_info_t,
            is_u32 (fetch2_decode.value r) /\ decoded_as r o) (q_view (v_in v)) ->
  let flush := com || bru || sau in
  let k := count dispatch_stall flush waiting s v in
  exists os its s' v' g' ms',
    rename.run dispatch_stall bru sau com waiting s = Ok (zlen (q_view (v_in v)) =? 0, s') /\
    stage_inv n A rrat mr s' v' pre (live ++ its) g' ms' /\ v_rob v' = v_rob v ++ its /\
    v_in v' = moved k (v_in v) /\ length os = k /\
    rename.rename_dispatch_port s' = sent dispatch_stall flush os (rename.rename_dispatch_port s) /\
    renamed_list (fifo.size (rob.base (rename.rob s))) (v_rob_at v + zlen (v_rob v)) ms
      (take k (q_view (v_in v))) os its ms'.
Proof.
  intros H Hin. apply (rename_run_stage n A rrat mr s v pre live g ms); [done |]. eapply Forall_impl; [exact Hin |].
  intros o (r & Hr & Ho). by apply (decoded_pack_wf r).
Qed.

(** addi x5, x1, 1 as the first instruction after reset. *)
Definition demo_fetched : fetch2_decode.pack_t bp_info.pack_t inst_common_info_t :=
  fetch2_decode.mk (mk_info 0) true 0x80000000 0x00108293 false
    riscv_exception.instruction_address_misaligned 0 bp_info.init.
Definition demo_decoded : rename.in_t := Eval vm_compute in
  decode_rename.mk_full
    match decode.op_info demo_fetched with Ok (u :: _) => as_last u | _ => decode_rename.init end
    (mk_info 0) bp_info.init.
Lemma demo_decoded_as : decoded_as demo_fetched demo_decoded.
Proof.
  destruct (op_info_spec demo_fetched eq_refl) as (u & base & E & _ & _ & H).
  assert (Eu : decode.op_info demo_fetched = Ok [u; base]) by exact E.
  vm_compute in Eu. injection Eu as <- _. exact H.
Qed.

Definition demo_queue (x : rename.in_t) : fifo_t rename.in_t :=
  match fifo.push x (fifo.sync (fifo.new 16 x)) with Ok (_, f) => fifo.sync f | _ => fifo.new 16 x end.
Lemma demo_queue_repr x : repr_at (demo_queue x) (mk_queue 0 [x] []) 0.
Proof.
  pose proof (push_spec_at _ _ _ (empty_repr 16 x ltac:(lia)) x) as H. cbn [q_popped q_next] in H.
  change (0 + zlen (q_next (mk_queue 0 [] [])) =? fifo.size (fifo.sync (fifo.new 16 x))) with false in H.
  destruct H as (f & E & H & _). unfold demo_queue. rewrite E. exact (sync_spec_at _ _ _ H).
Qed.

Definition no_cp : checkpoint_t := checkpoint.mk [] 0 false 0 false 0 false 0 false 0 false 0 false.
Definition boot_rename : rename.rename_t :=
  rename.mk (demo_queue demo_decoded) (port.new rename_dispatch.pack_init) boot_rat
    (rob.sync (rob.new 64)) boot_free_list (fifo.sync (fifo.new 64 no_cp))
    (load_queue.sync (load_queue.new 32)) (store_buffer.sync (store_buffer.new 16)).
Definition boot_view : view :=
  mk_view (mk_queue 0 [demo_decoded] []) 0 [] 0 [] 0 [] 0 [] 0.

Lemma boot_stage : stage_inv sz A boot_rat boot_map boot_rename boot_view [] [] boot_ledger boot_map.
Proof.
  split.
  - split; try (by apply empty_window); try done. apply demo_queue_repr.
  - done.
  - exact boot_ren.
  - done.
  - done.
Qed.

Lemma rename_in_order_witness :
  exists s' v' it o, rename.run false false false false false boot_rename = Ok (false, s') /\
    v_rob v' = [it] /\ window (rob.base (rename.rob s')) (v_rob_at v') (v_rob v') /\
    rob.rd it = 5 /\ rename_dispatch.rs1_phy o = 0 /\ rob.old_phy_reg_id it = 4 /\
    forall a, boot_map !! a <> Some (rob.new_phy_reg_id it).
Proof.
  destruct (rename_in_order sz boot_rat boot_map boot_rename boot_view [] [] boot_ledger boot_map
    false false false false false boot_stage) as (os & its & s' & v' & g' & ms' & E & Hs & Hr & _ & _ & _ & Hl).
  { apply Forall_singleton. exists demo_fetched. split; [split; [discriminate | reflexivity] |].
    exact demo_decoded_as. }
  change (count _ _ _ _ _) with 1%nat in Hl. cbn [take boot_view v_in q_view] in Hl.
  inversion Hl as [| ? ? ? ? ? ? ? Hd | ? ? ? o it m1 ? os' its' ? Hen Ha Hn]; subst; [discriminate Hd |].
  inversion Hn; subst. destruct Ha as [_ Hs1 _ Hd Hnew _ Hi].
  exists s', v', it, o. split; [exact E |]. split; [exact Hr |].
  split; [apply (qo_rob _ _ (si_queues _ _ _ _ _ _ _ _ _ _ Hs)) |].
  destruct Hi as (_ & _ & -> & _). split; [reflexivity |].
  specialize (Hs1 eq_refl). change (boot_map !! 1 = Some (rename_dispatch.rs1_phy o)) in Hs1.
  apply boot_map_spec in Hs1 as [_ ->]. split; [reflexivity |].
  unfold destination in Hd. cbn [andb] in Hd.
  change (_ && _) with true in Hd. cbn [andb] in Hd.
  destruct Hd as (Hold & _ & Hfree & _). rewrite Hnew. split; [| exact Hfree].
  change (boot_map !! _) with (Some 4) in Hold.
  destruct (rob.old_phy_reg_id_valid it); [by injection Hold | discriminate Hold].
Defined.

(** ** Retirement *)
Section commit.
Context {B : Type} {data_bus0 : data_bus B} (n a : Z).
Implicit Types (s : commit.commit_t B) (pl rest : list rob.item_t).

(** ** C3
    Retirement in order: from a state with the renaming invariant, without a
    pending interrupt, the commit stage retires the finished instructions [pl]
    at the head of the reorder buffer, at most four, up to the first that has
    not finished ([pl] being register and CSR instructions): in program order,
    each replacing the mapping of its destination in the retired map and
    writing its CSR.  The registers mapped then keep their values, the freed
    ones return to the free list, nothing is flushed, and the results that
    arrive from the execute units are merged into the entries that stay; the
    invariant holds again in the next cycle. *)
Theorem commit_in_order s pl rest R g mr ms f :
  commit_inv n a s (mk_queue 0 (pl ++ rest) []) R g mr ms -> pl ++ rest <> [] -> no_interrupt s ->
  Forall (λ it, plain it = true) pl -> zlen pl <= COMMIT_WIDTH ->
  match rest with [] => True | it :: _ => zlen pl = COMMIT_WIDTH \/ rob.finish it = false end ->
  csr_after pl (commit.csr_file s) = Ok f ->
  let rsz := fifo.size (rob.base (commit.rob s)) in
  Forall (λ p, for_window rsz R (zlen (pl ++ rest)) (port.get p)) (commit.execute_commit_port s) ->
  let rest' := drop (length pl) (foldl (deliver rsz R (pl ++ rest)) (pl ++ rest)
                                   (port.get <$> commit.execute_commit_port s)) in
  exists fb s' g', commit.run s = Ok (fb, s') /\
    commit_inv n a (clock s') (mk_queue 0 rest' []) (R + zlen pl) (tick g') (retire_maps mr pl) ms /\
    Forall2 same_renaming rest rest' /\ noted 0 (slots rsz R pl) (started rsz R) fb /\
    commit.csr_file s' = f /\
    commit.rob_retire_queue s' = commit.rob_retire_queue s ++ zip (slots rsz R pl) pl /\
    same_rest s s' /\ zlen (lg_out g') = zlen (lg_out g) /\
    forall r p, retire_maps mr pl !! r = Some p ->
      reg_next (commit.phy_regfile s') p = reg_next (commit.phy_regfile s) p.
Proof. apply run_plain. Qed.

(** ** C7
    Precise exceptions: when the instruction [e] behind the finished [pl] has
    raised an exception, the commit stage retires [pl] and then takes the trap:
    mepc, mtval and mcause get the pc, value and cause of [e], the feedback
    sends the front end to mtvec, and everything younger is dropped: in the
    next cycle the reorder buffer is empty, the speculative map is the retired
    one, every architectural register has the value it had after [pl], marked
    valid, and the stores already retired are untouched.  (The register [e]
    itself had been given stays lost to the free list.) *)
Theorem precise_exceptions s pl e rest R g mr ms f :
  commit_inv n a s (mk_queue 0 (pl ++ e :: rest) []) R g mr ms -> no_interrupt s ->
  Forall (λ it, plain it = true) pl -> zlen pl < COMMIT_WIDTH ->
  rob.finish e = true -> rob.has_exception e = true ->
  csr_after pl (commit.csr_file s) = Ok f -> trap_ready (commit.csr_file s) ->
  let rsz := fifo.size (rob.base (commit.rob s)) in
  exists fb s' g', commit.run s = Ok (fb, s') /\
    commit_inv n a (clock s') (mk_queue 0 [] []) 0 g' (retire_maps mr pl) (retire_maps mr pl) /\
    commit_feedback.flush fb = true /\ commit_feedback.has_exception fb = true /\
    handler (commit.csr_file s) = Some (commit_feedback.exception_pc fb) /\
    stored f (commit.csr_file s') commit.CSR_MEPC (rob.pc e) /\
    stored f (commit.csr_file s') commit.CSR_MTVAL (rob.exception_value e) /\
    stored f (commit.csr_file s') commit.CSR_MCAUSE (riscv_exception.to_uint32 (rob.exception_id e)) /\
    commit.rob_retire_queue s' = commit.rob_retire_queue s ++ zip (slots rsz R (pl ++ [e])) (pl ++ [e]) /\
    commit.load_queue s' = load_queue.flush (commit.load_queue s) /\
    store_buffer.base (commit.store_buffer s') = fifo.flush (store_buffer.base (commit.store_buffer s)) /\
    commit.retired_store_buffer s' = commit.retired_store_buffer s /\ commit.bus_if s' = commit.bus_if s /\
    zlen (lg_out g') = zlen (lg_out g) + zlen (new_register e) /\
    forall r p, retire_maps mr pl !! r = Some p ->
      reg_next (commit.phy_regfile s') p = (λ x, (x.1, true)) <$> reg_next (commit.phy_regfile s) p.
Proof. apply commit_exception. Qed.
End commit.

(** *** A state with two instructions in flight *)

(** A data bus that answers nothing: none of these instructions uses it. *)
#[local] Instance silent_bus : data_bus unit :=
  {| bus_write8 := λ _ _ b, Ok b; bus_write16 := λ _ _ b, Ok b; bus_write32 := λ _ _ b, Ok b;
     bus_read8 := λ _ b, Ok b; bus_read16 := λ _ b, Ok b; bus_read32 := λ _ b, Ok b;
     bus_data_value := λ _, None; bus_revoke := λ b, b; bus_write_ack := λ _, None |}.

(** The CSRs traps and interrupts use; the handler is at 0x80000100. *)
Definition demo_csrs : cycle_csrfile_t :=
  match cycle_map_all
    [ (0x300, false, csr_base.new "mstatus" csr_base.mstatus 0); (0x304, false, csr_base.new "mie" csr_base.mie 0);
      (0x305, false, csr_base.new "mtvec" csr_base.mtvec 0x80000100);
      (0x341, false, csr_base.new "mepc" csr_base.mepc 0); (0x342, false, csr_base.new "mcause" csr_base.plain 0);
      (0x343, false, csr_base.new "mtval" csr_base.plain 0) ] (cycle_csrfile.new [] []) with
  | Ok t => t | _ => cycle_csrfile.new [] []
  end.

(** [addi x5, ...], which was given register 31, and an [ecall]. *)
Definition demo_first : rob.item_t :=
  { rob.item_init with
    rob.pc := 0x80000000; rob.rd := 5; rob.old_phy_reg_id := 4; rob.old_phy_reg_id_valid := true;
    rob.new_phy_reg_id := 31; rob.finish := true; rob.last_uop := true;
    rob.old_phy_id_free_list_rptr := 31; rob.old_phy_id_free_list_rstage := false;
    rob.new_phy_id_free_list_rptr := 32; rob.new_phy_id_free_list_rstage := false }.
Definition demo_second (done : bool) : rob.item_t :=
  { rob.item_init with
    rob.pc := 0x80000004; rob.finish := done; rob.last_uop := true;
    rob.has_exception := true; rob.exception_id := riscv_exception.environment_call_from_m_mode;
    rob.exception_value := 0;
    rob.old_phy_id_free_list_rptr := 32; rob.old_phy_id_free_list_rstage := false;
    rob.new_phy_id_free_list_rptr := 32; rob.new_phy_id_free_list_rstage := false }.
Definition demo_live (done : bool) : list rob.item_t := [demo_first; demo_second done].

Definition demo_srat : rat_t :=
  match rat.set_map 5 31 boot_rat with Ok (_, r) => rat.sync r | _ => boot_rat end.
Definition demo_free_list : free_list_t :=
  match free_list.pop boot_free_list with Ok (_, l) => free_list.sync l | _ => boot_free_list end.
Lemma demo_ren done : exists g, lg_now g = O /\
  ren_inv sz A demo_srat (rat.sync boot_rat) demo_free_list (demo_live done) g boot_map (<[5 := 31]> boot_map).
Proof.
  destruct (inv_alloc _ _ _ _ _ _ _ _ _ boot_ren 5 31 (seqZ 32 96))
    as (fl & old & r & g & Epop & Hold & Eset & _ & _ & _ & _ & H); [done | done |].
  apply boot_map_spec in Hold as [_ ->].
  pose proof (H demo_first eq_refl eq_refl eq_refl eq_refl eq_refl eq_refl) as H1.
  exists (tick g). split; [done |]. unfold demo_srat, demo_free_list. rewrite Epop, Eset.
  apply inv_tick. apply (inv_other _ _ _ _ _ _ _ _ _ H1); [done | |].
  all: rewrite <- (save_spec _ _ _ (i_follows _ _ _ _ _ _ _ _ _ H1)).
  all: assert (E : (dl ← free_list.pop boot_free_list; Ok (free_list.save dl.2)) = Ok (32, false)) by reflexivity.
  all: rewrite Epop in E; change (Ok (free_list.save fl) = Ok (32, false)) in E.
  all: assert (Es : free_list.save fl = (32, false)) by congruence; by rewrite Es.
Qed.

Definition demo_rob (done : bool) : rob_t :=
  match fifo.push demo_first (fifo.sync (fifo.new 64 rob.item_init)) with
  | Ok (_, f) => match fifo.push (demo_second done) f with
                 | Ok (_, f) => rob.mk (fifo.sync f) false 0 0
                 | _ => rob.new 64
                 end
  | _ => rob.new 64
  end.
Lemma demo_rob_repr done : repr_at (rob.base (demo_rob done)) (mk_queue 0 (demo_live done) []) 0.
Proof.
  unfold demo_rob. pose proof (push_spec_at _ _ _ (empty_repr 64 rob.item_init ltac:(lia)) demo_first) as H.
  change (_ =? _) with false in H. destruct H as (f & -> & H & Hs).
  pose proof (push_spec_at _ _ _ H (demo_second done)) as H2. rewrite Hs in H2.
  change (_ =? _) with false in H2. destruct H2 as (f2 & -> & H2 & _). exact (sync_spec_at _ _ _ H2).
Qed.

(** The result of the ecall, in slot 1. *)
Definition demo_result : execute_wb.pack_t :=
  execute_wb.of_rev { readreg_execute.init with
    readreg_execute.uop := { decode_rename.init with
      decode_rename.enable := true; decode_rename.valid := true; decode_rename.last_uop := true;
      decode_rename.has_exception := true;
      decode_rename.exception_id := riscv_exception.environment_call_from_m_mode };
    readreg_execute.rob_id := 1 }.
Definition record_ecall : rob.item_t := commit.record_result demo_result (demo_second false).

Definition demo_commit (done : bool) : commit.commit_t unit :=
  commit.mk false [port.new demo_result] demo_srat (rat.sync boot_rat) (demo_rob done) demo_csrs boot_regfile demo_free_list
    cycle_interrupt.new (mk_with [] (bi_mode.mk [] [] 0 0 [] [] [])) (mk_with [] l1_btb.mk)
    (fifo.sync (fifo.new 64 no_cp)) (load_queue.sync (load_queue.new 32))
    (store_buffer.sync (store_buffer.new 16)) (retired_store_buffer.sync (retired_store_buffer.new 16))
    (fifo.sync (fifo.new 16 demo_decoded)) tt [] (global_inst.mk 0 0 0 0 0 0 0 0) breakpoint.init [].
Lemma demo_commit_inv done : exists g,
  commit_inv sz A (demo_commit done) (mk_queue 0 (demo_live done) []) 0 g boot_map (<[5 := 31]> boot_map).
Proof.
  destruct (demo_ren done) as (g & Hn & H). exists g. split; [apply demo_rob_repr | exact H | done | |].
  - split; reflexivity.
  - apply regs_hold_check. destruct done; decide_closed.
Qed.

(** The addi retires: register 31 holds x5 from then on.  The ecall's result
    arrives in the same cycle. *)
Lemma commit_in_order_witness :
  exists fb s' g' it, commit.run (demo_commit false) = Ok (fb, s') /\
    commit_inv sz A (clock s') (mk_queue 0 [it] []) 1 g' (<[5 := 31]> boot_map) (<[5 := 31]> boot_map) /\
    rob.finish it = true /\ rob.pc it = 0x80000004 /\
    commit.rob_retire_queue s' = [(0, demo_first)] /\ commit_feedback.flush fb = false.
Proof.
  destruct (demo_commit_inv false) as (g & H).
  destruct (commit_in_order sz A (demo_commit false) [demo_first] [demo_second false] 0 g boot_map
    (<[5 := 31]> boot_map) demo_csrs H) as (fb & s' & g' & E & Hinv & _ & Hn & _ & Ht & _).
  - discriminate.
  - reflexivity.
  - apply Forall_singleton. reflexivity.
  - discriminate.
  - right. reflexivity.
  - reflexivity.
  - apply Forall_singleton. intros _. split; [split; [discriminate | reflexivity] | reflexivity].
  - exists fb, s', (tick g'), record_ecall. split; [exact E |]. split; [exact Hinv |].
    split; [reflexivity |]. split; [reflexivity |]. split; [exact Ht |].
    destruct (nt_same _ _ _ _ Hn) as (_ & Hf & _). exact Hf.
Defined.

(** With the ecall finished both leave: the trap is taken. *)
Lemma precise_exceptions_witness :
  exists fb s' g', commit.run (demo_commit true) = Ok (fb, s') /\
    commit_inv sz A (clock s') (mk_queue 0 [] []) 0 g' (<[5 := 31]> boot_map) (<[5 := 31]> boot_map) /\
    commit_feedback.flush fb = true /\ commit_feedback.exception_pc fb = 0x80000100 /\
    csr_next (commit.csr_file s') commit.CSR_MEPC = Some 0x80000004 /\
    csr_next (commit.csr_file s') commit.CSR_MCAUSE = Some 11.
Proof.
  destruct (demo_commit_inv true) as (g & H).
  destruct (precise_exceptions sz A (demo_commit true) [demo_first] (demo_second true) [] 0 g boot_map
    (<[5 := 31]> boot_map) demo_csrs H) as (fb & s' & g' & E & Hinv & Hf & _ & Hh & H1 & _ & H3 & _).
  - reflexivity.
  - apply Forall_singleton. reflexivity.
  - reflexivity.
  - reflexivity.
  - reflexivity.
  - reflexivity.
  - repeat constructor; eexists; (split; [reflexivity | discriminate]).
  - exists fb, s', g'. split; [exact E |]. split; [exact Hinv |]. split; [exact Hf |].
    change (Some 0x80000100 = Some (commit_feedback.exception_pc fb)) in Hh. injection Hh as Hh.
    split; [by rewrite <- Hh |]. split; [exact H1 | exact H3].
Defined.
