(* ===== verification/CycleBus.v ===== *)
(** * The buses of the cycle model and their slaves

    include/cycle_model/component/bus.h, slave_base.h, slave/memory.h and
    slave/clint.h.

    A request and its answer are in different cycles: a slave keeps a request
    or hands the answer to the bus, whose registers carry it to the next
    cycle.  A [system] is a bus with the slaves mapped on it, the only ones
    whose [bus_if] points to it; a pointer to a slave is its place in
    [slaves]. *)

From S2P Require Import Prelude Word Ops IsaBus Dff Fifo Rat CyclePack.
From S2P Require Import CycleCsr LoadStore Predict.

(** ** The registers of a bus *)
Module cycle_bus.
Inductive sync_request_type_t := write8 | write16 | write32.
(** [arg2] is the member of the union [req] selects. *)
Record sync_request_t := mk_request { req : sync_request_type_t; arg1 : Z; arg2 : Z }.
Record slave_info_t := mk_slave_info { base : Z; size : Z; slave : Z; support_fetch : bool }.

Record bus_t := mk {
  sync_request_q : list sync_request_t;
  slave_info_list : list slave_info_t;
  instruction_value : list (dff_t Z);
  instruction_value_valid : dff_t bool;
  data_value : dff_t Z;
  data_value_valid : dff_t bool;
  data_write_ack : dff_t bool;
  data_write_errno : dff_t bus_errno.bus_errno_t;
  revoke_data_cnt : Z;
  error_msg_queue : list bus.error_msg_t
}.

Definition reset (b : bus_t) : bus_t := { b with sync_request_q := []; revoke_data_cnt := 0 }.
Definition new : bus_t :=
  reset (mk [] [] (replicate (Z.to_nat FETCH_WIDTH) (dff.new 0)) (dff.new false) (dff.new 0)
           (dff.new false) (dff.new false) (dff.new bus_errno.none) 0 []).
(** The end of a cycle. *)
Definition clock (b : bus_t) : bus_t :=
  { b with instruction_value ::= fmap dff.sync; instruction_value_valid ::= dff.sync;
           data_value ::= dff.sync; data_value_valid ::= dff.sync;
           data_write_ack ::= dff.sync; data_write_errno ::= dff.sync }.

(** [base + size] is a [uint32_t] sum. *)
Definition limit (s : slave_info_t) : Z := add32 (base s) (size s).
Definition overlaps (b sz : Z) (s : slave_info_t) : bool :=
  ((base s <=? b) && (b <? limit s)) || ((b <? base s) && (base s <? add32 b sz)).
Definition check_addr_override (b sz : Z) (t : bus_t) : bool :=
  existsb (overlaps b sz) (slave_info_list t).
Definition contains (addr : Z) (s : slave_info_t) : bool := (base s <=? addr) && (addr <? limit s).
(** [None] is the result [-1], otherwise the entry found. *)
Definition find_slave_info (addr : Z) (is_fetch : bool) (t : bus_t) : option slave_info_t :=
  List.find (λ s, contains addr s && (negb is_fetch || support_fetch s)) (slave_info_list t).
Definition get_slave_obj (addr : Z) (is_fetch : bool) (t : bus_t) : option Z :=
  slave <$> find_slave_info addr is_fetch t.
Definition convert_to_slave_addr (addr : Z) (is_fetch : bool) (t : bus_t) : Z :=
  match find_slave_info addr is_fetch t with Some s => sub32 addr (base s) | None => addr end.
Definition check_align (addr access_size : Z) : bool := Z.land addr (access_size - 1) =? 0.

Definition push_error (m : bus.error_msg_t) (t : bus_t) : bus_t :=
  { t with error_msg_queue ::= λ q, q ++ [m] }.
Definition set_data_write_ack (e : bus_errno.bus_errno_t) (t : bus_t) : bus_t :=
  { t with data_write_ack ::= dff.set true; data_write_errno ::= dff.set e }.
(** What an access to an address without slave leaves behind. *)
Definition write_missed (addr sz value : Z) (t : bus_t) : bus_t :=
  set_data_write_ack bus_errno.error (push_error (bus.mk_error_msg addr sz value true false) t).
Definition read_missed (addr sz : Z) (t : bus_t) : bus_t :=
  { push_error (bus.mk_error_msg addr sz 0 false false) t with
    data_value_valid ::= dff.set true; data_value ::= dff.set 0 }.
Definition fetch_missed (addr : Z) (t : bus_t) : bus_t :=
  { push_error (bus.mk_error_msg addr 4 0 false true) t with
    instruction_value_valid ::= dff.set true; instruction_value ::= fmap (dff.set 0) }.

Definition write8_sync (addr value : Z) (t : bus_t) : bus_t :=
  { t with sync_request_q ::= λ q, q ++ [mk_request write8 addr (u8 value)] }.
Definition write16_sync (addr value : Z) (t : bus_t) : bus_t :=
  { t with sync_request_q ::= λ q, q ++ [mk_request write16 addr (u16 value)] }.
Definition write32_sync (addr value : Z) (t : bus_t) : bus_t :=
  { t with sync_request_q ::= λ q, q ++ [mk_request write32 addr value] }.

(** [None] is the result [false]. *)
Definition get_instruction_value (t : bus_t) : option (list Z) :=
  if dff.get (instruction_value_valid t) then Some (dff.get <$> instruction_value t) else None.
Definition get_data_value (t : bus_t) : option Z :=
  if dff.get (data_value_valid t) then Some (dff.get (data_value t)) else None.
Definition get_data_write_ack (t : bus_t) : option bus_errno.bus_errno_t :=
  if dff.get (data_write_ack t) then Some (dff.get (data_write_errno t)) else None.

(** [instruction_value[i] = value[i]] and [data_value = value] assign the
    flip-flops themselves: the current value changes at once. *)
Definition set_instruction_value (value : list Z) (t : bus_t) : bus_t :=
  { t with instruction_value_valid ::= dff.set true; instruction_value := dff.new <$> value }.
Definition set_data_value (value : Z) (t : bus_t) : bus_t :=
  if 0 <? revoke_data_cnt t then { t with revoke_data_cnt ::= λ n, sub32 n 1 }
  else { t with data_value_valid ::= dff.set true; data_value := dff.new value }.
Definition revoke_data_request (t : bus_t) : bus_t :=
  if negb (dff.get (data_value_valid t)) then { t with revoke_data_cnt ::= λ n, add32 n 1 } else t.

(** A register nothing was written to goes back to [false]. *)
Definition clear_unless_changed (d : dff_t bool) : dff_t bool :=
  if negb (dff.is_changed d) then dff.set false d else d.
Definition run (t : bus_t) : bus_t :=
  { t with instruction_value_valid ::= clear_unless_changed;
           data_value_valid ::= clear_unless_changed;
           data_write_ack ::= clear_unless_changed }.
End cycle_bus.
Abbreviation cycle_bus_t := cycle_bus.bus_t.

(** ** Memory: requests travel through shift registers *)
Module cycle_memory.
Record read_t := mk_read { read_data_value : Z; read_data_valid : bool }.
Record write_t := mk_write {
  write_data_addr : Z; write_data_value : Z; write_data_size : Z; write_data_valid : bool
}.
(** The parallel arrays of [latency + 1] elements are lists of records. *)
Record memory_t := mk {
  mem : IsaBus.memory_t;
  data_read_latency : Z;
  read_data : list read_t;
  data_write_latency : Z;
  write_data : list write_t
}.

Definition _init (sz : Z) (m : memory_t) : memory_t := { m with mem := memory._init sz }.
(** Both [memset]s clear [data_read_latency + 1] valid bits.  With another
    [data_write_latency] the second one leaves the array or leaves bits that
    were never initialised. *)
Definition _reset (m : memory_t) : outcome memory_t :=
  if data_read_latency m =? data_write_latency m then
    Ok { m with mem ::= memory._reset;
                read_data ::= fmap (λ r, { r with read_data_valid := false });
                write_data ::= fmap (λ w, { w with write_data_valid := false }) }
  else Undef.
Definition new (read_latency write_latency : Z) : outcome memory_t :=
  _reset (mk (memory._init 0) read_latency (replicate (Z.to_nat (read_latency + 1)) (mk_read 0 false))
            write_latency (replicate (Z.to_nat (write_latency + 1)) (mk_write 0 0 0 false))).

Definition request_read (v : Z) (m : memory_t) : outcome memory_t :=
  l ← arr_set (read_data m) 0 (mk_read v true); Ok { m with read_data := l }.
Definition request_write (addr value sz : Z) (m : memory_t) : outcome memory_t :=
  l ← arr_set (write_data m) 0 (mk_write addr value sz true); Ok { m with write_data := l }.
Definition _write8 (addr value : Z) (m : memory_t) : outcome memory_t := request_write addr value 1 m.
Definition _write16 (addr value : Z) (m : memory_t) : outcome memory_t := request_write addr value 2 m.
Definition _write32 (addr value : Z) (m : memory_t) : outcome memory_t := request_write addr value 4 m.
Definition _write8_sys (addr value : Z) (m : memory_t) : outcome memory_t :=
  a ← memory._write8 addr value (mem m); Ok { m with mem := a }.
Definition _write16_sys (addr value : Z) (m : memory_t) : outcome memory_t :=
  a ← memory._write16 addr value (mem m); Ok { m with mem := a }.
Definition _write32_sys (addr value : Z) (m : memory_t) : outcome memory_t :=
  a ← memory._write32 addr value (mem m); Ok { m with mem := a }.
Definition _read8 (addr : Z) (m : memory_t) : outcome memory_t :=
  v ← memory._read8 addr (mem m); request_read v m.
Definition _read16 (addr : Z) (m : memory_t) : outcome memory_t :=
  v ← memory._read16 addr (mem m); request_read v m.
Definition _read32 (addr : Z) (m : memory_t) : outcome memory_t :=
  v ← memory._read32 addr (mem m); request_read v m.
Definition _read8_sys (addr : Z) (m : memory_t) : outcome Z := memory._read8 addr (mem m).
Definition _read16_sys (addr : Z) (m : memory_t) : outcome Z := memory._read16 addr (mem m).
Definition _read32_sys (addr : Z) (m : memory_t) : outcome Z := memory._read32 addr (mem m).
(** [FETCH_WIDTH] words are read from [addr] on, within the array or not. *)
Definition _read_instruction (addr : Z) (m : memory_t) (b : cycle_bus_t) : outcome cycle_bus_t :=
  if addr + 4 * FETCH_WIDTH <=? memory.size (mem m) then
    Ok (cycle_bus.set_instruction_value
          ((λ i, memory.load32 (addr + 4 * i) (mem m)) <$> [0; 1; 2; 3]) b)
  else Undef.

(** The loop [for(i = latency; i >= 1; i--) a[i] = a[i - 1];]. *)
Fixpoint shift {T} (i : nat) (l : list T) : list T :=
  match i with
  | O => l
  | S j => shift j (match l !! j with Some x => <[i := x]> l | None => l end)
  end.

Definition apply_write (w : write_t) (m : memory_t) (b : cycle_bus_t) :
  outcome (memory_t * cycle_bus_t) :=
  if write_data_valid w then
    let a := write_data_addr w in
    let v := write_data_value w in
    let done m := m ← m; Ok (m, cycle_bus.set_data_write_ack bus_errno.none b) in
    if write_data_size w =? 1 then done (_write8_sys a v m)
    else if write_data_size w =? 2 then done (_write16_sys a v m)
    else if write_data_size w =? 4 then done (_write32_sys a v m)
    else Abort
  else Ok (m, b).
Definition run_post (m : memory_t) (b : cycle_bus_t) : outcome (memory_t * cycle_bus_t) :=
  r ← arr_get (read_data m) (data_read_latency m);
  let b := if read_data_valid r then cycle_bus.set_data_value (read_data_value r) b else b in
  let l := shift (Z.to_nat (data_read_latency m)) (read_data m) in
  l ← (r ← arr_get l 0; arr_set l 0 { r with read_data_valid := false });
  w ← arr_get (write_data m) (data_write_latency m);
  mb ← apply_write w { m with read_data := l } b;
  let m := mb.1 in
  let k := shift (Z.to_nat (data_write_latency m)) (write_data m) in
  k ← (w ← arr_get k 0; arr_set k 0 { w with write_data_valid := false });
  Ok ({ m with write_data := k }, mb.2).
End cycle_memory.
Abbreviation cycle_memory_t := cycle_memory.memory_t.

(** ** Core local interruptor *)
Module cycle_clint.
Record clint_t := mk { msip : dff_t bool; mtimecmp : dff_t Z; mtime : dff_t Z }.

Definition MSIP_ADDR : Z := 0x0.
Definition MTIMECMP_ADDR : Z := 0x4000.
Definition MTIME_ADDR : Z := 0xBFF8.

Definition _reset (c : clint_t) : clint_t :=
  mk (dff.set false (msip c)) (dff.set 0 (mtimecmp c)) (dff.set 0 (mtime c)).
Definition new : clint_t := _reset (mk (dff.new false) (dff.new 0) (dff.new 0)).
Definition clock (c : clint_t) : clint_t :=
  mk (dff.sync (msip c)) (dff.sync (mtimecmp c)) (dff.sync (mtime c)).

Definition _write8 (addr value : Z) (c : clint_t) (b : cycle_bus_t) : clint_t * cycle_bus_t :=
  (c, cycle_bus.set_data_write_ack bus_errno.error b).
Definition _write16 (addr value : Z) (c : clint_t) (b : cycle_bus_t) : clint_t * cycle_bus_t :=
  (c, cycle_bus.set_data_write_ack bus_errno.error b).
Definition _write32 (addr value : Z) (c : clint_t) (b : cycle_bus_t) : clint_t * cycle_bus_t :=
  let done c := (c, cycle_bus.set_data_write_ack bus_errno.none b) in
  if addr =? MSIP_ADDR then done { c with msip ::= dff.set (negb (Z.land value 0x01 =? 0)) }
  else if addr =? MTIMECMP_ADDR then
    done { c with mtimecmp ::= λ d, dff.set (clint.set_lo (dff.get d) value) d }
  else if addr =? MTIMECMP_ADDR + 4 then
    done { c with mtimecmp ::= λ d, dff.set (clint.set_hi (dff.get d) value) d }
  else if addr =? MTIME_ADDR then
    done { c with mtime ::= λ d, dff.set (clint.set_lo (dff.get d) value) d }
  else if addr =? MTIME_ADDR + 4 then
    done { c with mtime ::= λ d, dff.set (clint.set_hi (dff.get d) value) d }
  else (c, cycle_bus.set_data_write_ack bus_errno.error b).

(** Byte and half-word reads have empty bodies: the bus gets no answer. *)
Definition _read8 (addr : Z) (c : clint_t) (b : cycle_bus_t) : cycle_bus_t := b.
Definition _read16 (addr : Z) (c : clint_t) (b : cycle_bus_t) : cycle_bus_t := b.
Definition value_at (addr : Z) (c : clint_t) : Z :=
  if addr =? MSIP_ADDR then b2z (dff.get (msip c))
  else if addr =? MTIMECMP_ADDR then u32 (Z.land (dff.get (mtimecmp c)) 0xFFFFFFFF)
  else if addr =? MTIMECMP_ADDR + 4 then u32 (Z.shiftr (dff.get (mtimecmp c)) 32)
  else if addr =? MTIME_ADDR then u32 (Z.land (dff.get (mtime c)) 0xFFFFFFFF)
  else if addr =? MTIME_ADDR + 4 then u32 (Z.shiftr (dff.get (mtime c)) 32)
  else 0.
Definition _read32 (addr : Z) (c : clint_t) (b : cycle_bus_t) : cycle_bus_t :=
  cycle_bus.set_data_value (value_at addr c) b.

Definition get_mtime (c : clint_t) : Z := dff.get (mtime c).
Definition get_mtimecmp (c : clint_t) : Z := dff.get (mtimecmp c).
Definition get_msip (c : clint_t) : Z := b2z (dff.get (msip c)).

Definition run_pre (c : clint_t) (i : cycle_interrupt.interrupt_interface_t) :
  outcome cycle_interrupt.interrupt_interface_t :=
  i ← cycle_interrupt.set_pending riscv_interrupt.machine_timer
        (dff.get (mtimecmp c) <=? dff.get (mtime c)) i;
  cycle_interrupt.set_pending riscv_interrupt.machine_software (dff.get (msip c)) i.
Definition run_post (c : clint_t) : clint_t :=
  if negb (dff.is_changed (mtime c))
  then { c with mtime ::= λ d, dff.set (u64 (dff.get d + 1)) d } else c.
End cycle_clint.
Abbreviation cycle_clint_t := cycle_clint.clint_t.

(** ** Slaves behind the virtual interface of [slave_base] *)
Module cycle_slave.
Inductive object_t := obj_memory (m : cycle_memory_t) | obj_clint (c : cycle_clint_t).
Record slave_t := mk { size : Z; test_mode : bool; has_error : bool; object : object_t }.

Definition new (o : object_t) : slave_t := mk 0 false false o.
Definition init (sz : Z) (s : slave_t) : slave_t :=
  { s with size := sz;
           object ::= λ o, match o with
                           | obj_memory m => obj_memory (cycle_memory._init sz m)
                           | obj_clint c => obj_clint c
                           end }.
Definition reset (s : slave_t) : outcome slave_t :=
  match object s with
  | obj_memory m => m ← cycle_memory._reset m; Ok { s with object := obj_memory m }
  | obj_clint c => Ok { s with object := obj_clint (cycle_clint._reset c) }
  end.
Definition entry_test_mode (s : slave_t) : slave_t := { s with test_mode := true; has_error := false }.
Definition get_error (s : slave_t) : bool := has_error s.
Definition clear_error (s : slave_t) : slave_t := { s with has_error := false }.

Definition check_align (addr access_size : Z) : bool := Z.land addr (access_size - 1) =? 0.
Definition check_boundary (addr access_size : Z) (s : slave_t) : bool :=
  (addr <? size s) && (access_size <=? sub32 (size s) addr).
Definition check (addr access_size : Z) (s : slave_t) : bool :=
  negb (negb (Z.land addr (access_size - 1) =? 0) || (size s <=? addr) ||
        (sub32 (size s) addr <? access_size)).

(** An access that fails the check is dropped. *)
Definition guarded (addr access_size : Z) (s : slave_t) (b : cycle_bus_t)
  (f : object_t -> outcome (object_t * cycle_bus_t)) : outcome (slave_t * cycle_bus_t) :=
  if check addr access_size s then ob ← f (object s); Ok ({ s with object := ob.1 }, ob.2)
  else Ok (s, b).
Definition on_memory (m : outcome cycle_memory_t) (b : cycle_bus_t) : outcome (object_t * cycle_bus_t) :=
  m ← m; Ok (obj_memory m, b).
Definition on_clint (cb : cycle_clint_t * cycle_bus_t) : outcome (object_t * cycle_bus_t) :=
  Ok (obj_clint cb.1, cb.2).

Definition write8 (addr value : Z) (s : slave_t) (b : cycle_bus_t) : outcome (slave_t * cycle_bus_t) :=
  guarded addr 1 s b (λ o, match o with
    | obj_memory m => on_memory (cycle_memory._write8 addr value m) b
    | obj_clint c => on_clint (cycle_clint._write8 addr value c b) end).
Definition write16 (addr value : Z) (s : slave_t) (b : cycle_bus_t) : outcome (slave_t * cycle_bus_t) :=
  guarded addr 2 s b (λ o, match o with
    | obj_memory m => on_memory (cycle_memory._write16 addr value m) b
    | obj_clint c => on_clint (cycle_clint._write16 addr value c b) end).
Definition write32 (addr value : Z) (s : slave_t) (b : cycle_bus_t) : outcome (slave_t * cycle_bus_t) :=
  guarded addr 4 s b (λ o, match o with
    | obj_memory m => on_memory (cycle_memory._write32 addr value m) b
    | obj_clint c => on_clint (cycle_clint._write32 addr value c b) end).
Definition read8 (addr : Z) (s : slave_t) (b : cycle_bus_t) : outcome (slave_t * cycle_bus_t) :=
  guarded addr 1 s b (λ o, match o with
    | obj_memory m => on_memory (cycle_memory._read8 addr m) b
    | obj_clint c => Ok (obj_clint c, cycle_clint._read8 addr c b) end).
Definition read16 (addr : Z) (s : slave_t) (b : cycle_bus_t) : outcome (slave_t * cycle_bus_t) :=
  guarded addr 2 s b (λ o, match o with
    | obj_memory m => on_memory (cycle_memory._read16 addr m) b
    | obj_clint c => Ok (obj_clint c, cycle_clint._read16 addr c b) end).
Definition read32 (addr : Z) (s : slave_t) (b : cycle_bus_t) : outcome (slave_t * cycle_bus_t) :=
  guarded addr 4 s b (λ o, match o with
    | obj_memory m => on_memory (cycle_memory._read32 addr m) b
    | obj_clint c => Ok (obj_clint c, cycle_clint._read32 addr c b) end).
Definition read_instruction (addr : Z) (s : slave_t) (b : cycle_bus_t) :
  outcome (slave_t * cycle_bus_t) :=
  guarded addr 4 s b (λ o, match o with
    | obj_memory m => b ← cycle_memory._read_instruction addr m b; Ok (o, b)
    | obj_clint _ => Ok (o, b) end).

(** The accesses of the debugger; [clint] does not override them. *)
Definition write_sys (f : cycle_memory_t -> outcome cycle_memory_t) (addr access_size : Z) (s : slave_t) :
  outcome slave_t :=
  if check addr access_size s then
    o ← match object s with obj_memory m => m ← f m; Ok (obj_memory m) | obj_clint c => Ok (obj_clint c) end;
    Ok { s with object := o }
  else Ok s.
Definition read_sys (f : cycle_memory_t -> outcome Z) (addr access_size : Z) (s : slave_t) : outcome Z :=
  if check addr access_size s then match object s with obj_memory m => f m | obj_clint _ => Ok 0 end else Ok 0.
Definition write8_sys (addr value : Z) : slave_t -> outcome slave_t :=
  write_sys (cycle_memory._write8_sys addr value) addr 1.
Definition write16_sys (addr value : Z) : slave_t -> outcome slave_t :=
  write_sys (cycle_memory._write16_sys addr value) addr 2.
Definition write32_sys (addr value : Z) : slave_t -> outcome slave_t :=
  write_sys (cycle_memory._write32_sys addr value) addr 4.
Definition read8_sys (addr : Z) : slave_t -> outcome Z := read_sys (cycle_memory._read8_sys addr) addr 1.
Definition read16_sys (addr : Z) : slave_t -> outcome Z := read_sys (cycle_memory._read16_sys addr) addr 2.
Definition read32_sys (addr : Z) : slave_t -> outcome Z := read_sys (cycle_memory._read32_sys addr) addr 4.
End cycle_slave.

(** ** A bus with its slaves *)
Module bus_system.
Record system_t := mk { bus : cycle_bus_t; slaves : list cycle_slave.slave_t }.

Definition map (b sz r : Z) (fetch : bool) (s : system_t) : outcome system_t :=
  verify (negb (cycle_bus.check_addr_override b sz (bus s))) ;;
  x ← arr_get (slaves s) r;
  l ← arr_set (slaves s) r (cycle_slave.init sz x);
  Ok (mk { bus s with cycle_bus.slave_info_list ::=
             λ l, l ++ [cycle_bus.mk_slave_info b sz r fetch] } l).
Definition reset (s : system_t) : system_t := { s with bus ::= cycle_bus.reset }.

(** The slave at an address is called with the offset, or [miss] happens. *)
Definition access (addr : Z) (is_fetch : bool)
  (call : Z -> cycle_slave.slave_t -> cycle_bus_t -> outcome (cycle_slave.slave_t * cycle_bus_t))
  (miss : cycle_bus_t -> cycle_bus_t) (s : system_t) : outcome system_t :=
  match cycle_bus.find_slave_info addr is_fetch (bus s) with
  | Some i =>
      x ← arr_get (slaves s) (cycle_bus.slave i);
      xb ← call (sub32 addr (cycle_bus.base i)) x (bus s);
      l ← arr_set (slaves s) (cycle_bus.slave i) xb.1;
      Ok (mk xb.2 l)
  | None => Ok { s with bus ::= miss }
  end.
Definition write8 (addr value : Z) : system_t -> outcome system_t :=
  access addr false (λ o, cycle_slave.write8 o (u8 value)) (cycle_bus.write_missed addr 1 (u8 value)).
Definition write16 (addr value : Z) : system_t -> outcome system_t :=
  access addr false (λ o, cycle_slave.write16 o (u16 value)) (cycle_bus.write_missed addr 2 (u16 value)).
Definition write32 (addr value : Z) : system_t -> outcome system_t :=
  access addr false (λ o, cycle_slave.write32 o value) (cycle_bus.write_missed addr 4 value).
Definition read8 (addr : Z) : system_t -> outcome system_t :=
  access addr false cycle_slave.read8 (cycle_bus.read_missed addr 1).
Definition read16 (addr : Z) : system_t -> outcome system_t :=
  access addr false cycle_slave.read16 (cycle_bus.read_missed addr 2).
Definition read32 (addr : Z) : system_t -> outcome system_t :=
  access addr false cycle_slave.read32 (cycle_bus.read_missed addr 4).
Definition read_instruction (addr : Z) : system_t -> outcome system_t :=
  access addr true cycle_slave.read_instruction (cycle_bus.fetch_missed addr).

Definition access_sys (addr : Z) (call : Z -> cycle_slave.slave_t -> outcome cycle_slave.slave_t)
  (s : system_t) : outcome system_t :=
  access addr false (λ o x b, x ← call o x; Ok (x, b)) (λ b, b) s.
Definition write8_sys (addr value : Z) : system_t -> outcome system_t :=
  access_sys addr (λ o, cycle_slave.write8_sys o (u8 value)).
Definition write16_sys (addr value : Z) : system_t -> outcome system_t :=
  access_sys addr (λ o, cycle_slave.write16_sys o (u16 value)).
Definition write32_sys (addr value : Z) : system_t -> outcome system_t :=
  access_sys addr (λ o, cycle_slave.write32_sys o value).
Definition ask_sys (addr : Z) (f : Z -> cycle_slave.slave_t -> outcome Z) (s : system_t) : outcome Z :=
  match cycle_bus.find_slave_info addr false (bus s) with
  | Some i => x ← arr_get (slaves s) (cycle_bus.slave i); f (sub32 addr (cycle_bus.base i)) x
  | None => Ok 0
  end.
Definition read8_sys (addr : Z) : system_t -> outcome Z := ask_sys addr cycle_slave.read8_sys.
Definition read16_sys (addr : Z) : system_t -> outcome Z := ask_sys addr cycle_slave.read16_sys.
(** The return type is [uint16_t]. *)
Definition read32_sys (addr : Z) (s : system_t) : outcome Z :=
  v ← ask_sys addr cycle_slave.read32_sys s; Ok (u16 v).

(** [sync]: the queued writes, in order. *)
Fixpoint serve (l : list cycle_bus.sync_request_t) (s : system_t) : outcome system_t :=
  match l with
  | [] => Ok s
  | q :: l =>
      s ← match cycle_bus.req q with
          | cycle_bus.write8 => write8 (cycle_bus.arg1 q) (cycle_bus.arg2 q) s
          | cycle_bus.write16 => write16 (cycle_bus.arg1 q) (cycle_bus.arg2 q) s
          | cycle_bus.write32 => write32 (cycle_bus.arg1 q) (cycle_bus.arg2 q) s
          end;
      serve l s
  end.
Definition sync (s : system_t) : outcome system_t :=
  serve (cycle_bus.sync_request_q (bus s)) { s with bus ::= λ b, { b with cycle_bus.sync_request_q := [] } }.
Definition run (s : system_t) : system_t := { s with bus ::= cycle_bus.run }.

(** The clock edge of every flip-flop of the bus and its slaves. *)
Definition clock_slave (x : cycle_slave.slave_t) : cycle_slave.slave_t :=
  { x with cycle_slave.object ::= λ o,
      match o with
      | cycle_slave.obj_memory m => cycle_slave.obj_memory m
      | cycle_slave.obj_clint c => cycle_slave.obj_clint (cycle_clint.clock c)
      end }.
Definition clock (s : system_t) : system_t := mk (cycle_bus.clock (bus s)) (clock_slave <$> slaves s).

(** [run_post] of the slave at place [r], which the simulator calls itself. *)
Definition run_post (r : Z) (s : system_t) : outcome system_t :=
  x ← arr_get (slaves s) r;
  ob ← match cycle_slave.object x with
       | cycle_slave.obj_memory m =>
           mb ← cycle_memory.run_post m (bus s); Ok (cycle_slave.obj_memory mb.1, mb.2)
       | cycle_slave.obj_clint c => Ok (cycle_slave.obj_clint (cycle_clint.run_post c), bus s)
       end;
  l ← arr_set (slaves s) r { x with cycle_slave.object := ob.1 };
  Ok (mk ob.2 l).
End bus_system.
Abbreviation bus_system_t := bus_system.system_t.

(** What the load/store units, the retired store buffer and commit use. *)
#[global] Instance bus_system_data_bus : data_bus bus_system_t := {
  bus_write8 := bus_system.write8;
  bus_write16 := bus_system.write16;
  bus_write32 := bus_system.write32;
  bus_read8 := bus_system.read8;
  bus_read16 := bus_system.read16;
  bus_read32 := bus_system.read32;
  bus_data_value := λ s, cycle_bus.get_data_value (bus_system.bus s);
  bus_revoke := λ s, { s with bus_system.bus ::= cycle_bus.revoke_data_request };
  bus_write_ack := λ s, cycle_bus.get_data_write_ack (bus_system.bus s)
}.

(** ** The two systems of [cycle_model] *)
Module cycle_system.
Definition MEMORY_BASE : Z := 0x80000000.
Definition MEMORY_SIZE : Z := 1048576.
Definition CLINT_BASE : Z := 0x20000000.
Definition CLINT_SIZE : Z := 0x10000.
(** [memory(&cacheable_bus, 10, 10)] and [clint(&noncacheable_bus, ...)],
    mapped by the constructor. *)
Definition cacheable : outcome bus_system_t :=
  m ← cycle_memory.new 10 10;
  bus_system.map MEMORY_BASE MEMORY_SIZE 0 true
    (bus_system.mk cycle_bus.new [cycle_slave.new (cycle_slave.obj_memory m)]).
Definition noncacheable : outcome bus_system_t :=
  bus_system.map CLINT_BASE CLINT_SIZE 0 false
    (bus_system.mk cycle_bus.new [cycle_slave.new (cycle_slave.obj_clint cycle_clint.new)]).
End cycle_system.
