(* ===== verification/CycleLsu.v ===== *)
(** * The load, store data and store address units, and recovery

    src/cycle_model/pipeline/execute/lu.cpp, sdu.cpp and sau.cpp, and bru.cpp
    with the rollback it makes when a prediction was wrong.

    [lu_env] and [recovery_t] are the parts of [cycle_model] the units have
    pointers to. *)

From S2P Require Import Prelude Word Ops IsaDecode Dff Fifo Rat FreeList.
From S2P Require Import CycleDecode CyclePack LoadStore CycleCsr CycleExec Predict Ras Rob.
From S2P Require Import CycleBus.

(** ** [lu_feedback_pack_t] *)
Module lu_feedback.
Record pack_t := mk {
  replay : bool; replay_following_only : bool; rob_id : Z; rob_id_stage : bool; stall : bool
}.
Definition init : pack_t := mk false false 0 false false.
End lu_feedback.
Abbreviation lu_feedback_t := lu_feedback.pack_t.

Definition ROB_SIZE : Z := 64.

(** ** Load unit: two stages *)
Module lu.
Record clint_sync_t := mk_sync { mtime : Z; mtimecmp : Z; msip : Z }.
Record lu_t := mk {
  l2_stall : bool;
  l2_last_stall : bool;
  l2_last_last_stall : bool;
  l2_rev_pack : rev_t;
  l2_addr : Z;
  l2_feedback_value : Z;
  l2_feedback_mask : Z;
  l2_conflict_found : bool;
  l2_length : Z;
  l2_is_cacheable : bool;
  clint_sync_list : list clint_sync_t
}.
Definition reset (u : lu_t) : lu_t :=
  { u with l2_stall := false; l2_last_stall := false; l2_last_last_stall := false;
           l2_rev_pack := readreg_execute.init; l2_addr := 0 }.
Definition new : lu_t :=
  reset (mk false false false readreg_execute.init 0 0 0 false 0 false
           (replicate (Z.to_nat ROB_SIZE) (mk_sync 0 0 0))).

(** Width of an access and the value that reaches the register. *)
Definition access_size (o : lu_op.lu_op_t) : Z :=
  match o with
  | lu_op.lb | lu_op.lbu => 1
  | lu_op.lh | lu_op.lhu => 2
  | lu_op.lw => 4
  end.
Definition rd_value (o : lu_op.lu_op_t) (v : Z) : outcome Z :=
  match o with
  | lu_op.lb => sign_extend v 8
  | lu_op.lh => sign_extend v 16
  | lu_op.lbu | lu_op.lhu | lu_op.lw => Ok v
  end.

(** "combine retired feedback param to feedback param": byte by byte, where
    the store buffer has nothing. *)
Definition combine_byte (retired : Z * Z) (acc : Z * Z) (i : Z) : Z * Z :=
  let m := shl32 0xff i in
  if negb (Z.land retired.2 m =? 0) && (Z.land acc.2 m =? 0)
  then (Z.lor acc.1 (Z.land retired.1 m), Z.lor acc.2 m) else acc.
Definition combine (retired acc : Z * Z) : Z * Z :=
  foldl (combine_byte retired) acc [0; 8; 16; 24].

Section lu.
Context {B : Type} {data_bus0 : data_bus B}.

Record lu_env := mk_env {
  unit : lu_t;
  readreg_lu_hdff : handshake_dff_t rev_t;
  lu_wb_port : port_t wb_t;
  cacheable_bus : B;
  noncacheable_bus : B;
  store_buffer : store_buffer_t;
  retired_store_buffer : retired_store_buffer_t;
  load_queue : load_queue_t;
  wait_table : wait_table_t;
  pma_unit : pma_unit_t;
  clint : clint_sync_t
}.
Implicit Type s : lu_env.

Definition bus_of (c : bool) (s : lu_env) : B := if c then cacheable_bus s else noncacheable_bus s.
Definition set_bus (c : bool) (b : B) (s : lu_env) : lu_env :=
  if c then { s with cacheable_bus := b } else { s with noncacheable_bus := b }.

(** *** Level 2: get memory data *)
Section level2.
Context (bru : bru_feedback_t) (sau : sau_feedback_t) (commit_flush need_lu_feedback_only : bool).

Definition survives (a : age_t) : bool :=
  (negb (flush_feedback.flush bru) || age_compare.ge a (flush_feedback.age bru)) &&
  (negb (flush_feedback.flush sau) || age_compare.gt a (flush_feedback.age sau)).
(** A load that met a store without data is repeated. *)
Definition count_replay (s : lu_env) : outcome lu_env :=
  let r := l2_rev_pack (unit s) in
  if readreg_execute.enable r && l2_conflict_found (unit s) && negb need_lu_feedback_only then
    q ← load_queue.add_replay_num (readreg_execute.load_queue_id r) (load_queue s);
    w ← wait_table.set_wait_bit (decode_rename.pc (readreg_execute.uop r)) (wait_table s);
    Ok { s with load_queue := q; wait_table := w }
  else Ok s.
Definition following_only (f : lu_feedback_t) : lu_feedback_t :=
  { f with lu_feedback.replay := true; lu_feedback.replay_following_only := true }.
(** The answer of the bus under the bytes of the stores; [true] is
    [load_stall]. *)
Definition receive_data (f : lu_feedback_t) (s : lu_env) : outcome (wb_t * lu_feedback_t * bool) :=
  let u := unit s in
  let r := l2_rev_pack u in
  let send := execute_wb.of_rev r in
  o ← csub_op.get_lu_op (decode_rename.sub_op (readreg_execute.uop r));
  let answer := bus_data_value (bus_of (l2_is_cacheable u) s) in
  v ← rd_value o (Z.lor (Z.land (default 0 answer) (not32 (l2_feedback_mask u))) (l2_feedback_value u));
  Ok match answer with
     | None => (execute_wb.init, following_only f, true)
     | Some _ => (unit_stage.set_rd_value v send,
                  if l2_last_last_stall u then following_only f else f, false)
     end.
Definition level2 (s : lu_env) : outcome (wb_t * lu_feedback_t * lu_env) :=
  let s := if negb need_lu_feedback_only
           then { s with unit ::= λ u, { u with l2_last_stall := l2_stall u } } else s in
  let u := unit s in
  let r := l2_rev_pack u in
  let f := lu_feedback.mk (l2_conflict_found u) false (readreg_execute.rob_id r)
             (readreg_execute.rob_id_stage r) false in
  s ← count_replay s;
  x ← (if readreg_execute.enable r && negb (l2_conflict_found u) && negb commit_flush &&
          survives (readreg_execute.age r) then
         verify (readreg_execute.valid r) ;;
         x ← (if negb (readreg_execute.has_exception r) then receive_data f s
              else Ok (execute_wb.of_rev r, f, false));
         Ok (x, s)
       else if negb need_lu_feedback_only && readreg_execute.enable r &&
               negb (readreg_execute.has_exception r) then
         let c := l2_is_cacheable u in
         Ok ((execute_wb.init, f, false), set_bus c (bus_revoke (bus_of c s)) s)
       else Ok ((execute_wb.init, f, false), s));
  let '(send, f, load_stall, s) := x in
  let f := { f with lu_feedback.stall := load_stall } in
  Ok (send, f,
      if negb need_lu_feedback_only then
        { s with lu_wb_port ::= port.set send;
                 unit ::= λ u, { u with l2_last_last_stall := negb load_stall && l2_last_stall u;
                                        l2_stall := load_stall } }
      else s).
End level2.

(** *** Level 1: calculate effective address *)
Definition clear_l2 (s : lu_env) : lu_env :=
  { s with unit ::= λ u, { u with l2_addr := 0; l2_rev_pack := readreg_execute.init } }.
Definition read_bus (size addr : Z) (b : B) : outcome B :=
  if size =? 1 then bus_read8 addr b else if size =? 2 then bus_read16 addr b else bus_read32 addr b.
(** The exception of a misaligned address; the identifier is written in any
    case. *)
Definition check_address (aligned : bool) (addr : Z) (r : rev_t) : rev_t :=
  { r with readreg_execute.uop ::= λ x,
      { x with decode_rename.has_exception := negb aligned;
               decode_rename.exception_id :=
                 if negb aligned then riscv_exception.load_address_misaligned
                 else riscv_exception.load_access_fault;
               decode_rename.exception_value := addr } }.
Definition load_queue_item (addr size : Z) (r : rev_t) : load_queue.item_t :=
  let bp := readreg_execute.branch_predictor_info_pack r in
  load_queue.mk_item true (decode_rename.pc (readreg_execute.uop r)) (readreg_execute.rob_id r)
    (readreg_execute.rob_id_stage r) addr size (bp_info.checkpoint_id_valid bp)
    (bp_info.checkpoint_id bp).
(** The searches of the two store buffers. *)
Definition search_stores (addr size : Z) (r : rev_t) (s : lu_env) : outcome lu_t :=
  let u := unit s in
  retired ← retired_store_buffer.get_feedback_value addr size (retired_store_buffer s);
  param ← store_buffer.get_feedback_value addr size (readreg_execute.rob_id r)
            (readreg_execute.rob_id_stage r) (store_buffer s);
  let acc := default (l2_feedback_value u, l2_feedback_mask u) param in
  let c := combine retired acc in
  Ok { u with l2_conflict_found := bool_decide (param = None);
              l2_feedback_value := c.1; l2_feedback_mask := c.2 }.
Definition start_load (r : rev_t) (s : lu_env) : outcome lu_env :=
  let addr := add32 (readreg_execute.src1_value r) (decode_rename.imm (readreg_execute.uop r)) in
  o ← csub_op.get_lu_op (decode_rename.sub_op (readreg_execute.uop r));
  let size := access_size o in
  let c := pma_unit.is_cacheable addr (pma_unit s) in
  let aligned := cycle_bus.check_align addr size in
  b ← (if aligned then read_bus size addr (bus_of c s) else Ok (bus_of c s));
  let s := set_bus c b s in
  u ← search_stores addr size r s;
  q ← fifo.set_item (readreg_execute.load_queue_id r) (load_queue_item addr size r)
        (load_queue.base (load_queue s));
  q ← load_queue.write_conflict (readreg_execute.load_queue_id r) false
        { load_queue s with load_queue.base := q };
  Ok { s with load_queue := q;
              unit := { u with l2_addr := addr; l2_is_cacheable := c; l2_length := size;
                               l2_rev_pack := check_address aligned addr r } }.
Definition accept (r : rev_t) (s : lu_env) : outcome lu_env :=
  let s := { s with unit ::= λ u, { u with l2_addr := 0; l2_rev_pack := r } } in
  if readreg_execute.enable r then
    unit_stage.check_valid_unit cop_unit.lu r ;;
    l ← arr_set (clint_sync_list (unit s)) (readreg_execute.rob_id r) (clint s);
    let s := { s with unit ::= λ u, { u with clint_sync_list := l } } in
    if negb (readreg_execute.has_exception r) then start_load r s else Ok s
  else Ok s.
Definition level1 (bru : bru_feedback_t) (sau : sau_feedback_t) (commit_flush : bool) (s : lu_env) :
  outcome lu_env :=
  if negb commit_flush then
    if negb (l2_stall (unit s)) then
      let xh := handshake_dff.pop (readreg_lu_hdff s) in
      let s := { s with readreg_lu_hdff := xh.2 } in
      match xh.1 with
      | Some r => if squashed bru sau (readreg_execute.age r) then Ok (clear_l2 s) else accept r s
      | None => Ok (clear_l2 s)
      end
    else Ok s
  else Ok (clear_l2 s).

Definition run (bru : bru_feedback_t) (sau : sau_feedback_t) (commit_flush only : bool) (s : lu_env) :
  outcome (channel_t * lu_feedback_t * lu_env) :=
  x ← level2 bru sau commit_flush only s;
  let '(send, f, s) := x in
  s ← (if negb only then level1 bru sau commit_flush s else Ok s);
  Ok (execute_wb.feedback send, f, s).
End lu.
Arguments lu_env B : clear implicits.
End lu.

(** ** What the two store units send on: the branch information stays behind *)
Definition of_store (r : rev_t) : wb_t :=
  execute_wb.of_rev { r with readreg_execute.branch_predictor_info_pack := bp_info.init;
                             readreg_execute.load_queue_id := 0 }.

(** ** Store data unit *)
Module sdu.
(** [src2_value & 0xff], [& 0xffff] or the whole word. *)
Definition data_of (o : sdu_op.sdu_op_t) (v : Z) : Z :=
  match o with
  | sdu_op.sb => Z.land v 0xff
  | sdu_op.sh => Z.land v 0xffff
  | sdu_op.sw => v
  end.
Definition with_data (o : sdu_op.sdu_op_t) (r : rev_t) (x : store_buffer.item_t) : store_buffer.item_t :=
  { x with store_buffer.data_valid := true;
           store_buffer.data := data_of o (readreg_execute.src2_value r);
           store_buffer.committed := false;
           store_buffer.pc := decode_rename.pc (readreg_execute.uop r);
           store_buffer.rob_id := readreg_execute.rob_id r;
           store_buffer.rob_id_stage := readreg_execute.rob_id_stage r }.
Definition compute (r : rev_t) (b : store_buffer_t) : outcome (wb_t * store_buffer_t) :=
  verify (readreg_execute.valid r) ;;
  b ← (if readreg_execute.enable r then
         unit_stage.check_valid_unit cop_unit.sdu r ;;
         if negb (readreg_execute.has_exception r) then
           o ← csub_op.get_sdu_op (decode_rename.sub_op (readreg_execute.uop r));
           x ← store_buffer.get_item (readreg_execute.store_buffer_id r) b;
           store_buffer.set_item (readreg_execute.store_buffer_id r) (with_data o r x) b
         else Ok b
       else Ok b);
  Ok (of_store r, b).
Definition run (bru : bru_feedback_t) (sau : sau_feedback_t) (commit_flush : bool)
  (b : store_buffer_t) (h : handshake_dff_t rev_t) (p : port_t wb_t) :
  outcome (store_buffer_t * handshake_dff_t rev_t * port_t wb_t) :=
  let xh := if negb commit_flush then handshake_dff.pop h else (None, h) in
  sb ← match xh.1 with
       | Some r => if squashed bru sau (readreg_execute.age r) then Ok (execute_wb.init, b)
                   else compute r b
       | None => Ok (execute_wb.init, b)
       end;
  Ok (sb.2, xh.2, port.set sb.1 p).
End sdu.

(** ** What a rollback touches *)
Record recovery_t := mk_recovery {
  rc_speculative_rat : rat_t;
  rc_rob : rob_t;
  rc_phy_regfile : phy_regfile.regfile_t;
  rc_phy_id_free_list : free_list_t;
  rc_checkpoint_buffer : fifo_t checkpoint_t;
  rc_load_queue : load_queue_t;
  rc_store_buffer : store_buffer_t
}.
Definition set_rob_wptr (p : Z) (st : bool) : rob_t -> rob_t :=
  λ r, rob.set_base (fifo.update_wptr p st (rob.base r)) r.
(** The queues of loads and stores go back to the pointers of the checkpoint. *)
Definition restore_queues (cp : checkpoint_t) (s : recovery_t) : recovery_t :=
  { s with rc_load_queue ::= λ q, { q with load_queue.base ::=
             fifo.update_wptr (checkpoint.old_load_queue_wptr cp) (checkpoint.old_load_queue_wstage cp) };
           rc_store_buffer ::= λ b, { b with store_buffer.base ::=
             fifo.update_wptr (checkpoint.old_store_buffer_wptr cp)
               (checkpoint.old_store_buffer_wstage cp) } }.

(** ** Branch unit with its rollback *)
Module bru_stage.
(** Back to the state after the branch was renamed. *)
Definition rollback (send : wb_t) (s : recovery_t) : outcome recovery_t :=
  let base := execute_wb.base send in
  let id := readreg_execute.rob_id base in
  let st := readreg_execute.rob_id_stage base in
  cp ← fifo.customer_get_item
         (bp_info.checkpoint_id (readreg_execute.branch_predictor_info_pack base))
         (rc_checkpoint_buffer s);
  next ← fifo.customer_get_next_id_stage id st (rob.base (rc_rob s));
  l ← free_list.restore (checkpoint.new_phy_id_free_list_rptr cp)
        (checkpoint.new_phy_id_free_list_rstage cp) (rc_phy_id_free_list s);
  Ok (restore_queues cp
    { s with rc_speculative_rat ::= rat.restore_from_checkpoint cp;
             rc_rob ::= set_rob_wptr next.1.2 next.2;
             rc_phy_regfile ::= phy_regfile.restore id st;
             rc_checkpoint_buffer ::= fifo.update_wptr (checkpoint.new_checkpoint_buffer_wptr cp)
                                        (checkpoint.new_checkpoint_buffer_wstage cp);
             rc_phy_id_free_list := l }).
(** The requests to the predictors that keep a speculative history. *)
Definition train {P} (send : wb_t) (b : with_requests P) : with_requests P :=
  branch_predictor_base.bru_speculative_update_sync
    (decode_rename.pc (readreg_execute.uop (execute_wb.base send))) (execute_wb.bru_jump send)
    (execute_wb.bru_next_pc send) false
    (readreg_execute.branch_predictor_info_pack (execute_wb.base send)) b.

(** [receive] with [get_data] instead of [pop], when only the feedback is asked
    for. *)
Definition peek (h : handshake_dff_t rev_t) : outcome (option rev_t) :=
  if negb (handshake_dff.is_empty h)
  then match handshake_dff.get_data h with Some r => Ok (Some r) | None => Abort end
  else Ok None.
Definition compute (f : cycle_csrfile_t) (sau : sau_feedback_t) (r : option rev_t) : outcome wb_t :=
  match r with
  | Some r => if flush_feedback.flush sau && age_compare.le (readreg_execute.age r) (flush_feedback.age sau)
              then Ok execute_wb.init else bru.compute f r
  | None => Ok execute_wb.init
  end.
(** [run(sau, commit, true)]. *)
Definition run_feedback (f : cycle_csrfile_t) (sau : sau_feedback_t) (commit_flush : bool)
  (h : handshake_dff_t rev_t) : outcome bru_feedback_t :=
  r ← (if negb commit_flush then peek h else Ok None);
  send ← compute f sau r;
  Ok (bru.feedback send).
(** [run(sau, commit, false)]. *)
Definition run (f : cycle_csrfile_t) (sau : sau_feedback_t) (commit_flush : bool)
  (h : handshake_dff_t rev_t) (p : port_t wb_t) (mode : with_requests bi_mode_t)
  (l1 : with_requests l1_btb.l1_btb_t) (s : recovery_t) :
  outcome (channel_t * handshake_dff_t rev_t * port_t wb_t * with_requests bi_mode_t *
           with_requests l1_btb.l1_btb_t * recovery_t) :=
  rh ← unit_stage.receive commit_flush h;
  send ← compute f sau rh.1;
  let p := port.set send p in
  if flush_feedback.flush (bru.feedback send) then
    s ← rollback send s;
    Ok (execute_wb.feedback send, rh.2, p, train send mode, train send l1, s)
  else Ok (execute_wb.feedback send, rh.2, p, mode, l1, s).
End bru_stage.

(** ** Store address unit *)
Module sau.
Definition access_size (o : sau_op.sau_op_t) : Z :=
  match o with sau_op.stab => 1 | sau_op.stah => 2 | sau_op.staw => 4 end.

(** Back to before the load was renamed. *)
Definition rollback (i : load_queue.item_t) (s : recovery_t) : outcome recovery_t :=
  cp ← fifo.customer_get_item (load_queue.checkpoint_id i) (rc_checkpoint_buffer s);
  l ← free_list.restore (checkpoint.old_phy_id_free_list_rptr cp)
        (checkpoint.old_phy_id_free_list_rstage cp) (rc_phy_id_free_list s);
  Ok (restore_queues cp
    { s with rc_speculative_rat ::= rat.restore_from_checkpoint cp;
             rc_rob ::= set_rob_wptr (load_queue.rob_id i) (load_queue.rob_id_stage i);
             rc_phy_regfile ::= phy_regfile.restore_equal (load_queue.rob_id i) (load_queue.rob_id_stage i);
             rc_checkpoint_buffer ::= fifo.update_wptr (checkpoint.old_checkpoint_buffer_wptr cp)
                                        (checkpoint.old_checkpoint_buffer_wstage cp);
             rc_phy_id_free_list := l }).
(** A younger load that has read these bytes already: it is marked, its
    address is to wait from now on, and the pipeline goes back to it if it has
    a checkpoint. *)
Definition handle_conflict (only : bool) (id : Z) (i : load_queue.item_t) (s : recovery_t)
  (w : wait_table_t) : outcome (sau_feedback_t * recovery_t * wait_table_t) :=
  q ← load_queue.write_conflict id true (rc_load_queue s);
  w ← wait_table.set_wait_bit (load_queue.pc i) w;
  let s := { s with rc_load_queue := q } in
  if load_queue.checkpoint_id_valid i then
    s ← (if negb only then rollback i s else Ok s);
    Ok (flush_feedback.mk true (load_queue.pc i) (load_queue.rob_id_stage i) (load_queue.rob_id i), s, w)
  else Ok (flush_feedback.init, s, w).
Definition check_address (aligned : bool) (addr : Z) (send : wb_t) : wb_t :=
  { send with execute_wb.base ::= λ b,
      { b with readreg_execute.uop ::= λ x,
          { x with decode_rename.has_exception := negb aligned;
                   decode_rename.exception_id :=
                     if negb aligned then riscv_exception.store_amo_address_misaligned
                     else riscv_exception.store_amo_access_fault;
                   decode_rename.exception_value := addr } } }.
Definition store_address (only : bool) (r : rev_t) (send : wb_t) (s : recovery_t) (w : wait_table_t) :
  outcome (wb_t * sau_feedback_t * recovery_t * wait_table_t) :=
  let addr := add32 (readreg_execute.src1_value r) (decode_rename.imm (readreg_execute.uop r)) in
  o ← csub_op.get_sau_op (decode_rename.sub_op (readreg_execute.uop r));
  let size := access_size o in
  let send := check_address (cycle_bus.check_align addr size) addr send in
  b ← store_buffer.write_addr (readreg_execute.store_buffer_id r) addr size true (rc_store_buffer s);
  let s := { s with rc_store_buffer := b } in
  c ← load_queue.get_conflict_item addr size (readreg_execute.rob_id r)
        (readreg_execute.rob_id_stage r) (rc_load_queue s);
  match c with
  | Some (id, _, i) => x ← handle_conflict only id i s w; let '(f, s, w) := x in Ok (send, f, s, w)
  | None => Ok (send, flush_feedback.init, s, w)
  end.
Definition compute (only : bool) (r : rev_t) (s : recovery_t) (w : wait_table_t) :
  outcome (wb_t * sau_feedback_t * recovery_t * wait_table_t) :=
  verify (readreg_execute.valid r) ;;
  let send := of_store r in
  if readreg_execute.enable r then
    unit_stage.check_valid_unit cop_unit.sau r ;;
    if negb (readreg_execute.has_exception r) then store_address only r send s w
    else Ok (send, flush_feedback.init, s, w)
  else Ok (send, flush_feedback.init, s, w).
(** [run]; with [need_sau_feedback_only] the register keeps its element and the
    port is not written, but the store buffer, the load queue and the wait
    table are. *)
Definition run (bru : bru_feedback_t) (commit_flush only : bool) (h : handshake_dff_t rev_t)
  (p : port_t wb_t) (s : recovery_t) (w : wait_table_t) :
  outcome (sau_feedback_t * handshake_dff_t rev_t * port_t wb_t * recovery_t * wait_table_t) :=
  rh ← (if only then
          r ← (if negb commit_flush then bru_stage.peek h else Ok None); Ok (r, h)
        else unit_stage.receive commit_flush h);
  x ← match (rh.1 : option rev_t) with
      | Some r => if flush_feedback.flush bru && age_compare.lt (readreg_execute.age r) (flush_feedback.age bru)
                  then Ok (execute_wb.init, flush_feedback.init, s, w) else compute only r s w
      | None => Ok (execute_wb.init, flush_feedback.init, s, w)
      end;
  let '(send, f, s, w) := x in
  Ok (f, rh.2, if negb only then port.set send p else p, s, w).
End sau.
