(* ===== verification/CycleBusSpec.v ===== *)
(** * Memory behind the bus: latency, order and the retired store buffer

    [run_post_spec] is one turn of the memory's shift registers; the second
    half follows the stores of the retired store buffer into the memory and
    shows that buffer and memory together behave like one array of bytes. *)

From S2P Require Import Prelude Word Ops IsaBus IsaInv Dff Fifo FifoSpec FifoWindow.
From S2P Require Import Rat CyclePack CycleCsr LoadStore LoadStoreSpec Predict CycleBus.

(** ** The shift registers *)
Lemma shift_take_drop {T} (l : list T) i : (i < length l)%nat ->
  cycle_memory.shift i l = take 1 l ++ take i l ++ drop (S i) l.
Proof.
  revert l. induction i as [|i IH]; intros l Hi; cbn [cycle_memory.shift].
  { destruct l; [cbn in Hi; lia | done]. }
  destruct (lookup_lt_is_Some_2 l i ltac:(lia)) as [x Hx]. rewrite Hx.
  rewrite IH by (rewrite length_insert; lia).
  rewrite (drop_S _ x (S i)) by (apply list_lookup_insert_eq; lia).
  rewrite (take_S_r _ _ _ Hx), <- app_assoc. cbn [app]. f_equal; [| f_equal; [| f_equal]].
  - destruct l; [done |]. by rewrite !take_insert_ge by lia.
  - by rewrite take_insert_ge by lia.
  - by rewrite drop_insert_lt by lia.
Qed.

Lemma shift_snoc {T} (l : list T) x h : head (l ++ [x]) = Some h ->
  cycle_memory.shift (length l) (l ++ [x]) = h :: l.
Proof.
  intros Hh. rewrite shift_take_drop by (rewrite length_app; cbn; lia).
  rewrite take_app_length, drop_ge by (rewrite length_app; cbn; lia). rewrite app_nil_r.
  destruct l; cbn in *; by injection Hh as ->.
Qed.

(** ** One turn of the memory *)
Section memory.
Import cycle_memory.
Implicit Types (m : cycle_memory_t) (b : cycle_bus_t).

Definition read_of (r : read_t) : option Z :=
  if read_data_valid r then Some (read_data_value r) else None.
Definition write_of (w : write_t) : option (Z * Z * Z) :=
  if write_data_valid w then Some (write_data_addr w, write_data_value w, write_data_size w) else None.
Definition reads m : list (option Z) := read_of <$> read_data m.
Definition writes m : list (option (Z * Z * Z)) := write_of <$> write_data m.
(** Both latencies are [n]. *)
Record shaped (n : nat) m : Prop := {
  sh_read : data_read_latency m = Z.of_nat n;
  sh_write : data_write_latency m = Z.of_nat n;
  sh_reads : length (reads m) = S n;
  sh_writes : length (writes m) = S n
}.

Definition store_size (sz : Z) : Prop := sz = 1 \/ sz = 2 \/ sz = 4.
(** A store of [sz] bytes at [a] stays in the array. *)
Definition store_fits (mem : IsaBus.memory_t) (a sz : Z) : Prop :=
  store_size sz /\ 0 <= a /\ a + sz <= memory.size mem.
Lemma in_bounds_ok {A} a n mem (x : A) :
  0 <= a -> a + n <= memory.size mem -> memory.in_bounds a n mem x = Ok x.
Proof.
  intros. unfold memory.in_bounds, memory.in_array.
  by replace ((0 <=? a) && (a + n <=? memory.size mem)) with true by lia.
Qed.
Definition store_bytes (a v sz : Z) (mem : IsaBus.memory_t) : IsaBus.memory_t :=
  if sz =? 1 then memory.store8 a v mem
  else if sz =? 2 then memory.store16 a v mem else memory.store32 a v mem.
Definition written (w : option (Z * Z * Z)) (mem : IsaBus.memory_t) : IsaBus.memory_t :=
  match w with Some (a, v, sz) => store_bytes a v sz mem | None => mem end.
Definition answered (r : option Z) b : cycle_bus_t :=
  match r with Some v => cycle_bus.set_data_value v b | None => b end.
Definition acknowledged (w : option (Z * Z * Z)) b : cycle_bus_t :=
  match w with Some _ => cycle_bus.set_data_write_ack bus_errno.none b | None => b end.

Lemma apply_write_spec w m b :
  (forall a v sz, write_of w = Some (a, v, sz) -> store_fits (mem m) a sz) ->
  apply_write w m b = Ok ({ m with mem ::= written (write_of w) }, acknowledged (write_of w) b).
Proof.
  intros H. unfold apply_write, write_of in *. destruct (write_data_valid w); [| by destruct m].
  destruct (H _ _ _ eq_refl) as ([E | [E | E]] & H0 & H1); rewrite E in *; cbn [Z.eqb Pos.eqb];
    unfold _write8_sys, _write16_sys, _write32_sys, memory._write8, memory._write16, memory._write32;
    rewrite in_bounds_ok by done; by destruct m.
Qed.

(** Clearing slot 0 after the shift. *)
Lemma head_cleared {T} (l : list T) x (f : T -> T) h : head (l ++ [x]) = Some h ->
  (r ← arr_get (cycle_memory.shift (length l) (l ++ [x])) 0;
   arr_set (cycle_memory.shift (length l) (l ++ [x])) 0 (f r)) = Ok (f h :: l).
Proof. intros H. rewrite (shift_snoc l x h H). done. Qed.

Lemma fmap_snoc_inv {X Y} (f : X -> Y) (l : list X) k y : f <$> l = k ++ [y] ->
  exists l' x, l = l' ++ [x] /\ f <$> l' = k /\ f x = y.
Proof.
  intros H. apply fmap_app_inv in H as (l1 & l2 & H1 & H2 & ->).
  destruct l2 as [|x [|]]; try done. injection H2 as E. exists l1, x. by rewrite E, H1.
Qed.
Lemma last_slot {T} (l : list T) x n : Z.of_nat (length l) = n -> arr_get (l ++ [x]) n = Ok x.
Proof.
  intros <-. apply arr_get_Some. split; [lia |].
  rewrite Nat2Z.id. by apply list_lookup_middle.
Qed.

(** The oldest requests are answered and the others move on. *)
Lemma run_post_spec n m b rs r ws w : shaped n m ->
  reads m = rs ++ [r] -> writes m = ws ++ [w] ->
  (forall a v sz, w = Some (a, v, sz) -> store_fits (mem m) a sz) ->
  exists m', run_post m b = Ok (m', acknowledged w (answered r b)) /\ shaped n m' /\
    reads m' = None :: rs /\ writes m' = None :: ws /\ mem m' = written w (mem m).
Proof.
  intros [H1 H2 H3 H4] Hr Hw Hsz. unfold reads, writes in *.
  destruct (fmap_snoc_inv _ _ _ _ Hr) as (rl & r0 & Erd & <- & <-).
  destruct (fmap_snoc_inv _ _ _ _ Hw) as (wl & w0 & Ewr & <- & <-).
  rewrite Erd in *. rewrite Ewr in *.
  rewrite length_fmap, length_app in H3. rewrite length_fmap, length_app in H4. cbn in H3, H4.
  assert (Er : length rl = n) by lia. assert (Ew : length wl = n) by lia.
  destruct (head (rl ++ [r0])) as [hr|] eqn:Ehr; [| by destruct rl].
  destruct (head (wl ++ [w0])) as [hw|] eqn:Ehw; [| by destruct wl].
  unfold run_post. rewrite Erd, (last_slot rl r0) by lia. cbn [mbind outcome_bind].
  replace (Z.to_nat (data_read_latency m)) with (length rl) by lia.
  rewrite (head_cleared rl r0 (λ r, { r with read_data_valid := false }) hr Ehr).
  cbn [mbind outcome_bind]. rewrite Ewr, (last_slot wl w0) by lia. cbn [mbind outcome_bind].
  rewrite apply_write_spec by done. cbn [mbind outcome_bind fst snd].
  match goal with |- context [Z.to_nat (data_write_latency ?x)] =>
    change (data_write_latency x) with (data_write_latency m);
    change (write_data x) with (write_data m) end.
  replace (Z.to_nat (data_write_latency m)) with (length wl) by lia. rewrite Ewr.
  rewrite (head_cleared wl w0 (λ w, { w with write_data_valid := false }) hw Ehw).
  cbn [mbind outcome_bind].
  eexists. split; [unfold answered, read_of; by destruct (read_data_valid r0) |].
  destruct m, hr, hw. cbn in *. split_and!; [split; cbn; rewrite ?length_fmap; by auto with lia | done..].
Qed.
End memory.
