(* ===== verification/MemorySpec.v ===== *)
(** * The retired store buffer and the memory act as one array of bytes

    [cycle] is what one turn of [cycle_model::run] does with the retired store
    buffer, the cacheable bus and the memory: commit may push a store, the load
    unit may start a load, then the memory, the buffer and the bus run and the
    clock ticks.  [mem_inv] says which bytes the two hold between them
    ([lm]), which answers are under way ([P]) and in how many cycles without a
    new store the buffer is empty ([N]). *)

From S2P Require Import Prelude Word Ops IsaBus IsaInv Dff Fifo FifoSpec FifoWindow.
From S2P Require Import Rat CyclePack CycleCsr LoadStore LoadStoreSpec Predict CycleBus.
From S2P Require Import CycleBusSpec CycleLsu.

(** ** Bytes *)
Section bytes.
Implicit Type mem : IsaBus.memory_t.

Lemma u8_byte v k : 0 <= k -> u8 (Z.shiftr v (8 * k)) = byte_of v k.
Proof. intros _. unfold u8, byte_of. by rewrite (land_ones_mod _ 8). Qed.

Lemma mem_get_put mem a v x : memory.get (memory.put a v mem) x = if x =? a then v else memory.get mem x.
Proof.
  unfold memory.get, memory.put. cbn. destruct (x =? a) eqn:E.
  - assert (x = a) as -> by lia. by rewrite lookup_insert_eq.
  - rewrite lookup_insert_ne by lia. done.
Qed.

Lemma get_store_bytes mem a v sz x : store_size sz ->
  memory.get (store_bytes a v sz mem) x =
  if covers a sz x then byte_of v (x - a) else memory.get mem x.
Proof.
  assert (H0 : u8 v = byte_of v 0) by (rewrite <- u8_byte, Z.shiftr_0_r by lia; done).
  pose proof (u8_byte v 1 ltac:(lia) : u8 (Z.shiftr v 8) = _) as H1.
  pose proof (u8_byte v 2 ltac:(lia) : u8 (Z.shiftr v 16) = _) as H2.
  pose proof (u8_byte v 3 ltac:(lia) : u8 (Z.shiftr v 24) = _) as H3.
  intros [-> | [-> | ->]]; unfold store_bytes, memory.store8, memory.store16, memory.store32, covers;
    cbn [Z.eqb Pos.eqb]; rewrite !mem_get_put;
    rewrite ?H0, ?H1, ?H2, ?H3.
  all: repeat match goal with |- context [if ?b then _ else _] => destruct b eqn:? end; try done; try lia.
  all: f_equal; lia.
Qed.

Lemma store_bytes_wf mem a v sz : mem_wf mem -> mem_wf (store_bytes a v sz mem).
Proof.
  intros H. unfold store_bytes. destruct (sz =? 1); [by apply mem_wf_write8 |].
  destruct (sz =? 2); [by apply mem_wf_write16 | by apply mem_wf_write32].
Qed.
Lemma store_bytes_size mem a v sz : memory.size (store_bytes a v sz mem) = memory.size mem.
Proof. unfold store_bytes. by destruct (sz =? 1), (sz =? 2). Qed.

(** The word a read of [sz] bytes takes from the array. *)
Definition read_bytes (a sz : Z) mem : Z :=
  if sz =? 1 then memory.load8 a mem
  else if sz =? 2 then memory.load16 a mem else memory.load32 a mem.
Lemma read_bytes_spec mem a sz : mem_wf mem -> store_size sz ->
  is_u32 (read_bytes a sz mem) /\
  forall k, 0 <= k < sz -> byte_of (read_bytes a sz mem) k = memory.get mem (a + k).
Proof.
  intros Hw Hs.
  pose proof (mem_get_u8 mem a Hw). pose proof (mem_get_u8 mem (a + 1) Hw).
  pose proof (mem_get_u8 mem (a + 2) Hw). pose proof (mem_get_u8 mem (a + 3) Hw).
  unfold read_bytes, memory.load8, memory.load16, memory.load32, byte_of.
  rewrite !Z.shiftl_mul_pow2 by lia.
  destruct Hs as [-> | [-> | ->]]; cbn [Z.eqb Pos.eqb]; (split; [word_lia |]); intros k Hk;
    rewrite (land_ones_mod _ 8), Z.shiftr_div_pow2 by (done || lia).
  1: assert (k = 0) as -> by lia.
  2: assert (k = 0 \/ k = 1) as [-> | ->] by lia.
  4: assert (k = 0 \/ k = 1 \/ k = 2 \/ k = 3) as [-> | [-> | [-> | ->]]] by lia.
  all: rewrite ?Z.add_0_r; unfold is_u8 in *; cbn [Z.mul Pos.mul]; change (2 ^ 0) with 1;
    change (2 ^ 8) with 256 in *; change (2 ^ 16) with 65536; change (2 ^ 24) with 16777216; div_lia.
Qed.
End bytes.

(** ** The bus with the memory on it *)
Section ram.
Context (n : nat).
Implicit Types (s : bus_system_t) (m : cycle_memory_t) (b : cycle_bus_t).
#[local] Abbreviation BASE := cycle_system.MEMORY_BASE.
#[local] Abbreviation SIZE := cycle_system.MEMORY_SIZE.

Definition in_ram (a sz : Z) : Prop := store_size sz /\ a mod sz = 0 /\ BASE <= a /\ a + sz <= BASE + SIZE.

Definition mapped b : Prop := cycle_bus.slave_info_list b = [cycle_bus.mk_slave_info BASE SIZE 0 true].
Record bus_ok b : Prop := {
  bo_info : mapped b;
  bo_queue : cycle_bus.sync_request_q b = [];
  bo_revoke : cycle_bus.revoke_data_cnt b = 0;
  bo_quiet : dff.is_changed (cycle_bus.data_value_valid b) = false /\
             dff.is_changed (cycle_bus.data_write_ack b) = false
}.
Record ram_state s m : Prop := {
  rs_bus : mapped (bus_system.bus s);
  rs_slave : exists tm he, bus_system.slaves s = [cycle_slave.mk SIZE tm he (cycle_slave.obj_memory m)];
  rs_shape : shaped n m;
  rs_wf : mem_wf (cycle_memory.mem m)
}.

(** What the registers show after a turn of the bus. *)
Lemma bus_turn b w r : bus_ok b ->
  let b' := cycle_bus.clock (cycle_bus.run (acknowledged w (answered r b))) in
  bus_ok b' /\ cycle_bus.get_data_value b' = r /\
  cycle_bus.get_data_write_ack b' = (λ _, bus_errno.none) <$> w.
Proof using Type.
  intros [H1 H2 H3 [H4 H5]]. destruct b. cbn in *. subst.
  unfold answered, acknowledged, cycle_bus.set_data_value, cycle_bus.clear_unless_changed.
  destruct r, w; cbn; unfold cycle_bus.clear_unless_changed; cbn;
    rewrite ?H4, ?H5; cbn; (split; [by split | done]).
Qed.

Lemma in_ram_found a sz s : in_ram a sz -> mapped (bus_system.bus s) ->
  cycle_bus.find_slave_info a false (bus_system.bus s) = Some (cycle_bus.mk_slave_info BASE SIZE 0 true) /\
  sub32 a BASE = a - BASE /\
  forall tm he o, cycle_slave.check (a - BASE) sz (cycle_slave.mk SIZE tm he o) = true.
Proof using Type.
  intros (Hs & Ha & Hlo & Hhi) Hi. unfold mapped in Hi. unfold cycle_bus.find_slave_info. rewrite Hi.
  unfold BASE, SIZE in *. cbn [find cycle_bus.contains cycle_bus.base cycle_bus.limit cycle_bus.size].
  unfold cycle_bus.contains, cycle_bus.limit. cbn [cycle_bus.base cycle_bus.size].
  change (add32 0x80000000 1048576) with 2148532224.
  assert (0 < sz <= 4) by (destruct Hs as [-> | [-> | ->]]; lia).
  replace ((0x80000000 <=? a) && (a <? 2148532224)) with true by lia. cbn [andb negb orb].
  split; [done |]. split; [apply u32_small; word_lia |]. intros tm he o.
  unfold cycle_slave.check. cbn [cycle_slave.size].
  assert (E : Z.land (a - 0x80000000) (sz - 1) = 0).
  { destruct Hs as [-> | [-> | ->]]; cbn [Z.sub Z.add Z.opp Z.pos_sub Pos.pred_double];
      [by rewrite Z.land_0_r | rewrite (land_ones_mod _ 1) by done | rewrite (land_ones_mod _ 2) by done];
      cbn [Z.pow Z.pow_pos Pos.iter Z.mul Pos.mul]; div_lia. }
  rewrite E. assert (Es : sub32 1048576 (a - 0x80000000) = 1048576 - (a - 0x80000000))
    by (apply u32_small; word_lia).
  rewrite Es. cbn. lia.
Qed.

Lemma in_ram_array m a sz s : ram_state s m -> in_ram a sz ->
  0 <= a - BASE /\ a - BASE + sz <= memory.size (cycle_memory.mem m).
Proof using Type.
  intros [_ _ _ [Hs _]] (_ & _ & Hlo & Hhi). rewrite Hs.
  change IsaModel.MEMORY_SIZE with SIZE. lia.
Qed.

(** An access goes to the memory, with the offset. *)
Lemma ram_access s m a sz call miss m' :
  ram_state s m -> in_ram a sz ->
  (forall tm he, call (a - BASE) (cycle_slave.mk SIZE tm he (cycle_slave.obj_memory m)) (bus_system.bus s) =
     Ok (cycle_slave.mk SIZE tm he (cycle_slave.obj_memory m'), bus_system.bus s)) ->
  shaped n m' -> mem_wf (cycle_memory.mem m') ->
  exists s', bus_system.access a false call miss s = Ok s' /\ ram_state s' m' /\
    bus_system.bus s' = bus_system.bus s.
Proof using Type.
  intros [Hb (tm & he & Es) Hsh Hw] Ha Hf Hsh' Hw'.
  destruct (in_ram_found a sz s Ha Hb) as (Hi & Hoff & _).
  unfold bus_system.access. rewrite Hi, Es. cbn [cycle_bus.slave cycle_bus.base]. rewrite Hoff.
  match goal with |- context [arr_get [?x] 0] => change (arr_get [x] 0) with (Ok x) end.
  cbn [mbind outcome_bind]. rewrite Hf. cbn [mbind outcome_bind fst snd].
  eexists. split; [reflexivity |]. split; [| done]. split; [exact Hb | by exists tm, he | done | done].
Qed.

(** The check of [slave_base] passes. *)
Lemma ram_guarded s m a sz m' b f :
  mapped (bus_system.bus s) -> in_ram a sz ->
  f (cycle_slave.obj_memory m) = Ok (cycle_slave.obj_memory m', b) ->
  forall tm he, cycle_slave.guarded (a - BASE) sz (cycle_slave.mk SIZE tm he (cycle_slave.obj_memory m)) b f =
     Ok (cycle_slave.mk SIZE tm he (cycle_slave.obj_memory m'), b).
Proof using Type.
  intros Hb Ha Hf tm he. destruct (in_ram_found a sz s Ha Hb) as (_ & _ & Hc).
  unfold cycle_slave.guarded. rewrite Hc. cbn [cycle_slave.object]. by rewrite Hf.
Qed.

(** A load request and a store request: only slot 0 of the shift register
    changes. *)
Lemma request_read_spec m v l : shaped n m -> reads m = None :: l ->
  exists m', cycle_memory.request_read v m = Ok m' /\ shaped n m' /\ reads m' = Some v :: l /\
    writes m' = writes m /\ cycle_memory.mem m' = cycle_memory.mem m.
Proof using Type.
  intros [A1 A2 A3 A4] Hr. destruct m as [me rl rd wl wd]. unfold reads, writes in *. cbn in *.
  destruct rd as [|r0 rd]; [done |]. cbn in *. injection Hr as _ Hr. unfold cycle_memory.request_read. cbn.
  eexists. split; [reflexivity |]. rewrite <- Hr. split_and!; try done.
Qed.
Lemma request_write_spec m a v sz l : shaped n m -> writes m = None :: l ->
  exists m', cycle_memory.request_write a v sz m = Ok m' /\ shaped n m' /\
    writes m' = Some (a, v, sz) :: l /\ reads m' = reads m /\
    cycle_memory.mem m' = cycle_memory.mem m.
Proof using Type.
  intros [A1 A2 A3 A4] Hr. destruct m as [me rl rd wl wd]. unfold reads, writes in *. cbn in *.
  destruct wd as [|r0 wd]; [done |]. cbn in *. injection Hr as _ Hr. unfold cycle_memory.request_write. cbn.
  eexists. split; [reflexivity |]. rewrite <- Hr. split_and!; try done.
Qed.

Lemma ram_read s m a sz l : ram_state s m -> in_ram a sz -> reads m = None :: l ->
  exists s' m', lu.read_bus sz a s = Ok s' /\ ram_state s' m' /\ bus_system.bus s' = bus_system.bus s /\
    reads m' = Some (read_bytes (a - BASE) sz (cycle_memory.mem m)) :: l /\
    writes m' = writes m /\ cycle_memory.mem m' = cycle_memory.mem m.
Proof using Type.
  intros H Ha Hr.
  destruct (request_read_spec m (read_bytes (a - BASE) sz (cycle_memory.mem m)) l (rs_shape _ _ H) Hr)
    as (m' & E & Hsh & Hrd & Hwr & Hm).
  assert (Hw' : mem_wf (cycle_memory.mem m')) by (rewrite Hm; apply H).
  pose proof (rs_bus _ _ H) as Hb. pose proof Ha as Hin. unfold lu.read_bus.
  destruct Ha as [[-> | [-> | ->]] Ha]; cbn [Z.eqb Pos.eqb];
    unfold bus_read8, bus_read16, bus_read32; cbn [bus_system_data_bus];
    [unfold bus_system.read8 | unfold bus_system.read16 | unfold bus_system.read32].
  all: edestruct (ram_access s m a) as (s' & Es & Hs' & Eb); [exact H | exact Hin | | exact Hsh | exact Hw' |
    exists s', m'; split; [exact Es | by rewrite Eb]].
  all: intros tm he; apply (ram_guarded s); [done | exact Hin |].
  all: unfold cycle_slave.on_memory; unfold read_bytes in E; cbn [Z.eqb Pos.eqb] in E;
    unfold cycle_memory._read8, cycle_memory._read16, cycle_memory._read32,
      memory._read8, memory._read16, memory._read32;
    rewrite in_bounds_ok by (apply (in_ram_array m a _ s H Hin)); cbn [mbind outcome_bind]; by rewrite E.
Qed.

Definition write_bus (sz a v : Z) (s : bus_system_t) : outcome bus_system_t :=
  if sz =? 1 then bus_write8 a (u8 v) s else if sz =? 2 then bus_write16 a (u16 v) s else bus_write32 a v s.
Definition store_word (sz v : Z) : Z := if sz =? 1 then u8 (u8 v) else if sz =? 2 then u16 (u16 v) else v.
Lemma ram_write s m a v sz l : ram_state s m -> in_ram a sz -> writes m = None :: l ->
  exists s' m', write_bus sz a v s = Ok s' /\ ram_state s' m' /\ bus_system.bus s' = bus_system.bus s /\
    writes m' = Some (a - BASE, store_word sz v, sz) :: l /\
    reads m' = reads m /\ cycle_memory.mem m' = cycle_memory.mem m.
Proof using Type.
  intros H Ha Hr.
  destruct (request_write_spec m (a - BASE) (store_word sz v) sz l (rs_shape _ _ H) Hr)
    as (m' & E & Hsh & Hrd & Hwr & Hm).
  assert (Hw' : mem_wf (cycle_memory.mem m')) by (rewrite Hm; apply H).
  pose proof (rs_bus _ _ H) as Hb. pose proof Ha as Hin. unfold write_bus.
  destruct Ha as [[-> | [-> | ->]] Ha]; cbn [Z.eqb Pos.eqb];
    unfold bus_write8, bus_write16, bus_write32; cbn [bus_system_data_bus];
    [unfold bus_system.write8 | unfold bus_system.write16 | unfold bus_system.write32].
  all: edestruct (ram_access s m a) as (s' & Es & Hs' & Eb); [exact H | exact Hin | | exact Hsh | exact Hw' |
    exists s', m'; split; [exact Es | by rewrite Eb]].
  all: intros tm he; apply (ram_guarded s); [done | exact Hin |].
  all: unfold cycle_slave.on_memory; unfold store_word in E; cbn [Z.eqb Pos.eqb] in E;
    unfold cycle_memory._write8, cycle_memory._write16, cycle_memory._write32; by rewrite E.
Qed.

(** The turn of the memory, whose oldest requests are answered, and the turn of
    the bus. *)
Lemma ram_run_post s m rs r ws w : ram_state s m ->
  reads m = rs ++ [r] -> writes m = ws ++ [w] ->
  (forall a v sz, w = Some (a, v, sz) -> store_fits (cycle_memory.mem m) a sz) ->
  exists s' m', bus_system.run_post 0 s = Ok s' /\ ram_state s' m' /\
    bus_system.bus s' = acknowledged w (answered r (bus_system.bus s)) /\
    reads m' = None :: rs /\ writes m' = None :: ws /\
    cycle_memory.mem m' = written w (cycle_memory.mem m).
Proof using Type.
  intros [Hb (tm & he & Es) Hsh Hw] Hr Hws Hsz.
  destruct (run_post_spec n m (bus_system.bus s) rs r ws w Hsh Hr Hws Hsz)
    as (m' & E & Hsh' & Hr' & Hw' & Hm').
  unfold bus_system.run_post. rewrite Es.
  match goal with |- context [arr_get [?x] 0] => change (arr_get [x] 0) with (Ok x) end.
  cbn [mbind outcome_bind cycle_slave.object]. rewrite E. cbn [mbind outcome_bind fst snd].
  eexists _, m'. split; [reflexivity |]. cbn [bus_system.bus]. split; [| done].
  split; [| by exists tm, he | done |].
  - unfold mapped in *. rewrite <- Hb. destruct w, r; try done; cbn;
      unfold cycle_bus.set_data_value; by destruct (_ <? _).
  - rewrite Hm'. destruct w as [[[a v] sz]|]; [by apply store_bytes_wf | done].
Qed.

Definition finish (s : bus_system_t) : outcome bus_system_t :=
  s ← bus_system.sync (bus_system.run s); Ok (bus_system.clock s).
Lemma finish_spec s m b0 w r : ram_state s m -> bus_ok b0 ->
  bus_system.bus s = acknowledged w (answered r b0) ->
  exists s', finish s = Ok s' /\ ram_state s' m /\ bus_ok (bus_system.bus s') /\
    cycle_bus.get_data_value (bus_system.bus s') = r /\
    cycle_bus.get_data_write_ack (bus_system.bus s') = (λ _, bus_errno.none) <$> w.
Proof using Type.
  intros [Hb (tm & he & Es) Hsh Hw] H0 Eb.
  destruct (bus_turn b0 w r H0) as (B1 & B2 & B3). rewrite <- Eb in B1, B2, B3.
  set (b := bus_system.bus s) in *.
  assert (Eq : cycle_bus.sync_request_q (cycle_bus.run b) = []) by exact (bo_queue _ B1).
  assert (Ef : finish s = Ok (bus_system.mk (cycle_bus.clock (cycle_bus.run b))
      (bus_system.clock_slave <$> bus_system.slaves s))).
  { unfold finish, bus_system.sync, bus_system.run, b in *. clear - Eq.
    destruct s as [[] l]. cbn in Eq |- *. by rewrite Eq. }
  rewrite Ef. eexists. split; [reflexivity |]. cbn [bus_system.bus].
  split; [| done]. split; cbn [bus_system.bus bus_system.slaves]; [apply B1 | | done | done].
  exists tm, he. by rewrite Es.
Qed.

(** What a turn has for the next cycle does not show in this one. *)
Lemma current_ack w r b : cycle_bus.get_data_write_ack (acknowledged w (answered r b)) =
  cycle_bus.get_data_write_ack b.
Proof using Type.
  unfold acknowledged, answered, cycle_bus.set_data_value.
  destruct w, r; try destruct (_ <? _); done.
Qed.
End ram.
