(* ===== verification/MemoryTrace.v ===== *)
(** * The retired store buffer and the memory over many cycles

    [cycle] makes the calls of [cycle_model::run] that touch the retired store
    buffer, the cacheable bus and the memory, in its order: commit offers
    stores, the load unit may start a load, then the memory, the buffer and the
    bus have their turn and the clock ticks.

    [mem_inv] follows the store in flight; [contents] is the array of bytes that
    buffer and memory hold between them. *)

From S2P Require Import Prelude Word Ops IsaBus IsaInv Dff Fifo FifoSpec FifoWindow.
From S2P Require Import Rat CyclePack CycleCsr LoadStore LoadStoreSpec Predict CycleBus.
From S2P Require Import CycleBusSpec CycleLsu MemorySpec.

#[local] Abbreviation item_t := retired_store_buffer.item_t.

(** ** One cycle *)
Record event_t := mk_event { offered : list item_t; load : option (Z * Z) }.
Record state_t := mk_state { rsb : retired_store_buffer_t; sys : bus_system_t }.
(** The stores that were taken, what the buffer has for the load, and the
    answer the bus shows in this cycle. *)
Record output_t := mk_output { taken : list item_t; found : option (Z * Z); answer : option Z }.

(** Commit pushes until the buffer is full. *)
Fixpoint push_all (l : list item_t) (f : fifo_t item_t) : outcome (list item_t * fifo_t item_t) :=
  match l with
  | [] => Ok ([], f)
  | x :: l =>
      if fifo.producer_is_full f then Ok ([], f)
      else
        bf ← fifo.push x f;
        verify (bf.1 : bool) ;;
        r ← push_all l bf.2;
        Ok (x :: r.1, r.2)
  end.
Definition start_load (ld : option (Z * Z)) (st : state_t) : outcome (option (Z * Z) * bus_system_t) :=
  match ld with
  | Some (a, sz) =>
      acc ← retired_store_buffer.get_feedback_value a sz (rsb st);
      s ← lu.read_bus sz a (sys st);
      Ok (Some acc, s)
  | None => Ok (None, sys st)
  end.
Definition cycle (e : event_t) (st : state_t) : outcome (output_t * state_t) :=
  let ans := bus_data_value (sys st) in
  tf ← push_all (offered e) (retired_store_buffer.base (rsb st));
  let b := { rsb st with retired_store_buffer.base := tf.2 } in
  ls ← start_load (load e) (mk_state b (sys st));
  s ← bus_system.run_post 0 ls.2;
  bs ← retired_store_buffer.run b s;
  s ← finish bs.2;
  Ok (mk_output tf.1 ls.1 ans, mk_state (retired_store_buffer.sync bs.1) s).
Fixpoint cycles (l : list event_t) (st : state_t) : outcome (list output_t * state_t) :=
  match l with
  | [] => Ok ([], st)
  | e :: l => os ← cycle e st; r ← cycles l os.2; Ok (os.1 :: r.1, r.2)
  end.
Definition idle : event_t := mk_event [] None.

(** ** What buffer and memory hold *)
Section contents.
Context (n : nat).
#[local] Abbreviation BASE := cycle_system.MEMORY_BASE.
Implicit Types (q : list item_t) (i : item_t) (mem : IsaBus.memory_t) (m : cycle_memory_t).

Definition contents q mem (x : Z) : Z := default (memory.get mem (x - BASE)) (retired_forwarded q x).
Definition store_of i (w : Z -> Z) (x : Z) : Z :=
  if covers (retired_store_buffer.addr i) (retired_store_buffer.size i) x
  then byte_of (retired_store_buffer.data i) (x - retired_store_buffer.addr i) else w x.
(** The stores of a list, the first one first. *)
Definition stores (l : list item_t) (w : Z -> Z) : Z -> Z := foldl (λ w i, store_of i w) w l.

Definition item_ok i : Prop :=
  in_ram (retired_store_buffer.addr i) (retired_store_buffer.size i) /\
  is_u32 (retired_store_buffer.data i).
Definition request i : Z * Z * Z :=
  (retired_store_buffer.addr i - BASE,
   store_word (retired_store_buffer.size i) (retired_store_buffer.data i), retired_store_buffer.size i).

Lemma item_retired_ok i : item_ok i -> retired_ok i.
Proof using Type.
  intros [(Hs & _ & Hlo & Hhi) Hd]. unfold retired_ok.
  assert (1 <= retired_store_buffer.size i <= 4) by (destruct Hs as [-> | [-> | ->]]; lia).
  unfold cycle_system.MEMORY_BASE, cycle_system.MEMORY_SIZE in *. split_and!; try done; word_lia.
Qed.

Lemma store_word_byte sz v k : store_size sz -> 0 <= k < sz -> byte_of (store_word sz v) k = byte_of v k.
Proof using Type.
  intros Hs Hk. unfold store_word.
  destruct Hs as [-> | [-> | ->]]; cbn [Z.eqb Pos.eqb]; [| | done]; unfold u8, u16; rewrite Zmod_mod.
  - change 256 with (2 ^ 8). apply Z.bits_inj'. intros j Hj. rewrite !byte_bits by lia.
    destruct (j <? 8) eqn:E; [| done]. by rewrite Z.mod_pow2_bits_low by lia.
  - change 65536 with (2 ^ 16). apply Z.bits_inj'. intros j Hj. rewrite !byte_bits by lia.
    destruct (j <? 8) eqn:E; [| done]. by rewrite Z.mod_pow2_bits_low by lia.
Qed.

(** The byte a queue with one more element has. *)
Lemma contents_snoc q i mem x : contents (q ++ [i]) mem x = store_of i (contents q mem) x.
Proof using Type.
  unfold contents, store_of. rewrite retired_snoc. unfold overlay, covers. by destruct (_ && _).
Qed.
Lemma contents_app q l mem x : contents (q ++ l) mem x = stores l (contents q mem) x.
Proof using Type.
  revert x. induction l as [|i l IH] using rev_ind; intros x; [by rewrite app_nil_r |].
  rewrite app_assoc, contents_snoc. unfold stores. rewrite foldl_app. cbn.
  unfold store_of at 1 2. by destruct (covers _ _ x).
Qed.

Lemma retired_cons i l x : retired_forwarded (i :: l) x =
  match retired_forwarded l x with Some b => Some b | None => retired_supplies x i end.
Proof using Type.
  unfold retired_forwarded. cbn [omap list_omap]. destruct (retired_supplies x i) as [b|].
  - rewrite last_cons. by destruct (last _).
  - by destruct (last _).
Qed.
Lemma byte_written mem i x : item_ok i -> BASE <= x ->
  memory.get (written (Some (request i)) mem) (x - BASE) = store_of i (λ x, memory.get mem (x - BASE)) x.
Proof using Type.
  intros [(Hs & _ & Hlo & _) _] Hx. unfold request, store_of. cbn [written].
  rewrite get_store_bytes by done.
  unfold covers. set (a := retired_store_buffer.addr i). set (z := retired_store_buffer.size i).
  replace ((a - BASE <=? x - BASE) && (x - BASE <? a - BASE + z)) with ((a <=? x) && (x <? a + z)) by lia.
  destruct (_ && _) eqn:E; [| done]. replace (x - BASE - (a - BASE)) with (x - a) by lia.
  apply store_word_byte; [done | lia].
Qed.
(** The front's store may be made in memory, and then the element may go. *)
Lemma contents_written i l mem x : item_ok i -> BASE <= x ->
  contents (i :: l) (written (Some (request i)) mem) x = contents (i :: l) mem x.
Proof using Type.
  intros Hi Hx. unfold contents. rewrite byte_written by done. rewrite !retired_cons.
  unfold retired_supplies, store_of. destruct (retired_forwarded l x); [done |]. by destruct (covers _ _ x).
Qed.
Definition front_written i mem : Prop :=
  forall x, BASE <= x -> covers (retired_store_buffer.addr i) (retired_store_buffer.size i) x ->
  memory.get mem (x - BASE) = byte_of (retired_store_buffer.data i) (x - retired_store_buffer.addr i).
Lemma front_written_after i mem : item_ok i -> front_written i (written (Some (request i)) mem).
Proof using Type.
  intros Hi x Hx Hc. rewrite byte_written by done. unfold store_of. by destruct (covers _ _ x).
Qed.
Lemma contents_popped i l mem x : front_written i mem -> BASE <= x ->
  contents l mem x = contents (i :: l) mem x.
Proof using Type.
  intros Hi Hx. unfold contents. rewrite retired_cons. unfold retired_supplies.
  destruct (retired_forwarded l x); [done |]. destruct (covers _ _ x) eqn:E; [| done].
  cbn. apply Hi; [done | by rewrite E].
Qed.

(** ** The store in flight *)
Inductive phase_t := Idle | Busy (p : nat) | Acked.
Definition in_flight (waiting : bool) (ack : option bus_errno.bus_errno_t) q (ph : phase_t) m : Prop :=
  match ph with
  | Idle => waiting = false /\ ack = None /\ writes m = replicate (S n) None
  | Busy p => waiting = true /\ ack = None /\ (p <= n)%nat /\
      exists i l, q = i :: l /\ writes m = replicate (n - p) None ++ Some (request i) :: replicate p None
  | Acked => waiting = true /\ ack = Some bus_errno.none /\ writes m = replicate (S n) None /\
      exists i l, q = i :: l /\ front_written i (cycle_memory.mem m)
  end.
(** Cycles without a new store until [k] elements are in memory. *)
Definition remaining (ph : phase_t) (k : nat) : nat :=
  match ph, k with
  | Idle, O => 0
  | Idle, S k => S (S n + 1 + (n + 2) * k)
  | Busy p, S k => p + 2 + (n + 2) * k
  | Acked, S k => 1 + (n + 2) * k
  | _, O => 0
  end.

Record mem_inv (st : state_t) q (ph : phase_t) (P : list (option Z)) m : Prop := {
  mi_ram : ram_state n (sys st) m;
  mi_bus : bus_ok (bus_system.bus (sys st));
  mi_queue : repr (retired_store_buffer.base (rsb st)) (mk_queue 0 q []);
  mi_items : Forall item_ok q;
  mi_answers : exists rl, reads m = None :: rl /\ P = bus_data_value (sys st) :: rev rl;
  mi_phase : in_flight (retired_store_buffer.is_waiting_ack (rsb st)) (bus_write_ack (sys st)) q ph m
}.
End contents.

(** ** The parts of a cycle *)
Section parts.
Context (n : nat).
Implicit Types (q t : list item_t) (i : item_t) (s : bus_system_t) (m : cycle_memory_t).

Lemma push_all_spec l f q t : repr f (mk_queue 0 q t) -> exists tk f', push_all l f = Ok (tk, f') /\
  repr f' (mk_queue 0 q (t ++ tk)) /\ tk `prefix_of` l.
Proof using Type.
  revert f t. induction l as [|x l IH]; intros f t [R H]; cbn [push_all].
  { exists [], f. rewrite app_nil_r. split_and!; [done | by exists R | done]. }
  rewrite (producer_full f _ R H). pose proof (push_spec_at f _ R H x) as Hp. cbn [q_popped q_view q_fresh] in *.
  destruct (_ =? _) eqn:E.
  { exists [], f. rewrite app_nil_r. split_and!; [done | by exists R | apply prefix_nil]. }
  destruct Hp as (f' & -> & Hf & _). cbn [mbind outcome_bind fst snd].
  destruct (IH f' (t ++ [x]) ltac:(by exists R)) as (tk & f'' & E' & Hf' & Hpre).
  cbn. rewrite E'. cbn. exists (x :: tk), f''. rewrite <- app_assoc in Hf'. split_and!; try done.
  by apply prefix_cons.
Qed.

(** The load of this cycle reads the memory and the buffer as they are. *)
Definition load_ok (ld : option (Z * Z)) : Prop :=
  match ld with Some (a, sz) => in_ram a sz | None => True end.
Definition merged (acc : Z * Z) (v : Z) : Z := Z.lor (Z.land v (not32 acc.2)) acc.1.
Definition loaded (ld : option (Z * Z)) (found : option (Z * Z)) (v : option Z) (w : Z -> Z) : Prop :=
  match ld with
  | Some (a, sz) => exists acc d, found = Some acc /\ v = Some d /\
      forall k, 0 <= k < sz -> byte_of (merged acc d) k = w (a + k)
  | None => found = None /\ v = None
  end.
Lemma start_load_spec ld b s m q t l : load_ok ld ->
  repr (retired_store_buffer.base b) (mk_queue 0 q t) -> Forall item_ok (q ++ t) ->
  ram_state n s m -> reads m = None :: l ->
  exists fd v s' m', start_load ld (mk_state b s) = Ok (fd, s') /\ ram_state n s' m' /\
    bus_system.bus s' = bus_system.bus s /\ reads m' = v :: l /\ writes m' = writes m /\
    cycle_memory.mem m' = cycle_memory.mem m /\
    loaded ld fd v (contents (q ++ t) (cycle_memory.mem m)).
Proof using Type.
  intros Hld [R Hq] Hi Hs Hr. destruct ld as [[a sz]|]; cbn [start_load load_ok] in *.
  2: { exists None, None, s, m. split_and!; done. }
  destruct (ram_read n s m a sz l Hs Hld Hr) as (s' & m' & E & Hs' & Hb & Hr' & Hw' & Hm').
  pose proof Hld as (Hsz & _ & Hlo & Hhi).
  assert (1 <= sz <= 4) by (destruct Hsz as [-> | [-> | ->]]; lia).
  assert (0 <= a /\ a + sz < two32).
  { unfold cycle_system.MEMORY_BASE, cycle_system.MEMORY_SIZE in *. word_lia. }
  pose proof (repr_window _ _ _ Hq eq_refl : window _ _ (q ++ t)) as Hwin.
  destruct (retired_feedback a sz ltac:(lia) ltac:(lia) ltac:(lia) b R (q ++ t) Hwin) as (acc & Ea & Hacc).
  { eapply Forall_impl; [exact Hi | apply item_retired_ok]. }
  cbn [rsb sys]. rewrite Ea. cbn [mbind outcome_bind]. rewrite E. cbn [mbind outcome_bind].
  exists (Some acc), (Some (read_bytes (a - cycle_system.MEMORY_BASE) sz (cycle_memory.mem m))), s', m'.
  split_and!; try done. eexists _, _. split_and!; [done.. |]. intros k Hk.
  destruct (read_bytes_spec (cycle_memory.mem m) (a - cycle_system.MEMORY_BASE) sz) as [Hu Hb'];
    [apply Hs | done |].
  unfold merged. rewrite (overlay_byte a sz ltac:(lia) (retired_forwarded (q ++ t))) by
    (done || lia || (intros ?; apply retired_range)).
  unfold contents. rewrite Hb' by done. do 2 f_equal. lia.
Qed.

(** The next store leaves for the memory, if there is one. *)
Lemma start_next f s m c q t : repr f (mk_queue c q t) -> Forall item_ok q ->
  ram_state n s m -> writes m = replicate (S n) None ->
  exists b' s' m' ph, retired_store_buffer.send_write (retired_store_buffer.mk f false) s = Ok (b', s') /\
    retired_store_buffer.base b' = f /\ ram_state n s' m' /\ bus_system.bus s' = bus_system.bus s /\
    reads m' = reads m /\ cycle_memory.mem m' = cycle_memory.mem m /\
    in_flight n (retired_store_buffer.is_waiting_ack b') None (q ++ t) ph m' /\
    (t = [] -> remaining n ph (length q) = pred (remaining n Idle (length q))).
Proof using Type.
  intros [R Hq] Hi Hs Hw. unfold retired_store_buffer.send_write. cbn [negb retired_store_buffer.is_waiting_ack
    retired_store_buffer.base].
  destruct q as [|i q].
  - exists (retired_store_buffer.mk f false), s, m, Idle.
    unfold fifo.customer_get_front. rewrite (customer_empty f _ R Hq). cbn. split_and!; done.
  - rewrite (front_spec f _ R Hq i q eq_refl). cbn [mbind outcome_bind].
    apply Forall_cons in Hi as [[Hin Hd] Hi].
    destruct (ram_write n s m (retired_store_buffer.addr i) (retired_store_buffer.data i)
      (retired_store_buffer.size i) _ Hs Hin Hw) as (s' & m' & E & Hs' & Hb & Hw' & Hr' & Hm').
    unfold write_bus in E. rewrite E.
    replace ((retired_store_buffer.size i =? 1) || (retired_store_buffer.size i =? 2) ||
      (retired_store_buffer.size i =? 4)) with true by (destruct Hin as [[-> | [-> | ->]] _]; done).
    cbn [mbind outcome_bind].
    exists (retired_store_buffer.mk f true), s', m', (Busy n). split_and!; try done.
    + cbn [in_flight retired_store_buffer.is_waiting_ack]. split_and!; [done.. |].
      exists i, (q ++ t). split; [done |]. rewrite Nat.sub_diag. exact Hw'.
    + intros _. cbn [remaining length pred]. lia.
Qed.

Lemma replicate_snoc {T} k (x : T) : replicate (S k) x = replicate k x ++ [x].
Proof using Type. by rewrite replicate_S_end. Qed.

(** What the memory and the buffer do in their turn, by phase. *)
Record turned (b' : retired_store_buffer_t) s' q t ph r rs b0 mem (m' : cycle_memory_t) q' ph' : Prop := {
  td_ram : ram_state n s' m';
  td_reads : reads m' = None :: rs;
  td_queue : exists c, repr (retired_store_buffer.base b') (mk_queue c q' t);
  td_items : q' = q \/ exists i, q = i :: q';
  td_same : forall x, cycle_system.MEMORY_BASE <= x ->
    contents (q' ++ t) (cycle_memory.mem m') x = contents (q ++ t) mem x;
  td_flight : exists w, bus_system.bus s' = acknowledged w (answered r b0) /\
    in_flight n (retired_store_buffer.is_waiting_ack b') ((λ _, bus_errno.none) <$> w) (q' ++ t) ph' m';
  td_rest : t = [] -> remaining n ph' (length q') = pred (remaining n ph (length q))
}.
Section turn.
Context b s m q t r rs (Hq : repr (retired_store_buffer.base b) (mk_queue 0 q t))
  (Hi : Forall item_ok (q ++ t)) (Hs : ram_state n s m) (Hr : reads m = rs ++ [r]).
#[local] Abbreviation ack := (cycle_bus.get_data_write_ack (bus_system.bus s)).
#[local] Abbreviation goal ph := (exists s1 b' s' m' q' ph',
  bus_system.run_post 0 s = Ok s1 /\ retired_store_buffer.run b s1 = Ok (b', s') /\
  turned b' s' q t ph r rs (bus_system.bus s) (cycle_memory.mem m) m' q' ph').

Lemma idle_turn : in_flight n (retired_store_buffer.is_waiting_ack b) ack (q ++ t) Idle m -> goal Idle.
Proof using Hq Hi Hs Hr.
  intros (Hwait & _ & Hw). rewrite replicate_snoc in Hw.
  destruct (ram_run_post n s m rs r _ None Hs Hr Hw ltac:(done)) as (s1 & m1 & E1 & Hs1 & Hb1 & Hr1 & Hw1 & Hm1).
  destruct b as [f w]. cbn in Hwait, Hq. subst w.
  apply Forall_app in Hi as [Hi' _].
  destruct (start_next f s1 m1 0 q t Hq Hi' Hs1 Hw1) as (b' & s' & m' & ph & E2 & Hf & Hs' & Hb' & Hr' & Hm' & Hfl & Hn).
  exists s1, b', s', m', q, ph. split_and!; [done | by apply E2 |]. split.
  - done.
  - by rewrite Hr'.
  - exists 0. by rewrite Hf.
  - by left.
  - intros x _. by rewrite Hm', Hm1.
  - exists None. rewrite Hb'. done.
  - intros Ht. rewrite Hn by done. done.
Qed.

Lemma busy_turn p : in_flight n (retired_store_buffer.is_waiting_ack b) ack (q ++ t) (Busy p) m ->
  q <> [] -> goal (Busy p).
Proof using Hq Hi Hs Hr.
  intros (Hwait & Hack & Hp & i & l & El & Hw) Hne.
  assert (Hrun : forall s1 w, bus_system.bus s1 = acknowledged w (answered r (bus_system.bus s)) ->
    retired_store_buffer.run b s1 = Ok (b, s1)).
  { intros s1 w Hb1. unfold retired_store_buffer.run, retired_store_buffer.take_ack, bus_write_ack.
    cbn [bus_system_data_bus]. rewrite Hb1, current_ack, Hack, Hwait. cbn.
    unfold retired_store_buffer.send_write. by rewrite Hwait. }
  destruct p as [|p].
  - assert (Hio : item_ok i) by (rewrite El in Hi; by apply Forall_cons in Hi as [? _]).
    destruct (ram_run_post n s m rs r _ (Some (request i)) Hs Hr Hw) as
      (s1 & m1 & E1 & Hs1 & Hb1 & Hr1 & Hw1 & Hm1); [intros ??? [= <- <- <-]; split; [apply Hio | apply (in_ram_array n m _ _ s Hs), Hio] |].
    exists s1, b, s1, m1, q, Acked. split_and!; [done | by eapply Hrun |]. split; try done.
    + by exists 0.
    + by left.
    + intros x Hx. rewrite Hm1, El. by apply contents_written.
    + exists (Some (request i)). split; [done |]. cbn. rewrite Nat.sub_0_r in Hw1. split_and!; try done.
      exists i, l. split; [done |]. rewrite Hm1. by apply front_written_after.
    + intros _. destruct q; [done |]. cbn. lia.
  - assert (Hw' : writes m = (replicate (n - S p) None ++ Some (request i) :: replicate p None) ++ [None]).
    { rewrite Hw, replicate_snoc, <- app_assoc. done. }
    destruct (ram_run_post n s m rs r _ None Hs Hr Hw' ltac:(done)) as
      (s1 & m1 & E1 & Hs1 & Hb1 & Hr1 & Hw1 & Hm1).
    exists s1, b, s1, m1, q, (Busy p). split_and!; [done | by eapply Hrun |]. split; try done.
    + by exists 0.
    + by left.
    + intros x Hx. by rewrite Hm1.
    + exists None. split; [done |]. cbn. split_and!; try done; [lia |].
      exists i, l. split; [done |]. rewrite Hw1. by replace (n - p)%nat with (S (n - S p)) by lia.
    + intros _. destruct q; [done |]. cbn. lia.
Qed.

Lemma acked_turn : in_flight n (retired_store_buffer.is_waiting_ack b) ack (q ++ t) Acked m ->
  q <> [] -> goal Acked.
Proof using Hq Hi Hs Hr.
  intros (Hwait & Hack & Hw & i & l & El & Hfw) Hne. rewrite replicate_snoc in Hw.
  destruct (ram_run_post n s m rs r _ None Hs Hr Hw ltac:(done)) as (s1 & m1 & E1 & Hs1 & Hb1 & Hr1 & Hw1 & Hm1).
  destruct q as [|j q'] eqn:Eq; [done |]. cbn in El. injection El as -> El.
  destruct Hq as [R Hq']. pose proof (pop_spec_at _ _ _ Hq') as Hp. cbn in Hp.
  destruct Hp as (f' & Ep & Hf' & _).
  assert (Hi' : Forall item_ok q') by (apply Forall_cons in Hi as [_ Hi]; by apply Forall_app in Hi as [? _]).
  destruct (start_next f' s1 m1 1 q' t ltac:(by exists R) Hi' Hs1 Hw1) as
    (b' & s' & m' & ph & E2 & Hf & Hs' & Hb' & Hr' & Hm' & Hfl & Hn).
  exists s1, b', s', m', q', ph. split_and!; [done | |].
  { unfold retired_store_buffer.run, retired_store_buffer.take_ack, bus_write_ack.
    cbn [bus_system_data_bus]. rewrite Hb1, current_ack, Hack, Hwait, Ep. done. }
  split.
  - done.
  - by rewrite Hr'.
  - exists 1. rewrite Hf. by exists R.
  - right. by exists i.
  - intros x Hx. rewrite Hm', Hm1. cbn [app]. by apply contents_popped.
  - exists None. rewrite Hb'. done.
  - intros Ht. rewrite Hn by done. destruct q'; cbn; lia.
Qed.
End turn.
End parts.

(** ** A whole cycle, and any number of them *)
Section trace.
Context (n : nat).
Implicit Types (q : list item_t) (st : state_t) (e : event_t) (P : list (option Z)).

Definition event_ok e : Prop := Forall item_ok (offered e) /\ load_ok (load e).

Lemma in_flight_app w a q t ph m m' : in_flight n w a q ph m ->
  writes m' = writes m -> cycle_memory.mem m' = cycle_memory.mem m ->
  in_flight n w a (q ++ t) ph m' /\ (ph <> Idle -> q <> []).
Proof using Type.
  intros H Hw Hm. destruct ph; cbn in *; rewrite Hw, ?Hm; split; try done.
  - destruct H as (H1 & H2 & H3 & i & l & -> & H4). split_and!; try done. by exists i, (l ++ t).
  - destruct H as (_ & _ & _ & i & l & -> & _). done.
  - destruct H as (H1 & H2 & H3 & i & l & -> & H4). split_and!; try done. by exists i, (l ++ t).
  - destruct H as (_ & _ & _ & i & l & -> & _). done.
Qed.

Lemma turn_spec b s m q t ph r rs : repr (retired_store_buffer.base b) (mk_queue 0 q t) ->
  Forall item_ok (q ++ t) -> ram_state n s m -> reads m = rs ++ [r] ->
  in_flight n (retired_store_buffer.is_waiting_ack b) (cycle_bus.get_data_write_ack (bus_system.bus s))
    (q ++ t) ph m -> (ph <> Idle -> q <> []) ->
  exists s1 b' s' m' q' ph', bus_system.run_post 0 s = Ok s1 /\
    retired_store_buffer.run b s1 = Ok (b', s') /\
    turned n b' s' q t ph r rs (bus_system.bus s) (cycle_memory.mem m) m' q' ph'.
Proof using Type.
  intros H1 H2 H3 H4 H5 H6. destruct ph as [|p|].
  - by apply idle_turn.
  - apply busy_turn; try done. by apply H6.
  - apply acked_turn; try done. by apply H6.
Qed.

Record cycled e st q ph P mem o st' q' ph' P' (m' : cycle_memory_t) : Prop := {
  cy_inv : mem_inv n st' q' ph' P' m';
  cy_taken : taken o `prefix_of` offered e;
  cy_answer : P' <> [] -> Some (answer o) = head P;
  cy_contents : forall x, cycle_system.MEMORY_BASE <= x ->
    contents q' (cycle_memory.mem m') x = stores (taken o) (contents q mem) x;
  cy_load : exists v, P' = tail P ++ [v] /\ loaded (load e) (found o) v (stores (taken o) (contents q mem));
  cy_rest : offered e = [] -> remaining n ph' (length q') = pred (remaining n ph (length q))
}.
Lemma loaded_ext ld fd v w w' : load_ok ld ->
  (forall x, cycle_system.MEMORY_BASE <= x -> w x = w' x) -> loaded ld fd v w -> loaded ld fd v w'.
Proof using Type.
  intros Hld He. destruct ld as [[a sz]|]; [| done]. intros (acc & d & H1 & H2 & H3).
  exists acc, d. split_and!; try done. intros k Hk. rewrite H3 by done. apply He.
  destruct Hld as (_ & _ & Hlo & _). lia.
Qed.

Lemma cycle_spec e st q ph P m : mem_inv n st q ph P m -> event_ok e ->
  exists o st' q' ph' P' m', cycle e st = Ok (o, st') /\
    cycled e st q ph P (cycle_memory.mem m) o st' q' ph' P' m'.
Proof using Type.
  intros [Hram Hbus Hq Hi (rl & Hr & HP) Hfl] [Ho Hld]. destruct st as [b s]. cbn [rsb sys] in *.
  unfold cycle. cbn [rsb sys].
  destruct (push_all_spec (offered e) _ q [] Hq) as (tk & f & E1 & Hf & Hpre). rewrite E1.
  cbn [mbind outcome_bind fst snd app] in *.
  set (b1 := { b with retired_store_buffer.base := f }).
  assert (Hb1 : retired_store_buffer.base b1 = f /\
    retired_store_buffer.is_waiting_ack b1 = retired_store_buffer.is_waiting_ack b) by by destruct b.
  destruct Hb1 as [Hbf Hbw]. rewrite <- Hbf in Hf.
  assert (Hi' : Forall item_ok (q ++ tk)).
  { apply Forall_app. split; [done |]. destruct Hpre as [l' El]. rewrite El in Ho. by apply Forall_app in Ho as [? _]. }
  destruct (start_load_spec n (load e) b1 s m q tk rl Hld Hf Hi' Hram Hr)
    as (fd & v & s1 & m1 & E2 & Hs1 & Eb1 & Hr1 & Hw1 & Hm1 & Hload).
  rewrite E2. cbn [mbind outcome_bind fst snd].
  destruct (in_flight_app _ _ _ tk _ m m1 Hfl Hw1 Hm1) as [Hfl1 Hne].
  rewrite <- Hbw in Hfl1. unfold bus_write_ack in Hfl1. cbn [bus_system_data_bus] in Hfl1. rewrite <- Eb1 in Hfl1.
  destruct (exists_last (l := v :: rl) ltac:(done)) as (rs & r & Ers). rewrite Ers in Hr1.
  destruct (turn_spec b1 s1 m1 q tk ph r rs Hf Hi' Hs1 Hr1 Hfl1 Hne)
    as (s2 & b2 & s3 & m3 & q3 & ph3 & E3 & E4 & [T1 T2 (c & T3) T4 T5 (w & T6 & T7) T8]).
  rewrite E3. cbn [mbind outcome_bind]. rewrite E4. cbn [mbind outcome_bind fst snd].
  rewrite Eb1 in T6.
  destruct (finish_spec n s3 m3 _ w r T1 Hbus T6) as (s4 & E5 & F1 & F2 & F3 & F4).
  rewrite E5. cbn [mbind outcome_bind].
  assert (Hsame : forall x, cycle_system.MEMORY_BASE <= x ->
    contents (q3 ++ tk) (cycle_memory.mem m3) x = stores tk (contents q (cycle_memory.mem m)) x).
  { intros x Hx. rewrite T5, Hm1 by done. apply contents_app. }
  exists (mk_output tk fd (bus_data_value s)), (mk_state (retired_store_buffer.sync b2) s4),
    (q3 ++ tk), ph3, (r :: rev rs), m3.
  split; [done |]. split.
  - split; cbn [rsb sys].
    + done.
    + done.
    + destruct T3 as [R T3]. exists (R + c). by apply (sync_spec_at _ _ _ T3).
    + apply Forall_app in Hi' as [Hq' Htk]. apply Forall_app. split; [| done].
      destruct T4 as [-> | [i ->]]; [done |]. by apply Forall_cons in Hq' as [_ ?].
    + exists rs. split; [done |]. unfold bus_data_value. cbn [bus_system_data_bus]. by rewrite F3.
    + unfold bus_write_ack. cbn [bus_system_data_bus]. rewrite F4. by destruct b2.
  - done.
  - intros _. by rewrite HP.
  - exact Hsame.
  - exists v. split.
    + rewrite HP. cbn [tail]. apply (f_equal (@rev _)) in Ers. cbn in Ers. rewrite rev_app_distr in Ers. done.
    + cbn [taken found]. eapply loaded_ext; [done | | exact Hload]. intros x _. apply contents_app.
  - intros He. rewrite He in Hpre. apply prefix_nil_inv in Hpre as ->.
    rewrite app_nil_r. by apply T8.
Qed.

Lemma stores_at l w w' x : w x = w' x -> stores l w x = stores l w' x.
Proof using Type.
  revert w w'. induction l as [|i l IH]; intros w w' H; cbn; [done |]. apply IH.
  unfold store_of. by destruct (covers _ _ x).
Qed.
Lemma stores_app l k w : stores (l ++ k) w = stores k (stores l w).
Proof using Type. apply foldl_app. Qed.
Lemma answers_length st q ph P m : mem_inv n st q ph P m -> length P = S n.
Proof using Type.
  intros [Hram _ _ _ (rl & Hr & ->) _]. destruct (rs_shape _ _ _ Hram) as [_ _ H _].
  rewrite Hr in H. cbn in *. by rewrite length_rev.
Qed.

(** The stores taken in the first [j] cycles. *)
Definition taken_by (j : nat) (outs : list output_t) : list item_t := concat (taken <$> take j outs).
(** The load of cycle [j] and its answer, [n + 1] cycles later. *)
Definition load_answered (outs : list output_t) (w : Z -> Z) (j : nat) (a sz : Z) : Prop :=
  exists o acc, outs !! j = Some o /\ found o = Some acc /\
    forall o', outs !! (j + S n)%nat = Some o' -> exists d, answer o' = Some d /\
      forall k, 0 <= k < sz -> byte_of (merged acc d) k = stores (taken_by (S j) outs) w (a + k).
Record traced (es : list event_t) P (w : Z -> Z) (outs : list output_t) : Prop := {
  tr_length : length outs = length es;
  tr_taken : forall j e o, es !! j = Some e -> outs !! j = Some o -> taken o `prefix_of` offered e;
  tr_answer : forall j o, (j < length P)%nat -> outs !! j = Some o -> Some (answer o) = P !! j;
  tr_load : forall j e a sz, es !! j = Some e -> load e = Some (a, sz) -> load_answered outs w j a sz
}.

Lemma traced_cons e es P o outs w v w' : event_ok e -> Forall event_ok es -> length P = S n ->
  taken o `prefix_of` offered e -> Some (answer o) = head P ->
  loaded (load e) (found o) v (stores (taken o) w) ->
  (forall x, cycle_system.MEMORY_BASE <= x -> w' x = stores (taken o) w x) ->
  traced es (tail P ++ [v]) w' outs -> traced (e :: es) P w (o :: outs).
Proof using Type.
  intros He Hes HP Ht Ha Hl Hw [H1 H2 H3 H4]. destruct P as [|p P]; [done |]. cbn in *. injection Ha as <-.
  assert (Hlen : length (P ++ [v]) = S n) by (rewrite length_app; cbn; lia).
  split.
  - cbn. by rewrite H1.
  - intros [|j] e' o' Ee Eo; cbn in *; [by simplify_eq | by eapply H2].
  - intros [|j] o' Hj Eo; cbn in *; [by simplify_eq |].
    rewrite (H3 j o') by (done || lia). by rewrite lookup_app_l by lia.
  - intros [|j] e' a sz Ee El; cbn in *.
    + simplify_eq. rewrite El in Hl. destruct Hl as (acc & d & Hf & -> & Hb).
      exists o, acc. split_and!; [done.. |]. intros o' Eo. exists d. cbn in Eo.
      pose proof (H3 n o' ltac:(lia) Eo) as Hv. rewrite lookup_app_r in Hv by lia.
      replace (n - length P)%nat with 0%nat in Hv by lia. injection Hv as ->. split; [done |].
      intros k Hk. rewrite Hb by done. unfold taken_by. cbn. by rewrite app_nil_r.
    + destruct (H4 j e' a sz Ee El) as (o1 & acc & E1 & E2 & E3).
      exists o1, acc. split_and!; [done.. |]. intros o' Eo.
      destruct (E3 o' Eo) as (d & Hd & Hb). exists d. split; [done |]. intros k Hk.
      rewrite Hb by done. unfold taken_by. cbn [take fmap list_fmap concat].
      rewrite stores_app. apply stores_at, Hw.
      pose proof (proj1 (Forall_lookup _ _) Hes j e' Ee) as [_ Hld]. rewrite El in Hld.
      destruct Hld as (_ & _ & Hlo & _). lia.
Qed.

Lemma cycles_spec es st q ph P m : mem_inv n st q ph P m -> Forall event_ok es ->
  exists outs st' q' ph' P' m', cycles es st = Ok (outs, st') /\ mem_inv n st' q' ph' P' m' /\
    traced es P (contents q (cycle_memory.mem m)) outs /\
    (forall x, cycle_system.MEMORY_BASE <= x -> contents q' (cycle_memory.mem m') x =
       stores (concat (taken <$> outs)) (contents q (cycle_memory.mem m)) x) /\
    (Forall (λ e, offered e = []) es ->
       remaining n ph' (length q') = (remaining n ph (length q) - length es)%nat).
Proof using Type.
  revert st q ph P m. induction es as [|e es IH]; intros st q ph P m H Hes.
  { exists [], st, q, ph, P, m. split_and!; try done.
    intros _. cbn. lia. }
  apply Forall_cons in Hes as [He Hes].
  destruct (cycle_spec e st q ph P m H He) as (o & st1 & q1 & ph1 & P1 & m1 & E1 & C).
  destruct (IH st1 q1 ph1 P1 m1 (cy_inv _ _ _ _ _ _ _ _ _ _ _ _ C) Hes)
    as (outs & st2 & q2 & ph2 & P2 & m2 & E2 & H2 & Htr & Hc & Hrem).
  destruct C as [I1 I2 I3 I4 (v & -> & I5) I6].
  exists (o :: outs), st2, q2, ph2, P2, m2. cbn [cycles]. rewrite E1. cbn [mbind outcome_bind fst snd].
  rewrite E2. cbn [mbind outcome_bind fst snd]. split_and!; [done | done | | |].
  - eapply traced_cons; [done | done | by eapply answers_length | done | | done | exact I4 | done].
    apply I3. by destruct (tail P).
  - intros x Hx. rewrite Hc by done. cbn [fmap list_fmap concat]. rewrite stores_app.
    by apply stores_at, I4.
  - intros Hf. apply Forall_cons in Hf as [Hf0 Hf]. rewrite (Hrem Hf), I6 by done. cbn. lia.
Qed.
End trace.
