(* ===== verification/MemoryProps.v ===== *)
(** * What the retired store buffer and the memory promise

    Loads see the stores that were taken before them, whether they have reached
    the memory or not, and the buffer empties itself into the memory. *)

From S2P Require Import Prelude Word Ops IsaBus IsaInv Dff Fifo FifoSpec FifoWindow.
From S2P Require Import Rat CyclePack CycleCsr LoadStore LoadStoreSpec Predict CycleBus.
From S2P Require Import CycleBusSpec CycleLsu MemorySpec MemoryTrace.

(** ** The machine after reset *)
Definition start (sz : Z) : outcome state_t :=
  s ← cycle_system.cacheable;
  Ok (mk_state (retired_store_buffer.sync (retired_store_buffer.new sz)) (bus_system.clock s)).
Lemma start_inv sz : 0 < sz < 2 ^ 30 -> exists st m, start sz = Ok st /\
  mem_inv 10 st [] Idle (replicate 11 None) m /\ fifo.size (retired_store_buffer.base (rsb st)) = sz.
Proof.
  intros Hsz. destruct cycle_system.cacheable as [s| | |] eqn:E; [| by vm_compute in E..].
  unfold start. rewrite E. cbn [mbind outcome_bind].
  set (m := cycle_memory.mk (memory._init cycle_system.MEMORY_SIZE) 10
     (replicate 11 (cycle_memory.mk_read 0 false)) 10 (replicate 11 (cycle_memory.mk_write 0 0 0 false))).
  assert (Es : s = bus_system.mk
     { cycle_bus.new with cycle_bus.slave_info_list :=
         [cycle_bus.mk_slave_info cycle_system.MEMORY_BASE cycle_system.MEMORY_SIZE 0 true] }
     [cycle_slave.mk cycle_system.MEMORY_SIZE false false (cycle_slave.obj_memory m)]).
  { vm_compute in E. injection E as <-. vm_compute. reflexivity. }
  clear E. subst s. eexists _, m. split; [reflexivity |]. split; [| done]. split; cbn [rsb sys].
  - split; [done | by exists false, false | done |]. split; [done | apply map_Forall_empty].
  - done.
  - exists 0. apply sync_pending. apply reset_pending; [done |]. apply (new_pending sz _ Hsz).
  - constructor.
  - exists (replicate 10 None). done.
  - done.
Qed.

Lemma remaining_bound n ph k : (remaining n ph k <= 1 + (n + 2) * k)%nat \/ exists p, ph = Busy p.
Proof. destruct ph as [|p|]; [left | by right; exists p | left]; destruct k; cbn; lia. Qed.
Lemma remaining_le n st q ph P m : mem_inv n st q ph P m ->
  (remaining n ph (length q) <= 1 + (n + 2) * Z.to_nat (fifo.size (retired_store_buffer.base (rsb st))))%nat.
Proof.
  intros [_ _ [R Hq] _ _ Hfl]. pose proof (r_bound _ _ _ Hq) as Hb.
  unfold q_next in Hb. cbn in Hb. rewrite app_nil_r in Hb.
  assert (Hl : (length q <= Z.to_nat (fifo.size (retired_store_buffer.base (rsb st))))%nat)
    by (unfold zlen in Hb; lia).
  assert (remaining n ph (length q) <= 1 + (n + 2) * length q)%nat; [| nia].
  destruct ph as [|p|]; destruct q as [|i q]; cbn [remaining length]; try lia.
  destruct Hfl as (_ & _ & Hp & _). lia.
Qed.
Lemma remaining_done n st q ph P m : mem_inv n st q ph P m -> remaining n ph (length q) = 0%nat ->
  q = [] /\ ph = Idle.
Proof.
  intros [_ _ _ _ _ Hfl] H.
  destruct ph as [|p|], q as [|i q]; cbn in H; try lia; try done.
  - by destruct Hfl as (_ & _ & _ & ? & ? & ? & _).
  - by destruct Hfl as (_ & _ & _ & ? & ? & ? & _).
Qed.

(** ** C8
    Through any number of cycles, in which commit offers stores and the
    load unit starts loads in main memory, every cycle succeeds, and the load
    of cycle [j] is answered exactly [n + 1] cycles later ([n] the latency of
    the memory): the word on the bus under the bytes found in the retired store
    buffer is, byte by byte, what the array of bytes contains after the stores
    taken up to that cycle in order, whether they have reached the memory, are
    under way, or still wait in the buffer. *)
Theorem retired_path_loads n st q ph P m es :
  mem_inv n st q ph P m -> Forall event_ok es ->
  exists outs st', cycles es st = Ok (outs, st') /\ length outs = length es /\
    (forall j e o, es !! j = Some e -> outs !! j = Some o -> taken o `prefix_of` offered e) /\
    forall j e a sz, es !! j = Some e -> load e = Some (a, sz) ->
      load_answered n outs (contents q (cycle_memory.mem m)) j a sz.
Proof.
  intros H He. destruct (cycles_spec n es st q ph P m H He)
    as (outs & st' & q' & ph' & P' & m' & E & _ & [T1 T2 _ T4] & _).
  by exists outs, st'.
Qed.

(** ** C25
    The retired store buffer drains: after any such cycles, [1 + (n + 2) *
    size] cycles without a new store are enough for the buffer to be empty with
    no store in flight, and the memory itself then holds every byte of the
    stores that were taken, applied in order. *)
Theorem retired_path_drains n st q ph P m es :
  mem_inv n st q ph P m -> Forall event_ok es ->
  exists outs st1, cycles es st = Ok (outs, st1) /\
    forall k, (1 + (n + 2) * Z.to_nat (fifo.size (retired_store_buffer.base (rsb st1))) <= k)%nat ->
    exists outs' st2 m2, cycles (replicate k idle) st1 = Ok (outs', st2) /\
      fifo.customer_is_empty (retired_store_buffer.base (rsb st2)) = true /\
      retired_store_buffer.is_waiting_ack (rsb st2) = false /\
      ram_state n (sys st2) m2 /\
      forall x, cycle_system.MEMORY_BASE <= x ->
        memory.get (cycle_memory.mem m2) (x - cycle_system.MEMORY_BASE) =
        stores (concat (taken <$> outs)) (contents q (cycle_memory.mem m)) x.
Proof.
  intros H He. destruct (cycles_spec n es st q ph P m H He)
    as (outs & st1 & q1 & ph1 & P1 & m1 & E & H1 & _ & Hc & _).
  exists outs, st1. split; [done |]. intros k Hk.
  assert (Hidle : Forall event_ok (replicate k idle) /\ Forall (λ e, offered e = []) (replicate k idle)).
  { split; apply Forall_replicate; [split; constructor | done]. }
  destruct (cycles_spec n (replicate k idle) st1 q1 ph1 P1 m1 H1 (proj1 Hidle))
    as (outs' & st2 & q2 & ph2 & P2 & m2 & E2 & H2 & Htr & Hc2 & Hrem).
  pose proof (Hrem (proj2 Hidle)) as Hr. rewrite length_replicate in Hr.
  pose proof (remaining_le _ _ _ _ _ _ H1).
  destruct (remaining_done _ _ _ _ _ _ H2 ltac:(lia)) as [-> ->].
  exists outs', st2, m2. split; [done |]. destruct (mi_queue _ _ _ _ _ _ H2) as [R Hq].
  split; [by rewrite (customer_empty _ _ _ Hq) |]. split; [apply H2 |]. split; [apply H2 |].
  intros x Hx. pose proof (Hc2 x Hx) as Hx2. unfold contents in Hx2 at 1. cbn in Hx2. rewrite Hx2.
  assert (Hnone : concat (taken <$> outs') = []).
  { destruct Htr as [T1 T2 _ _]. apply concat_nil_Forall, Forall_fmap, Forall_lookup. intros j o Ho.
    pose proof (lookup_lt_Some _ _ _ Ho) as Hj. rewrite T1, length_replicate in Hj.
    pose proof (T2 j idle o (proj2 (lookup_replicate _ _ _ _) (conj eq_refl Hj)) Ho) as Hp.
    by apply prefix_nil_inv in Hp. }
  rewrite Hnone. cbn. by apply Hc.
Qed.

(** ** The theorems at the machine after reset: a word is stored, a byte of it
    and a word behind it loaded. *)
Definition demo : list event_t :=
  [mk_event [retired_store_buffer.mk_item (mk_info 0) 0x80000100 4 0x11223344] None;
   mk_event [retired_store_buffer.mk_item (mk_info 0) 0x80000102 1 0x55] (Some (0x80000100, 4));
   mk_event [] (Some (0x80000102, 1))].
Lemma demo_ok : Forall event_ok demo.
Proof.
  repeat constructor; cbn; try (unfold store_size; by auto);
    try (unfold cycle_system.MEMORY_BASE, cycle_system.MEMORY_SIZE; lia); word_lia.
Qed.
Lemma retired_path_loads_witness : exists st m, start 4 = Ok st /\
  mem_inv 10 st [] Idle (replicate 11 None) m /\
  exists outs st', cycles (demo ++ replicate 12 idle) st = Ok (outs, st') /\
    load_answered 10 outs (contents [] (cycle_memory.mem m)) 1 0x80000100 4.
Proof.
  destruct (start_inv 4) as (st & m & E & H & _); [lia |]. exists st, m. split; [done |]. split; [done |].
  destruct (retired_path_loads 10 st [] Idle _ m (demo ++ replicate 12 idle) H) as (outs & st' & E' & _ & _ & Hl).
  { apply Forall_app. split; [apply demo_ok | apply Forall_replicate; split; constructor]. }
  exists outs, st'. split; [done |]. by apply (Hl 1%nat (mk_event
    [retired_store_buffer.mk_item (mk_info 0) 0x80000102 1 0x55] (Some (0x80000100, 4)))).
Defined.
Lemma retired_path_drains_witness : exists st m, start 4 = Ok st /\
  mem_inv 10 st [] Idle (replicate 11 None) m /\
  exists outs st1, cycles demo st = Ok (outs, st1) /\
    exists k outs' st2, cycles (replicate k idle) st1 = Ok (outs', st2) /\
      fifo.customer_is_empty (retired_store_buffer.base (rsb st2)) = true.
Proof.
  destruct (start_inv 4) as (st & m & E & H & _); [lia |]. exists st, m. split; [done |]. split; [done |].
  destruct (retired_path_drains 10 st [] Idle _ m demo H demo_ok) as (outs & st1 & E' & Hd).
  exists outs, st1. split; [done |]. destruct (Hd _ (le_n _)) as (outs' & st2 & m2 & E2 & He & _).
  eexists. exists outs', st2. split; [exact E2 | exact He].
Defined.
