(* ===== verification/CycleDispatch.v ===== *)
(** * Dispatch stage

    src/cycle_model/pipeline/dispatch.cpp, dispatch.h and dispatch_issue.h.

    The stage splits the packs of rename between the two issue stages, holds
    back what an issue stage cannot take, and lets a CSR instruction, an mret
    or a fence through only when everything before it is done. *)

From S2P Require Import Prelude Word Ops IsaDecode Dff Fifo Rat CycleDecode CyclePack.
From S2P Require Import LoadStore Rob CycleRename CycleCommit.

Definition DISPATCH_WIDTH : Z := 4.

(** ** [dispatch_issue_op_info_t] has the members of [rename_dispatch_op_info_t] *)
Module dispatch_issue.
Definition pack_t := list op_info_t.
Definition init : pack_t := replicate (Z.to_nat DISPATCH_WIDTH) rename_dispatch.init.
Definition enable (o : op_info_t) : bool := decode_rename.enable (rename_dispatch.uop o).
Definition age (o : op_info_t) : age_t :=
  age_compare.mk (rename_dispatch.rob_id o) (rename_dispatch.rob_id_stage o).
Definition disable (o : op_info_t) : op_info_t :=
  { o with rename_dispatch.uop ::= λ u, { u with decode_rename.enable := false } }.
Definition disable_if (b : op_info_t -> bool) (o : op_info_t) : op_info_t :=
  if enable o && b o then disable o else o.
(** The first elements of a new pack. *)
Definition fill (l : list op_info_t) : pack_t :=
  l ++ drop (length l) init.
End dispatch_issue.

Module dispatch.
Import rename_dispatch.
Record dispatch_t := mk {
  integer_busy : bool;
  lsu_busy : bool;
  busy : bool;
  hold_integer_issue_pack : dispatch_issue.pack_t;
  hold_lsu_issue_pack : dispatch_issue.pack_t;
  rev_pack : rename_dispatch.pack_t;
  is_inst_waiting : bool;
  inst_waiting_rob_id : Z;
  inst_waiting_rob_id_stage : bool;
  is_stbuf_empty_waiting : bool;
  stbuf_empty_waiting_rob_id : Z;
  stbuf_empty_waiting_rob_id_stage : bool;
  dispatch_integer_issue_port : port_t dispatch_issue.pack_t;
  dispatch_lsu_issue_port : port_t dispatch_issue.pack_t
}.

Definition stop_waiting (s : dispatch_t) : dispatch_t :=
  { s with is_inst_waiting := false; inst_waiting_rob_id := 0; inst_waiting_rob_id_stage := false;
           is_stbuf_empty_waiting := false; stbuf_empty_waiting_rob_id := 0;
           stbuf_empty_waiting_rob_id_stage := false }.
Definition clear (s : dispatch_t) : dispatch_t :=
  stop_waiting { s with integer_busy := false; lsu_busy := false; busy := false;
                        hold_integer_issue_pack := dispatch_issue.init;
                        hold_lsu_issue_pack := dispatch_issue.init }.
Definition reset : dispatch_t -> dispatch_t := clear.
Definition new : dispatch_t :=
  reset (mk false false false dispatch_issue.init dispatch_issue.init rename_dispatch.pack_init
           false 0 false false 0 false (port.new dispatch_issue.init) (port.new dispatch_issue.init)).

(** ** The split of a pack *)
Definition of_integer (o : op_info_t) : op_info_t := { o with store_buffer_id := 0; load_queue_id := 0 }.
(** The copy for the load/store queue leaves the branch information out. *)
Definition of_lsu (o : op_info_t) : op_info_t := { o with branch_predictor_info_pack := bp_info.init }.
Record split_t := mk_split {
  ints : list op_info_t;
  lsus : list op_info_t;
  found_inst_waiting : bool;
  found_fence : bool;
  found_rob_id : Z;
  found_rob_id_stage : bool
}.
Definition split_init : split_t := mk_split [] [] false false 0 false.
Definition add (o : op_info_t) (a : split_t) : split_t :=
  if negb (rename.is_lsu (uop o)) then { a with ints ::= λ l, l ++ [of_integer o] }
  else { a with lsus ::= λ l, l ++ [of_lsu o] }.
Definition found (o : op_info_t) (a : split_t) : split_t :=
  { a with found_rob_id := rob_id o; found_rob_id_stage := rob_id_stage o }.
Definition waits_for_commit (o : op_info_t) : bool :=
  rename.is_unit cop_unit.csr (uop o) || rename.is_op op.mret (uop o).
Fixpoint split (i : Z) (l : list op_info_t) (a : split_t) : outcome split_t :=
  match l with
  | [] => Ok a
  | o :: l =>
      if decode_rename.enable (uop o) then
        let a := add o a in
        if decode_rename.valid (uop o) && negb (decode_rename.has_exception (uop o)) then
          if waits_for_commit o then
            verify (i =? 0) ;; Ok (found o { a with found_inst_waiting := true })
          else if rename.is_op op.fence (uop o) then split (i + 1) l (found o { a with found_fence := true })
          else split (i + 1) l a
        else split (i + 1) l a
      else split (i + 1) l a
  end.

(** ** A flush: what was held back or sent and is younger goes *)
Section run.
Context (integer_stall lsu_stall : bool) (bru : bru_feedback_t) (sau : sau_feedback_t).
Context (commit : commit_feedback_t) (stbuf_empty : bool).
Implicit Type s : dispatch_t.

Definition flushed : bool := flush_feedback.flush bru || flush_feedback.flush sau.
Definition younger_than_load (a : age_t) : bool :=
  flush_feedback.flush sau && age_compare.lt a (flush_feedback.age sau).
Definition younger_than_branch (a : age_t) : bool :=
  flush_feedback.flush bru && age_compare.lt a (flush_feedback.age bru).
(** The test on the held integer pack reads the age in the held load/store
    pack. *)
Definition squash_held_integer (h l : dispatch_issue.pack_t) : dispatch_issue.pack_t :=
  zip_with (λ o p, dispatch_issue.disable_if
    (λ _, flush_feedback.flush bru || younger_than_load (dispatch_issue.age p)) o) h l.
Definition squash_integer (p : dispatch_issue.pack_t) : dispatch_issue.pack_t :=
  dispatch_issue.disable_if (λ o, flush_feedback.flush bru || younger_than_load (dispatch_issue.age o)) <$> p.
Definition squash_lsu (p : dispatch_issue.pack_t) : dispatch_issue.pack_t :=
  dispatch_issue.disable_if (λ o, younger_than_branch (dispatch_issue.age o) || flush_feedback.flush sau) <$> p.
Definition squash s : dispatch_t :=
  let h := squash_held_integer (hold_integer_issue_pack s) (hold_lsu_issue_pack s) in
  let l := squash_lsu (hold_lsu_issue_pack s) in
  { s with hold_integer_issue_pack := h;
           hold_lsu_issue_pack := l;
           dispatch_integer_issue_port ::= λ p, port.set (squash_integer (port.get p)) p;
           dispatch_lsu_issue_port ::= λ p, port.set (squash_lsu (port.get p)) p;
           integer_busy := false;
           lsu_busy := lsu_busy s && existsb dispatch_issue.enable l }.

(** ** Sending *)
Definition send_integer (p : dispatch_issue.pack_t) s : dispatch_t :=
  if negb integer_stall then { s with dispatch_integer_issue_port ::= port.set p } else s.
Definition send_lsu (p : dispatch_issue.pack_t) s : dispatch_t :=
  if negb lsu_stall then { s with dispatch_lsu_issue_port ::= port.set p } else s.
Definition send_nothing s : dispatch_t := send_lsu dispatch_issue.init (send_integer dispatch_issue.init s).
Definition wait_for (id : Z) (stage : bool) s : dispatch_t :=
  { s with is_inst_waiting := true; inst_waiting_rob_id := id; inst_waiting_rob_id_stage := stage }.
Definition wait_for_stores (id : Z) (stage : bool) s : dispatch_t :=
  { s with is_stbuf_empty_waiting := true; stbuf_empty_waiting_rob_id := id;
           stbuf_empty_waiting_rob_id_stage := stage }.

(** What the issue stage cannot take is held. *)
Definition send_or_hold (a : split_t) s : dispatch_t :=
  let s := if negb (bool_decide (ints a = [])) && integer_stall
           then { s with hold_integer_issue_pack := dispatch_issue.fill (ints a); integer_busy := true }
           else send_integer (dispatch_issue.fill (ints a)) s in
  if negb (bool_decide (lsus a = [])) && lsu_stall
  then { s with hold_lsu_issue_pack := dispatch_issue.fill (lsus a); lsu_busy := true }
  else send_lsu (dispatch_issue.fill (lsus a)) s.
(** The instruction that waits is the next to commit. *)
Definition is_next (id : Z) : bool :=
  commit_feedback.next_handle_rob_id_valid commit && (commit_feedback.next_handle_rob_id commit =? id).
Definition dispatch_pack (a : split_t) s : dispatch_t :=
  if found_inst_waiting a then
    if negb (negb integer_stall && is_next (found_rob_id a)) then send_nothing { s with busy := true }
    else wait_for (found_rob_id a) (found_rob_id_stage a)
           (send_lsu dispatch_issue.init (send_integer (dispatch_issue.fill (ints a)) s))
  else if found_fence a &&
          ((negb (bool_decide (ints a = [])) && integer_stall) ||
           (negb (bool_decide (lsus a = [])) && lsu_stall)) then send_nothing { s with busy := true }
  else
    send_or_hold a
      (if found_fence a
       then wait_for (found_rob_id a) (found_rob_id_stage a)
              (wait_for_stores (found_rob_id a) (found_rob_id_stage a) s)
       else s).
Definition send_held s : dispatch_t :=
  let s := if integer_stall then s
           else if integer_busy s
             then { send_integer (hold_integer_issue_pack s) s with integer_busy := false }
             else send_integer dispatch_issue.init s in
  if lsu_stall then s
  else if lsu_busy s then { send_lsu (hold_lsu_issue_pack s) s with lsu_busy := false }
  else send_lsu dispatch_issue.init s.

(** ** Waiting *)
Definition inst_waiting_ok s : bool :=
  existsb (λ vi, vi.1 && (vi.2 =? inst_waiting_rob_id s))
    (zip (commit_feedback.committed_rob_id_valid commit) (commit_feedback.committed_rob_id commit)).
Definition stall s : bool :=
  integer_busy s || lsu_busy s || busy s || (is_inst_waiting s && negb (inst_waiting_ok s)) ||
  (is_stbuf_empty_waiting s && negb stbuf_empty).
(** The wait of an instruction that is squashed ends. *)
Definition squashed_wait (id : Z) (stage : bool) : bool := squashed bru sau (age_compare.mk id stage).
Definition stores_done s : bool :=
  stbuf_empty || squashed_wait (stbuf_empty_waiting_rob_id s) (stbuf_empty_waiting_rob_id_stage s).
Definition wait_inst s : dispatch_t :=
  let ok := inst_waiting_ok s in
  let s := send_nothing s in
  if ok || squashed_wait (inst_waiting_rob_id s) (inst_waiting_rob_id_stage s) then
    let s := { s with is_inst_waiting := false; inst_waiting_rob_id := 0 } in
    if is_stbuf_empty_waiting s && stores_done s then { s with is_stbuf_empty_waiting := false } else s
  else s.
Definition wait_stores s : dispatch_t :=
  let s := send_nothing s in
  if stores_done s then { s with is_stbuf_empty_waiting := false } else s.

(** ** [run] *)
Definition proceed (rename_pack : rename_dispatch.pack_t) s : outcome dispatch_t :=
  let s := { s with is_inst_waiting := false; is_stbuf_empty_waiting := false } in
  if negb (integer_busy s || lsu_busy s) then
    let s := if negb (busy s) then { s with rev_pack := rename_pack } else { s with busy := false } in
    a ← (if negb flushed then split 0 (rev_pack s) split_init else Ok split_init);
    Ok (dispatch_pack a s)
  else Ok (send_held s).
Definition flush s : dispatch_t :=
  clear { s with dispatch_integer_issue_port ::= port.set dispatch_issue.init;
                 dispatch_lsu_issue_port ::= port.set dispatch_issue.init;
                 rev_pack := rename_dispatch.pack_init }.
(** [run]; the result is [dispatch_feedback_pack_t], its one member. *)
Definition run (rename_dispatch_port : port_t rename_dispatch.pack_t) s : outcome (bool * dispatch_t) :=
  let fb := stall s in
  s ← (if negb (commit_feedback.flush commit) then
         let s' := if flushed then squash s else s in
         if (negb (is_inst_waiting s) || inst_waiting_ok s) && (negb (is_stbuf_empty_waiting s) || stbuf_empty)
         then proceed (port.get rename_dispatch_port) s'
         else if is_inst_waiting s then Ok (wait_inst s')
         else if is_stbuf_empty_waiting s then Ok (wait_stores s')
         else Abort
       else Ok (flush s));
  Ok (fb, s).
End run.
End dispatch.
Abbreviation dispatch_t := dispatch.dispatch_t.
