(* ===== verification/CycleIssue.v ===== *)
(** * Integer issue stage

    src/cycle_model/pipeline/integer_issue.cpp, integer_issue.h and
    integer_issue_readreg.h.

    The queue of the stage and the arrays beside it: what an instruction waits
    for, and when it may leave.  A source operand is woken up when its producer
    is issued, possibly on the speculation that a load will be answered in
    time; the bits of [lpv] count the cycles in which that load can still be
    turned away.  The arrays [..._src1[]] and [..._src2[]] are lists of one
    record per slot; the two sources of a slot go through the same steps. *)

From S2P Require Import Prelude Word Ops IsaDecode Dff Fifo Rat CycleDecode CyclePack.
From S2P Require Import LoadStore Rob CycleRename CycleCommit CycleDispatch CycleLsu.

Definition INTEGER_ISSUE_WIDTH : Z := 2.
Definition INTEGER_ISSUE_QUEUE_SIZE : Z := 16.
Definition ALU_UNIT_NUM : Z := 2.
Definition BRU_UNIT_NUM : Z := 1.
Definition CSR_UNIT_NUM : Z := 1.
Definition DIV_UNIT_NUM : Z := 1.
Definition MUL_UNIT_NUM : Z := 2.
Definition LU_UNIT_NUM : Z := 1.
Definition SAU_UNIT_NUM : Z := 1.
Definition SDU_UNIT_NUM : Z := 1.
Definition EXECUTE_UNIT_NUM : Z :=
  ALU_UNIT_NUM + BRU_UNIT_NUM + CSR_UNIT_NUM + DIV_UNIT_NUM + MUL_UNIT_NUM + LU_UNIT_NUM +
  SAU_UNIT_NUM + SDU_UNIT_NUM.
Definition FEEDBACK_EXECUTE_UNIT_NUM : Z := EXECUTE_UNIT_NUM - SAU_UNIT_NUM - SDU_UNIT_NUM.

(** ** [integer_issue_readreg_op_info_t] and [lsu_issue_readreg_op_info_t] *)
Module issue_readreg.
Record op_info_t := mk { info : CycleRename.op_info_t; lpv : Z }.
Definition init : op_info_t := mk rename_dispatch.init 0.
Definition pack_t := list op_info_t.
Definition uop (o : op_info_t) : decode_rename.pack_t := rename_dispatch.uop (info o).
Definition enable (o : op_info_t) : bool := dispatch_issue.enable (info o).
Definition age (o : op_info_t) : age_t := dispatch_issue.age (info o).
End issue_readreg.

(** ** The feedback of the two issue stages *)
Module wakeup.
(** One port of [integer_issue_output_feedback_pack_t] or
    [lsu_issue_output_feedback_pack_t]; only the latter has an
    [issue_id]. *)
Record port_t := mk {
  valid : bool; issue_id : Z; rd : Z; shift : Z; lpv : Z; rob_id : Z; rob_id_stage : bool
}.
Definition init : port_t := mk false 0 0 0 0 0 false.
Definition pack_t := list port_t.
End wakeup.

(** ** A source operand in an issue queue *)
Module issue_src.
Record src_t := mk {
  ready : bool; wakeup_shift : Z; lpv : Z; wakeup_rob_id : Z; wakeup_rob_id_stage : bool
}.
Definition init : src_t := mk false 0 0 0 false.
(** What the operand is: [arg_src], [need_map] and [phy] of the item. *)
Record operand_t := mk_operand { from : arg_src_t; need_map : bool; phy : Z }.
Definition src1 (o : op_info_t) : operand_t :=
  let u := rename_dispatch.uop o in
  mk_operand (decode_rename.arg1_src u) (decode_rename.rs1_need_map u) (rename_dispatch.rs1_phy o).
Definition src2 (o : op_info_t) : operand_t :=
  let u := rename_dispatch.uop o in
  mk_operand (decode_rename.arg2_src u) (decode_rename.rs2_need_map u) (rename_dispatch.rs2_phy o).

(** The producer is the load the replay is for, whose own answer is only
    late. *)
Definition from_load (lu : lu_feedback_t) (s : src_t) : bool :=
  (wakeup_rob_id s =? lu_feedback.rob_id lu) &&
  eqb (wakeup_rob_id_stage s) (lu_feedback.rob_id_stage lu).
Definition last_window (s : src_t) : bool := negb (Z.land (lpv s) 1 =? 0).
Definition sleep (s : src_t) : src_t := { s with ready := false; wakeup_shift := 0 }.
(** "cancel source operand ready and wakeup shift". *)
Definition cancel (lu : lu_feedback_t) (s : src_t) : src_t :=
  if lu_feedback.replay lu && last_window s &&
     (negb (lu_feedback.replay_following_only lu) || negb (from_load lu s))
  then sleep s else s.
(** "when stall occurs in lu, all source operands whose lpv is
    non-zero/non-one must be asleep". *)
Definition sleep_on_stall (lu : lu_feedback_t) (s : src_t) : src_t :=
  if lu_feedback.stall lu && negb (Z.shiftr (lpv s) 1 =? 0) then sleep s else s.
Definition shift_lpv (lu : lu_feedback_t) (v : Z) : Z :=
  if (negb (lu_feedback.replay lu) || negb (lu_feedback.replay_following_only lu) ||
      (Z.land v 1 =? 0)) && negb (lu_feedback.stall lu)
  then Z.shiftr v 1 else v.
Definition delay_wakeup (s : src_t) : src_t :=
  if negb (ready s) && (0 <? wakeup_shift s) then
    { s with ready := (wakeup_shift s =? 1); wakeup_shift ::= λ v, Z.shiftr v 1 }
  else s.
Definition age_lpv (lu : lu_feedback_t) (s : src_t) : src_t :=
  delay_wakeup { s with lpv ::= shift_lpv lu }.

(** A port of an issue stage wakes the operand up. *)
Definition wake_issue (o : operand_t) (w : wakeup.port_t) (s : src_t) : outcome src_t :=
  if wakeup.valid w && negb (ready s) then
    verify (bool_decide (from o = arg_src.reg)) ;;
    Ok (if phy o =? wakeup.rd w then
          let s := if wakeup.shift w =? 0 then { s with ready := true }
                   else { s with wakeup_shift := wakeup.shift w } in
          { s with lpv := wakeup.lpv w; wakeup_rob_id := wakeup.rob_id w;
                   wakeup_rob_id_stage := wakeup.rob_id_stage w }
        else s)
  else Ok s.
Definition woken_by (c : execute_feedback.channel_t) (s : src_t) : src_t :=
  { s with ready := true; lpv := 0; wakeup_rob_id := execute_feedback.rob_id c;
           wakeup_rob_id_stage := execute_feedback.rob_id_stage c }.
Definition wake_execute (o : operand_t) (c : execute_feedback.channel_t) (s : src_t) : outcome src_t :=
  if execute_feedback.enable c && negb (ready s) then
    verify (bool_decide (from o = arg_src.reg)) ;; verify (need_map o) ;;
    Ok (if phy o =? execute_feedback.phy_id c then woken_by c s else s)
  else Ok s.
Fixpoint wake_all {W} (f : W -> src_t -> outcome src_t) (l : list W) (s : src_t) : outcome src_t :=
  match l with [] => Ok s | w :: l => s ← f w s; wake_all f l s end.
Definition wake (o : operand_t) (a b : wakeup.pack_t) (e : list execute_feedback.channel_t) (s : src_t) :
  outcome src_t :=
  s ← wake_all (wake_issue o) a s; s ← wake_all (wake_issue o) b s; wake_all (wake_execute o) e s.

(** "execute and wb feedback and physical register file check" for an operand
    that enters the queue. *)
Definition provides (phy : Z) (c : execute_feedback.channel_t) : bool :=
  execute_feedback.enable c && (execute_feedback.phy_id c =? phy).
Definition feedback_channels (l : list execute_feedback.channel_t) : list execute_feedback.channel_t :=
  take (Z.to_nat FEEDBACK_EXECUTE_UNIT_NUM) l.
Definition enter (acts : bool) (o : operand_t) (exec wb : list execute_feedback.channel_t)
  (f : phy_regfile.regfile_t) : outcome src_t :=
  if acts && need_map o then
    match List.find (provides (phy o)) (feedback_channels exec) with
    | Some c => Ok (woken_by c init)
    | None =>
        match List.find (provides (phy o)) (feedback_channels wb) with
        | Some c => Ok (woken_by c init)
        | None =>
            v ← phy_regfile.read_data_valid (phy o) f;
            a ← phy_regfile.read_age_information (phy o) f;
            Ok { init with ready := v; wakeup_rob_id := a.1.1; wakeup_rob_id_stage := a.1.2 }
        end
    end
  else Ok { init with ready := true }.
End issue_src.
Abbreviation src_t := issue_src.src_t.

Definition latency_to_wakeup_shift (latency : Z) : Z := if latency =? 1 then 0 else shl32 1 (latency - 2).
Definition latency_to_idle_shift (latency : Z) : Z := if latency =? 1 then 0 else shl32 1 (latency - 1).

(** A function on one element of an array. *)
Definition arr_update {T} (l : list T) (i : Z) (f : T -> T) : outcome (list T) :=
  x ← arr_get l i; arr_set l i (f x).

(** ** The stage *)
Module integer_issue.
Record unit_t := mk_unit { idle : bool; idle_shift : Z }.
Definition unit_init : unit_t := mk_unit true 0.
(** Everything the arrays hold for one slot of the queue. *)
Record slot_t := mk_slot {
  src1 : src_t;
  src2 : src_t;
  port_index : Z;
  op_unit_seq : Z;
  rob_id : Z;
  rob_id_stage : bool;
  wakeup_rd_valid : bool;
  wakeup_rd : Z;
  wakeup_shift : Z;
  new_idle_shift : Z;
  issued : dff_t bool
}.
Definition slot_age (x : slot_t) : age_t := age_compare.mk (rob_id x) (rob_id_stage x).

Record integer_issue_t := mk {
  integer_issue_readreg_port : port_t issue_readreg.pack_t;
  issue_q : ooo_issue_queue.queue_t op_info_t;
  busy : bool;
  hold_rev_pack : dispatch_issue.pack_t;
  alu_idle : list unit_t;
  bru_idle : list unit_t;
  csr_idle : list unit_t;
  div_idle : list unit_t;
  mul_idle : list unit_t;
  slots : list slot_t;
  next_port_index : Z
}.
Implicit Type s : integer_issue_t.

Definition pack_init : issue_readreg.pack_t := replicate (Z.to_nat INTEGER_ISSUE_WIDTH) issue_readreg.init.
Definition all_idle s : integer_issue_t :=
  { s with alu_idle ::= fmap (λ _, unit_init); bru_idle ::= fmap (λ _, unit_init);
           csr_idle ::= fmap (λ _, unit_init); div_idle ::= fmap (λ _, unit_init);
           mul_idle ::= fmap (λ _, unit_init) }.
Definition reset_slot (x : slot_t) : slot_t :=
  { x with src1 := issue_src.init; src2 := issue_src.init; port_index := 0; op_unit_seq := 0; rob_id := 0;
           rob_id_stage := false; wakeup_rd_valid := false; wakeup_rd := 0; wakeup_shift := 0;
           new_idle_shift := 0; issued ::= dff.set false }.
Definition reset s : integer_issue_t :=
  all_idle { s with issue_q ::= ooo_issue_queue.reset; busy := false; hold_rev_pack := dispatch_issue.init;
                    slots ::= fmap reset_slot; next_port_index := 0 }.
Definition new : integer_issue_t :=
  let slot := mk_slot issue_src.init issue_src.init 0 0 0 false false 0 0 0 (dff.new false) in
  reset (mk (port.new pack_init) (ooo_issue_queue.new INTEGER_ISSUE_QUEUE_SIZE rename_dispatch.init) false
           dispatch_issue.init (replicate 2 unit_init) (replicate 1 unit_init) (replicate 1 unit_init)
           (replicate 1 unit_init) (replicate 2 unit_init)
           (replicate (Z.to_nat INTEGER_ISSUE_QUEUE_SIZE) slot) 0).
Definition sync s : integer_issue_t :=
  { s with integer_issue_readreg_port ::= port.sync; issue_q ::= ooo_issue_queue.sync;
           slots ::= fmap (λ x, { x with issued ::= dff.sync }) }.

Definition ALU_SHIFT : Z := 0.
Definition BRU_SHIFT : Z := 1.
Definition CSR_SHIFT : Z := 2.
Definition DIV_SHIFT : Z := 3.
Definition MUL_SHIFT : Z := 4.
Definition ALU_LATENCY : Z := 1.
Definition BRU_LATENCY : Z := 1.
Definition CSR_LATENCY : Z := 1.
Definition DIV_LATENCY : Z := 8.
Definition MUL_LATENCY : Z := 1.

(** *** Output: the oldest instruction that is ready, for each port *)
Definition idle_bit (l : list unit_t) (i : Z) (shift : Z) : outcome Z :=
  u ← arr_get l i; Ok (shl32 (b2z (idle u)) shift).
(** [op_unit_seq_mask]: which units take an instruction from which port. *)
Definition unit_mask (i : Z) s : outcome Z :=
  a ← idle_bit (alu_idle s) i ALU_SHIFT;
  m ← idle_bit (mul_idle s) i MUL_SHIFT;
  if i =? 0 then
    c ← idle_bit (csr_idle s) 0 CSR_SHIFT;
    b ← idle_bit (bru_idle s) 0 BRU_SHIFT;
    Ok (Z.lor (Z.lor (Z.lor a m) c) b)
  else d ← idle_bit (div_idle s) 0 DIV_SHIFT; Ok (Z.lor (Z.lor a m) d).

Section output.
Context (bru : bru_feedback_t) (lu : lu_feedback_t) (sau : sau_feedback_t).

Definition selected_t : Type := option (Z * age_t).
Definition older_than_flush (a : age_t) : bool :=
  (negb (flush_feedback.flush bru) || age_compare.ge a (flush_feedback.age bru)) &&
  (negb (flush_feedback.flush sau) || age_compare.gt a (flush_feedback.age sau)).
Definition older_than_selected (a : age_t) (sel : selected_t) : bool :=
  match sel with None => true | Some (_, b) => age_compare.gt a b end.
Definition candidate (i mask : Z) (valid : bool) (x : slot_t) : bool :=
  valid && negb (dff.get (issued x)) && negb (Z.land (op_unit_seq x) mask =? 0) &&
  (port_index x =? i) && issue_src.ready (src1 x) && issue_src.ready (src2 x) &&
  older_than_flush (slot_age x).
(** Skipped for a load that is turned away; [port] is the slot with the number
    of the port, whose [lpv] the test on a stall reads. *)
Definition skipped (port x : slot_t) : bool :=
  (lu_feedback.replay lu && (issue_src.last_window (src1 x) || issue_src.last_window (src2 x))) ||
  (lu_feedback.stall lu && (negb (issue_src.lpv (src1 port) =? 0) || negb (issue_src.lpv (src2 port) =? 0))).
Fixpoint select (i mask : Z) (port : slot_t) (q : ooo_issue_queue.queue_t op_info_t) (j : Z)
  (l : list slot_t) (sel : selected_t) : outcome selected_t :=
  match l with
  | [] => Ok sel
  | x :: l =>
      v ← ooo_issue_queue.is_valid j q;
      select i mask port q (j + 1) l
        (if candidate i mask v x && older_than_selected (slot_age x) sel && negb (skipped port x)
         then Some (j, slot_age x) else sel)
  end.
Definition select_port (i : Z) s : outcome selected_t :=
  mask ← unit_mask i s;
  port ← arr_get (slots s) i;
  select i mask port (issue_q s) 0 (slots s) None.

(** The window in which a load may still turn the instruction away. *)
Definition send_lpv (x : slot_t) : Z :=
  let l := Z.lor (issue_src.lpv (src1 x)) (issue_src.lpv (src2 x)) in
  if lu_feedback.stall lu then l else Z.shiftr l 1.
Definition send_one (sel : selected_t) s : outcome (issue_readreg.op_info_t * integer_issue_t) :=
  match sel with
  | Some (j, _) =>
      r ← fifo.customer_get_item j (ooo_issue_queue.base (issue_q s));
      x ← arr_get (slots s) j;
      q ← (if send_lpv x =? 0 then ooo_issue_queue.pop j (issue_q s) else Ok (issue_q s));
      l ← arr_update (slots s) j (λ x, { x with issued ::= dff.set true });
      Ok (issue_readreg.mk r (send_lpv x), { s with issue_q := q; slots := l })
  | None => Ok (issue_readreg.init, s)
  end.
Definition selected_id (sel : selected_t) : Z := match sel with Some (j, _) => j | None => 0 end.
Definition feedback_one (sel : selected_t) s : outcome wakeup.port_t :=
  x ← arr_get (slots s) (selected_id sel);
  Ok (wakeup.mk (bool_decide (is_Some sel) && wakeup_rd_valid x) 0 (wakeup_rd x) (wakeup_shift x)
        (send_lpv x) (rob_id x) (rob_id_stage x)).
(** "calculate busy". *)
Definition tick_unit (u : unit_t) : unit_t :=
  if negb (idle u) then
    mk_unit (idle_shift u =? 1)
      (if 0 <? idle_shift u then Z.shiftr (idle_shift u) 1 else idle_shift u)
  else u.
Definition tick s : integer_issue_t :=
  { s with alu_idle ::= fmap tick_unit; bru_idle ::= fmap tick_unit; csr_idle ::= fmap tick_unit;
           div_idle ::= fmap tick_unit; mul_idle ::= fmap tick_unit }.
Definition occupy (l : list unit_t) (i shift : Z) : outcome (list unit_t) := arr_set l i (mk_unit false shift).
(** "update idle and busy shift" for the port [i]. *)
Definition update_unit (i : Z) (sel : selected_t) s : outcome integer_issue_t :=
  match sel with
  | None => Ok s
  | Some (j, _) =>
      x ← arr_get (slots s) j;
      let n := new_idle_shift x in
      let u := op_unit_seq x in
      if negb (0 <? n) then Ok s
      else if u =? shl32 1 ALU_SHIFT then l ← occupy (alu_idle s) i n; Ok { s with alu_idle := l }
      else if u =? shl32 1 MUL_SHIFT then l ← occupy (mul_idle s) i n; Ok { s with mul_idle := l }
      else if (i =? 0) && (u =? shl32 1 BRU_SHIFT) then l ← occupy (bru_idle s) 0 n; Ok { s with bru_idle := l }
      else if (i =? 0) && (u =? shl32 1 CSR_SHIFT) then l ← occupy (csr_idle s) 0 n; Ok { s with csr_idle := l }
      else if (i =? 1) && (u =? shl32 1 DIV_SHIFT) then l ← occupy (div_idle s) 0 n; Ok { s with div_idle := l }
      else Abort
  end.
Definition run_output (commit_flush : bool) s : outcome (wakeup.pack_t * integer_issue_t) :=
  if negb commit_flush then
    sel0 ← select_port 0 s;
    sel1 ← select_port 1 s;
    o0 ← send_one sel0 s;
    o1 ← send_one sel1 o0.2;
    let s := o1.2 in
    w0 ← feedback_one sel0 s;
    w1 ← feedback_one sel1 s;
    s ← update_unit 0 sel0 (tick s);
    s ← update_unit 1 sel1 s;
    Ok ([w0; w1], { s with integer_issue_readreg_port ::= port.set [o0.1; o1.1] })
  else
    Ok (replicate (Z.to_nat INTEGER_ISSUE_WIDTH) wakeup.init,
        all_idle { s with integer_issue_readreg_port ::= port.set pack_init }).
End output.

(** *** Wakeup *)
Section wakeup.
Context (iw lw : wakeup.pack_t) (bru : bru_feedback_t) (lu : lu_feedback_t) (sau : sau_feedback_t).
Context (exec : list execute_feedback.channel_t).

Definition windows (f : src_t -> bool) (x : slot_t) : bool := f (src1 x) || f (src2 x).
(** An instruction that was issued: it is repeated, or it leaves the queue
    ([true]) when no load can turn it away any more. *)
Definition check_issued (x : slot_t) : slot_t * bool :=
  if dff.get (issued x) then
    if lu_feedback.replay lu && windows issue_src.last_window x then
      ({ x with issued ::= dff.set false }, false)
    else if lu_feedback.stall lu && windows (λ y, negb (Z.shiftr (issue_src.lpv y) 1 =? 0)) x then
      ({ x with issued ::= dff.set false }, false)
    else
      (x, ((issue_src.lpv (src1 x) =? 0) && (issue_src.lpv (src2 x) =? 0)) ||
          ((issue_src.lpv (src1 x) <=? 1) && (issue_src.lpv (src2 x) <=? 1) && negb (lu_feedback.stall lu)))
  else (x, false).
Definition map_srcs (f : src_t -> src_t) (x : slot_t) : slot_t := { x with src1 ::= f; src2 ::= f }.
(** The body of the loop for a valid slot; [true]: the slot is freed. *)
Definition wakeup_slot (o : op_info_t) (x : slot_t) : outcome (slot_t * bool) :=
  if squashed bru sau (dispatch_issue.age o) then Ok (x, true)
  else
    let x := map_srcs (λ y, issue_src.sleep_on_stall lu (issue_src.cancel lu y)) x in
    let xb := check_issued x in
    let x := map_srcs (issue_src.age_lpv lu) xb.1 in
    a ← issue_src.wake (issue_src.src1 o) iw lw exec (src1 x);
    b ← issue_src.wake (issue_src.src2 o) iw lw exec (src2 x);
    Ok ({ x with src1 := a; src2 := b }, xb.2).
(** The slots from [i] on. *)
Fixpoint wakeup_from (i : Z) (l : list slot_t) (q : ooo_issue_queue.queue_t op_info_t) :
  outcome (list slot_t * ooo_issue_queue.queue_t op_info_t) :=
  match l with
  | [] => Ok ([], q)
  | x :: l =>
      v ← ooo_issue_queue.is_valid i q;
      xq ← (if (v : bool) then
              o ← fifo.customer_get_item i (ooo_issue_queue.base q);
              xb ← wakeup_slot o x;
              q ← (if (xb.2 : bool) then ooo_issue_queue.set_valid i false q else Ok q);
              Ok (xb.1, q)
            else Ok (x, q));
      r ← wakeup_from (i + 1) l xq.2;
      Ok (xq.1 :: r.1, r.2)
  end.
Definition run_wakeup (commit_flush : bool) s : outcome integer_issue_t :=
  if negb commit_flush then
    lq ← wakeup_from 0 (slots s) (issue_q s); Ok { s with slots := lq.1; issue_q := lq.2 }
  else Ok s.
End wakeup.

(** *** Input *)
(** [port_index] and the next value of [next_port_index]. *)
Definition assign_port (u : cop_unit.op_unit_t) (next : Z) : Z * Z :=
  match u with
  | cop_unit.alu | cop_unit.mul => (next, (next + 1) mod INTEGER_ISSUE_WIDTH)
  | cop_unit.div => (1, next)
  | _ => (0, next)
  end.
(** [op_unit_seq] and the latency of the unit. *)
Definition unit_of (u : cop_unit.op_unit_t) : outcome (Z * Z) :=
  match u with
  | cop_unit.alu => Ok (shl32 1 ALU_SHIFT, ALU_LATENCY)
  | cop_unit.bru => Ok (shl32 1 BRU_SHIFT, BRU_LATENCY)
  | cop_unit.csr => Ok (shl32 1 CSR_SHIFT, CSR_LATENCY)
  | cop_unit.div => Ok (shl32 1 DIV_SHIFT, DIV_LATENCY)
  | cop_unit.mul => Ok (shl32 1 MUL_SHIFT, MUL_LATENCY)
  | _ => Abort
  end.
Section input.
Context (bru : bru_feedback_t) (sau : sau_feedback_t).
Context (exec wb : list execute_feedback.channel_t) (regs : phy_regfile.regfile_t).

Definition enter_slot (o : op_info_t) (port : Z) (x : slot_t) : outcome slot_t :=
  let u := rename_dispatch.uop o in
  let acts := decode_rename.valid u && negb (decode_rename.has_exception u) in
  a ← issue_src.enter acts (issue_src.src1 o) exec wb regs;
  b ← issue_src.enter acts (issue_src.src2 o) exec wb regs;
  ul ← unit_of (decode_rename.op_unit u);
  Ok (mk_slot a b port ul.1 (rename_dispatch.rob_id o) (rename_dispatch.rob_id_stage o)
        (acts && decode_rename.need_rename u) (rename_dispatch.rd_phy o)
        (latency_to_wakeup_shift ul.2) (latency_to_idle_shift ul.2) (dff.set false (issued x))).
(** "let remain instructions keep right alignment". *)
Definition hold (l hold_pack : dispatch_issue.pack_t) : dispatch_issue.pack_t :=
  l ++ (dispatch_issue.disable <$> drop (length l) hold_pack).
Fixpoint push_all (l : list op_info_t) s : outcome integer_issue_t :=
  match l with
  | [] => Ok s
  | o :: l' =>
      if dispatch_issue.enable o then
        iq ← ooo_issue_queue.push o (issue_q s);
        match iq.1 with
        | Some id =>
            x ← arr_get (slots s) id;
            let p := assign_port (decode_rename.op_unit (rename_dispatch.uop o)) (next_port_index s) in
            x ← enter_slot o p.1 x;
            k ← arr_set (slots s) id x;
            push_all l' { s with issue_q := iq.2; slots := k; next_port_index := p.2 }
        | None => Ok { s with busy := true; hold_rev_pack ::= hold l }
        end
      else push_all l' s
  end.
(** A held pack comes first; then what is squashed is disabled. *)
Definition take_pack (dispatch_port : port_t dispatch_issue.pack_t) s : dispatch_issue.pack_t * integer_issue_t :=
  if busy s then (hold_rev_pack s, { s with hold_rev_pack := dispatch_issue.init; busy := false })
  else (port.get dispatch_port, s).
Definition run_input (commit_flush : bool) (dispatch_port : port_t dispatch_issue.pack_t) s :
  outcome (bool * integer_issue_t) :=
  let stall := busy s in
  s ← (if negb commit_flush then
         let ps := take_pack dispatch_port s in
         push_all (dispatch_issue.disable_if (λ o, squashed bru sau (dispatch_issue.age o)) <$> ps.1) ps.2
       else
         Ok (all_idle { s with issue_q ::= ooo_issue_queue.flush; busy := false;
                               hold_rev_pack := dispatch_issue.init; next_port_index := 0 }));
  Ok (stall, s).
End input.
End integer_issue.
Abbreviation integer_issue_t := integer_issue.integer_issue_t.
