(* ===== verification/CycleLsuIssue.v ===== *)
(** * Load/store issue stage

    src/cycle_model/pipeline/lsu_issue.cpp, lsu_issue.h and
    lsu_issue_readreg.h.

    A load leaves the queue as a whole, a store in two parts, its address
    (port 1) and its data (port 2), in either order.  A load that was once
    turned away by an older store waits until the stores before it have
    left. *)

From S2P Require Import Prelude Word Ops IsaDecode Dff Fifo Rat CycleDecode CyclePack.
From S2P Require Import LoadStore Ras Rob CycleRename CycleCommit CycleDispatch CycleLsu.
From S2P Require Import CycleExec CycleIssue.

Definition LSU_ISSUE_WIDTH : Z := 3.
Definition LSU_ISSUE_QUEUE_SIZE : Z := 16.
Definition LSU_LATENCY : Z := 2.
Definition INIT_LPV : Z := 4.

Module lsu_issue.
(** Everything the arrays hold for one slot of the queue. *)
Record slot_t := mk_slot {
  src1 : src_t;
  src2 : src_t;
  wakeup_rd_valid : bool;
  wakeup_rd : Z;
  wakeup_shift : Z;
  sau_part_issued : bool;
  sdu_part_issued : bool;
  is_store : bool;
  rob_id : Z;
  rob_id_stage : bool;
  waiting_issue_id_ready : bool;
  waiting_issue_id : Z;
  lpv : Z;
  cur_lpv : Z;
  waiting_store : bool;
  waiting_store_rob_id : Z;
  waiting_store_rob_id_stage : bool;
  issued : dff_t bool
}.
Definition slot_age (x : slot_t) : age_t := age_compare.mk (rob_id x) (rob_id_stage x).
Record lsu_issue_t := mk {
  lsu_issue_readreg_port : port_t issue_readreg.pack_t;
  issue_q : ooo_issue_queue.queue_t op_info_t;
  busy : bool;
  hold_rev_pack : dispatch_issue.pack_t;
  slots : list slot_t
}.
Implicit Type s : lsu_issue_t.

Definition pack_init : issue_readreg.pack_t := replicate (Z.to_nat LSU_ISSUE_WIDTH) issue_readreg.init.
(** [lpv] of the sources is left as it was. *)
Definition reset_src (y : src_t) : src_t :=
  { y with issue_src.ready := false; issue_src.wakeup_shift := 0; issue_src.wakeup_rob_id := 0;
           issue_src.wakeup_rob_id_stage := false }.
Definition reset_slot (x : slot_t) : slot_t :=
  { x with src1 ::= reset_src; src2 ::= reset_src; sau_part_issued := false; sdu_part_issued := false;
           is_store := false; waiting_issue_id_ready := false; waiting_issue_id := 0;
           waiting_store := false; issued ::= dff.set false }.
Definition reset s : lsu_issue_t :=
  { s with issue_q ::= ooo_issue_queue.reset; busy := false; hold_rev_pack := dispatch_issue.init;
           slots ::= fmap reset_slot }.
Definition new : lsu_issue_t :=
  let slot := mk_slot issue_src.init issue_src.init false 0 0 false false false 0 false false 0 0 0
                false 0 false (dff.new false) in
  reset (mk (port.new pack_init) (ooo_issue_queue.new LSU_ISSUE_QUEUE_SIZE rename_dispatch.init) false
           dispatch_issue.init (replicate (Z.to_nat LSU_ISSUE_QUEUE_SIZE) slot)).
Definition sync s : lsu_issue_t :=
  { s with lsu_issue_readreg_port ::= port.sync; issue_q ::= ooo_issue_queue.sync;
           slots ::= fmap (λ x, { x with issued ::= dff.sync }) }.

(** ** Output *)
Section output.
Context (bru : bru_feedback_t) (lu : lu_feedback_t) (sau : sau_feedback_t).
Abbreviation selected_t := integer_issue.selected_t.

Definition windows (f : Z -> bool) (x : slot_t) : bool :=
  f (issue_src.lpv (src1 x)) || f (issue_src.lpv (src2 x)).
Definition last_window (v : Z) : bool := negb (Z.land v 1 =? 0).
(** An instruction that may be looked at. *)
Definition eligible (valid : bool) (x : slot_t) : bool :=
  valid && waiting_issue_id_ready x && negb (squashed bru sau (slot_age x)) &&
  negb (lu_feedback.replay lu && windows last_window x) &&
  negb (dff.get (issued x)) && negb (waiting_store x).
(** Loads for port 0, addresses of stores for port 1, their data for port 2. *)
Definition suits (i : Z) (x : slot_t) : bool :=
  if i =? 0 then negb (is_store x) && issue_src.ready (src1 x) && issue_src.ready (src2 x)
  else if i =? 1 then is_store x && issue_src.ready (src1 x) && negb (sau_part_issued x)
  else is_store x && issue_src.ready (src2 x) && negb (sdu_part_issued x).
(** The three ports are chosen in one loop over the slots, each by itself. *)
Fixpoint select (i : Z) (q : ooo_issue_queue.queue_t op_info_t) (j : Z) (l : list slot_t)
  (sel : selected_t) : outcome selected_t :=
  match l with
  | [] => Ok sel
  | x :: l =>
      v ← ooo_issue_queue.is_valid j q;
      select i q (j + 1) l
        (if eligible v x && suits i x && integer_issue.older_than_selected (slot_age x) sel
         then Some (j, slot_age x) else sel)
  end.

Definition send_lpv (x : slot_t) : Z :=
  Z.shiftr (Z.lor (issue_src.lpv (src1 x)) (issue_src.lpv (src2 x))) 1.
(** The address part of a store carries the matching operation. *)
Definition address_op (o : sdu_op.sdu_op_t) : sau_op.sau_op_t :=
  match o with sdu_op.sb => sau_op.stab | sdu_op.sh => sau_op.stah | sdu_op.sw => sau_op.staw end.
Definition with_last (b : bool) (u : decode_rename.pack_t) : decode_rename.pack_t :=
  { u with decode_rename.last_uop := b }.
(** What leaves through port [i] for the slot [x]; [both] says that address and
    data of the store leave together. *)
Definition part (i : Z) (both : bool) (x : slot_t) (u : decode_rename.pack_t) : outcome decode_rename.pack_t :=
  if i =? 1 then
    o ← csub_op.get_sdu_op (decode_rename.sub_op u);
    Ok (with_last (sdu_part_issued x)
          { u with decode_rename.op_unit := cop_unit.sau;
                   decode_rename.sub_op := sub_sau_op (address_op o) })
  else if i =? 2 then Ok (with_last (sau_part_issued x || both) u)
  else Ok u.
Definition send_one (i : Z) (both : bool) (sel : selected_t) s :
  outcome (issue_readreg.op_info_t * lsu_issue_t) :=
  match sel with
  | Some (j, _) =>
      r ← fifo.customer_get_item j (ooo_issue_queue.base (issue_q s));
      x ← arr_get (slots s) j;
      u ← part i both x (rename_dispatch.uop r);
      let last := decode_rename.last_uop u in
      q ← (if last && (send_lpv x =? 0) && (lpv x =? 0) then ooo_issue_queue.pop j (issue_q s)
           else Ok (issue_q s));
      l ← arr_update (slots s) j (λ x, { x with cur_lpv := lpv x; issued ::= dff.set last });
      Ok (issue_readreg.mk { r with rename_dispatch.uop := u } (send_lpv x),
          { s with issue_q := q; slots := l })
  | None => Ok (issue_readreg.init, s)
  end.
Definition feedback_one (sel : selected_t) (o : issue_readreg.op_info_t) s : outcome wakeup.port_t :=
  let j := integer_issue.selected_id sel in
  x ← arr_get (slots s) j;
  Ok (wakeup.mk
        (bool_decide (is_Some sel) && wakeup_rd_valid x && decode_rename.last_uop (issue_readreg.uop o))
        j (wakeup_rd x) (wakeup_shift x) (Z.lor (send_lpv x) (lpv x)) (rob_id x) (rob_id_stage x)).
Definition mark (sel : selected_t) (f : slot_t -> slot_t) s : outcome lsu_issue_t :=
  match sel with
  | Some (j, _) => l ← arr_update (slots s) j f; Ok { s with slots := l }
  | None => Ok s
  end.
Definition same_slot (a b : selected_t) : bool :=
  match a, b with
  | Some (i, _), Some (j, _) => i =? j
  | Some (i, _), None => i =? 0
  | None, _ => false
  end.
Definition output s : outcome (wakeup.pack_t * lsu_issue_t) :=
  l ← select 0 (issue_q s) 0 (slots s) None;
  a ← select 1 (issue_q s) 0 (slots s) None;
  d ← select 2 (issue_q s) 0 (slots s) None;
  o0 ← send_one 0 false l s;
  o1 ← send_one 1 false a o0.2;
  o2 ← send_one 2 (same_slot a d) d o1.2;
  s ← mark a (λ x, { x with sau_part_issued := true }) o2.2;
  s ← mark d (λ x, { x with sdu_part_issued := true }) s;
  w0 ← feedback_one l o0.1 s;
  w1 ← feedback_one a o1.1 s;
  w2 ← feedback_one d o2.1 s;
  Ok ([w0; w1; w2], { s with lsu_issue_readreg_port ::= port.set [o0.1; o1.1; o2.1] }).
Definition no_wakeup : wakeup.pack_t := replicate (Z.to_nat LSU_ISSUE_WIDTH) wakeup.init.
Definition run_output (readreg_stall commit_flush : bool) s : outcome (wakeup.pack_t * lsu_issue_t) :=
  if negb commit_flush && negb readreg_stall && negb (lu_feedback.stall lu) then output s
  else Ok (no_wakeup, { s with lsu_issue_readreg_port ::= port.set pack_init }).
End output.

(** ** Wakeup *)
(** The end of the stores that are still in the queue: the best of the slots
    that hold one, by [better]. *)
Section stores.
Context (better : age_t -> age_t -> bool) (age_of : Z -> slot_t -> outcome age_t).
Fixpoint find_store (q : ooo_issue_queue.queue_t op_info_t) (j : Z) (l : list slot_t) (best : option age_t) :
  outcome (option age_t) :=
  match l with
  | [] => Ok best
  | x :: l =>
      v ← ooo_issue_queue.is_valid j q;
      best ← (if v && negb (dff.get (issued x)) && is_store x then
                a ← age_of j x;
                Ok (match best with
                    | None => Some a
                    | Some b => if better a b then Some a else Some b
                    end)
              else Ok best);
      find_store q (j + 1) l best
  end.
End stores.
Definition item_age (q : ooo_issue_queue.queue_t op_info_t) (j : Z) (_ : slot_t) : outcome age_t :=
  o ← fifo.customer_get_item j (ooo_issue_queue.base q); Ok (dispatch_issue.age o).
Definition oldest_store s : outcome (option age_t) :=
  find_store age_compare.gt (item_age (issue_q s)) (issue_q s) 0 (slots s) None.

Section wakeup.
Context (iw lw : wakeup.pack_t) (bru : bru_feedback_t) (lu : lu_feedback_t) (sau : sau_feedback_t).
Context (exec : list execute_feedback.channel_t).

Definition turned_away (x : slot_t) : bool := lu_feedback.replay lu && windows last_window x.
(** An instruction that was issued: it is repeated, or it leaves the queue
    ([true]). *)
Definition check_issued (x : slot_t) : slot_t * bool :=
  if dff.get (issued x) then
    let xb :=
      if turned_away x ||
         (lu_feedback.replay lu && last_window (cur_lpv x) && negb (lu_feedback.replay_following_only lu))
      then ({ x with issued ::= dff.set false }, false)
      else
        (x, (negb (windows (λ v, negb (v =? 0)) x) && (cur_lpv x =? 0)) ||
            (negb (windows (λ v, 1 <? v) x) && (cur_lpv x <=? 1) && negb (lu_feedback.stall lu))) in
    ({ xb.1 with cur_lpv ::= issue_src.shift_lpv lu }, xb.2)
  else (x, false).
(** Both parts of a store are repeated. *)
Definition repeat_store (x : slot_t) : slot_t :=
  if turned_away x && is_store x then { x with sau_part_issued := false; sdu_part_issued := false } else x.
Definition wake_waiting (x : slot_t) : slot_t :=
  if negb (waiting_issue_id_ready x) &&
     existsb (λ w, wakeup.valid w && (waiting_issue_id x =? wakeup.issue_id w)) lw
  then { x with waiting_issue_id_ready := true } else x.
(** The stores the load waits for have left. *)
Definition end_waiting (oldest : option age_t) (x : slot_t) : slot_t :=
  if waiting_store x &&
     match oldest with
     | None => true
     | Some a => age_compare.lt a (age_compare.mk (waiting_store_rob_id x) (waiting_store_rob_id_stage x))
     end
  then { x with waiting_store := false } else x.
Definition map_srcs (f : src_t -> src_t) (x : slot_t) : slot_t := { x with src1 ::= f; src2 ::= f }.
Definition wakeup_slot (oldest : option age_t) (o : op_info_t) (x : slot_t) : outcome (slot_t * bool) :=
  if squashed bru sau (dispatch_issue.age o) then Ok (x, true)
  else
    let xb := check_issued (map_srcs (issue_src.cancel lu) x) in
    let x := map_srcs (issue_src.age_lpv lu) (repeat_store xb.1) in
    a ← issue_src.wake (issue_src.src1 o) iw lw exec (src1 x);
    b ← issue_src.wake (issue_src.src2 o) iw lw exec (src2 x);
    Ok (end_waiting oldest (wake_waiting { x with src1 := a; src2 := b }), xb.2).
Fixpoint wakeup_from (oldest : option age_t) (i : Z) (l : list slot_t)
  (q : ooo_issue_queue.queue_t op_info_t) :
  outcome (list slot_t * ooo_issue_queue.queue_t op_info_t) :=
  match l with
  | [] => Ok ([], q)
  | x :: l =>
      v ← ooo_issue_queue.is_valid i q;
      xq ← (if (v : bool) then
              o ← fifo.customer_get_item i (ooo_issue_queue.base q);
              xb ← wakeup_slot oldest o x;
              q ← (if (xb.2 : bool) then ooo_issue_queue.set_valid i false q else Ok q);
              Ok (xb.1, q)
            else Ok (x, q));
      r ← wakeup_from oldest (i + 1) l xq.2;
      Ok (xq.1 :: r.1, r.2)
  end.
Definition run_wakeup (commit_flush : bool) s : outcome lsu_issue_t :=
  if negb commit_flush then
    oldest ← oldest_store s;
    lq ← wakeup_from oldest 0 (slots s) (issue_q s); Ok { s with slots := lq.1; issue_q := lq.2 }
  else Ok s.
End wakeup.

(** ** Input *)
Section input.
Context (bru : bru_feedback_t) (sau : sau_feedback_t).
Context (exec wb : list execute_feedback.channel_t) (regs : phy_regfile.regfile_t) (waits : wait_table_t).

Definition youngest_store s : outcome (option age_t) :=
  find_store age_compare.lt (λ _ x, Ok (slot_age x)) (issue_q s) 0 (slots s) None.
Definition is_load (o : op_info_t) : bool := rename.is_unit cop_unit.lu (rename_dispatch.uop o).
(** The entry of an instruction; without an operand to wait for, the second
    source of slot [i] is made ready, [i] being the place in the pack. *)
Definition enter_slot (o : op_info_t) (x : slot_t) : outcome slot_t :=
  let u := rename_dispatch.uop o in
  let acts := decode_rename.valid u && negb (decode_rename.has_exception u) in
  a ← issue_src.enter acts (issue_src.src1 o) exec wb regs;
  b ← (if acts then issue_src.enter true (issue_src.src2 o) exec wb regs else Ok issue_src.init);
  Ok { x with src1 := a; src2 := b; rob_id := rename_dispatch.rob_id o;
              rob_id_stage := rename_dispatch.rob_id_stage o;
              wakeup_rd_valid := acts && decode_rename.need_rename u;
              wakeup_rd := rename_dispatch.rd_phy o;
              wakeup_shift := latency_to_wakeup_shift LSU_LATENCY;
              is_store := rename.is_unit cop_unit.sdu u;
              sau_part_issued := false; sdu_part_issued := false;
              waiting_issue_id_ready := true; waiting_issue_id := 0 }.
Definition ready_stray (i : Z) (acts : bool) (l : list slot_t) : outcome (list slot_t) :=
  if acts then Ok l else arr_update l i (λ x, { x with src2 ::= λ y, { y with issue_src.ready := true } }).
(** The wait for older stores and the windows of a load. *)
Definition set_waiting (o : op_info_t) (youngest : option age_t) (x : slot_t) : outcome slot_t :=
  w ← (if is_load o then b ← wait_table.get_wait_bit (decode_rename.pc (rename_dispatch.uop o)) waits;
                         Ok (b && bool_decide (is_Some youngest))
       else Ok false);
  let a := default (age_compare.mk 0 false) youngest in
  let v := if is_load o then INIT_LPV else 0 in
  Ok { x with waiting_store := w; waiting_store_rob_id := age_compare.rob_id a;
              waiting_store_rob_id_stage := age_compare.rob_id_stage a; lpv := v; cur_lpv := v;
              issued ::= dff.set false }.
Definition enter (i id : Z) (o : op_info_t) s : outcome lsu_issue_t :=
  let u := rename_dispatch.uop o in
  x ← arr_get (slots s) id;
  x ← enter_slot o x;
  l ← arr_set (slots s) id x;
  l ← ready_stray i (decode_rename.valid u && negb (decode_rename.has_exception u)) l;
  let s := { s with slots := l } in
  y ← youngest_store s;
  x ← arr_get (slots s) id;
  x ← set_waiting o y x;
  l ← arr_set (slots s) id x;
  Ok { s with slots := l }.
Fixpoint push_all (i : Z) (l : list op_info_t) s : outcome lsu_issue_t :=
  match l with
  | [] => Ok s
  | o :: l' =>
      if dispatch_issue.enable o then
        iq ← ooo_issue_queue.push o (issue_q s);
        match iq.1 with
        | Some id => s ← enter i id o { s with issue_q := iq.2 }; push_all (i + 1) l' s
        | None => Ok { s with busy := true; hold_rev_pack ::= integer_issue.hold l }
        end
      else push_all (i + 1) l' s
  end.
Definition take_pack (dispatch_port : port_t dispatch_issue.pack_t) s : dispatch_issue.pack_t * lsu_issue_t :=
  if busy s then (hold_rev_pack s, { s with hold_rev_pack := dispatch_issue.init; busy := false })
  else (port.get dispatch_port, s).
Definition run_input (commit_flush : bool) (dispatch_port : port_t dispatch_issue.pack_t) s :
  outcome (bool * lsu_issue_t) :=
  let stall := busy s in
  s ← (if negb commit_flush then
         let ps := take_pack dispatch_port s in
         push_all 0 (dispatch_issue.disable_if (λ o, squashed bru sau (dispatch_issue.age o)) <$> ps.1) ps.2
       else
         Ok { s with issue_q ::= ooo_issue_queue.flush; busy := false; hold_rev_pack := dispatch_issue.init });
  Ok (stall, s).
End input.
End lsu_issue.
Abbreviation lsu_issue_t := lsu_issue.lsu_issue_t.
