(* ===== verification/CycleReadreg.v ===== *)
(** * Register read stages

    src/cycle_model/pipeline/integer_readreg.cpp and lsu_readreg.cpp.

    The operands of an issued instruction come from the results that are on
    their way to the register file, from the register file, or from the
    instruction; then it is handed to its execute unit. *)

From S2P Require Import Prelude Word Ops IsaDecode Dff Fifo Rat CycleDecode CyclePack.
From S2P Require Import LoadStore Rob CycleRename CycleDispatch CycleLsu CycleExec CycleIssue.
From S2P Require Import CycleLsuIssue.

Abbreviation hdff_t := (handshake_dff_t rev_t).

(** ** Operands *)
Module operand.
Section operand.
Context (exec wb : list execute_feedback.channel_t) (regs : phy_regfile.regfile_t).

(** The order in which the loop looks at the channels. *)
Fixpoint interleave {T} (a b : list T) : list T :=
  match a, b with x :: a, y :: b => x :: y :: interleave a b | _, _ => [] end.
Definition channels : list execute_feedback.channel_t :=
  interleave (issue_src.feedback_channels exec) (issue_src.feedback_channels wb).
(** The value, and whether it is there: a register that was not written yet has
    none. *)
Definition read_mapped (phy : Z) : outcome (Z * bool) :=
  v ← phy_regfile.read phy regs;
  match List.find (issue_src.provides phy) channels with
  | Some c => Ok (execute_feedback.value c, true)
  | None => b ← phy_regfile.read_data_valid phy regs; Ok (v, b)
  end.
(** [imm_from] is the field the test for an immediate reads. *)
Definition read (o : issue_src.operand_t) (imm_from : arg_src_t) (imm : Z) : outcome (Z * bool) :=
  if issue_src.need_map o then read_mapped (issue_src.phy o)
  else Ok (if bool_decide (imm_from = arg_src.imm) then imm else 0, true).
End operand.
End operand.

(** ** What the two stages share *)
Module readreg.
(** The assignments [send_pack.x = rev_pack.op_info[i].x]. *)
Definition copy (o : issue_readreg.op_info_t) (v1 v2 : Z) : rev_t :=
  let r := issue_readreg.info o in
  readreg_execute.mk (rename_dispatch.uop r) (rename_dispatch.inst_common_info r)
    (rename_dispatch.branch_predictor_info_pack r) (rename_dispatch.rob_id r)
    (rename_dispatch.rob_id_stage r) (rename_dispatch.rs1_phy r) v1 (rename_dispatch.rs2_phy r) v2
    (rename_dispatch.rd_phy r) (rename_dispatch.store_buffer_id r) (rename_dispatch.load_queue_id r).
Definition acts (o : issue_readreg.op_info_t) : bool :=
  decode_rename.valid (issue_readreg.uop o) && negb (decode_rename.has_exception (issue_readreg.uop o)).
(** The instruction goes no further: squashed, or its load was turned away. *)
Definition dropped (bru : bru_feedback_t) (lu : lu_feedback_t) (sau : sau_feedback_t)
  (o : issue_readreg.op_info_t) : bool :=
  squashed bru sau (issue_readreg.age o) ||
  (lu_feedback.replay lu && negb (Z.land (issue_readreg.lpv o) 1 =? 0)).
(** A squashed instruction leaves the register in front of its unit. *)
Definition flush_if (bru : bru_feedback_t) (sau : sau_feedback_t) (h : hdff_t) : hdff_t :=
  match handshake_dff.get_data h with
  | Some r => if squashed bru sau (readreg_execute.age r) then handshake_dff.flush h else h
  | None => h
  end.
Definition push (r : rev_t) (i : Z) (l : list hdff_t) : outcome (list hdff_t) :=
  h ← arr_get l i;
  let bh := handshake_dff.push r h in
  verify (bh.1 : bool) ;; arr_set l i bh.2.
Definition disable (r : rev_t) : rev_t :=
  { r with readreg_execute.uop ::= λ u, { u with decode_rename.enable := false } }.
End readreg.

(** ** Integer *)
Module integer_readreg.
Record hdffs_t := mk {
  readreg_alu_hdff : list hdff_t;
  readreg_bru_hdff : list hdff_t;
  readreg_csr_hdff : list hdff_t;
  readreg_div_hdff : list hdff_t;
  readreg_mul_hdff : list hdff_t
}.
Definition map_all (f : hdff_t -> hdff_t) (s : hdffs_t) : hdffs_t :=
  mk (f <$> readreg_alu_hdff s) (f <$> readreg_bru_hdff s) (f <$> readreg_csr_hdff s)
    (f <$> readreg_div_hdff s) (f <$> readreg_mul_hdff s).

Section run.
Context (bru : bru_feedback_t) (lu : lu_feedback_t) (sau : sau_feedback_t).
Context (exec wb : list execute_feedback.channel_t) (regs : phy_regfile.regfile_t).

(** Without one of its values the instruction is sent on disabled. *)
Definition build (o : issue_readreg.op_info_t) : outcome rev_t :=
  let u := issue_readreg.uop o in
  if readreg.acts o then
    a ← operand.read exec wb regs (issue_src.src1 (issue_readreg.info o)) (decode_rename.arg1_src u)
          (decode_rename.imm u);
    b ← operand.read exec wb regs (issue_src.src2 (issue_readreg.info o)) (decode_rename.arg2_src u)
          (decode_rename.imm u);
    let r := readreg.copy o a.1 b.1 in
    Ok (if a.2 && b.2 then r else readreg.disable r)
  else Ok (readreg.copy o 0 0).
(** The unit the port [i] sends to. *)
Definition send (i : Z) (u : cop_unit.op_unit_t) (r : rev_t) (s : hdffs_t) : outcome hdffs_t :=
  match u with
  | cop_unit.alu => l ← readreg.push r (if i =? 0 then 0 else 1) (readreg_alu_hdff s);
                    Ok { s with readreg_alu_hdff := l }
  | cop_unit.mul => l ← readreg.push r (if i =? 0 then 0 else 1) (readreg_mul_hdff s);
                    Ok { s with readreg_mul_hdff := l }
  | cop_unit.bru => if i =? 0 then l ← readreg.push r 0 (readreg_bru_hdff s); Ok { s with readreg_bru_hdff := l }
                    else Abort
  | cop_unit.csr => if i =? 0 then l ← readreg.push r 0 (readreg_csr_hdff s); Ok { s with readreg_csr_hdff := l }
                    else Abort
  | cop_unit.div => if i =? 0 then Abort
                    else l ← readreg.push r 0 (readreg_div_hdff s); Ok { s with readreg_div_hdff := l }
  | _ => Abort
  end.
Fixpoint send_all (i : Z) (l : issue_readreg.pack_t) (s : hdffs_t) : outcome hdffs_t :=
  match l with
  | [] => Ok s
  | o :: l =>
      s ← (if issue_readreg.enable o && negb (readreg.dropped bru lu sau o) then
             r ← build o; send i (decode_rename.op_unit (issue_readreg.uop o)) r s
           else Ok s);
      send_all (i + 1) l s
  end.
Definition run (commit_flush : bool) (p : port_t issue_readreg.pack_t) (s : hdffs_t) : outcome hdffs_t :=
  if negb commit_flush then
    let s := if flush_feedback.flush bru || flush_feedback.flush sau
             then map_all (readreg.flush_if bru sau) s else s in
    send_all 0 (port.get p) s
  else Ok (map_all handshake_dff.flush s).
End run.
End integer_readreg.

(** ** Load/store *)
Module lsu_readreg.
Record lsu_readreg_t := mk {
  readreg_lu_hdff : list hdff_t;
  readreg_sau_hdff : list hdff_t;
  readreg_sdu_hdff : list hdff_t;
  busy : bool;
  hold_rev_pack : issue_readreg.pack_t
}.
Definition map_all (f : hdff_t -> hdff_t) (s : lsu_readreg_t) : lsu_readreg_t :=
  { s with readreg_lu_hdff ::= fmap f; readreg_sau_hdff ::= fmap f; readreg_sdu_hdff ::= fmap f }.
Definition reset (s : lsu_readreg_t) : lsu_readreg_t :=
  { s with busy := false; hold_rev_pack := lsu_issue.pack_init }.

Section run.
Context (bru : bru_feedback_t) (lu : lu_feedback_t) (sau : sau_feedback_t).
Context (exec wb : list execute_feedback.channel_t) (regs : phy_regfile.regfile_t).

(** The test for an immediate second operand reads [arg1_src]; a missing value
    does not disable the instruction. *)
Definition build (o : issue_readreg.op_info_t) : outcome rev_t :=
  let u := issue_readreg.uop o in
  if readreg.acts o then
    a ← operand.read exec wb regs (issue_src.src1 (issue_readreg.info o)) (decode_rename.arg1_src u)
          (decode_rename.imm u);
    b ← operand.read exec wb regs (issue_src.src2 (issue_readreg.info o)) (decode_rename.arg1_src u)
          (decode_rename.imm u);
    Ok (readreg.copy o a.1 b.1)
  else Ok (readreg.copy o 0 0).
Definition send (u : cop_unit.op_unit_t) (r : rev_t) (s : lsu_readreg_t) : outcome lsu_readreg_t :=
  match u with
  | cop_unit.lu => l ← readreg.push r 0 (readreg_lu_hdff s); Ok { s with readreg_lu_hdff := l }
  | cop_unit.sau => l ← readreg.push r 0 (readreg_sau_hdff s); Ok { s with readreg_sau_hdff := l }
  | cop_unit.sdu => l ← readreg.push r 0 (readreg_sdu_hdff s); Ok { s with readreg_sdu_hdff := l }
  | _ => Abort
  end.
Fixpoint send_all (l : issue_readreg.pack_t) (s : lsu_readreg_t) : outcome lsu_readreg_t :=
  match l with
  | [] => Ok s
  | o :: l =>
      s ← (if issue_readreg.enable o && negb (readreg.dropped bru lu sau o) then
             r ← build o; send (decode_rename.op_unit (issue_readreg.uop o)) r s
           else Ok s);
      send_all l s
  end.
(** What is held while the load unit stalls; [old] is what was held before. *)
Definition hold_one (o old : issue_readreg.op_info_t) : issue_readreg.op_info_t :=
  if issue_readreg.enable o && readreg.dropped bru lu sau o
  then { old with issue_readreg.info ::= dispatch_issue.disable } else o.
Definition run (commit_flush : bool) (p : port_t issue_readreg.pack_t) (s : lsu_readreg_t) :
  outcome (bool * lsu_readreg_t) :=
  let stall := busy s in
  s ← (if negb commit_flush then
         let s := if flush_feedback.flush bru || flush_feedback.flush sau
                  then map_all (readreg.flush_if bru sau) s else s in
         let rev := if busy s then hold_rev_pack s else port.get p in
         let s := { s with busy := false } in
         if negb (lu_feedback.stall lu) then send_all rev s
         else Ok { s with busy := true; hold_rev_pack ::= zip_with hold_one rev }
       else Ok (reset (map_all handshake_dff.flush s)));
  Ok (stall, s).
End run.
End lsu_readreg.
Abbreviation lsu_readreg_t := lsu_readreg.lsu_readreg_t.
