(* ===== verification/CycleFetch.v ===== *)
(** * Fetch stages

    src/cycle_model/pipeline/fetch1.cpp and fetch2.cpp, fetch1_fetch2.h.

    The first stage takes the four instructions the bus answers with, cuts the
    pack behind a predicted jump, and asks for the next address at the end of
    every cycle.  The second stage has the second level of the direction
    prediction, which may redirect the first, and fills the queue in front of
    decode. *)

From S2P Require Import Prelude Word Ops IsaDecode Dff Fifo Rat CycleDecode CyclePack.
From S2P Require Import Predict Ras CycleCommit CycleBus.

Abbreviation predictors_t := branch_predictor_set.set_t.

(** ** [fetch1_fetch2_op_info_t]

    It has the members of [fetch2_decode_pack_t], and [id], which no code reads
    or writes. *)
Module fetch1_fetch2.
Definition op_info_t := fetch2_decode.pack_t bp_info.pack_t inst_common_info_t.
Definition init : op_info_t :=
  fetch2_decode.mk (mk_info 0) false 0 0 false riscv_exception.instruction_address_misaligned 0
    bp_info.init.
Definition pack_t := list op_info_t.
Definition pack_init : pack_t := replicate (Z.to_nat FETCH_WIDTH) init.
Definition disable (o : op_info_t) : op_info_t := { o with fetch2_decode.enable := false }.
(** A conditional branch with a prediction. *)
Definition predicted_branch (o : op_info_t) : bool :=
  let b := fetch2_decode.branch_predictor_info_pack o in
  fetch2_decode.enable o && bp_info.predicted b && bp_info.condition_jump b.
(** "branch history update". *)
Definition update_history (o : op_info_t) (p : predictors_t) : predictors_t :=
  if predicted_branch o
  then branch_predictor_set.batch_speculative_update_sync (fetch2_decode.pc o)
         (bp_info.jump (fetch2_decode.branch_predictor_info_pack o)) p
  else p.
Definition update_all (l : pack_t) (p : predictors_t) : predictors_t :=
  foldl (λ p o, update_history o p) p l.
End fetch1_fetch2.

(** ** [fetch2_feedback_pack_t] *)
Module fetch2_feedback.
Record pack_t := mk { idle : bool; stall : bool; pc_redirect : bool; new_pc : Z }.
Definition init : pack_t := mk false false false 0.
End fetch2_feedback.
Abbreviation fetch2_feedback_t := fetch2_feedback.pack_t.

(** ** First stage *)
Module fetch1.
Record fetch1_t := mk {
  init_pc : Z;
  pc : Z;
  jump_wait : bool;
  next_inst_id : Z;
  fetch1_fetch2_port : port_t fetch1_fetch2.pack_t;
  predictors : predictors_t;
  main_ras : ras_t;
  bus : bus_system_t
}.
Implicit Type s : fetch1_t.
Definition reset s : fetch1_t := { s with pc := init_pc s; jump_wait := false; next_inst_id := 0 }.

Definition is_jump (opcode : Z) : bool :=
  (Z.land opcode 0x7f =? 0x6f) || (Z.land opcode 0x7f =? 0x67) || (Z.land opcode 0x7f =? 0x63) ||
  (opcode =? 0x30200073).
Definition is_fence_i (opcode : Z) : bool :=
  (Z.land opcode 0x7f =? 0x0f) && (Z.land (Z.shiftr opcode 12) 0x07 =? 0x01).
Definition is_link (r : Z) : bool := (r =? 1) || (r =? 5).

(** *** The prediction for one instruction *)
Definition taken (next : Z) : bp_info.pack_t :=
  { bp_info.init with bp_info.predicted := true; bp_info.jump := true; bp_info.next_pc := next }.
Definition push_addr (a : Z) s : outcome fetch1_t :=
  r ← ras.push_addr a (main_ras s); Ok { s with main_ras := r }.
(** The target from the buffer, or from the return address stack. *)
Definition by_btb (i : Z) s : outcome (bp_info.pack_t * fetch1_t) :=
  let b := impl (branch_predictor_set.l0 (predictors s)) in
  n ← l0_btb.get_next_pc i b;
  Ok (l0_btb.fill_info_pack (taken n) b, s).
Definition by_ras s : outcome (bp_info.pack_t * fetch1_t) :=
  nr ← ras.pop_addr (main_ras s); Ok (taken nr.1, { s with main_ras := nr.2 }).
Definition predict_jal (cur_pc : Z) (f : fields_t) s : outcome (bp_info.pack_t * fetch1_t) :=
  o ← sign_extend (fields.imm_j f) 21;
  s ← (if is_link (fields.rd f) then push_addr (add32 cur_pc 4) s else Ok s);
  Ok (taken (add32 cur_pc o), s).
Definition predict_jalr (i cur_pc : Z) (f : fields_t) s : outcome (bp_info.pack_t * fetch1_t) :=
  bs ← (if is_link (fields.rs1 f) && negb (is_link (fields.rd f) && (fields.rs1 f =? fields.rd f))
        then by_ras s else by_btb i s);
  s ← (if is_link (fields.rd f) then push_addr (add32 cur_pc 4) bs.2 else Ok bs.2);
  Ok (bs.1, s).
(** A branch whose [funct3] is reserved stops the simulator. *)
Definition predict_branch (i cur_pc : Z) (f : fields_t) s : outcome (bp_info.pack_t * fetch1_t) :=
  let p := predictors s in
  let modal := impl (branch_predictor_set.modal p) in
  j ← bi_modal.is_jump i modal;
  n ← bi_modal.get_next_pc i modal;
  b ← bi_mode.fill_info_pack_debug cur_pc
        (bi_modal.fill_info_pack
           { bp_info.init with bp_info.predicted := true; bp_info.jump := j; bp_info.next_pc := n } modal)
        (impl (branch_predictor_set.mode p));
  verify (negb ((fields.funct3 f =? 2) || (fields.funct3 f =? 3))) ;;
  Ok (b, s).
Definition predict (i cur_pc opcode : Z) s : outcome (bp_info.pack_t * fetch1_t) :=
  p ← branch_predictor_set.batch_predict i cur_pc opcode (predictors s);
  let s := { s with predictors := p } in
  let f := fields.of_word opcode in
  if Z.land opcode 0x7f =? 0x6f then predict_jal cur_pc f s
  else if Z.land opcode 0x7f =? 0x67 then predict_jalr i cur_pc f s
  else if Z.land opcode 0x7f =? 0x63 then predict_branch i cur_pc f s
  else Ok (bp_info.init, if is_jump opcode then { s with jump_wait := true } else s).

(** *** The instructions of one answer of the bus *)
Definition misaligned (cur_pc : Z) : bool := negb (cycle_bus.check_align cur_pc 4).
Definition op_info (id cur_pc opcode : Z) (b : bp_info.pack_t) : fetch1_fetch2.op_info_t :=
  fetch2_decode.mk (mk_info id) true cur_pc opcode (misaligned cur_pc)
    (if misaligned cur_pc then riscv_exception.instruction_address_misaligned
     else riscv_exception.instruction_access_fault) cur_pc b.
(** The address after the instruction; [true]: the loop stops here. *)
Definition after (cur_pc opcode : Z) (b : bp_info.pack_t) : Z * bool :=
  if is_fence_i opcode then (add32 cur_pc 4, true)
  else if is_jump opcode then
    if bp_info.predicted b && bp_info.jump b && negb (bp_info.next_pc b =? add32 cur_pc 4)
    then (bp_info.next_pc b, true)
    else (add32 cur_pc 4, negb (bp_info.predicted b))
  else (add32 cur_pc 4, false).
(** The loop, from the slot [i] on; [quiet]: everything behind is empty, as a
    [fence.i] waits for.  The list ends where the loop does. *)
Fixpoint fetch (quiet : bool) (old_pc i : Z) (values : list Z) s : outcome (fetch1_fetch2.pack_t * fetch1_t) :=
  match values with
  | [] => Ok ([], s)
  | v :: values =>
      let cur_pc := add32 old_pc (i * 4) in
      let opcode := if misaligned cur_pc then 0 else v in
      if is_fence_i opcode && (negb (i =? 0) || negb quiet) then Ok ([], s)
      else
        let id := next_inst_id s in
        bs ← predict i cur_pc opcode { s with next_inst_id ::= λ n, u64 (n + 1) };
        let next := after cur_pc opcode bs.1 in
        let s := { bs.2 with pc := next.1 } in
        let o := op_info id cur_pc opcode bs.1 in
        if (next.2 : bool) then Ok ([o], s)
        else r ← fetch quiet old_pc (i + 1) values s; Ok (o :: r.1, r.2)
  end.
Definition fill (l : fetch1_fetch2.pack_t) : fetch1_fetch2.pack_t :=
  l ++ drop (length l) fetch1_fetch2.pack_init.

(** *** [run] *)
Section run.
Context (quiet : bool) (fb2 : fetch2_feedback_t) (bru : bru_feedback_t) (sau : sau_feedback_t).
Context (commit : commit_feedback_t).

(** A wait for a jump that is not predicted ends when it commits. *)
Definition wait s : fetch1_t :=
  if commit_feedback.jump_enable commit then
    let s := { s with jump_wait := false } in
    if commit_feedback.jump commit then { s with pc := commit_feedback.jump_next_pc commit } else s
  else s.
Definition proceed s : outcome fetch1_t :=
  ps ← (if jump_wait s then Ok (fetch1_fetch2.pack_init, wait s)
        else if negb (fetch2_feedback.stall fb2) then
          match cycle_bus.get_instruction_value (bus_system.bus (bus s)) with
          | Some l => r ← fetch quiet (pc s) 0 l s; Ok (fill r.1, r.2)
          | None => Ok (fetch1_fetch2.pack_init, s)
          end
        else Ok (fetch1_fetch2.pack_init, s));
  Ok (if negb (fetch2_feedback.stall fb2) then
        { ps.2 with predictors ::= fetch1_fetch2.update_all ps.1;
                    fetch1_fetch2_port ::= port.set ps.1 }
      else ps.2).
Definition redirect (new_pc : Z) s : fetch1_t :=
  { s with jump_wait := false; pc := new_pc;
           fetch1_fetch2_port ::= port.set fetch1_fetch2.pack_init }.
(** The address an exception, a committed jump, a branch, a load or the second
    stage sends the fetch to. *)
Definition choose s : outcome fetch1_t :=
  if commit_feedback.flush commit then
    if commit_feedback.has_exception commit then Ok (redirect (commit_feedback.exception_pc commit) s)
    else if commit_feedback.jump_enable commit then
      verify (commit_feedback.jump commit) ;; Ok (redirect (commit_feedback.jump_next_pc commit) s)
    else Ok (redirect (pc s) s)
  else if flush_feedback.flush bru then Ok (redirect (flush_feedback.next_pc bru) s)
  else if flush_feedback.flush sau then Ok (redirect (flush_feedback.next_pc sau) s)
  else if fetch2_feedback.pc_redirect fb2 then Ok (redirect (fetch2_feedback.new_pc fb2) s)
  else proceed s.
Definition run s : outcome fetch1_t :=
  s ← choose s;
  b ← bus_system.read_instruction (pc s) (bus s);
  Ok { s with bus := b }.
End run.
End fetch1.
Abbreviation fetch1_t := fetch1.fetch1_t.

(** ** Second stage *)
Module fetch2.
Record fetch2_t := mk {
  predictors : predictors_t;
  fetch2_decode_fifo : fifo_t (fetch2_decode.pack_t bp_info.pack_t inst_common_info_t);
  rev_pack : fetch1_fetch2.pack_t;
  busy : bool
}.
Implicit Type s : fetch2_t.
Definition reset s : fetch2_t := { s with busy := false; rev_pack := fetch1_fetch2.pack_init }.

(** "level2 branch prediction": the first branch the second level has another
    opinion about; what comes after it is invalid. *)
Definition override (o : fetch1_fetch2.op_info_t) (jump : bool) (next : Z) : fetch1_fetch2.op_info_t :=
  { o with fetch2_decode.branch_predictor_info_pack ::=
      λ b, { b with bp_info.jump := jump; bp_info.next_pc := next } }.
Definition correct (o : fetch1_fetch2.op_info_t) (jump : bool) (next : Z) (p : predictors_t) : predictors_t :=
  let b := fetch2_decode.branch_predictor_info_pack o in
  branch_predictor_set.batch_restore_sync b
    { p with branch_predictor_set.modal ::=
        branch_predictor_base.update_sync (fetch2_decode.pc o) jump next false b }.
Fixpoint level2 (i : Z) (l : fetch1_fetch2.pack_t) (p : predictors_t) :
  outcome (fetch1_fetch2.pack_t * predictors_t * option Z) :=
  match l with
  | [] => Ok ([], p, None)
  | o :: l =>
      let b := fetch2_decode.branch_predictor_info_pack o in
      let m := impl (branch_predictor_set.mode p) in
      x ← (if fetch1_fetch2.predicted_branch o && negb (bp_info.uncondition_indirect_jump b) then
             n ← bi_mode.get_next_pc i m;
             j ← bi_mode.is_jump i m;
             Ok (if negb (eqb j (bp_info.jump b)) || negb (n =? bp_info.next_pc b)
                 then Some (j, n) else None)
           else Ok None);
      match (x : option (bool * Z)) with
      | Some (j, n) => Ok (override o j n :: (fetch1_fetch2.disable <$> l), correct o j n p, Some n)
      | None => r ← level2 (i + 1) l p; Ok (o :: r.1.1, r.1.2, r.2)
      end
  end.
(** The pack, the predictors and the redirection of a cycle without a held
    pack. *)
Definition take_pack (p : port_t fetch1_fetch2.pack_t) s : outcome (option Z * fetch2_t) :=
  x ← level2 0 (port.get p) (predictors s);
  let q := match x.2 with Some _ => fetch1_fetch2.update_all x.1.1 x.1.2 | None => x.1.2 end in
  Ok (x.2, { s with rev_pack := x.1.1; predictors := q }).

(** The loop that fills the queue: what is left when the queue is full. *)
Fixpoint push_all (l : fetch1_fetch2.pack_t) (q : fifo_t fetch1_fetch2.op_info_t) :
  outcome (option fetch1_fetch2.pack_t * fifo_t fetch1_fetch2.op_info_t) :=
  match l with
  | [] => Ok (None, q)
  | o :: l' =>
      if fetch2_decode.enable o then
        bq ← fifo.push o q;
        if (bq.1 : bool) then push_all l' bq.2 else Ok (Some l, bq.2)
      else push_all l' q
  end.
(** "let remain instructions keep right alignment". *)
Definition align (rest old : fetch1_fetch2.pack_t) : fetch1_fetch2.pack_t :=
  rest ++ (fetch1_fetch2.disable <$> drop (length rest) old).
Definition run (bru_flush sau_flush commit_flush : bool) (p : port_t fetch1_fetch2.pack_t) s :
  outcome (fetch2_feedback_t * fetch2_t) :=
  let stall := busy s in
  if negb commit_flush && negb bru_flush && negb sau_flush then
    rs ← (if negb (busy s) then take_pack p s else Ok (None, s));
    let rev := rev_pack rs.2 in
    x ← push_all rev (fetch2_decode_fifo rs.2);
    Ok (fetch2_feedback.mk (negb (existsb fetch2_decode.enable rev)) stall
          (bool_decide (is_Some rs.1)) (default 0 rs.1),
        { rs.2 with busy := bool_decide (is_Some x.1);
                    rev_pack := match x.1 with Some l => align l rev | None => rev end;
                    fetch2_decode_fifo := x.2 })
  else Ok (fetch2_feedback.mk true stall false 0,
           { s with busy := false; fetch2_decode_fifo ::= fifo.flush }).
End fetch2.
Abbreviation fetch2_t := fetch2.fetch2_t.
