(* ===== verification/CycleModel.v ===== *)
(** * The cycle model as a whole

    src/cycle_model/cycle_model.cpp and cycle_model.h: the members of
    [cycle_model], [load] and one clock cycle, [run].

    Every component is a member once; a stage that holds pointers to several
    components gets a view of them, a record of its own, and what it changed is
    put back.  The feedback packs are members in the source, which [run] writes
    before it reads them; here they are values of the cycle.  [clock] is
    [dff_base::sync_all]. *)

From S2P Require Import Prelude Word Ops IsaDecode Csr IsaBus Breakpoint Dff Fifo.
From S2P Require Import Rat FreeList CycleBoot CycleDecode CyclePack LoadStore CycleCsr CycleExec.
From S2P Require Import Predict Ras Rob CycleRename CycleCommit CycleBus CycleLsu CycleDispatch.
From S2P Require Import CycleIssue CycleLsuIssue CycleReadreg CycleFetch.

Definition FETCH2_DECODE_FIFO_SIZE : Z := 256.
Definition DECODE_RENAME_FIFO_SIZE : Z := 16.
Definition STORE_BUFFER_SIZE : Z := 16.
Definition RETIRED_STORE_BUFFER_SIZE : Z := 16.
Definition CHECKPOINT_BUFFER_SIZE : Z := 64.
Definition LOAD_QUEUE_SIZE : Z := 32.

Module cycle_model.
Abbreviation decode_in_t := (fetch2_decode.pack_t bp_info.pack_t inst_common_info_t).
Abbreviation decode_out_t := (decode_rename.full_t bp_info.pack_t inst_common_info_t).

(** The ports behind the execute units, to write back or to commit. *)
Record unit_ports_t := mk_ports {
  alu_port : list (port_t wb_t);
  bru_port : list (port_t wb_t);
  csr_port : list (port_t wb_t);
  div_port : list (port_t wb_t);
  mul_port : list (port_t wb_t);
  lu_port : list (port_t wb_t);
  sau_port : list (port_t wb_t);
  sdu_port : list (port_t wb_t)
}.
Definition wb_order (p : unit_ports_t) : list (port_t wb_t) :=
  alu_port p ++ bru_port p ++ csr_port p ++ div_port p ++ mul_port p ++ lu_port p.
Definition commit_order (p : unit_ports_t) : list (port_t wb_t) := wb_order p ++ sau_port p ++ sdu_port p.
Definition map_ports (f : port_t wb_t -> port_t wb_t) (p : unit_ports_t) : unit_ports_t :=
  mk_ports (f <$> alu_port p) (f <$> bru_port p) (f <$> csr_port p) (f <$> div_port p)
    (f <$> mul_port p) (f <$> lu_port p) (f <$> sau_port p) (f <$> sdu_port p).
(** [execute_wb_to_commit_pack] copies every member. *)
Definition execute_wb_to_commit_pack (p : wb_t) : wb_t := p.
Definition to_commit : list (port_t wb_t) -> list (port_t wb_t) -> list (port_t wb_t) :=
  zip_with (λ w c, port.set (execute_wb_to_commit_pack (port.get_new w)) c).
Definition set_commit_ports (w c : unit_ports_t) : unit_ports_t :=
  mk_ports (to_commit (alu_port w) (alu_port c)) (to_commit (bru_port w) (bru_port c))
    (to_commit (csr_port w) (csr_port c)) (to_commit (div_port w) (div_port c))
    (to_commit (mul_port w) (mul_port c)) (to_commit (lu_port w) (lu_port c))
    (to_commit (sau_port w) (sau_port c)) (to_commit (sdu_port w) (sdu_port c)).

Record cycle_model_t := mk {
  cpu_clock_cycle : Z;
  committed_instruction_num : Z;
  global : global_inst.global_t;
  fetch1_fetch2_port : port_t fetch1_fetch2.pack_t;
  fetch2_decode_fifo : fifo_t decode_in_t;
  decode_rename_fifo : fifo_t decode_out_t;
  rename_dispatch_port : port_t rename_dispatch.pack_t;
  readreg_hdffs : integer_readreg.hdffs_t;
  wb_ports : unit_ports_t;
  commit_ports : unit_ports_t;
  cacheable_bus : bus_system_t;
  noncacheable_bus : bus_system_t;
  csr_file : cycle_csrfile_t;
  phy_id_free_list : free_list_t;
  interrupt_interface : cycle_interrupt.interrupt_interface_t;
  speculative_rat : rat_t;
  retire_rat : rat_t;
  phy_regfile : phy_regfile.regfile_t;
  rob : rob_t;
  store_buffer : store_buffer_t;
  retired_store_buffer : retired_store_buffer_t;
  predictors : predictors_t;
  main_ras : ras_t;
  checkpoint_buffer : fifo_t checkpoint_t;
  load_queue : load_queue_t;
  wait_table : wait_table_t;
  pma_unit : pma_unit_t;
  fetch_pc : Z;
  jump_wait : bool;
  next_inst_id : Z;
  fetch2_rev_pack : fetch1_fetch2.pack_t;
  fetch2_busy : bool;
  dispatch_stage : dispatch_t;
  integer_issue_stage : integer_issue_t;
  lsu_issue_stage : lsu_issue_t;
  lsu_readreg_stage : lsu_readreg_t;
  div_stage : div.div_t;
  lu_stage : lu.lu_t;
  is_waiting_ack : bool;
  rob_retire_queue : list (Z * rob.item_t);
  breakpoints : breakpoint_state_t
}.
Implicit Type s : cycle_model_t.

(** ** The views *)
Definition fetch1_view s : fetch1_t :=
  fetch1.mk INIT_PC (fetch_pc s) (jump_wait s) (next_inst_id s) (fetch1_fetch2_port s) (predictors s)
    (main_ras s) (cacheable_bus s).
Definition put_fetch1 (f : fetch1_t) s : cycle_model_t :=
  { s with fetch_pc := fetch1.pc f; jump_wait := fetch1.jump_wait f;
           next_inst_id := fetch1.next_inst_id f; fetch1_fetch2_port := fetch1.fetch1_fetch2_port f;
           predictors := fetch1.predictors f; main_ras := fetch1.main_ras f;
           cacheable_bus := fetch1.bus f }.
Definition fetch2_view s : fetch2_t :=
  fetch2.mk (predictors s) (fetch2_decode_fifo s) (fetch2_rev_pack s) (fetch2_busy s).
Definition put_fetch2 (f : fetch2_t) s : cycle_model_t :=
  { s with predictors := fetch2.predictors f; fetch2_decode_fifo := fetch2.fetch2_decode_fifo f;
           fetch2_rev_pack := fetch2.rev_pack f; fetch2_busy := fetch2.busy f }.
Definition rename_view s : rename.rename_t :=
  rename.mk (decode_rename_fifo s) (rename_dispatch_port s) (speculative_rat s) (rob s)
    (phy_id_free_list s) (checkpoint_buffer s) (load_queue s) (store_buffer s).
Definition put_rename (r : rename.rename_t) s : cycle_model_t :=
  { s with decode_rename_fifo := rename.decode_rename_fifo r;
           rename_dispatch_port := rename.rename_dispatch_port r;
           speculative_rat := rename.speculative_rat r; rob := rename.rob r;
           phy_id_free_list := rename.phy_id_free_list r;
           checkpoint_buffer := rename.checkpoint_buffer r; load_queue := rename.load_queue r;
           store_buffer := rename.store_buffer r }.
Definition recovery_view s : recovery_t :=
  mk_recovery (speculative_rat s) (rob s) (phy_regfile s) (phy_id_free_list s) (checkpoint_buffer s)
    (load_queue s) (store_buffer s).
Definition put_recovery (r : recovery_t) s : cycle_model_t :=
  { s with speculative_rat := rc_speculative_rat r; rob := rc_rob r; phy_regfile := rc_phy_regfile r;
           phy_id_free_list := rc_phy_id_free_list r; checkpoint_buffer := rc_checkpoint_buffer r;
           load_queue := rc_load_queue r; store_buffer := rc_store_buffer r }.
Definition commit_view s : commit.commit_t bus_system_t :=
  commit.mk (is_waiting_ack s) (commit_order (commit_ports s)) (speculative_rat s) (retire_rat s)
    (rob s) (csr_file s) (phy_regfile s) (phy_id_free_list s) (interrupt_interface s)
    (branch_predictor_set.mode (predictors s)) (branch_predictor_set.l1 (predictors s))
    (checkpoint_buffer s) (load_queue s) (store_buffer s) (retired_store_buffer s)
    (decode_rename_fifo s) (noncacheable_bus s) (pma_unit s) (global s) (breakpoints s)
    (rob_retire_queue s).
Definition put_commit (c : commit.commit_t bus_system_t) s : cycle_model_t :=
  { s with is_waiting_ack := commit.is_waiting_ack c; speculative_rat := commit.speculative_rat c;
           retire_rat := commit.retire_rat c; rob := commit.rob c; csr_file := commit.csr_file c;
           phy_regfile := commit.phy_regfile c; phy_id_free_list := commit.phy_id_free_list c;
           interrupt_interface := commit.interrupt_interface c;
           predictors ::= λ p, { p with branch_predictor_set.mode := commit.bi_mode c;
                                        branch_predictor_set.l1 := commit.l1_btb c };
           checkpoint_buffer := commit.checkpoint_buffer c; load_queue := commit.load_queue c;
           store_buffer := commit.store_buffer c;
           retired_store_buffer := commit.retired_store_buffer c;
           decode_rename_fifo := commit.decode_rename_fifo c;
           noncacheable_bus := commit.bus_if c; pma_unit := commit.pma_unit c;
           global := commit.global c; breakpoints := commit.breakpoints c;
           rob_retire_queue := commit.rob_retire_queue c }.
(** The CLINT behind the uncached bus. *)
Definition clint_of s : outcome cycle_clint_t :=
  x ← arr_get (bus_system.slaves (noncacheable_bus s)) 0;
  match cycle_slave.object x with cycle_slave.obj_clint c => Ok c | _ => Undef end.
Definition lu_view s : outcome (lu.lu_env bus_system_t) :=
  c ← clint_of s;
  h ← arr_get (lsu_readreg.readreg_lu_hdff (lsu_readreg_stage s)) 0;
  p ← arr_get (lu_port (wb_ports s)) 0;
  Ok (lu.mk_env (lu_stage s) h p (cacheable_bus s) (noncacheable_bus s) (store_buffer s)
        (retired_store_buffer s) (load_queue s) (wait_table s) (pma_unit s)
        (lu.mk_sync (cycle_clint.get_mtime c) (cycle_clint.get_mtimecmp c) (cycle_clint.get_msip c))).
Definition put_lu (e : lu.lu_env bus_system_t) s : cycle_model_t :=
  { s with lu_stage := lu.unit e;
           lsu_readreg_stage ::= λ l, { l with lsu_readreg.readreg_lu_hdff := [lu.readreg_lu_hdff e] };
           wb_ports ::= λ w, { w with lu_port := [lu.lu_wb_port e] };
           cacheable_bus := lu.cacheable_bus e; noncacheable_bus := lu.noncacheable_bus e;
           store_buffer := lu.store_buffer e; retired_store_buffer := lu.retired_store_buffer e;
           load_queue := lu.load_queue e; wait_table := lu.wait_table e }.

(** ** The feedback of a cycle *)
Record signals_t := mk_signals {
  bru_fb : bru_feedback_t;
  sau_fb : sau_feedback_t;
  lu_fb : lu_feedback_t;
  exec_fb : list channel_t;
  wb_fb : list channel_t;
  commit_fb : commit_feedback_t
}.
Definition no_flush (f : flush_feedback.pack_t) : flush_feedback.pack_t :=
  { f with flush_feedback.flush := false }.
(** Of a branch and a store that both ask for a flush the older one wins; a
    flush by commit overrides both. *)
Definition arbitrate (commit_flush : bool) (b : bru_feedback_t) (a : sau_feedback_t) :
  bru_feedback_t * sau_feedback_t :=
  let ba := if flush_feedback.flush b && flush_feedback.flush a then
              if age_compare.lt (flush_feedback.age b) (flush_feedback.age a) then (no_flush b, a)
              else (b, no_flush a)
            else (b, a) in
  if commit_flush then (no_flush ba.1, no_flush ba.2) else ba.

(** ** The steps of [run], in order *)
Definition run_pre s : outcome cycle_model_t :=
  c ← clint_of s;
  i ← cycle_clint.run_pre c (interrupt_interface s);
  Ok { s with rob ::= rob.set_committed false; interrupt_interface := i }.
(** The first calls of the branch and the store address unit ask for the
    feedback only. *)
Definition ask_bru s : outcome bru_feedback_t :=
  h ← arr_get (integer_readreg.readreg_bru_hdff (readreg_hdffs s)) 0;
  bru_stage.run_feedback (csr_file s) flush_feedback.init false h.
Definition run_sau (bru : bru_feedback_t) (commit_flush only : bool) s :
  outcome (sau_feedback_t * cycle_model_t) :=
  h ← arr_get (lsu_readreg.readreg_sau_hdff (lsu_readreg_stage s)) 0;
  p ← arr_get (sau_port (wb_ports s)) 0;
  x ← sau.run bru commit_flush only h p (recovery_view s) (wait_table s);
  let '(f, h, p, r, w) := x in
  Ok (f, { put_recovery r s with
           lsu_readreg_stage ::= λ l, { l with lsu_readreg.readreg_sau_hdff := [h] };
           wb_ports ::= λ q, { q with sau_port := [p] };
           wait_table := w }).
Definition run_commit s : outcome (commit_feedback_t * cycle_model_t) :=
  fc ← commit.run (commit_view s); Ok (fc.1, put_commit fc.2 s).
(** Ten channels, of which the loops over the eight ports set the first. *)
Definition pad (l : list channel_t) : list channel_t :=
  l ++ replicate (Z.to_nat (SAU_UNIT_NUM + SDU_UNIT_NUM)) execute_feedback.init.
Definition run_wb (bru : bru_feedback_t) (sau : sau_feedback_t) (commit_flush : bool) s :
  outcome (list channel_t * cycle_model_t) :=
  x ← wb.run bru sau commit_flush (wb_order (wb_ports s)) (phy_regfile s);
  Ok (pad x.1, { s with phy_regfile := x.2 }).

Section execute.
Context (bru : bru_feedback_t) (sau : sau_feedback_t) (commit_flush : bool).
Abbreviation hdff_t := (handshake_dff_t rev_t).

(** A unit without state of its own, the [i]-th of its kind. *)
Definition at_unit (i : Z) (f : hdff_t -> port_t wb_t -> outcome (channel_t * hdff_t * port_t wb_t))
  (hs : list hdff_t) (ps : list (port_t wb_t)) : outcome (channel_t * list hdff_t * list (port_t wb_t)) :=
  h ← arr_get hs i;
  p ← arr_get ps i;
  x ← f h p;
  hs ← arr_set hs i x.1.2;
  ps ← arr_set ps i x.2;
  Ok (x.1.1, hs, ps).
Definition run_alu (i : Z) s : outcome (channel_t * cycle_model_t) :=
  x ← at_unit i (alu.run bru sau commit_flush) (integer_readreg.readreg_alu_hdff (readreg_hdffs s))
        (alu_port (wb_ports s));
  let '(c, hs, ps) := x in
  Ok (c, { s with readreg_hdffs ::= λ r, { r with integer_readreg.readreg_alu_hdff := hs };
                  wb_ports ::= λ q, { q with alu_port := ps } }).
Definition run_mul (i : Z) s : outcome (channel_t * cycle_model_t) :=
  x ← at_unit i (mul.run bru sau commit_flush) (integer_readreg.readreg_mul_hdff (readreg_hdffs s))
        (mul_port (wb_ports s));
  let '(c, hs, ps) := x in
  Ok (c, { s with readreg_hdffs ::= λ r, { r with integer_readreg.readreg_mul_hdff := hs };
                  wb_ports ::= λ q, { q with mul_port := ps } }).
(** The second call of the branch unit does the rollback. *)
Definition run_bru s : outcome (channel_t * cycle_model_t) :=
  h ← arr_get (integer_readreg.readreg_bru_hdff (readreg_hdffs s)) 0;
  p ← arr_get (bru_port (wb_ports s)) 0;
  let q := predictors s in
  x ← bru_stage.run (csr_file s) sau commit_flush h p (branch_predictor_set.mode q)
        (branch_predictor_set.l1 q) (recovery_view s);
  let '(c, h, p, mode, l1, r) := x in
  Ok (c, { put_recovery r s with
           readreg_hdffs ::= λ t, { t with integer_readreg.readreg_bru_hdff := [h] };
           wb_ports ::= λ w, { w with bru_port := [p] };
           predictors := { q with branch_predictor_set.mode := mode; branch_predictor_set.l1 := l1 } }).
Definition run_csr s : outcome (channel_t * cycle_model_t) :=
  h ← arr_get (integer_readreg.readreg_csr_hdff (readreg_hdffs s)) 0;
  p ← arr_get (csr_port (wb_ports s)) 0;
  x ← csr_unit.run (csr_file s) commit_flush (breakpoints s) h p;
  let '(c, b, h, p) := x in
  Ok (c, { s with breakpoints := b;
                  readreg_hdffs ::= λ t, { t with integer_readreg.readreg_csr_hdff := [h] };
                  wb_ports ::= λ w, { w with csr_port := [p] } }).
Definition run_div s : outcome (channel_t * cycle_model_t) :=
  h ← arr_get (integer_readreg.readreg_div_hdff (readreg_hdffs s)) 0;
  p ← arr_get (div_port (wb_ports s)) 0;
  x ← div.run bru sau commit_flush (div_stage s) h p;
  let '(c, d, h, p) := x in
  Ok (c, { s with div_stage := d;
                  readreg_hdffs ::= λ t, { t with integer_readreg.readreg_div_hdff := [h] };
                  wb_ports ::= λ w, { w with div_port := [p] } }).
Definition run_lu s : outcome (channel_t * lu_feedback_t * cycle_model_t) :=
  e ← lu_view s;
  x ← lu.run bru sau commit_flush false e;
  Ok (x.1.1, x.1.2, put_lu x.2 s).
Definition run_sdu s : outcome cycle_model_t :=
  h ← arr_get (lsu_readreg.readreg_sdu_hdff (lsu_readreg_stage s)) 0;
  p ← arr_get (sdu_port (wb_ports s)) 0;
  x ← sdu.run bru sau commit_flush (store_buffer s) h p;
  let '(b, h, p) := x in
  Ok { s with store_buffer := b;
              lsu_readreg_stage ::= λ l, { l with lsu_readreg.readreg_sdu_hdff := [h] };
              wb_ports ::= λ q, { q with sdu_port := [p] } }.
(** The units one after the other, with [execute_feedback_pack] and the
    feedback of the load unit. *)
Definition run_execute s : outcome (list channel_t * lu_feedback_t * cycle_model_t) :=
  a0 ← run_alu 0 s;
  a1 ← run_alu 1 a0.2;
  b ← run_bru a1.2;
  c ← run_csr b.2;
  d ← run_div c.2;
  m0 ← run_mul 0 d.2;
  m1 ← run_mul 1 m0.2;
  l ← run_lu m1.2;
  a ← run_sau bru commit_flush false l.2;
  s ← run_sdu a.2;
  Ok (pad [a0.1; a1.1; b.1; c.1; d.1; m0.1; m1.1; l.1.1], l.1.2, s).
End execute.

(** From register read to dispatch; the result says whether dispatch stalls. *)
Definition run_issue (g : signals_t) s : outcome (bool * cycle_model_t) :=
  let cf := commit_feedback.flush (commit_fb g) in
  let ii := integer_issue_stage s in
  let li := lsu_issue_stage s in
  t ← integer_readreg.run (bru_fb g) (lu_fb g) (sau_fb g) (exec_fb g) (wb_fb g) (phy_regfile s) cf
        (integer_issue.integer_issue_readreg_port ii) (readreg_hdffs s);
  l ← lsu_readreg.run (bru_fb g) (lu_fb g) (sau_fb g) (exec_fb g) (wb_fb g) (phy_regfile s) cf
        (lsu_issue.lsu_issue_readreg_port li) (lsu_readreg_stage s);
  x ← integer_issue.run_output (bru_fb g) (lu_fb g) (sau_fb g) cf ii;
  y ← lsu_issue.run_output (bru_fb g) (lu_fb g) (sau_fb g) l.1 cf li;
  ii ← integer_issue.run_wakeup x.1 y.1 (bru_fb g) (lu_fb g) (sau_fb g) (exec_fb g) cf x.2;
  li ← lsu_issue.run_wakeup x.1 y.1 (bru_fb g) (lu_fb g) (sau_fb g) (exec_fb g) cf y.2;
  let ds := dispatch_stage s in
  a ← integer_issue.run_input (bru_fb g) (sau_fb g) (exec_fb g) (wb_fb g) (phy_regfile s) cf
        (dispatch.dispatch_integer_issue_port ds) ii;
  b ← lsu_issue.run_input (bru_fb g) (sau_fb g) (exec_fb g) (wb_fb g) (phy_regfile s) (wait_table s) cf
        (dispatch.dispatch_lsu_issue_port ds) li;
  d ← dispatch.run a.1 b.1 (bru_fb g) (sau_fb g) (commit_fb g)
        (fifo.customer_is_empty (store_buffer.base (store_buffer s))) (rename_dispatch_port s) ds;
  Ok (d.1, { s with readreg_hdffs := t; lsu_readreg_stage := l.2; integer_issue_stage := a.2;
                    lsu_issue_stage := b.2; dispatch_stage := d.2 }).
(** From rename to the first fetch stage. *)
Definition run_front (g : signals_t) (dispatch_stall : bool) s : outcome cycle_model_t :=
  let bf := flush_feedback.flush (bru_fb g) in
  let af := flush_feedback.flush (sau_fb g) in
  let cf := commit_feedback.flush (commit_fb g) in
  r ← rename.run dispatch_stall bf af cf (commit_feedback.waiting_for_interrupt (commit_fb g))
        (rename_view s);
  let s := put_rename r.2 s in
  d ← decode.run bf af cf (fetch2_decode_fifo s) (decode_rename_fifo s);
  let '(decode_idle, fin, fout) := d in
  let s := { s with fetch2_decode_fifo := fin; decode_rename_fifo := fout } in
  f ← fetch2.run bf af cf (fetch1_fetch2_port s) (fetch2_view s);
  let s := put_fetch2 f.2 s in
  let quiet :=
    fetch2_feedback.idle f.1 && decode_idle && r.1 && commit_feedback.idle (commit_fb g) &&
    fifo.customer_is_empty (store_buffer.base (store_buffer s)) &&
    fifo.customer_is_empty (retired_store_buffer.base (retired_store_buffer s)) in
  x ← fetch1.run quiet f.1 (bru_fb g) (sau_fb g) (commit_fb g) (fetch1_view s);
  Ok (put_fetch1 x s).

(** The counters that [run] copies into CSRs, low and high word. *)
Definition counters (addr addrh v : Z) : list (Z * Z) :=
  [(addr, u32 (Z.land v 0xffffffff)); (addrh, u32 (Z.shiftr v 32))].
Definition counter_writes s : list (Z * Z) :=
  let g := global s in
  counters 0xB00 0xB80 (cpu_clock_cycle s) ++
  counters 0xB02 0xB82 (committed_instruction_num s) ++
  counters 0xB03 0xB83 (global_inst.branch_num g) ++
  counters 0xB04 0xB84 (global_inst.branch_predicted g) ++
  counters 0xB05 0xB85 (global_inst.branch_hit g) ++
  counters 0xB06 0xB86 (global_inst.branch_miss g) ++
  counters 0xB10 0xB90 (global_inst.load_num g) ++
  counters 0xB11 0xB91 (global_inst.replay_num g) ++
  counters 0xB12 0xB92 (global_inst.replay_load_num g) ++
  counters 0xB13 0xB93 (global_inst.conflict_load_num g).
Fixpoint write_all (l : list (Z * Z)) (t : cycle_csrfile_t) : outcome cycle_csrfile_t :=
  match l with
  | [] => Ok t
  | (a, v) :: l => t ← cycle_csrfile.write_sys a v t; write_all l t
  end.

(** The slaves, the retired stores, the buses and the requests to the
    predictors; then the counters. *)
Definition run_post s : outcome cycle_model_t :=
  it ← cycle_interrupt.run (interrupt_interface s) (csr_file s);
  c ← bus_system.run_post 0 (cacheable_bus s);
  n ← bus_system.run_post 0 (noncacheable_bus s);
  rc ← retired_store_buffer.run (retired_store_buffer s) c;
  c ← bus_system.sync (bus_system.run rc.2);
  n ← bus_system.sync (bus_system.run n);
  p ← branch_predictor_set.batch_sync (predictors s);
  let s := { s with interrupt_interface := it.1; csr_file := it.2; retired_store_buffer := rc.1;
                    cacheable_bus := c; noncacheable_bus := n;
                    wait_table ::= wait_table.run (cpu_clock_cycle s); predictors := p;
                    cpu_clock_cycle ::= λ n, u64 (n + 1);
                    committed_instruction_num := rob.get_global_commit_num (rob s) } in
  t ← write_all (counter_writes s) (csr_file s);
  Ok { s with csr_file := t; commit_ports ::= set_commit_ports (wb_ports s) }.

(** [dff_base::sync_all]. *)
Definition clock_dispatch (d : dispatch_t) : dispatch_t :=
  { d with dispatch.dispatch_integer_issue_port ::= port.sync;
           dispatch.dispatch_lsu_issue_port ::= port.sync }.
Definition clock_lsu_readreg (l : lsu_readreg_t) : lsu_readreg_t :=
  lsu_readreg.map_all handshake_dff.sync l.
Definition clock s : cycle_model_t :=
  { s with fetch1_fetch2_port ::= port.sync; fetch2_decode_fifo ::= fifo.sync;
           decode_rename_fifo ::= fifo.sync; rename_dispatch_port ::= port.sync;
           readreg_hdffs ::= integer_readreg.map_all handshake_dff.sync;
           wb_ports ::= map_ports port.sync; commit_ports ::= map_ports port.sync;
           cacheable_bus ::= bus_system.clock; noncacheable_bus ::= bus_system.clock;
           csr_file ::= cycle_csrfile.sync; phy_id_free_list ::= free_list.sync;
           interrupt_interface ::= cycle_interrupt.sync; speculative_rat ::= rat.sync;
           retire_rat ::= rat.sync; phy_regfile ::= phy_regfile.sync; rob ::= rob.sync;
           store_buffer ::= store_buffer.sync; retired_store_buffer ::= retired_store_buffer.sync;
           predictors ::= branch_predictor_set.clock_all; main_ras ::= ras.sync;
           checkpoint_buffer ::= fifo.sync; load_queue ::= load_queue.sync;
           wait_table ::= wait_table.sync; dispatch_stage ::= clock_dispatch;
           integer_issue_stage ::= integer_issue.sync; lsu_issue_stage ::= lsu_issue.sync;
           lsu_readreg_stage ::= clock_lsu_readreg }.

(** ** [run]: one clock cycle *)
Definition run s : outcome cycle_model_t :=
  s ← run_pre s;
  b ← ask_bru s;
  a ← run_sau flush_feedback.init false true s;
  c ← run_commit a.2;
  let cf := commit_feedback.flush c.1 in
  w ← run_wb b a.1 cf c.2;
  let ba := arbitrate cf b a.1 in
  e ← run_execute ba.1 ba.2 cf w.2;
  let g := mk_signals ba.1 ba.2 e.1.2 e.1.1 w.1 c.1 in
  i ← run_issue g e.2;
  s ← run_front g i.1 i.2;
  s ← run_post s;
  Ok (clock s).
Fixpoint run_n (n : nat) s : outcome cycle_model_t :=
  match n with O => Ok s | S n => s ← run s; run_n n s end.

(** ** [load] *)
Fixpoint load_from (buf : list Z) (i : Z) (b : bus_system_t) : outcome bus_system_t :=
  match buf with
  | [] => Ok b
  | x :: buf => b ← bus_system.write8_sys (add32 cycle_system.MEMORY_BASE i) x b; load_from buf (i + 1) b
  end.
Definition load (buf : list Z) s : outcome cycle_model_t :=
  verify (zlen buf <? cycle_system.MEMORY_SIZE) ;;
  b ← load_from buf 0 (cacheable_bus s); Ok { s with cacheable_bus := b }.
End cycle_model.
Abbreviation cycle_model_t := cycle_model.cycle_model_t.
