(* ===== verification/CycleStart.v ===== *)
(** * Construction and reset of the cycle model

    src/cycle_model/cycle_model.cpp: the constructor and [reset].

    [reset] first puts every flip-flop of the program to its initial value
    ([dff_base::reset_all], here [reset_all] of every component), then builds
    the renaming state ([cycle_reset.reset]), then calls the [reset] of the
    other components and stages. *)

From S2P Require Import Prelude Word Ops IsaDecode Csr IsaBus Breakpoint Dff Fifo.
From S2P Require Import Rat FreeList CycleBoot CycleDecode CyclePack LoadStore CycleCsr CycleExec.
From S2P Require Import Predict Ras Rob CycleRename CycleCommit CycleBus CycleLsu CycleDispatch.
From S2P Require Import CycleIssue CycleLsuIssue CycleReadreg CycleFetch CycleModel.

Module cycle_start.
Import cycle_model.

(** ** [dff_base::reset_all] *)
Definition port_all {T} (p : port_t T) : port_t T := port.mk (dff.reset (port.value p)) (port.init_value p).
Definition hdff_all {T} (h : handshake_dff_t T) : handshake_dff_t T :=
  handshake_dff.mk (dff.reset (handshake_dff.has_data h)) (dff.reset (handshake_dff.data h)).
Definition fifo_all {T} : fifo_t T -> fifo_t T := cycle_reset.reset_fifo.
Definition queue_all {T} (q : ooo_issue_queue.queue_t T) : ooo_issue_queue.queue_t T :=
  ooo_issue_queue.mk (fifo_all (ooo_issue_queue.base q)) (dff.reset <$> ooo_issue_queue.valid q).
Definition store_buffer_all (b : store_buffer_t) : store_buffer_t :=
  store_buffer.mk (fifo_all (store_buffer.base b)) (dff.reset <$> store_buffer.item_addr_valid b)
    (dff.reset <$> store_buffer.item_addr b) (dff.reset <$> store_buffer.item_size b).
Definition load_queue_all (q : load_queue_t) : load_queue_t :=
  load_queue.mk (fifo_all (load_queue.base q)) (dff.reset <$> load_queue.item_conflict q)
    (dff.reset <$> load_queue.replay_num q).
Definition mode_all (b : with_requests bi_mode_t) : with_requests bi_mode_t :=
  mk_with (sync_request_q b)
    { impl b with bi_mode.predict_next_pc ::= fmap dff.reset; bi_mode.predict_jump ::= fmap dff.reset }.
Definition ras_all (r : ras_t) : ras_t :=
  let b := ras.base r in
  ras.mk (stack.mk (dff.reset <$> stack.buffer b) (stack.size b) (dff.reset (stack.top_ptr b)))
    (dff.reset (ras.last_addr r)).
Definition csr_all (t : cycle_csrfile_t) : cycle_csrfile_t :=
  { t with cycle_csrfile.csr_map_table ::= fmap (λ it,
      cycle_csrfile.mk_item (cycle_csrfile.readonly it)
        { cycle_csrfile.csr it with cycle_csr.value ::= dff.reset }) }.
Definition interrupt_all (i : cycle_interrupt.interrupt_interface_t) : cycle_interrupt.interrupt_interface_t :=
  cycle_interrupt.mk (cycle_interrupt.pending i) (dff.reset (cycle_interrupt.mei_ack i))
    (dff.reset (cycle_interrupt.msi_ack i)) (dff.reset (cycle_interrupt.mti_ack i)).
Definition slave_all (x : cycle_slave.slave_t) : cycle_slave.slave_t :=
  { x with cycle_slave.object ::= λ o,
      match o with
      | cycle_slave.obj_memory m => cycle_slave.obj_memory m
      | cycle_slave.obj_clint c =>
          cycle_slave.obj_clint (cycle_clint.mk (dff.reset (cycle_clint.msip c))
            (dff.reset (cycle_clint.mtimecmp c)) (dff.reset (cycle_clint.mtime c)))
      end }.
Definition bus_all (b : bus_system_t) : bus_system_t :=
  bus_system.mk
    { bus_system.bus b with cycle_bus.instruction_value ::= fmap dff.reset;
      cycle_bus.instruction_value_valid ::= dff.reset; cycle_bus.data_value ::= dff.reset;
      cycle_bus.data_value_valid ::= dff.reset; cycle_bus.data_write_ack ::= dff.reset;
      cycle_bus.data_write_errno ::= dff.reset }
    (slave_all <$> bus_system.slaves b).
Definition dispatch_all (d : dispatch_t) : dispatch_t :=
  { d with dispatch.dispatch_integer_issue_port ::= port_all; dispatch.dispatch_lsu_issue_port ::= port_all }.
Definition integer_issue_all (q : integer_issue_t) : integer_issue_t :=
  { q with integer_issue.integer_issue_readreg_port ::= port_all; integer_issue.issue_q ::= queue_all;
           integer_issue.slots ::= fmap (λ x, { x with integer_issue.issued ::= dff.reset }) }.
Definition lsu_issue_all (q : lsu_issue_t) : lsu_issue_t :=
  { q with lsu_issue.lsu_issue_readreg_port ::= port_all; lsu_issue.issue_q ::= queue_all;
           lsu_issue.slots ::= fmap (λ x, { x with lsu_issue.issued ::= dff.reset }) }.
(** All but the renaming state, which [cycle_reset.reset_all] covers. *)
Definition reset_all (s : cycle_model_t) : cycle_model_t :=
  { s with fetch1_fetch2_port ::= port_all; fetch2_decode_fifo ::= fifo_all; decode_rename_fifo ::= fifo_all;
           rename_dispatch_port ::= port_all; readreg_hdffs ::= integer_readreg.map_all hdff_all;
           wb_ports ::= map_ports port_all; commit_ports ::= map_ports port_all;
           cacheable_bus ::= bus_all; noncacheable_bus ::= bus_all; csr_file ::= csr_all;
           interrupt_interface ::= interrupt_all; rob ::= λ r, rob.set_base (fifo_all (rob.base r)) r;
           store_buffer ::= store_buffer_all;
           retired_store_buffer ::= λ b, { b with retired_store_buffer.base ::= fifo_all };
           predictors ::= λ p, { p with branch_predictor_set.mode ::= mode_all };
           main_ras ::= ras_all; checkpoint_buffer ::= fifo_all; load_queue ::= load_queue_all;
           wait_table ::= λ w, { w with wait_table.buffer ::= fmap dff.reset };
           dispatch_stage ::= dispatch_all; integer_issue_stage ::= integer_issue_all;
           lsu_issue_stage ::= lsu_issue_all; lsu_readreg_stage ::= lsu_readreg.map_all hdff_all }.

(** ** [reset] *)
Definition renaming_view (s : cycle_model_t) : cycle_reset.state :=
  cycle_reset.mk (phy_id_free_list s) (speculative_rat s) (retire_rat s) (phy_regfile s).
(** The memory is found through the bus. *)
Definition reset_memory (b : bus_system_t) : outcome bus_system_t :=
  match cycle_bus.get_slave_obj cycle_system.MEMORY_BASE false (bus_system.bus b) with
  | Some r =>
      x ← arr_get (bus_system.slaves b) r;
      x ← cycle_slave.reset x;
      l ← arr_set (bus_system.slaves b) r x;
      Ok { b with bus_system.slaves := l }
  | None => Undef
  end.
Definition reset_clint (b : bus_system_t) : outcome bus_system_t :=
  x ← arr_get (bus_system.slaves b) 0;
  x ← cycle_slave.reset x;
  l ← arr_set (bus_system.slaves b) 0 x;
  Ok { b with bus_system.slaves := l }.
(** The counters of loads and replays keep their values. *)
Definition reset_global (g : global_inst.global_t) : global_inst.global_t :=
  { g with global_inst.branch_num := 0; global_inst.branch_predicted := 0;
           global_inst.branch_hit := 0; global_inst.branch_miss := 0 }.
(** The calls after the renaming state is built. *)
Definition reset_components (s : cycle_model_t) : outcome cycle_model_t :=
  c ← reset_memory (bus_system.reset (cacheable_bus s));
  n ← reset_clint (bus_system.reset (noncacheable_bus s));
  Ok { s with predictors ::= branch_predictor_set.batch_reset; main_ras ::= ras.reset;
              fetch1_fetch2_port ::= port.reset; fetch2_decode_fifo ::= fifo.reset;
              decode_rename_fifo ::= fifo.reset; rename_dispatch_port ::= port.reset;
              dispatch_stage ::= λ d,
                dispatch.reset { d with dispatch.dispatch_integer_issue_port ::= port.reset;
                                        dispatch.dispatch_lsu_issue_port ::= port.reset };
              integer_issue_stage ::= λ q,
                integer_issue.reset { q with integer_issue.integer_issue_readreg_port ::= port.reset };
              lsu_issue_stage ::= λ q,
                lsu_issue.reset { q with lsu_issue.lsu_issue_readreg_port ::= port.reset };
              readreg_hdffs ::= integer_readreg.map_all handshake_dff.reset;
              lsu_readreg_stage ::= λ l, lsu_readreg.reset (lsu_readreg.map_all handshake_dff.reset l);
              div_stage ::= div.reset; lu_stage ::= lu.reset;
              wb_ports ::= map_ports port.reset; commit_ports ::= map_ports port.reset;
              cacheable_bus := c; noncacheable_bus := n; rob ::= rob.reset; csr_file ::= cycle_csrfile.reset;
              store_buffer ::= store_buffer.reset; retired_store_buffer ::= retired_store_buffer.reset;
              load_queue ::= load_queue.reset; checkpoint_buffer ::= fifo.reset;
              interrupt_interface ::= cycle_interrupt.reset; wait_table ::= wait_table.reset;
              fetch_pc := INIT_PC; jump_wait := false; next_inst_id := 0;
              fetch2_busy := false; fetch2_rev_pack := fetch1_fetch2.pack_init;
              is_waiting_ack := false; cpu_clock_cycle := 0; committed_instruction_num := 0;
              global ::= reset_global }.
(** The cycles of the loop that builds the alias tables clock every other
    component too, which then holds its initial values. *)
Definition reset (s : cycle_model_t) : outcome cycle_model_t :=
  r ← cycle_reset.reset (renaming_view s);
  s ← reset_components
        { clock (reset_all s) with phy_id_free_list := cycle_reset.phy_id_free_list r;
            speculative_rat := cycle_reset.speculative_rat r; retire_rat := cycle_reset.retire_rat r;
            phy_regfile := cycle_reset.phy_regfile r };
  Ok (clock s).

(** ** The constructor *)
Definition ports_new (i : wb_t) : unit_ports_t :=
  let p n := replicate (Z.to_nat n) (port.new i) in
  mk_ports (p ALU_UNIT_NUM) (p BRU_UNIT_NUM) (p CSR_UNIT_NUM) (p DIV_UNIT_NUM) (p MUL_UNIT_NUM)
    (p LU_UNIT_NUM) (p SAU_UNIT_NUM) (p SDU_UNIT_NUM).
Definition hdffs_new (n : Z) : list (handshake_dff_t rev_t) :=
  replicate (Z.to_nat n) (handshake_dff.new readreg_execute.init).
Definition checkpoint_init : checkpoint_t :=
  checkpoint.mk (replicate (Z.to_nat PHY_REG_NUM) false) 0 false 0 false 0 false 0 false 0 false 0 false.
(** [junk]: what the one array of a predictor that no [reset] clears holds. *)
Definition predictors_new (junk : list Z) : predictors_t :=
  let n := Z.to_nat FETCH_WIDTH in
  branch_predictor_set.batch_reset
    (branch_predictor_set.mk (mk_with [] (l0_btb.mk junk [] [] [])) (mk_with [] l1_btb.mk)
       (mk_with [] (bi_modal.mk [] [] []))
       (mk_with [] (bi_mode.mk (replicate n (dff.new 0)) (replicate n (dff.new false)) 0 0 [] [] []))).
(** The members as they are constructed; [sf] and [rf] are the queues of the
    character device.  The constructor ends with [reset]. *)
Definition create (sf rf junk : list Z) : outcome cycle_model_t :=
  r ← cycle_reset.create;
  c ← cycle_system.cacheable;
  n ← cycle_system.noncacheable;
  t ← cycle_map_all cycle_csr_map_list (cycle_csrfile.new sf rf);
  u ← pma_unit.configured;
  let wb := ports_new execute_wb.init in
  reset
    (mk 0 0 (global_inst.mk 0 0 0 0 0 0 0 0) (port.new fetch1_fetch2.pack_init)
       (fifo.new FETCH2_DECODE_FIFO_SIZE fetch1_fetch2.init)
       (fifo.new DECODE_RENAME_FIFO_SIZE
          (decode_rename.mk_full decode_rename.init (mk_info 0) bp_info.init))
       (port.new rename_dispatch.pack_init)
       (integer_readreg.mk (hdffs_new ALU_UNIT_NUM) (hdffs_new BRU_UNIT_NUM) (hdffs_new CSR_UNIT_NUM)
          (hdffs_new DIV_UNIT_NUM) (hdffs_new MUL_UNIT_NUM))
       wb wb c n t (cycle_reset.phy_id_free_list r) cycle_interrupt.new
       (cycle_reset.speculative_rat r) (cycle_reset.retire_rat r) (cycle_reset.phy_regfile r)
       (rob.new ROB_SIZE) (store_buffer.new STORE_BUFFER_SIZE)
       (retired_store_buffer.new RETIRED_STORE_BUFFER_SIZE) (predictors_new junk) (ras.new RAS_SIZE)
       (fifo.new CHECKPOINT_BUFFER_SIZE checkpoint_init) (load_queue.new LOAD_QUEUE_SIZE)
       (wait_table.new WAIT_TABLE_SIZE) u INIT_PC false 0 fetch1_fetch2.pack_init false dispatch.new
       integer_issue.new lsu_issue.new
       (lsu_readreg.mk (hdffs_new LU_UNIT_NUM) (hdffs_new SAU_UNIT_NUM) (hdffs_new SDU_UNIT_NUM) false
          lsu_issue.pack_init)
       div.new lu.new false [] breakpoint.init).
End cycle_start.
