(* ===== verification/MainLoop.v ===== *)
(** * The main loop (src/main.cpp) and the debugger's commands (src/network)

    [control]: the four flags that pause and resume the simulation, with the
    commands of network_command.cpp that set them.
    [debugger]: the other commands, as functions on the cycle model; their
    arguments and results are the numbers and lists the strings denote.
    [lockstep]: one turn of the loop of [run] in the mode config.h selects
    (MODE_ISA_AND_CYCLE_MODEL_COMPARE): the cycle model runs one clock, the ISA
    model executes what the cycle model has retired, the counters, the CLINT and
    the interrupts are copied over, and the two architectural states are
    compared.

    The network threads, the sockets and all printing are host input and
    output: the characters for and from the terminal are lists. *)

From S2P Require Import Prelude Word Ops IsaDecode Csr IsaBus IsaModel Breakpoint.
From S2P Require Import Dff Fifo FixedSizeBuffer Rat CyclePack CycleDecode CycleCsr CycleExec.
From S2P Require Import Rob CycleRename CycleCommit CycleBus CycleLsu CycleReadreg CycleFetch CycleModel.
From S2P Require Import CycleStart.

(** ** Pausing and resuming *)
Module control.
Record control_t := mk {
  pause_detected : bool;
  pause_state : bool;
  step_state : bool;
  wait_commit : bool
}.

(** [socket_cmd_continue], [_pause], [_step] and [_stepcommit]; all but [pause]
    stop [recv_ioc], which ends [debug_event_handle]. *)
Inductive command_t := _continue | pause | step | stepcommit.
Definition stops (k : command_t) : bool := match k with pause => false | _ => true end.
Definition command (k : command_t) (c : control_t) : control_t :=
  match k with
  | _continue => { c with pause_state := false; step_state := false; wait_commit := false }
  | pause => { c with step_state := true; wait_commit := false }
  | step => { c with pause_state := false; step_state := true; wait_commit := false }
  | stepcommit => { c with pause_state := false; step_state := true; wait_commit := true }
  end.

(** [debug_event_handle]: commands are served until one stops the context;
    [None] when it waits for more. *)
Fixpoint debug_event_handle (l : list command_t) (c : control_t) : option (control_t * list command_t) :=
  match l with
  | [] => None
  | k :: l => if stops k then Some (command k c, l) else debug_event_handle l (command k c)
  end.
(** [while(pause_state) { debug_event_handle(); ...; pause_detected = false; }];
    each turn takes a command off the list. *)
Fixpoint paused (fuel : nat) (l : list command_t) (c : control_t) : option (control_t * list command_t) :=
  match fuel with
  | O => None
  | S fuel =>
      if pause_state c then
        cl ← debug_event_handle l c;
        paused fuel cl.2 { cl.1 with pause_detected := false }
      else Some (c, l)
  end.

(** The head of the loop: [breakpoint] says that [breakpoint_check] triggered,
    [committed] that [rob.get_committed()]; the result says whether the loop is
    entered, and the flags then. *)
Definition head (breakpoint committed : bool) (c : control_t) : bool * control_t :=
  let c := if breakpoint then { c with pause_detected := true } else c in
  if pause_detected c || (step_state c && (negb (wait_commit c) || committed)) then
    let c := if pause_detected c then { c with step_state := true; wait_commit := false } else c in
    (true, { c with pause_state := true })
  else (false, c).
End control.
Abbreviation control_t := control.control_t.

(** ** The debugger's other commands *)
Module debugger.
Import cycle_model.
Implicit Type s : cycle_model_t.

(** A committed register: the value and whether it is valid. *)
Definition committed_reg (i : Z) s : outcome (Z * bool) :=
  fp ← rat.customer_get_phy_id i 0 (retire_rat s);
  v ← phy_regfile.read fp.2 (phy_regfile s);
  b ← phy_regfile.read_data_valid fp.2 (phy_regfile s);
  Ok (v, b).
Fixpoint read_archregs (n : nat) (i : Z) s : outcome (list Z) :=
  match n with
  | O => Ok []
  | S n =>
      v ← (if i =? 0 then Ok 0
           else vb ← committed_reg i s; verify (vb.2 : bool) ;; Ok (vb.1 : Z));
      l ← read_archregs n (i + 1) s;
      Ok (v :: l)
  end.
Definition socket_cmd_read_archreg s : outcome (list Z) :=
  read_archregs (Z.to_nat ARCH_REG_NUM) 0 s.

(** [for(addr = address; addr < address + size; addr++)] with 32 bit sums. *)
Fixpoint read_from (fuel : nat) (addr last : Z) s : outcome (list Z) :=
  match fuel with
  | O => Ok []
  | S fuel =>
      if addr <? last then
        v ← bus_system.read8_sys addr (cacheable_bus s);
        l ← read_from fuel (add32 addr 1) last s;
        Ok (v :: l)
      else Ok []
  end.
Definition socket_cmd_read_memory (address size : Z) s : outcome (list Z) :=
  read_from (Z.to_nat size) address (add32 address size) s.

(** [data]: the bytes the hexadecimal digits of the command stand for. *)
Fixpoint write_from (address offset : Z) (data : list Z) s : outcome cycle_model_t :=
  match data with
  | [] => Ok s
  | v :: data =>
      b ← bus_system.write8_sys (add32 address offset) (u8 v) (cacheable_bus s);
      write_from address (offset + 1) data { s with cacheable_bus := b }
  end.
Definition socket_cmd_write_memory (address : Z) (data : list Z) s : outcome cycle_model_t :=
  write_from address 0 data s.

(** A pack at the front of a queue, when it is enabled. *)
Definition pc_if {P} (enable : P -> bool) (pc : P -> Z) (front : option P) : option Z :=
  p ← front; if enable p then Some (pc p) else None.
(** [get_current_pc] of main.cpp: the oldest instruction of the machine. *)
Definition get_current_pc s : outcome Z :=
  r ← fifo.customer_get_front (rob.base (rob s));
  match (r : option rob.item_t) with
  | Some it => Ok (rob.pc it)
  | None =>
      d ← fifo.customer_get_front (decode_rename_fifo s);
      match pc_if (λ p, decode_rename.enable (decode_rename.uop p))
                  (λ p, decode_rename.pc (decode_rename.uop p)) d with
      | Some pc => Ok pc
      | None =>
          f ← fifo.customer_get_front (fetch2_decode_fifo s);
          match pc_if fetch2_decode.enable fetch2_decode.pc f with
          | Some pc => Ok pc
          | None =>
              p ← arr_get (port.get (fetch1_fetch2_port s)) 0;
              Ok (if fetch2_decode.enable p then fetch2_decode.pc p else fetch_pc s)
          end
      end
  end.
Definition socket_cmd_get_pc s : outcome Z := get_current_pc s.
Definition socket_cmd_get_cycle s : Z := cpu_clock_cycle s.
Definition socket_cmd_get_commit_num s : Z * cycle_model_t :=
  (rob.get_commit_num (rob s), { s with rob ::= rob.clear_commit_num }).
Definition socket_cmd_get_finish s : outcome Z := cycle_csrfile.read_sys CSR_FINISH (csr_file s).
End debugger.

(** ** The comparison of the two models *)
Module lockstep.
Import cycle_model.

(** [csr_read_item_t] of execute/csr.h. *)
Record csr_read_item_t := mk_read { rob_id : Z; csr : Z; value : Z }.
(** The two models, [csr_read_queue] of the CSR unit, [isa_model_pc_history] and
    the terminal's characters. *)
Record lockstep_t := mk {
  cycle_model_inst : cycle_model_t;
  isa_model_inst : isa_model_t;
  csr_read_queue : list csr_read_item_t;
  isa_model_pc_history : fixed_size_buffer_t Z;
  charfifo_rev_fifo : list Z;
  charfifo_send_fifo : list Z
}.
Implicit Types (s : cycle_model_t) (m : isa_model_t) (st : lockstep_t).

Definition CHARFIFO_REV_FIFO_SIZE : Z := 1024.
Definition CSR_MCYCLE : Z := 0xB00.
Definition CSR_MINSTRET : Z := 0xB02.
Definition CSR_MCYCLEH : Z := 0xB80.
Definition CSR_MINSTRETH : Z := 0xB82.
(** The counters that differ between the models, and [mip]: a value that was
    read in the cycle model is copied before the ISA model reads it. *)
Definition csr_sync_list : list Z :=
  [CSR_MCYCLE; CSR_MCYCLEH; CSR_MINSTRET; CSR_MINSTRETH;
   0xB03; 0xB83; 0xB04; 0xB84; 0xB05; 0xB85; 0xB06; 0xB86; 0x344].
Definition compare_csr_list : list Z :=
  [0xf11; 0xf12; 0xf13; 0xf14; 0xf15; 0x300; 0x301; 0x304; 0x305; 0x306; 0x310; 0x340;
   0x341; 0x342; 0x343; 0x344; CSR_FINISH; CSR_MINSTRET; CSR_MINSTRETH].

(** *** "charfifo input channel sync" *)
Definition feed st : outcome lockstep_t :=
  match charfifo_rev_fifo st with
  | [] => Ok st
  | item :: rest =>
      let f := csr_file (cycle_model_inst st) in
      let e := isa_model.csr_env (isa_model_inst st) in
      if zlen (cycle_csrfile.rev_fifo f) <? CHARFIFO_REV_FIFO_SIZE then
        if zlen (csr_env.rev_fifo e) <? CHARFIFO_REV_FIFO_SIZE then
          Ok { st with charfifo_rev_fifo := rest;
                       cycle_model_inst ::= λ s, { s with csr_file ::=
                         λ f, { f with cycle_csrfile.rev_fifo ::= λ q, q ++ [item] } };
                       isa_model_inst ::= λ m, { m with isa_model.csr_env ::=
                         λ e, { e with csr_env.rev_fifo ::= λ q, q ++ [item] } } }
        else Hang
      else Ok st
  end.

(** *** The clock of the cycle model *)

(** What [csr::run] pushes into [csr_read_queue]. *)
Definition csr_reads (commit_flush : bool) s : outcome (list csr_read_item_t) :=
  h ← arr_get (integer_readreg.readreg_csr_hdff (readreg_hdffs s)) 0;
  rh ← unit_stage.receive commit_flush h;
  Ok match (rh.1 : option readreg_execute.pack_t) with
     | Some r =>
         let u := readreg_execute.uop r in
         match cycle_csrfile.read (decode_rename.csr u) (csr_file s) with
         | Some v =>
             if readreg_execute.enable r && decode_rename.need_rename u
             then [mk_read (readreg_execute.rob_id r) (decode_rename.csr u) v] else []
         | None => []
         end
     | None => []
     end.
(** [cycle_model::run] with the feedback of the commit stage, which the cycle
    model keeps, and the CSR reads of the cycle. *)
Definition run_traced s : outcome (commit_feedback_t * list csr_read_item_t * cycle_model_t) :=
  s ← run_pre s;
  b ← ask_bru s;
  a ← run_sau flush_feedback.init false true s;
  c ← run_commit a.2;
  let cf := commit_feedback.flush c.1 in
  w ← run_wb b a.1 cf c.2;
  q ← csr_reads cf w.2;
  let ba := arbitrate cf b a.1 in
  e ← run_execute ba.1 ba.2 cf w.2;
  let g := mk_signals ba.1 ba.2 e.1.2 e.1.1 w.1 c.1 in
  i ← run_issue g e.2;
  s ← run_front g i.1 i.2;
  s ← run_post s;
  Ok (c.1, q, clock s).

(** The error messages of the two buses are dropped. *)
Definition clear_errors s : cycle_model_t :=
  let drop (b : bus_system_t) : bus_system_t :=
    { b with bus_system.bus ::= λ b, { b with cycle_bus.error_msg_queue := [] } } in
  { s with cacheable_bus ::= drop; noncacheable_bus ::= drop }.

(** *** The retired instructions *)
Definition sync_clint (mtime mtimecmp msip : Z) m : isa_model_t :=
  { m with isa_model.devices ::= λ d, { d with slave_base.dev_clint ::= λ c,
      clint.set_msip msip (clint.set_mtimecmp mtimecmp (clint.set_mtime mtime c)) } }.

(** The front of [csr_read_queue] when it belongs to the instruction. *)
Definition take_csr_read (id : Z) (q : list csr_read_item_t) :
    option csr_read_item_t * list csr_read_item_t :=
  match q with
  | it :: rest => if rob_id it =? id then (Some it, rest) else (None, q)
  | [] => (None, q)
  end.
Definition sync_csr (o : option csr_read_item_t) m : outcome isa_model_t :=
  match o with
  | Some it =>
      if existsb (Z.eqb (csr it)) csr_sync_list then
        e ← csrfile.write_sys (csr it) (value it) (isa_model.csr_file m) (isa_model.csr_env m);
        Ok { m with isa_model.csr_env := e }
      else Ok m
  | None => Ok m
  end.

(** A character of each model: the cycle model's goes to the terminal. *)
Definition forward_characters st : lockstep_t :=
  let st :=
    match cycle_csrfile.send_fifo (csr_file (cycle_model_inst st)) with
    | [] => st
    | ch :: q =>
        { st with charfifo_send_fifo ::= λ l, l ++ [ch];
                  cycle_model_inst ::= λ s, { s with csr_file ::=
                    λ f, { f with cycle_csrfile.send_fifo := q } } }
    end in
  { st with isa_model_inst ::= λ m, { m with isa_model.csr_env ::=
      λ e, { e with csr_env.send_fifo ::= tail } } }.

(** The breakpoints are static variables of both models: the ISA model starts
    with those of the cycle model, which continues with what it leaves. *)
Definition run_isa st : outcome lockstep_t :=
  m ← isa_model.run { isa_model_inst st with
        isa_model.breakpoints := breakpoints (cycle_model_inst st) };
  Ok { st with isa_model_inst := m;
               cycle_model_inst ::= λ s, { s with breakpoints := isa_model.breakpoints m } }.

(** One element of [rob_retire_queue] while no error has been found; the result
    says whether the two models are at different instructions. *)
Definition retire_one (item : Z * rob.item_t) st : outcome (bool * lockstep_t) :=
  let oq := take_csr_read item.1 (csr_read_queue st) in
  m ← sync_csr oq.1 (isa_model_inst st);
  let differ := negb (isa_model.pc m =? rob.pc item.2) in
  c ← arr_get (lu.clint_sync_list (lu_stage (cycle_model_inst st))) item.1;
  let m := sync_clint (lu.mtime c) (lu.mtimecmp c) (lu.msip c) m in
  h ← fixed_size_buffer.push (isa_model.pc m) (isa_model_pc_history st);
  st ← run_isa { st with csr_read_queue := oq.2; isa_model_inst := m; isa_model_pc_history := h };
  Ok (differ, forward_characters st).
(** The loop over the queue: behind an error the CSR reads are dropped. *)
Fixpoint retire_all (compare_error : bool) (l : list (Z * rob.item_t)) st :
    outcome (bool * lockstep_t) :=
  match l with
  | [] => Ok (compare_error, st)
  | item :: l =>
      if compare_error then
        retire_all compare_error l
          { st with csr_read_queue ::= λ q, (take_csr_read item.1 q).2 }
      else
        es ← retire_one item st;
        retire_all es.1 l es.2
  end.

(** *** "clint sync", "interrupt sync", "mip sync" *)
Definition sync_state (fb : commit_feedback_t) st : outcome lockstep_t :=
  let s := cycle_model_inst st in
  c ← clint_of s;
  m ← isa_model.clint_run (sync_clint (cycle_clint.get_mtime c) (cycle_clint.get_mtimecmp c)
                             (cycle_clint.get_msip c) (isa_model_inst st));
  let p := cycle_interrupt.pending (interrupt_interface s) in
  let m := { m with isa_model.interrupt_interface ::= λ i,
               interrupt_interface.set_mtip (interrupt_interface.mtip p)
                 (interrupt_interface.set_msip (interrupt_interface.msip p)
                   (interrupt_interface.set_meip (interrupt_interface.meip p) i)) } in
  m ← isa_model.interrupt_sync
        (if commit_feedback.has_interrupt fb then Some (commit_feedback.interrupt_id fb) else None) m;
  v ← cycle_csrfile.read_sys cycle_interrupt.CSR_MIP (csr_file s);
  m ← isa_model.csr_inst_write "mip" v m;
  Ok { st with isa_model_inst := m }.

(** *** The comparison: the messages it prints *)
Inductive error_t : Type :=
| gpr_not_valid (i : Z)
| gpr_differs (i v v2 : Z)
| csr_differs (addr v v2 : Z)
| send_fifo_empty_differs
| send_fifo_front_differs (v v2 : Z).

Definition compare_gpr (i : Z) s m : outcome (list error_t) :=
  vb ← debugger.committed_reg i s;
  if negb (vb.2 : bool) then Ok [gpr_not_valid i]
  else
    v2 ← regfile.read i (isa_model.arch_regfile m);
    Ok (if negb (vb.1 =? v2) then [gpr_differs i vb.1 v2] else []).
Definition compare_csr (addr : Z) s m : outcome (list error_t) :=
  v ← cycle_csrfile.read_sys addr (csr_file s);
  v2 ← csrfile.read_sys addr (isa_model.csr_file m) (isa_model.csr_env m);
  Ok (if negb (v =? v2) then [csr_differs addr v v2] else []).
Definition compare_send_fifo s m : list error_t :=
  match cycle_csrfile.send_fifo (csr_file s), csr_env.send_fifo (isa_model.csr_env m) with
  | [], [] => []
  | v :: _, v2 :: _ => if negb (v =? v2) then [send_fifo_front_differs v v2] else []
  | _, _ => [send_fifo_empty_differs]
  end.
Section each.
Context {X : Type} (f : X -> outcome (list error_t)).
Fixpoint each (l : list X) : outcome (list error_t) :=
  match l with [] => Ok [] | x :: l => e ← f x; r ← each l; Ok (e ++ r) end.
End each.
Definition compare s m : outcome (list error_t) :=
  g ← each (λ i, compare_gpr i s m) (seqZ 1 (ARCH_REG_NUM - 1));
  c ← each (λ a, compare_csr a s m) compare_csr_list;
  Ok (g ++ c ++ compare_send_fifo s m).

(** *** [init], [reset] and [load]; [junk] as in [cycle_start.create] *)
Definition init (junk : list Z) (bp : breakpoint_state_t) : outcome lockstep_t :=
  m ← isa_model.new [] [] bp;
  s ← cycle_start.create [] [] junk;
  Ok (mk { s with breakpoints := bp } m [] (fixed_size_buffer.new 10) [] []).
Definition load (buf : list Z) st : outcome lockstep_t :=
  m ← isa_model.load buf (isa_model_inst st);
  s ← cycle_start.reset (cycle_model_inst st);
  s ← cycle_model.load buf s;
  Ok { st with isa_model_inst := m; cycle_model_inst := s }.
(** [program]: what has been loaded before. *)
Definition reset (program : option (list Z)) st : outcome lockstep_t :=
  m ← isa_model.reset (isa_model_inst st);
  s ← cycle_start.reset (cycle_model_inst st);
  let st := { st with isa_model_inst := m; cycle_model_inst := s;
                      isa_model_pc_history ::= fixed_size_buffer.clear } in
  match program with Some buf => load buf st | None => Ok st end.
(** [sub_main] up to the loop. *)
Definition start (junk : list Z) (bp : breakpoint_state_t) (buf : list Z) : outcome lockstep_t :=
  st ← init junk bp; st ← reset None st; load buf st.

(** *** One turn of the loop; the result: a PC mismatch and the other errors. *)
Definition one_turn st : outcome (bool * list error_t * lockstep_t) :=
  st ← feed st;
  x ← run_traced { cycle_model_inst st with rob ::= rob.set_committed false };
  let '(fb, q, s) := x in
  let s := clear_errors s in
  es ← retire_all false (rob_retire_queue s)
         { st with cycle_model_inst := { s with rob_retire_queue := [] };
                   csr_read_queue ::= λ l, l ++ q };
  st ← sync_state fb es.2;
  l ← compare (cycle_model_inst st) (isa_model_inst st);
  Ok (es.1, l, st).

(** Turns without an error. *)
Fixpoint agreeing (n : nat) st : outcome lockstep_t :=
  match n with
  | O => Ok st
  | S n =>
      x ← one_turn st;
      let '(e, l, st) := x in
      verify (negb e && bool_decide (length l = O)) ;; agreeing n st
  end.
End lockstep.
Abbreviation lockstep_t := lockstep.lockstep_t.

(** ** The loop of [run] *)
Module main_run.
Import cycle_model.
Import lockstep.

Definition EXIT_CODE_CSR_FINISH_OK_DETECTED : Z := 4.
Definition EXIT_CODE_CSR_FINISH_FAILURE_DETECTED : Z := 5.
Definition EXIT_CODE_OTHER_BREAKPOINT_DETECTED : Z := 6.
Definition RETIRE_TIMEOUT : Z := 1000.

(** [last_retire_cycle] is a [uint32_t]; [no_controller] is the argument. *)
Record run_t := mk {
  models : lockstep_t;
  flags : control_t;
  last_retire_cycle : Z;
  no_controller : bool
}.
Implicit Type r : run_t.
(** The program exits, or the loop goes on. *)
Inductive next_t (A : Type) := exits (code : Z) | goes_on (a : A).
Arguments exits {A} code.
Arguments goes_on {A} a.

Definition breakpoint_pcs (s : cycle_model_t) : list Z :=
  omap (λ o, if fetch2_decode.enable o then Some (fetch2_decode.pc o) else None)
    (port.get (fetch1_fetch2_port s)).
Definition set_breakpoints (b : breakpoint_state_t) r : run_t :=
  { r with models ::= λ st, { st with cycle_model_inst ::= λ s, { s with breakpoints := b } } }.
Definition set_pause_detected r : run_t :=
  { r with flags ::= λ c, { c with control.pause_detected := true } }.
(** What an error does: the machine pauses, or the program exits. *)
Definition stop_at (code : Z) r : next_t run_t :=
  if no_controller r then exits code else goes_on (set_pause_detected r).

(** "if(breakpoint_check(...))": the result says whether one has triggered. *)
Definition check_breakpoints r : next_t (bool * run_t) :=
  let s := cycle_model_inst (models r) in
  let hb := breakpoint.breakpoint_check (u32 (cpu_clock_cycle s)) (u32 (committed_instruction_num s))
              (breakpoint_pcs s) (breakpoints s) in
  if hb.1 : bool then
    let fb := breakpoint.breakpoint_get_finish hb.2 in
    let r := set_breakpoints fb.2 r in
    let code := match fb.1 with
                | Some v => if 0 <? v then EXIT_CODE_CSR_FINISH_OK_DETECTED
                            else EXIT_CODE_CSR_FINISH_FAILURE_DETECTED
                | None => EXIT_CODE_OTHER_BREAKPOINT_DETECTED
                end in
    if no_controller r then exits code else goes_on (true, r)
  else goes_on (false, set_breakpoints hb.2 r).

Definition note_retire r : run_t :=
  let s := cycle_model_inst (models r) in
  if rob.get_committed (rob s) then { r with last_retire_cycle := u32 (cpu_clock_cycle s) } else r.

(** The head of the loop, and the pause with the commands of [control] it gets; [None]: the
    loop waits for commands. *)
Definition pause_at_head (breakpoint : bool) (l : list control.command_t) r :
    option (run_t * list control.command_t) :=
  let s := cycle_model_inst (models r) in
  let pc := control.head breakpoint (rob.get_committed (rob s)) (flags r) in
  if pc.1 : bool then
    cl ← control.paused (S (length l)) l pc.2;
    Some ({ r with flags := cl.1;
                   last_retire_cycle ::= λ n, if cpu_clock_cycle s <? n then u32 (cpu_clock_cycle s) else n;
                   models ::= λ st, { st with cycle_model_inst ::= clear_errors;
                     isa_model_inst ::= λ m, { m with isa_model.bus ::= λ b, { b with bus.error_msg_queue := [] } } } },
          cl.2)
  else Some ({ r with flags := pc.2 }, l).

(** "Retire Timeout": a [uint64_t] less a [uint32_t]. *)
Definition timed_out r : bool :=
  RETIRE_TIMEOUT <=? u64 (cpu_clock_cycle (cycle_model_inst (models r)) - last_retire_cycle r).

(** The body behind the pause. *)
Definition run_models r : outcome (next_t run_t) :=
  x ← one_turn (models r);
  let '(e, l, st) := x in
  let r := { r with models := st } in
  match (if (e : bool) || negb (bool_decide (length l = O)) then stop_at EXIT_CODE_OTHER_BREAKPOINT_DETECTED r
         else goes_on r) with
  | exits code => Ok (exits code)
  | goes_on r =>
      let m := isa_model_inst (models r) in
      match (if negb (bool_decide (length (bus.error_msg_queue (isa_model.bus m)) = O))
             then stop_at EXIT_CODE_OTHER_BREAKPOINT_DETECTED
                    { r with models ::= λ st, { st with isa_model_inst ::=
                        λ m, { m with isa_model.bus ::= λ b, { b with bus.error_msg_queue := [] } } } }
             else goes_on r) with
      | exits code => Ok (exits code)
      | goes_on r =>
          Ok (if timed_out r then
                stop_at EXIT_CODE_OTHER_BREAKPOINT_DETECTED
                  { r with last_retire_cycle := u32 (cpu_clock_cycle (cycle_model_inst (models r))) }
              else goes_on r)
      end
  end.

(** One turn of the loop with the commands that wait: the new state and the
    commands that are left, an exit, or [None] when the loop waits for a
    command. *)
Definition turn (l : list control.command_t) r :
    outcome (option (next_t (run_t * list control.command_t))) :=
  match check_breakpoints r with
  | exits code => Ok (Some (exits code))
  | goes_on br =>
      match pause_at_head br.1 l (note_retire br.2) with
      | None => Ok None
      | Some rl =>
          n ← run_models rl.1;
          Ok (Some match n with exits code => exits code | goes_on r => goes_on (r, rl.2) end)
      end
  end.
End main_run.
