(* ===== verification/CycleFetchSpec.v ===== *)
(** * The instructions of a fetch pack follow the predictions

    [path] says that a list of fetched instructions is one program path: each
    instruction is at the address the prediction for the one before leads to.
    The first fetch stage fetches such a path, and cuts it only where the
    prediction leaves the pack, at a [fence.i], or at a jump without a
    prediction. *)

From S2P Require Import Prelude Word Ops IsaDecode Dff CycleDecode CyclePack Predict.
From S2P Require Import Ras CycleCommit CycleBus CycleFetch.

Abbreviation fetched := fetch1_fetch2.op_info_t.
Definition bp_of (o : fetched) : bp_info.pack_t := fetch2_decode.branch_predictor_info_pack o.
(** Where the fetch goes on after the instruction. *)
Definition next_of (o : fetched) : Z :=
  if bp_info.predicted (bp_of o) && bp_info.jump (bp_of o) then bp_info.next_pc (bp_of o)
  else add32 (fetch2_decode.pc o) 4.
Fixpoint path (pc id : Z) (l : list fetched) (pc' : Z) : Prop :=
  match l with
  | [] => pc' = pc
  | o :: l =>
      fetch2_decode.enable o = true /\ fetch2_decode.pc o = pc /\
      fetch2_decode.inst_common_info o = mk_info id /\ path (next_of o) (u64 (id + 1)) l pc'
  end.
(** The word of an instruction, as the bus gave it. *)
Definition word_at (o : fetched) (v : Z) : Prop :=
  fetch2_decode.has_exception o = fetch1.misaligned (fetch2_decode.pc o) /\
  fetch2_decode.value o = (if fetch2_decode.has_exception o then 0 else v).
(** The instruction is the last of its pack. *)
Definition unpredicted_jump (o : fetched) : bool :=
  fetch1.is_jump (fetch2_decode.value o) && negb (bp_info.predicted (bp_of o)).
Definition leaves (o : fetched) : bool := negb (next_of o =? add32 (fetch2_decode.pc o) 4).
Definition ends_pack (o : fetched) : bool :=
  fetch1.is_fence_i (fetch2_decode.value o) || unpredicted_jump o || leaves o.
(** A [fence.i] that is not let in yet. *)
Definition fence_waits (quiet : bool) (i : Z) (pc v : Z) : bool :=
  negb (fetch1.misaligned pc) && fetch1.is_fence_i v && (negb (i =? 0) || negb quiet).
(** Why a pack is as long as it is: nothing but the last ends it, and when
    words are left over something did. *)
Fixpoint cut (quiet : bool) (i pc : Z) (l : list fetched) (values : list Z) : Prop :=
  match l, values with
  | [], [] => True
  | [], v :: _ => fence_waits quiet i pc v = true
  | o :: l, v :: values =>
      word_at o v /\
      if ends_pack o then l = [] else cut quiet (i + 1) (add32 pc 4) l values
  | _, _ => False
  end.

(** What a prediction leaves alone. *)
Definition same_front (s s' : fetch1_t) : Prop :=
  fetch1.pc s' = fetch1.pc s /\ fetch1.next_inst_id s' = fetch1.next_inst_id s /\
  fetch1.bus s' = fetch1.bus s /\ fetch1.fetch1_fetch2_port s' = fetch1.fetch1_fetch2_port s.
Lemma same_front_refl s : same_front s s.
Proof. by repeat split. Qed.
Lemma same_front_trans s1 s2 s3 : same_front s1 s2 -> same_front s2 s3 -> same_front s1 s3.
Proof. unfold same_front. intuition congruence. Qed.
#[local] Hint Resolve same_front_refl : core.

Lemma push_addr_front a s s' : fetch1.push_addr a s = Ok s' ->
  same_front s s' /\ fetch1.jump_wait s' = fetch1.jump_wait s.
Proof. unfold fetch1.push_addr. intros H. inv_ok. by destruct s. Qed.
Lemma by_btb_front i s b s' : fetch1.by_btb i s = Ok (b, s') ->
  s' = s /\ bp_info.predicted b = true.
Proof. unfold fetch1.by_btb. intros H. inv_ok. done. Qed.
Lemma by_ras_front s b s' : fetch1.by_ras s = Ok (b, s') ->
  same_front s s' /\ fetch1.jump_wait s' = fetch1.jump_wait s /\ bp_info.predicted b = true.
Proof. unfold fetch1.by_ras. intros H. inv_ok. by destruct s. Qed.

Lemma predict_jal_front c f s b s' : fetch1.predict_jal c f s = Ok (b, s') ->
  same_front s s' /\ fetch1.jump_wait s' = fetch1.jump_wait s /\ bp_info.predicted b = true.
Proof.
  unfold fetch1.predict_jal. intros H. inv_ok.
  destruct (fetch1.is_link _); [apply push_addr_front in Hx0 as [? ?] | inv_ok]; done.
Qed.
Lemma predict_jalr_front i c f s b s' : fetch1.predict_jalr i c f s = Ok (b, s') ->
  same_front s s' /\ fetch1.jump_wait s' = fetch1.jump_wait s /\ bp_info.predicted b = true.
Proof.
  unfold fetch1.predict_jalr. intros H. inv_ok.
  match type of Hx with (if ?c then _ else _) = _ => destruct c end;
    [apply by_ras_front in Hx as (F & W & P) | apply by_btb_front in Hx as [-> P]];
    destruct (fetch1.is_link (fields.rd f));
    (apply push_addr_front in Hx0 as [? ?] || inv_ok);
    split_and!; eauto using same_front_trans; congruence.
Qed.
Lemma fill_debug_predicted c p m b : bi_mode.fill_info_pack_debug c p m = Ok b ->
  bp_info.predicted b = bp_info.predicted p.
Proof. unfold bi_mode.fill_info_pack_debug. intros H. inv_ok. done. Qed.
Lemma predict_branch_front i c f s b s' : fetch1.predict_branch i c f s = Ok (b, s') ->
  s' = s /\ bp_info.predicted b = true.
Proof.
  unfold fetch1.predict_branch. intros H. inv_ok.
  split; [done |]. by match goal with H : bi_mode.fill_info_pack_debug _ _ _ = _ |- _ =>
    apply fill_debug_predicted in H end.
Qed.

Lemma is_jump_low op :
  (Z.land op 0x7f =? 0x6f) || (Z.land op 0x7f =? 0x67) || (Z.land op 0x7f =? 0x63) = true ->
  fetch1.is_jump op = true.
Proof. unfold fetch1.is_jump. generalize (op =? 0x30200073). intros b ->. reflexivity. Qed.

(** The prediction for one instruction: a jump without a prediction is waited
    for. *)
Lemma predict_front i c op s b s' : fetch1.predict i c op s = Ok (b, s') ->
  same_front s s' /\
  fetch1.jump_wait s' = fetch1.jump_wait s || (fetch1.is_jump op && negb (bp_info.predicted b)) /\
  (fetch1.is_jump op = false -> bp_info.predicted b = false).
Proof.
  destruct s as [ip p jw id port pr ras bus]. unfold fetch1.predict. intros H. inv_ok.
  set (t := fetch1.mk ip p jw id port x ras bus).
  assert (F : same_front (fetch1.mk ip p jw id port pr ras bus) t) by done.
  assert (J : forall s1 b1, same_front t s1 -> fetch1.jump_wait s1 = jw -> bp_info.predicted b1 = true ->
              fetch1.is_jump op = true ->
              same_front (fetch1.mk ip p jw id port pr ras bus) s1 /\
              fetch1.jump_wait s1 = jw || (fetch1.is_jump op && negb (bp_info.predicted b1)) /\
              (fetch1.is_jump op = false -> bp_info.predicted b1 = false)).
  { intros s1 b1 F1 W -> ->. rewrite W, andb_false_r, orb_false_r.
    split_and!; [by eapply same_front_trans | done | done]. }
  destruct (Z.land op 0x7f =? 0x6f) eqn:E1;
    [| destruct (Z.land op 0x7f =? 0x67) eqn:E2; [| destruct (Z.land op 0x7f =? 0x63) eqn:E3]].
  - apply predict_jal_front in H as (? & ? & ?). apply J; [done.. |].
    apply is_jump_low. by rewrite E1.
  - apply predict_jalr_front in H as (? & ? & ?). apply J; [done.. |].
    apply is_jump_low. by rewrite E1, E2.
  - apply predict_branch_front in H as (-> & ?). apply J; [done.. |].
    apply is_jump_low. by rewrite E1, E2, E3.
  - injection H as <- <-. destruct (fetch1.is_jump op); split_and!; try done; cbn.
    + by rewrite orb_true_r.
    + by rewrite orb_false_r.
Qed.

Lemma fence_no_jump op : fetch1.is_fence_i op = true -> fetch1.is_jump op = false.
Proof.
  unfold fetch1.is_fence_i, fetch1.is_jump. intros [H _]%andb_true_iff. apply Z.eqb_eq in H.
  destruct (op =? 0x30200073) eqn:E.
  - apply Z.eqb_eq in E. by rewrite E in H.
  - by rewrite H.
Qed.

Section one.
Context (id cur op : Z) (b : bp_info.pack_t).
Context (Hb : fetch1.is_jump op = false -> bp_info.predicted b = false).
#[local] Abbreviation o := (fetch1.op_info id cur op b).

Lemma after_spec : fetch1.after cur op b = (next_of o, ends_pack o).
Proof using Hb.
  unfold fetch1.after, ends_pack, unpredicted_jump, leaves, next_of, bp_of. cbn.
  destruct (fetch1.is_fence_i op) eqn:F.
  - rewrite Hb by by apply fence_no_jump. done.
  - destruct (fetch1.is_jump op) eqn:J.
    + destruct (bp_info.predicted b), (bp_info.jump b); cbn; rewrite ?Z.eqb_refl; try done.
      destruct (bp_info.next_pc b =? add32 cur 4) eqn:E; cbn; [| done].
      apply Z.eqb_eq in E. by rewrite E.
    + rewrite Hb by done. cbn. by rewrite Z.eqb_refl.
Qed.
End one.
Lemma op_info_word id cur op b v :
  op = (if fetch1.misaligned cur then 0 else v) -> word_at (fetch1.op_info id cur op b) v.
Proof. intros ->. by split. Qed.

Lemma add32_step a i : add32 (add32 a (i * 4)) 4 = add32 a ((i + 1) * 4).
Proof. unfold add32, u32. rewrite Z.add_mod_idemp_l by done. f_equal. lia. Qed.

Lemma fetch_spec quiet old values : forall i s l s',
  fetch1.fetch quiet old i values s = Ok (l, s') ->
  fetch1.pc s = add32 old (i * 4) ->
  path (fetch1.pc s) (fetch1.next_inst_id s) l (fetch1.pc s') /\
  cut quiet i (fetch1.pc s) l values /\
  fetch1.jump_wait s' = fetch1.jump_wait s || existsb unpredicted_jump l /\
  fetch1.bus s' = fetch1.bus s /\ fetch1.fetch1_fetch2_port s' = fetch1.fetch1_fetch2_port s.
Proof.
  induction values as [| v values IH]; intros i s l s' H Hpc.
  { injection H as <- <-. cbn. by rewrite orb_false_r. }
  cbn [fetch1.fetch] in H. rewrite <- Hpc in H.
  set (op := if fetch1.misaligned (fetch1.pc s) then 0 else v) in H.
  destruct (fetch1.is_fence_i op && (negb (i =? 0) || negb quiet)) eqn:F.
  { injection H as <- <-. cbn [path cut existsb]. rewrite orb_false_r. split_and!; try done.
    unfold fence_waits. subst op. destruct (fetch1.misaligned (fetch1.pc s)); [done | exact F]. }
  inv_ok_step. destruct x as [b t].
  apply predict_front in Hx as ((P & N & B & Q) & W & U).
  cbn [fst snd] in H. rewrite (after_spec (fetch1.next_inst_id s)) in H by exact U. cbn [fst snd] in H.
  set (o := fetch1.op_info (fetch1.next_inst_id s) (fetch1.pc s) op b) in *.
  assert (Ho : word_at o v) by (by apply op_info_word).
  assert (Hw : fetch1.is_jump op && negb (bp_info.predicted b) = unpredicted_jump o) by done.
  rewrite Hw in W. destruct s as [ip p jw id port pr ras bus], t as [ip' p' jw' id' port' pr' ras' bus'].
  cbn in P, N, B, Q, W, Hpc, H |- *. subst p' id' bus' port'.
  destruct (ends_pack o) eqn:E.
  - injection H as <- <-. cbn. rewrite orb_false_r, E. by split_and!.
  - inv_ok_step. destruct x as [l1 s1]. injection H as <- <-.
    assert (L : next_of o = add32 p 4).
    { unfold ends_pack, leaves in E. apply orb_false_iff in E as [_ E].
      apply negb_false_iff, Z.eqb_eq in E. exact E. }
    apply IH in Hx as (I1 & I2 & I3 & I4 & I5);
      [| cbn; rewrite L, Hpc; apply add32_step].
    cbn in I1, I2, I3, I4, I5. cbn [path cut existsb]. rewrite E, <- L, I3, W, orb_assoc.
    by split_and!.
Qed.

(** ** The stage *)
Section stage.
Context (quiet : bool) (fb2 : fetch2_feedback_t) (bru : bru_feedback_t) (sau : sau_feedback_t).
Context (cm : commit_feedback_t).

(** Someone sends the fetch elsewhere. *)
Definition redirected : bool :=
  commit_feedback.flush cm || flush_feedback.flush bru || flush_feedback.flush sau ||
  fetch2_feedback.pc_redirect fb2.
(** An exception or a jump that commits comes before a branch, a branch before
    a store, a store before the second stage. *)
Definition redirect_target (pc : Z) : Z :=
  if commit_feedback.flush cm then
    if commit_feedback.has_exception cm then commit_feedback.exception_pc cm
    else if commit_feedback.jump_enable cm then commit_feedback.jump_next_pc cm else pc
  else if flush_feedback.flush bru then flush_feedback.next_pc bru
  else if flush_feedback.flush sau then flush_feedback.next_pc sau
  else fetch2_feedback.new_pc fb2.
#[local] Abbreviation run := (fetch1.run quiet fb2 bru sau cm).

Lemma choose_redirected s s' : redirected = true -> fetch1.choose quiet fb2 bru sau cm s = Ok s' ->
  s' = fetch1.redirect (redirect_target (fetch1.pc s)) s.
Proof using.
  unfold redirected, fetch1.choose, redirect_target. intros R H.
  destruct (commit_feedback.flush cm); [| destruct (flush_feedback.flush bru);
    [| destruct (flush_feedback.flush sau); [| destruct (fetch2_feedback.pc_redirect fb2)]]]; inv_ok; try done.
  destruct (commit_feedback.has_exception cm), (commit_feedback.jump_enable cm); inv_ok; done.
Qed.
Lemma choose_proceed s : redirected = false ->
  fetch1.choose quiet fb2 bru sau cm s = fetch1.proceed quiet fb2 cm s.
Proof using.
  unfold redirected, fetch1.choose. intros R. rewrite !orb_false_iff in R.
  by destruct R as [[[-> ->] ->] ->].
Qed.
Lemma run_redirected s s' : redirected = true -> run s = Ok s' ->
  fetch1.pc s' = redirect_target (fetch1.pc s) /\ fetch1.jump_wait s' = false /\
  port.get_new (fetch1.fetch1_fetch2_port s') = fetch1_fetch2.pack_init /\
  fetch1.predictors s' = fetch1.predictors s /\ fetch1.main_ras s' = fetch1.main_ras s.
Proof using.
  intros R H. unfold fetch1.run in H. inv_ok.
  match goal with H : fetch1.choose _ _ _ _ _ _ = _ |- _ => apply choose_redirected in H; [| done] end.
  subst. destruct s. by split_and!.
Qed.

Lemma proceed_spec s s' values :
  fetch2_feedback.stall fb2 = false -> fetch1.jump_wait s = false -> is_u32 (fetch1.pc s) ->
  cycle_bus.get_instruction_value (bus_system.bus (fetch1.bus s)) = Some values ->
  fetch1.proceed quiet fb2 cm s = Ok s' ->
  exists l, port.get_new (fetch1.fetch1_fetch2_port s') = fetch1.fill l /\
    path (fetch1.pc s) (fetch1.next_inst_id s) l (fetch1.pc s') /\
    cut quiet 0 (fetch1.pc s) l values /\
    fetch1.jump_wait s' = existsb unpredicted_jump l /\ fetch1.bus s' = fetch1.bus s.
Proof using.
  unfold fetch1.proceed. intros -> W Hpc V H. rewrite W, V in H. cbn [negb] in H. inv_ok.
  apply fetch_spec in Hx0 as (P & C & J & B & Q).
  - rewrite W in J. eexists. destruct f. cbn in P, C, J, B, Q |- *. by split_and!.
  - unfold add32. by rewrite Z.add_0_r, u32_small.
Qed.
End stage.
