(* ===== verification/CycleDispatchSpec.v ===== *)
(** * The dispatch stage loses nothing and keeps the order

    Without a flush, what the stage sends to an issue stage, then holds back
    for it, then keeps in the pack it could not split yet, is what it held
    before and the pack it took from rename: [conserved], once for the integer
    and once for the load/store queue.  [serialises] is about CSR instructions,
    mret and fences: the first two are sent when they are the next to commit, a
    pack with a fence is sent as a whole, and nothing is sent before the
    instruction that waits has committed and, behind a fence, the stores have
    left. *)

From S2P Require Import Prelude Word Ops IsaDecode Dff Fifo Rat CycleDecode CyclePack.
From S2P Require Import LoadStore Rob CycleRename CycleCommit CycleDispatch.

Implicit Types (o : op_info_t) (l : list op_info_t) (s : dispatch_t) (a : dispatch.split_t).

(** ** Streams *)
(** What an issue stage gets of an instruction. *)
Definition integer_copy o : op_info_t :=
  { o with rename_dispatch.store_buffer_id := 0; rename_dispatch.load_queue_id := 0 }.
Definition lsu_copy o : op_info_t := { o with rename_dispatch.branch_predictor_info_pack := bp_info.init }.
Lemma integer_copied o : dispatch.of_integer o = integer_copy o.
Proof. done. Qed.
Lemma lsu_copied o : dispatch.of_lsu o = lsu_copy o.
Proof. done. Qed.
Definition enabled l : list op_info_t := filter (λ o, dispatch_issue.enable o = true) l.
Definition ints_of l : list op_info_t :=
  integer_copy <$> filter (λ o, rename.is_lsu (rename_dispatch.uop o) = false) (enabled l).
Definition lsus_of l : list op_info_t :=
  lsu_copy <$> filter (λ o, rename.is_lsu (rename_dispatch.uop o) = true) (enabled l).

Lemma enabled_cons o l :
  enabled (o :: l) = if dispatch_issue.enable o then o :: enabled l else enabled l.
Proof. unfold enabled. rewrite filter_cons. by destruct (dispatch_issue.enable o). Qed.
Lemma enabled_app l k : enabled (l ++ k) = enabled l ++ enabled k.
Proof. apply filter_app. Qed.
Lemma enabled_all l : Forall (λ o, dispatch_issue.enable o = true) l -> enabled l = l.
Proof. induction 1 as [| o l E _ IH]; [done |]. by rewrite enabled_cons, E, IH. Qed.
Lemma enabled_none l : Forall (λ o, dispatch_issue.enable o = false) l -> enabled l = [].
Proof. induction 1 as [| o l E _ IH]; [done |]. by rewrite enabled_cons, E, IH. Qed.
Lemma enabled_init n : enabled (drop n dispatch_issue.init) = [].
Proof. apply enabled_none, Forall_drop. by repeat constructor. Qed.
Lemma enabled_fill l : Forall (λ o, dispatch_issue.enable o = true) l -> enabled (dispatch_issue.fill l) = l.
Proof.
  intros H. unfold dispatch_issue.fill. rewrite enabled_app, enabled_init, app_nil_r.
  by apply enabled_all.
Qed.
Lemma ints_of_cons o l :
  ints_of (o :: l) =
  (if dispatch_issue.enable o && negb (rename.is_lsu (rename_dispatch.uop o))
   then [integer_copy o] else []) ++ ints_of l.
Proof.
  unfold ints_of. rewrite enabled_cons. destruct (dispatch_issue.enable o); [| done].
  rewrite filter_cons. by destruct (rename.is_lsu _).
Qed.
Lemma lsus_of_cons o l :
  lsus_of (o :: l) =
  (if dispatch_issue.enable o && rename.is_lsu (rename_dispatch.uop o)
   then [lsu_copy o] else []) ++ lsus_of l.
Proof.
  unfold lsus_of. rewrite enabled_cons. destruct (dispatch_issue.enable o); [| done].
  rewrite filter_cons. by destruct (rename.is_lsu _).
Qed.
Lemma ints_of_none l : enabled l = [] -> ints_of l = [].
Proof. unfold ints_of. by intros ->. Qed.
Lemma lsus_of_none l : enabled l = [] -> lsus_of l = [].
Proof. unfold lsus_of. by intros ->. Qed.

(** ** What rename promises: an instruction that waits for its commit comes
    alone, and is no load or store *)
Definition serial o : bool :=
  decode_rename.valid (rename_dispatch.uop o) && negb (decode_rename.has_exception (rename_dispatch.uop o)) &&
  (bool_decide (decode_rename.op_unit (rename_dispatch.uop o) = cop_unit.csr) ||
   bool_decide (decode_rename.op (rename_dispatch.uop o) = op.mret)).
Lemma serial_waits o : serial o =
  decode_rename.valid (rename_dispatch.uop o) && negb (decode_rename.has_exception (rename_dispatch.uop o)) &&
  dispatch.waits_for_commit o.
Proof. done. Qed.
Definition waits o : bool := dispatch_issue.enable o && serial o.
Definition solitary l : Prop :=
  match l with
  | [] => True
  | o :: l =>
      (waits o = true -> rename.is_lsu (rename_dispatch.uop o) = false /\
      Forall (λ p, dispatch_issue.enable p = false) l) /\
      Forall (λ p, waits p = false) l
  end.

(** ** The split *)
Lemma serial_of_integer o : serial (integer_copy o) = serial o.
Proof. by destruct o. Qed.
Lemma add_fields o a :
  dispatch.found_inst_waiting (dispatch.add o a) = dispatch.found_inst_waiting a /\
  dispatch.ints (dispatch.add o a) =
    dispatch.ints a ++ (if negb (rename.is_lsu (rename_dispatch.uop o)) then [integer_copy o] else []) /\
  dispatch.lsus (dispatch.add o a) =
    dispatch.lsus a ++ (if rename.is_lsu (rename_dispatch.uop o) then [lsu_copy o] else []).
Proof. unfold dispatch.add. destruct a, (rename.is_lsu _); cbn; by rewrite app_nil_r. Qed.

(** Whether the split found an instruction that waits, and what it collected. *)
Record split_ok l a a' (w : bool) : Prop := {
  so_found : dispatch.found_inst_waiting a' = w;
  so_ints : dispatch.ints a' = dispatch.ints a ++ ints_of l;
  so_lsus : dispatch.lsus a' = dispatch.lsus a ++ lsus_of l;
  so_serial : w = false -> Forall (λ o, serial o = false) (ints_of l)
}.
(** The body of the loop for an instruction that does not wait. *)
Lemma split_ok_step o l a a1 a' :
  dispatch_issue.enable o = true -> serial o = false ->
  (a1 = dispatch.add o a \/ a1 = dispatch.found o { dispatch.add o a with dispatch.found_fence := true }) ->
  split_ok l a1 a' false -> split_ok (o :: l) a a' false.
Proof.
  intros E S D [F I L H]. destruct (add_fields o a) as (_ & AI & AL).
  assert (dispatch.ints a1 = dispatch.ints (dispatch.add o a) /\
          dispatch.lsus a1 = dispatch.lsus (dispatch.add o a)) as [I1 L1].
  { destruct D as [-> | ->]; [done |]. by destruct (dispatch.add o a). }
  split; [done | | |].
  - by rewrite ints_of_cons, E, I, I1, AI, <- app_assoc.
  - by rewrite lsus_of_cons, E, L, L1, AL, <- app_assoc.
  - intros _. rewrite ints_of_cons. apply Forall_app. split; [| by apply H].
    destruct (_ && _); repeat constructor. by rewrite serial_of_integer.
Qed.
Lemma split_ok_skip o l a a' w : dispatch_issue.enable o = false -> split_ok l a a' w -> split_ok (o :: l) a a' w.
Proof.
  intros E [F I L H]. split; [done | ..].
  - by rewrite ints_of_cons, E.
  - by rewrite lsus_of_cons, E.
  - by rewrite ints_of_cons, E.
Qed.
Lemma split_one i o l a a' :
  dispatch.split i (o :: l) a = Ok a' ->
  (dispatch_issue.enable o = false /\ dispatch.split (i + 1) l a = Ok a') \/
  (dispatch_issue.enable o = true /\ serial o = false /\
   exists a1, (a1 = dispatch.add o a \/ a1 = dispatch.found o { dispatch.add o a with dispatch.found_fence := true }) /\
              dispatch.split (i + 1) l a1 = Ok a') \/
  (dispatch_issue.enable o = true /\ serial o = true /\ i = 0 /\
   a' = dispatch.found o { dispatch.add o a with dispatch.found_inst_waiting := true }).
Proof.
  cbn [dispatch.split]. rewrite serial_waits. unfold dispatch_issue.enable.
  destruct (decode_rename.enable (rename_dispatch.uop o)); [| by left].
  intros H. right.
  destruct (decode_rename.valid (rename_dispatch.uop o) && negb (decode_rename.has_exception (rename_dispatch.uop o)));
    [| left; eauto 6].
  destruct (dispatch.waits_for_commit o); cbn [andb].
  - right. inv_ok. split_and!; [done | done | lia | done].
  - left. destruct (rename.is_op op.fence _); eauto 8.
Qed.

(** Behind the first place nothing waits: the loop would have aborted. *)
Lemma split_tail l : forall i a a', dispatch.split i l a = Ok a' -> 0 < i ->
  dispatch.found_inst_waiting a = false -> split_ok l a a' false.
Proof.
  induction l as [| o l IH]; intros i a a' H Hi F.
  { injection H as <-. split; [done | by rewrite app_nil_r.. | constructor]. }
  apply split_one in H as [[E H] | [(E & S & a1 & D & H) | (_ & _ & -> & _)]]; [| | lia].
  - apply split_ok_skip; [done |]. by apply (IH (i + 1)); [| lia |].
  - eapply split_ok_step; [done | done | exact D |]. apply (IH (i + 1)); [done | lia |].
    destruct (add_fields o a) as (FA & _). rewrite F in FA.
    destruct D as [-> | ->]; [done |]. by destruct (dispatch.add o a).
Qed.
Lemma split_spec l a' : solitary l -> dispatch.split 0 l dispatch.split_init = Ok a' ->
  split_ok l dispatch.split_init a' (dispatch.found_inst_waiting a') /\
  (dispatch.found_inst_waiting a' = true ->
   exists o, dispatch.ints a' = [integer_copy o] /\ dispatch.lsus a' = [] /\ serial o = true /\
             dispatch.found_rob_id a' = rename_dispatch.rob_id o).
Proof.
  intros Hs H. destruct l as [| o l]; [by injection H as <- |].
  apply split_one in H as [[E H] | [(E & S & a1 & D & H) | (E & S & _ & ->)]].
  - apply split_tail in H; [| lia | done].
    rewrite (so_found _ _ _ _ H). split; [by apply split_ok_skip | done].
  - apply split_tail in H; [| lia |].
    + rewrite (so_found _ _ _ _ H). split; [| done]. by eapply split_ok_step.
    + destruct (add_fields o dispatch.split_init) as (FA & _).
      destruct D as [-> | ->]; [done |]. by destruct (dispatch.add o _).
  - destruct Hs as [Hs _]. destruct Hs as [L N%enabled_none]; [unfold waits; by rewrite E, S |].
    assert (P : dispatch.add o dispatch.split_init =
                { dispatch.split_init with dispatch.ints := [integer_copy o] }).
    { unfold dispatch.add. by rewrite L. }
    rewrite P. split; [split |]; [done | .. ].
    + by rewrite ints_of_cons, E, L, ints_of_none.
    + by rewrite lsus_of_cons, E, L, lsus_of_none.
    + done.
    + intros _. by exists o.
Qed.

(** The check on the place of an instruction that waits never fails. *)
Lemma split_total l : forall i a, (0 < i -> Forall (λ p, waits p = false) l) -> (i = 0 -> solitary l) -> 0 <= i ->
  exists a', dispatch.split i l a = Ok a'.
Proof.
  induction l as [| o l IH]; intros i a H1 H0 Hi; [by eexists |].
  assert (T : Forall (λ p, waits p = false) l).
  { destruct (decide (i = 0)) as [E | E]; [by apply H0 in E as [_ ?] |].
    specialize (H1 ltac:(lia)). by apply Forall_cons in H1 as [_ ?]. }
  assert (K : forall a, exists a', dispatch.split (i + 1) l a = Ok a').
  { intros b. apply IH; [done | lia..]. }
  assert (W : 0 < i -> waits o = false).
  { intros E. specialize (H1 E). by apply Forall_cons in H1 as [? _]. }
  cbn [dispatch.split]. unfold waits in W. rewrite serial_waits in W. unfold dispatch_issue.enable in W.
  destruct (decode_rename.enable (rename_dispatch.uop o)); [| apply K].
  destruct (decode_rename.valid (rename_dispatch.uop o) && negb (decode_rename.has_exception (rename_dispatch.uop o)));
    [| apply K].
  destruct (dispatch.waits_for_commit o); [| destruct (rename.is_op op.fence _); apply K].
  assert (E : i = 0) by (destruct (decide (0 < i)) as [E | E]; [by apply W in E | lia]).
  rewrite E. by eexists.
Qed.

(** ** Fences *)
Definition is_fence o : bool :=
  dispatch_issue.enable o && decode_rename.valid (rename_dispatch.uop o) &&
  negb (decode_rename.has_exception (rename_dispatch.uop o)) &&
  bool_decide (decode_rename.op (rename_dispatch.uop o) = op.fence) && negb (serial o).
(** The last fence of a pack. *)
Definition last_fence l : option op_info_t := last (filter (λ o, is_fence o = true) l).
Lemma last_fence_cons o l :
  last_fence (o :: l) = match last_fence l with Some f => Some f | None => if is_fence o then Some o else None end.
Proof.
  unfold last_fence. rewrite filter_cons. case_decide as E.
  - by rewrite last_cons, E.
  - rewrite not_true_iff_false in E. rewrite E. by destruct (last _).
Qed.
Lemma split_fences l : forall i a a', dispatch.split i l a = Ok a' -> dispatch.found_inst_waiting a' = false ->
  match last_fence l with
  | Some f => dispatch.found_fence a' = true /\ dispatch.found_rob_id a' = rename_dispatch.rob_id f /\
              dispatch.found_rob_id_stage a' = rename_dispatch.rob_id_stage f
  | None => dispatch.found_fence a' = dispatch.found_fence a /\ dispatch.found_rob_id a' = dispatch.found_rob_id a /\
            dispatch.found_rob_id_stage a' = dispatch.found_rob_id_stage a
  end.
Proof.
  induction l as [| o l IH]; intros i a a' H F; [by injection H as <- |].
  rewrite last_fence_cons. cbn [dispatch.split] in H. unfold is_fence. rewrite serial_waits.
  unfold dispatch_issue.enable. destruct (decode_rename.enable (rename_dispatch.uop o)); cbn [andb].
  2: { specialize (IH _ _ _ H F). by destruct (last_fence l). }
  assert (A : dispatch.found_fence (dispatch.add o a) = dispatch.found_fence a /\
              dispatch.found_rob_id (dispatch.add o a) = dispatch.found_rob_id a /\
              dispatch.found_rob_id_stage (dispatch.add o a) = dispatch.found_rob_id_stage a)
    by (unfold dispatch.add; destruct a, (rename.is_lsu _); by split_and!).
  destruct A as (A1 & A2 & A3).
  destruct (decode_rename.valid (rename_dispatch.uop o)), (decode_rename.has_exception (rename_dispatch.uop o));
    cbn [negb andb] in *.
  1, 3, 4: specialize (IH _ _ _ H F); rewrite A1, A2, A3 in IH; by destruct (last_fence l).
  destruct (dispatch.waits_for_commit o); cbn [negb].
  { inv_ok. discriminate F. }
  rewrite andb_true_r. unfold rename.is_op in H.
  destruct (bool_decide (decode_rename.op (rename_dispatch.uop o) = op.fence)).
  - specialize (IH _ _ _ H F). by destruct (last_fence l).
  - specialize (IH _ _ _ H F). rewrite A1, A2, A3 in IH. by destruct (last_fence l).
Qed.
(** A pack with an instruction that waits for its commit has no fence. *)
Lemma serial_no_fence l a : solitary l -> dispatch.split 0 l dispatch.split_init = Ok a ->
  dispatch.found_inst_waiting a = true -> last_fence l = None.
Proof.
  intros Hs Ha Hf. apply split_spec in Ha as [[_ I L _] W]; [| done].
  destruct (W Hf) as (o & Io & Lo & So & _). rewrite Io in I. rewrite Lo in L. cbn in I, L.
  unfold last_fence. destruct (filter _ l) as [| f k] eqn:E; [done |].
  assert (Ef : f ∈ filter (λ o, is_fence o = true) l) by (rewrite E; left).
  apply list_elem_of_filter in Ef as [Ff Fl]. unfold is_fence in Ff. rewrite !andb_true_iff in Ff.
  destruct Ff as ((((Fe & _) & _) & _) & Fs%negb_true_iff).
  assert (Fm : f ∈ enabled l) by (by apply list_elem_of_filter).
  destruct (rename.is_lsu (rename_dispatch.uop f)) eqn:U.
  - assert (G : lsu_copy f ∈ lsus_of l) by (apply list_elem_of_fmap_2, list_elem_of_filter; done).
    rewrite <- L in G. by apply not_elem_of_nil in G.
  - assert (G : integer_copy f ∈ ints_of l) by (apply list_elem_of_fmap_2, list_elem_of_filter; done).
    rewrite <- I in G. apply list_elem_of_singleton in G.
    change (integer_copy f = integer_copy o) in G.
    by rewrite <- (serial_of_integer f), G, serial_of_integer, So in Fs.
Qed.

(** ** Conservation *)
Section run.
Context (integer_stall lsu_stall : bool) (bru : bru_feedback_t) (sau : sau_feedback_t).
Context (commit : commit_feedback_t) (stbuf_empty : bool).
Context (Hbru : flush_feedback.flush bru = false) (Hsau : flush_feedback.flush sau = false).

Definition held_ints s : list op_info_t :=
  if dispatch.integer_busy s then enabled (dispatch.hold_integer_issue_pack s) else [].
Definition held_lsus s : list op_info_t :=
  if dispatch.lsu_busy s then enabled (dispatch.hold_lsu_issue_pack s) else [].
Definition kept s : list op_info_t := if dispatch.busy s then dispatch.rev_pack s else [].
(** A stalled issue stage does not look at its port, which keeps its pack. *)
Definition sent_ints s : list op_info_t :=
  if integer_stall then [] else enabled (port.get_new (dispatch.dispatch_integer_issue_port s)).
Definition sent_lsus s : list op_info_t :=
  if lsu_stall then [] else enabled (port.get_new (dispatch.dispatch_lsu_issue_port s)).
Definition conserved (taken : list op_info_t) s s' : Prop :=
  sent_ints s' ++ held_ints s' ++ ints_of (kept s') = held_ints s ++ ints_of (kept s) ++ ints_of taken /\
  sent_lsus s' ++ held_lsus s' ++ lsus_of (kept s') = held_lsus s ++ lsus_of (kept s) ++ lsus_of taken.
Definition well_held s : Prop :=
  solitary (kept s) /\ Forall (λ o, serial o = false) (held_ints s).
(** An instruction waits for its commit, or for the stores before a fence. *)
Definition waiting s : bool :=
  (dispatch.is_inst_waiting s && negb (dispatch.inst_waiting_ok commit s)) ||
  (dispatch.is_stbuf_empty_waiting s && negb stbuf_empty).
Definition serialised s s' : Prop :=
  (waiting s = true -> sent_ints s' = [] /\ sent_lsus s' = []) /\
  (forall o, o ∈ sent_ints s' -> serial o = true ->
     dispatch.is_next commit (rename_dispatch.rob_id o) = true /\
     dispatch.is_inst_waiting s' = true /\ dispatch.inst_waiting_rob_id s' = rename_dispatch.rob_id o).

Lemma sent_nothing s s' :
  dispatch.dispatch_integer_issue_port s' = dispatch.dispatch_integer_issue_port (dispatch.send_nothing integer_stall lsu_stall s) ->
  dispatch.dispatch_lsu_issue_port s' = dispatch.dispatch_lsu_issue_port (dispatch.send_nothing integer_stall lsu_stall s) ->
  sent_ints s' = [] /\ sent_lsus s' = [].
Proof using.
  unfold sent_ints, sent_lsus, dispatch.send_nothing, dispatch.send_lsu, dispatch.send_integer. intros -> ->.
  by destruct s, integer_stall, lsu_stall.
Qed.
Lemma split_ints_enabled l : Forall (λ o, dispatch_issue.enable o = true) (ints_of l).
Proof using.
  unfold ints_of. apply Forall_fmap, Forall_forall. intros o [_ Ho]%list_elem_of_filter.
  by apply list_elem_of_filter in Ho as [? _].
Qed.
Lemma split_lsus_enabled l : Forall (λ o, dispatch_issue.enable o = true) (lsus_of l).
Proof using.
  unfold lsus_of. apply Forall_fmap, Forall_forall. intros o [_ Ho]%list_elem_of_filter.
  by apply list_elem_of_filter in Ho as [? _].
Qed.

(** The ports after [send_or_hold]. *)
Lemma send_or_hold_spec a s s' :
  dispatch.integer_busy s = false -> dispatch.lsu_busy s = false ->
  Forall (λ o, dispatch_issue.enable o = true) (dispatch.ints a) ->
  Forall (λ o, dispatch_issue.enable o = true) (dispatch.lsus a) ->
  s' = dispatch.send_or_hold integer_stall lsu_stall a s ->
  sent_ints s' ++ held_ints s' = dispatch.ints a /\ sent_lsus s' ++ held_lsus s' = dispatch.lsus a /\
  dispatch.busy s' = dispatch.busy s.
Proof using.
  destruct a as [li ll fw ff fr fs]. cbn. intros Hi Hl Ei El ->.
  destruct s. cbn in Hi, Hl. subst.
  unfold dispatch.send_or_hold, dispatch.send_integer, dispatch.send_lsu, sent_ints, held_ints, sent_lsus, held_lsus.
  cbn [dispatch.ints dispatch.lsus].
  assert (I : li = [] \/ bool_decide (li = []) = false) by (destruct li; [by left | by right]).
  assert (L : ll = [] \/ bool_decide (ll = []) = false) by (destruct ll; [by left | by right]).
  pose proof (enabled_fill _ Ei) as Fi. pose proof (enabled_fill _ El) as Fl.
  destruct I as [-> | ->], L as [-> | ->], integer_stall, lsu_stall; cbn in *;
    rewrite ?Fi, ?Fl, ?app_nil_r; done.
Qed.

Lemma dispatch_pack_spec l a s s' :
  solitary l -> dispatch.split 0 l dispatch.split_init = Ok a ->
  dispatch.integer_busy s = false -> dispatch.lsu_busy s = false -> dispatch.busy s = false ->
  dispatch.rev_pack s = l ->
  s' = dispatch.dispatch_pack integer_stall lsu_stall commit a s ->
  (sent_ints s' ++ held_ints s' ++ ints_of (kept s') = ints_of l /\
   sent_lsus s' ++ held_lsus s' ++ lsus_of (kept s') = lsus_of l) /\
  well_held s' /\
  (forall o, o ∈ sent_ints s' -> serial o = true ->
     dispatch.is_next commit (rename_dispatch.rob_id o) = true /\
     dispatch.is_inst_waiting s' = true /\ dispatch.inst_waiting_rob_id s' = rename_dispatch.rob_id o).
Proof using.
  intros Hsol Ha Hi Hl Hb Hr ->. apply split_spec in Ha as [[F I L S] W]; [| done].
  cbn [dispatch.split_init dispatch.ints dispatch.lsus app] in I, L.
  set (keep := { s with dispatch.busy := true }).
  assert (K : forall t, t = dispatch.send_nothing integer_stall lsu_stall keep ->
    (sent_ints t ++ held_ints t ++ ints_of (kept t) = ints_of l /\
     sent_lsus t ++ held_lsus t ++ lsus_of (kept t) = lsus_of l) /\ well_held t /\ forall p, p ∈ sent_ints t -> False).
  { intros t Ht. destruct (sent_nothing keep t) as [E1 E2]; [by rewrite Ht | by rewrite Ht |].
    rewrite E1, E2. subst t. clear E1 E2.
    assert (N : forall p, p ∈ @nil op_info_t -> False) by (intros p; apply not_elem_of_nil).
    unfold well_held, kept, held_ints, held_lsus, dispatch.send_nothing, dispatch.send_lsu, dispatch.send_integer.
    subst keep. destruct s. cbn in *. subst.
    destruct integer_stall, lsu_stall; cbn; split_and!; try done; constructor. }
  unfold dispatch.dispatch_pack. destruct (dispatch.found_inst_waiting a) eqn:Fa.
  - destruct (W eq_refl) as (o & Io & Lo & So & Ro).
    destruct (negb integer_stall && dispatch.is_next commit (dispatch.found_rob_id a)) eqn:N; cbn [negb].
    + apply andb_true_iff in N as [Hst N]. apply negb_true_iff in Hst.
      assert (Ei : Forall (λ o, dispatch_issue.enable o = true) (dispatch.ints a)) by (rewrite I; apply split_ints_enabled).
      pose proof (enabled_fill _ Ei) as Fi.
      assert (Rx : rename_dispatch.rob_id (integer_copy o) = dispatch.found_rob_id a) by (by rewrite Ro).
      clear Ro So W. generalize dependent (integer_copy o). intros x Io Rx.
      rewrite Io in Fi, I |- *. rewrite Lo in L. unfold well_held, kept.
      unfold dispatch.wait_for, dispatch.send_integer, dispatch.send_lsu, sent_ints, held_ints, sent_lsus, held_lsus.
      rewrite Hst. destruct s. cbn in Hi, Hl, Hb, Hr. subst. rewrite <- I, <- L.
      destruct lsu_stall; cbn -[dispatch_issue.fill enabled]; rewrite Fi;
        split_and!; try done; intros p ->%list_elem_of_singleton _; by rewrite Rx.
    + destruct (K _ eq_refl) as (C & H & N0). split; [exact C |]. split; [exact H |].
      intros p Hp. destruct (N0 p Hp).
  - specialize (S eq_refl).
    destruct (dispatch.found_fence a && _) eqn:FF.
    { destruct (K _ eq_refl) as (C & H & N0). split; [exact C |]. split; [exact H |].
      intros p Hp. destruct (N0 p Hp). }
    set (t := if dispatch.found_fence a then _ else s).
    assert (T : dispatch.integer_busy t = false /\ dispatch.lsu_busy t = false /\ dispatch.busy t = false).
    { subst t. destruct (dispatch.found_fence a); [destruct s | ]; done. }
    destruct T as (T1 & T2 & T3).
    edestruct (send_or_hold_spec a t) as (C1 & C2 & C3); [exact T1 | exact T2 | | | reflexivity |].
    { rewrite I. apply split_ints_enabled. }
    { rewrite L. apply split_lsus_enabled. }
    set (u := dispatch.send_or_hold integer_stall lsu_stall a t) in *.
    unfold kept, well_held. rewrite C3, T3. cbn [ints_of lsus_of].
    rewrite !app_assoc, C1, C2, I, L. change (ints_of []) with (@nil op_info_t). change (lsus_of []) with (@nil op_info_t).
    rewrite !app_nil_r. rewrite I in C1. rewrite <- C1, Forall_app in S. destruct S as [S1 S2].
    split_and!; [done | done | unfold kept; by rewrite C3, T3 | done |].
    intros p Hp Sp. by rewrite (proj1 (Forall_forall _ _) S1 p Hp) in Sp.
Qed.
(** A pack with a fence is sent in one go, and then nothing more. *)
Definition awaits o s : Prop :=
  dispatch.is_inst_waiting s = true /\ dispatch.inst_waiting_rob_id s = rename_dispatch.rob_id o /\
  dispatch.inst_waiting_rob_id_stage s = rename_dispatch.rob_id_stage o.
Definition awaits_stores o s : Prop :=
  dispatch.is_stbuf_empty_waiting s = true /\ dispatch.stbuf_empty_waiting_rob_id s = rename_dispatch.rob_id o /\
  dispatch.stbuf_empty_waiting_rob_id_stage s = rename_dispatch.rob_id_stage o.
Definition fence_done l f s' : Prop :=
  (sent_ints s' = [] /\ sent_lsus s' = [] /\ kept s' = l) \/
  (held_ints s' = [] /\ held_lsus s' = [] /\ kept s' = [] /\ awaits f s' /\ awaits_stores f s').
Lemma fence_pack l a s f :
  solitary l -> dispatch.split 0 l dispatch.split_init = Ok a ->
  dispatch.integer_busy s = false -> dispatch.lsu_busy s = false -> dispatch.busy s = false ->
  dispatch.rev_pack s = l -> last_fence l = Some f ->
  fence_done l f (dispatch.dispatch_pack integer_stall lsu_stall commit a s).
Proof using.
  intros Hs Ha Hi Hl Hb Hr Hf. destruct (dispatch.found_inst_waiting a) eqn:Fa.
  { by rewrite (serial_no_fence l a Hs Ha Fa) in Hf. }
  pose proof (split_fences l 0 _ a Ha Fa) as F. rewrite Hf in F. destruct F as (F1 & F2 & F3).
  unfold dispatch.dispatch_pack. rewrite Fa, F1. cbn [andb]. destruct (_ || _) eqn:St.
  - left. set (keep := { s with dispatch.busy := true }).
    destruct (sent_nothing keep (dispatch.send_nothing integer_stall lsu_stall keep) eq_refl eq_refl) as [E1 E2].
    split; [done |]. split; [done |]. unfold kept, dispatch.send_nothing, dispatch.send_lsu, dispatch.send_integer.
    subst keep. destruct s. cbn in *. by destruct integer_stall, lsu_stall.
  - right. apply orb_false_iff in St as [S1 S2]. unfold dispatch.send_or_hold.
    destruct a as [ai al aw af ar as']. cbn in S1, S2, F2, F3. subst. cbn [dispatch.ints dispatch.lsus].
    rewrite S1, S2. unfold awaits, awaits_stores, held_ints, held_lsus, kept, dispatch.wait_for, dispatch.wait_for_stores,
      dispatch.send_lsu, dispatch.send_integer.
    destruct s. cbn in Hi, Hl, Hb. subst. destruct integer_stall, lsu_stall; by cbn.
Qed.

(** The cycles in which the pack of rename is not taken. *)
Lemma send_held_spec s s' : well_held s -> s' = dispatch.send_held integer_stall lsu_stall s ->
  dispatch.integer_busy s || dispatch.lsu_busy s = true ->
  conserved [] s s' /\ well_held s' /\ Forall (λ o, serial o = false) (sent_ints s').
Proof using.
  intros [H1 H2] -> B. unfold well_held, conserved, kept, held_ints, held_lsus, sent_ints, sent_lsus in *.
  unfold dispatch.send_held, dispatch.send_lsu, dispatch.send_integer. destruct s as [ib lb b ? ? rp].
  cbn in H1, H2. cbn in B.
  change (ints_of []) with (@nil op_info_t). change (lsus_of []) with (@nil op_info_t).
  destruct ib, lb, integer_stall, lsu_stall; try discriminate; cbn -[enabled dispatch_issue.init];
    rewrite ?(enabled_init 0 : enabled dispatch_issue.init = []), ?app_nil_r; split_and!; done || constructor.
Qed.
Lemma send_nothing_spec s t s' : well_held s -> t = dispatch.send_nothing integer_stall lsu_stall s ->
  s' = t \/ s' = { t with dispatch.is_stbuf_empty_waiting := false } \/
  s' = { t with dispatch.is_inst_waiting := false; dispatch.inst_waiting_rob_id := 0 } \/
  s' = { t with dispatch.is_inst_waiting := false; dispatch.inst_waiting_rob_id := 0;
                dispatch.is_stbuf_empty_waiting := false } ->
  conserved [] s s' /\ well_held s' /\ sent_ints s' = [] /\ sent_lsus s' = [].
Proof using.
  intros H Et D. destruct (sent_nothing s s') as [E1 E2].
  { rewrite <- Et. destruct D as [-> | [-> | [-> | ->]]]; by destruct t. }
  { rewrite <- Et. destruct D as [-> | [-> | [-> | ->]]]; by destruct t. }
  unfold conserved. rewrite E1, E2.
  assert (held_ints s' = held_ints s /\ held_lsus s' = held_lsus s /\ kept s' = kept s) as (I & L & K).
  { subst t. unfold dispatch.send_nothing, dispatch.send_lsu, dispatch.send_integer in D.
    destruct s, integer_stall, lsu_stall; by destruct D as [-> | [-> | [-> | ->]]]. }
  unfold well_held. rewrite I, L, K. change (ints_of []) with (@nil op_info_t).
  change (lsus_of []) with (@nil op_info_t). by rewrite !app_nil_r.
Qed.

(** A cycle without a flush. *)
Lemma run_proceed (rport : port_t rename_dispatch.pack_t) s :
  well_held s -> solitary (port.get rport) -> waiting s = false ->
  exists s', dispatch.proceed integer_stall lsu_stall bru sau commit (port.get rport) s = Ok s' /\
    conserved (if dispatch.stall commit stbuf_empty s then [] else port.get rport) s s' /\
    well_held s' /\ serialised s s'.
Proof using Hbru Hsau.
  intros H Hp Hw. unfold dispatch.proceed, serialised. rewrite Hw.
  assert (St : dispatch.stall commit stbuf_empty s =
               dispatch.integer_busy s || dispatch.lsu_busy s || dispatch.busy s).
  { unfold dispatch.stall, waiting in *. apply orb_false_iff in Hw as [-> ->]. by rewrite !orb_false_r. }
  rewrite St. unfold dispatch.flushed. rewrite Hbru, Hsau. cbn [orb negb].
  set (t := { s with dispatch.is_inst_waiting := false; dispatch.is_stbuf_empty_waiting := false }).
  assert (Ht : well_held t) by (by destruct s).
  change (dispatch.integer_busy t) with (dispatch.integer_busy s).
  change (dispatch.lsu_busy t) with (dispatch.lsu_busy s). change (dispatch.busy t) with (dispatch.busy s).
  destruct (dispatch.integer_busy s || dispatch.lsu_busy s) eqn:B; cbn [negb orb].
  - destruct (send_held_spec t _ Ht eq_refl B) as (C & W & S).
    eexists; split; [reflexivity |]. split; [exact C |]. split; [exact W |]. split; [done |].
    intros o Ho So. by rewrite (proj1 (Forall_forall _ _) S o Ho) in So.
  - apply orb_false_iff in B as [Bi Bl].
    set (u := if negb (dispatch.busy s) then { t with dispatch.rev_pack := port.get rport }
              else { t with dispatch.busy := false }).
    set (l := if dispatch.busy s then dispatch.rev_pack s else port.get rport).
    assert (U : dispatch.integer_busy u = false /\ dispatch.lsu_busy u = false /\ dispatch.busy u = false /\
                dispatch.rev_pack u = l /\ solitary l).
    { subst u l t. destruct H as [H _]. revert H. unfold kept. destruct s; cbn in Bi, Bl |- *.
      by destruct busy. }
    destruct U as (U1 & U2 & U3 & U4 & U5).
    destruct (split_total l 0 dispatch.split_init) as [a Ha]; [lia | done | done |].
    exists (dispatch.dispatch_pack integer_stall lsu_stall commit a u). split.
    { change (dispatch.split 0 (dispatch.rev_pack u) dispatch.split_init ≫=
                (λ a, Ok (dispatch.dispatch_pack integer_stall lsu_stall commit a u)) =
              Ok (dispatch.dispatch_pack integer_stall lsu_stall commit a u)).
      by rewrite U4, Ha. }
    destruct (dispatch_pack_spec l a u _ U5 Ha U1 U2 U3 U4 eq_refl) as ((C1 & C2) & W & S).
    split; [| split; [exact W | split; [done | exact S]]].
    unfold conserved. rewrite C1, C2. subst l. unfold held_ints, held_lsus, kept. rewrite Bi, Bl.
    destruct (dispatch.busy s); cbn [app];
      change (ints_of []) with (@nil op_info_t); change (lsus_of []) with (@nil op_info_t);
      by rewrite ?app_nil_r.
Qed.
Lemma run_waits (rport : port_t rename_dispatch.pack_t) s : well_held s -> waiting s = true -> commit_feedback.flush commit = false ->
  exists s', dispatch.run integer_stall lsu_stall bru sau commit stbuf_empty rport s =
             Ok (true, s') /\ conserved [] s s' /\ well_held s' /\ serialised s s'.
Proof using Hbru Hsau.
  intros H Hw Hc. unfold dispatch.run, dispatch.flushed. rewrite Hbru, Hsau, Hc. cbn [orb negb].
  replace (dispatch.stall commit stbuf_empty s) with true
    by (unfold dispatch.stall, waiting in *; apply orb_true_iff in Hw as [-> | ->]; by rewrite ?orb_true_r).
  assert (N : (negb (dispatch.is_inst_waiting s) || dispatch.inst_waiting_ok commit s) &&
              (negb (dispatch.is_stbuf_empty_waiting s) || stbuf_empty) = false).
  { unfold waiting in Hw. apply not_true_iff_false. intros [A B]%andb_true_iff.
    destruct (dispatch.is_inst_waiting s), (dispatch.inst_waiting_ok commit s),
      (dispatch.is_stbuf_empty_waiting s), stbuf_empty; discriminate. }
  rewrite N. set (t := dispatch.send_nothing integer_stall lsu_stall s).
  assert (D : exists s', (if dispatch.is_inst_waiting s then Ok (dispatch.wait_inst integer_stall lsu_stall bru sau commit stbuf_empty s)
    else if dispatch.is_stbuf_empty_waiting s then Ok (dispatch.wait_stores integer_stall lsu_stall bru sau stbuf_empty s) else Abort) = Ok s' /\
    (s' = t \/ s' = { t with dispatch.is_stbuf_empty_waiting := false } \/
     s' = { t with dispatch.is_inst_waiting := false; dispatch.inst_waiting_rob_id := 0 } \/
     s' = { t with dispatch.is_inst_waiting := false; dispatch.inst_waiting_rob_id := 0;
                   dispatch.is_stbuf_empty_waiting := false })).
  { unfold dispatch.wait_inst, dispatch.wait_stores. fold t.
    destruct (dispatch.is_inst_waiting s) eqn:I.
    - case_match; [case_match |]; eexists; (split; [reflexivity |]); eauto.
    - unfold waiting in Hw. rewrite I in Hw. cbn [andb orb] in Hw. apply andb_true_iff in Hw as [-> _].
      case_match; eexists; (split; [reflexivity |]); eauto. }
  destruct D as (s' & -> & D). exists s'. split; [done |].
  destruct (send_nothing_spec s t s' H eq_refl D) as (C & W & S1 & S2).
  split; [exact C |]. split; [exact W |]. unfold serialised. rewrite S1, S2. split; [done |].
  intros o Ho. by apply not_elem_of_nil in Ho.
Qed.
Lemma run_conserves (rport : port_t rename_dispatch.pack_t) s : well_held s -> solitary (port.get rport) -> commit_feedback.flush commit = false ->
  exists s', dispatch.run integer_stall lsu_stall bru sau commit stbuf_empty rport s =
             Ok (dispatch.stall commit stbuf_empty s, s') /\
    conserved (if dispatch.stall commit stbuf_empty s then [] else port.get rport) s s' /\
    well_held s' /\ serialised s s'.
Proof using Hbru Hsau.
  intros H Hp Hc. destruct (waiting s) eqn:W.
  - destruct (run_waits rport s H W Hc) as (s' & E & R).
    replace (dispatch.stall commit stbuf_empty s) with true; [by exists s' |].
    unfold dispatch.stall, waiting in *. apply orb_true_iff in W as [-> | ->]; by rewrite ?orb_true_r.
  - destruct (run_proceed rport s H Hp W) as (s' & E & R). exists s'. split; [| exact R].
    unfold dispatch.run, dispatch.flushed. rewrite Hbru, Hsau, Hc. cbn [orb negb].
    replace ((negb (dispatch.is_inst_waiting s) || dispatch.inst_waiting_ok commit s) &&
             (negb (dispatch.is_stbuf_empty_waiting s) || stbuf_empty)) with true; [by rewrite E |].
    unfold waiting in W. apply orb_false_iff in W as [A B].
    destruct (dispatch.is_inst_waiting s), (dispatch.inst_waiting_ok commit s),
      (dispatch.is_stbuf_empty_waiting s), stbuf_empty; done.
Qed.

(** ** Serialisation *)
Definition committed (id : Z) : Prop :=
  exists k : nat, commit_feedback.committed_rob_id_valid commit !! k = Some true /\
    commit_feedback.committed_rob_id commit !! k = Some id.
Lemma inst_waiting_committed s :
  dispatch.inst_waiting_ok commit s = true <-> committed (dispatch.inst_waiting_rob_id s).
Proof using.
  unfold dispatch.inst_waiting_ok, committed. rewrite existsb_exists. split.
  - intros ([v i] & I & E). apply list_elem_of_In, list_elem_of_lookup in I as [k K].
    apply lookup_zip_Some in K as [K1 K2]. cbn in E. apply andb_true_iff in E as [-> E%Z.eqb_eq].
    exists k. by rewrite <- E.
  - intros (k & V & I). exists (true, dispatch.inst_waiting_rob_id s). split; [| apply Z.eqb_refl].
    apply list_elem_of_In, list_elem_of_lookup. exists k. by apply lookup_zip_Some.
Qed.
(** Something waits for its commit, or a fence for the stores before it. *)
Definition waits_now s : Prop :=
  (dispatch.is_inst_waiting s = true /\ ~ committed (dispatch.inst_waiting_rob_id s)) \/
  (dispatch.is_stbuf_empty_waiting s = true /\ stbuf_empty = false).
Lemma waits_now_waiting s : waits_now s <-> waiting s = true.
Proof using.
  unfold waits_now, waiting. rewrite orb_true_iff, !andb_true_iff, !negb_true_iff, <- inst_waiting_committed.
  destruct (dispatch.inst_waiting_ok commit s); naive_solver.
Qed.
Record serialises l s s' : Prop := {
  sr_silent : waits_now s -> sent_ints s' = [] /\ sent_lsus s' = [];
  (* the wait lasts until the commit, and until the stores have left *)
  sr_inst : dispatch.is_inst_waiting s = true -> ~ committed (dispatch.inst_waiting_rob_id s) ->
    dispatch.is_inst_waiting s' = true /\ dispatch.inst_waiting_rob_id s' = dispatch.inst_waiting_rob_id s;
  sr_stores : dispatch.is_stbuf_empty_waiting s = true -> stbuf_empty = false ->
    dispatch.is_stbuf_empty_waiting s' = true;
  (* a CSR instruction or mret *)
  sr_serial : forall o, o ∈ sent_ints s' -> serial o = true ->
    commit_feedback.next_handle_rob_id_valid commit = true /\
    commit_feedback.next_handle_rob_id commit = rename_dispatch.rob_id o /\
    dispatch.is_inst_waiting s' = true /\ dispatch.inst_waiting_rob_id s' = rename_dispatch.rob_id o;
  (* a pack with a fence *)
  sr_fence : forall f, last_fence l = Some f -> ~ waits_now s ->
    dispatch.integer_busy s = false -> dispatch.lsu_busy s = false -> fence_done l f s'
}.

Lemma wait_lasts (rport : port_t rename_dispatch.pack_t) s st s' : waiting s = true -> commit_feedback.flush commit = false ->
  dispatch.run integer_stall lsu_stall bru sau commit stbuf_empty rport s = Ok (st, s') ->
  (dispatch.is_inst_waiting s = true -> dispatch.inst_waiting_ok commit s = false ->
   dispatch.is_inst_waiting s' = true /\ dispatch.inst_waiting_rob_id s' = dispatch.inst_waiting_rob_id s) /\
  (dispatch.is_stbuf_empty_waiting s = true -> stbuf_empty = false -> dispatch.is_stbuf_empty_waiting s' = true).
Proof using Hbru Hsau.
  intros Hw Hc. unfold dispatch.run, dispatch.flushed. rewrite Hbru, Hsau, Hc. cbn [orb negb].
  assert (N : (negb (dispatch.is_inst_waiting s) || dispatch.inst_waiting_ok commit s) &&
              (negb (dispatch.is_stbuf_empty_waiting s) || stbuf_empty) = false).
  { unfold waiting in Hw. apply not_true_iff_false. intros [A B]%andb_true_iff.
    destruct (dispatch.is_inst_waiting s), (dispatch.inst_waiting_ok commit s),
      (dispatch.is_stbuf_empty_waiting s), stbuf_empty; discriminate. }
  rewrite N. intros H. apply bind_Ok in H as (s1 & H & E). injection E as _ <-.
  assert (Q : forall id stage, dispatch.squashed_wait bru sau id stage = false).
  { intros. unfold dispatch.squashed_wait, squashed. by rewrite Hbru, Hsau. }
  revert H. unfold dispatch.wait_inst, dispatch.wait_stores, dispatch.stores_done. rewrite !Q, !orb_false_r.
  unfold dispatch.send_nothing, dispatch.send_lsu, dispatch.send_integer.
  set (ok := dispatch.inst_waiting_ok commit s). destruct s as [? ? ? ? ? ? iw ? ? sw]. cbn in *.
  destruct iw, sw, ok, stbuf_empty, integer_stall, lsu_stall; cbn; intros [= <-]; done.
Qed.
Lemma run_serialises (rport : port_t rename_dispatch.pack_t) s st s' :
  well_held s -> solitary (port.get rport) -> commit_feedback.flush commit = false ->
  dispatch.run integer_stall lsu_stall bru sau commit stbuf_empty rport s = Ok (st, s') ->
  serialised s s' -> serialises (if dispatch.busy s then dispatch.rev_pack s else port.get rport) s s'.
Proof using Hbru Hsau.
  intros H Hp Hc E [S1 S2]. split.
  - intros W%waits_now_waiting. by apply S1.
  - intros I C. assert (W : waiting s = true) by (apply waits_now_waiting; by left).
    apply (proj1 (wait_lasts rport s st s' W Hc E) I). apply not_true_iff_false. by rewrite inst_waiting_committed.
  - intros I C. assert (W : waiting s = true) by (apply waits_now_waiting; by right).
    exact (proj2 (wait_lasts rport s st s' W Hc E) I C).
  - intros o Ho So. destruct (S2 o Ho So) as (N & ? & ?). unfold dispatch.is_next in N.
    apply andb_true_iff in N as [N1 N2%Z.eqb_eq]. done.
  - intros f Hf NW Bi Bl. assert (W : waiting s = false) by (apply not_true_iff_false; by rewrite <- waits_now_waiting).
    revert E. unfold dispatch.run, dispatch.flushed. rewrite Hbru, Hsau, Hc. cbn [orb negb].
    replace ((negb (dispatch.is_inst_waiting s) || dispatch.inst_waiting_ok commit s) &&
             (negb (dispatch.is_stbuf_empty_waiting s) || stbuf_empty)) with true.
    2: { unfold waiting in W. apply orb_false_iff in W as [A B].
         destruct (dispatch.is_inst_waiting s), (dispatch.inst_waiting_ok commit s),
           (dispatch.is_stbuf_empty_waiting s), stbuf_empty; done. }
    unfold dispatch.proceed, dispatch.flushed. rewrite Hbru, Hsau. cbn [orb negb].
    set (t := { s with dispatch.is_inst_waiting := false; dispatch.is_stbuf_empty_waiting := false }).
    change (dispatch.integer_busy t) with (dispatch.integer_busy s).
    change (dispatch.lsu_busy t) with (dispatch.lsu_busy s). change (dispatch.busy t) with (dispatch.busy s).
    rewrite Bi, Bl. cbn [orb negb].
    set (u := if negb (dispatch.busy s) then { t with dispatch.rev_pack := port.get rport }
              else { t with dispatch.busy := false }).
    set (l := if dispatch.busy s then dispatch.rev_pack s else port.get rport) in *.
    assert (U : dispatch.integer_busy u = false /\ dispatch.lsu_busy u = false /\ dispatch.busy u = false /\
                dispatch.rev_pack u = l /\ solitary l).
    { subst u l t. destruct H as [H _]. revert H. unfold kept. destruct s; cbn in Bi, Bl |- *. by destruct busy. }
    destruct U as (U1 & U2 & U3 & U4 & U5). rewrite U4. intros E.
    apply bind_Ok in E as (s1 & E & E2). injection E2 as _ <-. apply bind_Ok in E as (a & Ha & E). injection E as <-.
    by apply fence_pack.
Qed.
End run.
