(* ===== verification/CycleFrontProps.v ===== *)
(** * Properties of the fetch and the dispatch stage *)

From S2P Require Import Prelude Word Ops IsaDecode Dff Fifo Rat CycleDecode CyclePack.
From S2P Require Import LoadStore Predict Ras Rob CycleRename CycleCommit CycleBus CycleDispatch.
From S2P Require Import CycleFetch CycleModel CycleStart CycleFetchSpec CycleDispatchSpec.

(** ** C16
    A cycle of the first fetch stage, from any state and for any feedback.
    When commit, the branch unit, the store address unit or the second fetch
    stage sends the fetch elsewhere, the stage goes on there, the first of them
    in this order deciding, sends nothing on and waits for no jump.  Otherwise,
    unless the second stage stalls or a jump is waited for, the pack it sends is
    one path of the program: the instructions are numbered in order, each is at
    the address the prediction for the one before leads to, the next pack starts
    where the last one leads, every word is the one the bus gave for its slot
    (none at a misaligned address), the pack ends early only behind a predicted
    jump out of it, a jump without a prediction or a [fence.i], and the stage
    waits for a jump exactly when it sent one without a prediction.  In both
    cases the bus is asked for the word at the new address. *)
Theorem fetch_follows_predictions quiet fb2 bru sau cm (s s' : fetch1_t) :
  fetch1.run quiet fb2 bru sau cm s = Ok s' ->
  (redirected fb2 bru sau cm = true ->
   fetch1.pc s' = redirect_target fb2 bru sau cm (fetch1.pc s) /\ fetch1.jump_wait s' = false /\
   port.get_new (fetch1.fetch1_fetch2_port s') = fetch1_fetch2.pack_init) /\
  (forall values, redirected fb2 bru sau cm = false -> fetch2_feedback.stall fb2 = false ->
   fetch1.jump_wait s = false -> is_u32 (fetch1.pc s) ->
   cycle_bus.get_instruction_value (bus_system.bus (fetch1.bus s)) = Some values ->
   exists l, port.get_new (fetch1.fetch1_fetch2_port s') = fetch1.fill l /\
     path (fetch1.pc s) (fetch1.next_inst_id s) l (fetch1.pc s') /\
     cut quiet 0 (fetch1.pc s) l values /\
     fetch1.jump_wait s' = existsb unpredicted_jump l /\
     bus_system.read_instruction (fetch1.pc s') (fetch1.bus s) = Ok (fetch1.bus s')).
Proof.
  intros H. split.
  - intros R. by destruct (run_redirected quiet fb2 bru sau cm s s' R H) as (? & ? & ? & _).
  - intros values R St W Hpc V. unfold fetch1.run in H. inv_ok.
    match goal with H : fetch1.choose _ _ _ _ _ _ = Ok ?t |- _ =>
      rewrite choose_proceed in H by done;
      destruct (proceed_spec quiet fb2 cm s t values St W Hpc V H) as (l & L1 & L2 & L3 & L4 & L5);
      exists l; destruct t; cbn in *; subst; by split_and! end.
Qed.

(** Two instructions and a jump, at an address in the middle of nowhere. *)
Definition demo_fetch : fetch1_t :=
  fetch1.mk 0x80000000 0x80000000 false 7 (port.new fetch1_fetch2.pack_init)
    (cycle_start.predictors_new [0; 0; 0; 0]) (ras.new RAS_SIZE)
    (bus_system.mk
       { cycle_bus.new with
         cycle_bus.instruction_value := dff.new <$> [0x00500093; 0x0080016f; 0x00000013; 0x00000013];
         cycle_bus.instruction_value_valid := dff.new true } []).
#[local] Abbreviation demo_run :=
  (fetch1.run true fetch2_feedback.init flush_feedback.init flush_feedback.init commit_feedback.init demo_fetch).
Lemma fetch_follows_predictions_witness :
  exists s' l, demo_run = Ok s' /\ fetch1.pc s' = 0x8000000c /\
    port.get_new (fetch1.fetch1_fetch2_port s') = fetch1.fill l /\
    path 0x80000000 7 l (fetch1.pc s') /\ fetch1.jump_wait s' = existsb unpredicted_jump l.
Proof.
  assert (V : fetch1.pc <$> (match demo_run with Ok s => Some s | _ => None end) = Some 0x8000000c) by reflexivity.
  destruct demo_run as [s' | | |] eqn:E; try discriminate V.
  destruct (fetch_follows_predictions true fetch2_feedback.init flush_feedback.init flush_feedback.init
    commit_feedback.init demo_fetch s' E) as [_ H].
  destruct (H [0x00500093; 0x0080016f; 0x00000013; 0x00000013]) as (l & H1 & H2 & H3 & H4 & _);
    [reflexivity.. | split; reflexivity || discriminate | reflexivity |].
  exists s', l. split; [reflexivity |]. split; [by injection V |]. by split_and!.
Defined.

(** ** C11
    A cycle of the dispatch stage without a flush, from any state it can be in
    and whatever pack rename offers, does not fail.  It takes the pack of rename
    exactly when it does not report a stall.  For the integer queue and for the
    load/store queue, what it sends, then what it holds back, then what waits in
    a pack it could not split yet is, in this order, what it held before and the
    pack it took: nothing is lost, sent twice or reordered.  A CSR instruction or
    mret is sent only when it is the next to commit, and the stage then waits for
    its commit.  A pack with a fence is sent as a whole or kept as a whole, and
    once it is sent the stage waits for the commit of the last fence and for the
    stores before it.  While something waits nothing is sent, and a wait lasts
    until the instruction has committed, or the store buffer is empty. *)
Theorem dispatch_conserves integer_stall lsu_stall bru sau commit stbuf_empty
  (rport : port_t rename_dispatch.pack_t) (s : dispatch_t) :
  flush_feedback.flush bru = false -> flush_feedback.flush sau = false ->
  commit_feedback.flush commit = false ->
  well_held s -> solitary (port.get rport) ->
  exists stall s', dispatch.run integer_stall lsu_stall bru sau commit stbuf_empty rport s = Ok (stall, s') /\
    (stall = true <-> dispatch.integer_busy s = true \/ dispatch.lsu_busy s = true \/ dispatch.busy s = true \/
                      waits_now commit stbuf_empty s) /\
    conserved integer_stall lsu_stall (if stall then [] else port.get rport) s s' /\
    well_held s' /\
    serialises integer_stall lsu_stall commit stbuf_empty
      (if dispatch.busy s then dispatch.rev_pack s else port.get rport) s s'.
Proof.
  intros Hb Ha Hc H Hp.
  destruct (run_conserves integer_stall lsu_stall bru sau commit stbuf_empty Hb Ha rport s H Hp Hc)
    as (s' & E & C & W & S).
  exists (dispatch.stall commit stbuf_empty s), s'. split; [done |]. split; [| split; [done | split; [done |]]].
  - rewrite waits_now_waiting. unfold dispatch.stall, waiting. rewrite !orb_true_iff. tauto.
  - by apply (run_serialises _ _ bru sau _ _ Hb Ha rport s (dispatch.stall commit stbuf_empty s)).
Qed.

(** An addition and a load while the integer queue is full: the load goes, the
    addition is held. *)
Definition demo_op (u : cop_unit.op_unit_t) (id : Z) : op_info_t :=
  { rename_dispatch.init with
    rename_dispatch.uop := { decode_rename.init with decode_rename.enable := true;
                             decode_rename.valid := true; decode_rename.op_unit := u };
    rename_dispatch.rob_id := id }.
Definition demo_pack : rename_dispatch.pack_t :=
  [demo_op cop_unit.alu 3; demo_op cop_unit.lu 4; rename_dispatch.init; rename_dispatch.init].
(** The same with a fence in place of the addition, and both queues free. *)
Definition fence_op : op_info_t :=
  let o := demo_op cop_unit.alu 3 in
  { o with rename_dispatch.uop ::= λ u, { u with decode_rename.op := op.fence } }.
Definition fence_pack_demo : rename_dispatch.pack_t :=
  [fence_op; rename_dispatch.init; rename_dispatch.init; rename_dispatch.init].
Lemma dispatch_conserves_witness :
  (exists s', dispatch.run true false flush_feedback.init flush_feedback.init commit_feedback.init true
      (port.new demo_pack) dispatch.new = Ok (false, s') /\
    held_ints s' = [integer_copy (demo_op cop_unit.alu 3)] /\
    sent_lsus false s' = [lsu_copy (demo_op cop_unit.lu 4)] /\
    conserved true false demo_pack dispatch.new s') /\
  (exists s', dispatch.run false false flush_feedback.init flush_feedback.init commit_feedback.init true
      (port.new fence_pack_demo) dispatch.new = Ok (false, s') /\
    awaits fence_op s' /\ awaits_stores fence_op s').
Proof.
  split.
  - destruct (dispatch_conserves true false flush_feedback.init flush_feedback.init commit_feedback.init true
      (port.new demo_pack) dispatch.new) as (st & s' & E & _ & C & _); [done | done | done | | |].
    + split; [done | constructor].
    + split; [discriminate | repeat constructor].
    + exists s'. vm_compute in E. injection E as <- <-. split; [reflexivity |].
      split; [reflexivity |]. split; [reflexivity | exact C].
  - destruct (dispatch_conserves false false flush_feedback.init flush_feedback.init commit_feedback.init true
      (port.new fence_pack_demo) dispatch.new) as (st & s' & E & _ & _ & _ & S); [done | done | done | | |].
    + split; [done | constructor].
    + split; [discriminate | repeat constructor].
    + assert (F : fence_done false false fence_pack_demo fence_op s').
      { apply (sr_fence _ _ _ _ _ _ _ S); [reflexivity | | reflexivity | reflexivity].
        intros [[? _] | [? _]]; discriminate. }
      exists s'. vm_compute in E. injection E as <- <-. split; [reflexivity |].
      destruct F as [(F & _) | (_ & _ & _ & F)]; [discriminate F | exact F].
Defined.
