(* ===== verification/CycleFlush.v ===== *)
(** * A cycle in which the commit stage throws everything away

    [emptied] says that no stage, queue or register between the stages holds an
    instruction, [untouched] that the clock is all that happened to the
    renaming state, the registers and the stores since the commit stage has
    run.  One lemma per group of stages, in the order of
    [cycle_model.run]. *)

From S2P Require Import Prelude Word Ops IsaDecode Csr IsaBus Breakpoint Dff Fifo.
From S2P Require Import Rat FreeList CycleBoot CycleDecode CyclePack LoadStore CycleCsr CycleExec.
From S2P Require Import Predict Ras Rob CycleRename CycleCommit CycleBus CycleLsu CycleDispatch.
From S2P Require Import CycleIssue CycleLsuIssue CycleReadreg CycleFetch CycleModel CycleFetchSpec.

Import cycle_model.
Implicit Types (s t : cycle_model_t).

Definition no_data (h : handshake_dff_t rev_t) : Prop := handshake_dff.is_empty h = true.
Definition idle_port (p : port_t wb_t) : Prop := port.get p = execute_wb.init.
Definition empty_fifo {T} (f : fifo_t T) : Prop := fifo.customer_is_empty f = true.
Definition empty_queue {T} (q : ooo_issue_queue.queue_t T) : Prop :=
  Forall (λ d, dff.get d = false) (ooo_issue_queue.valid q).
Definition unit_hdffs s : list (handshake_dff_t rev_t) :=
  let r := readreg_hdffs s in
  let l := lsu_readreg_stage s in
  integer_readreg.readreg_alu_hdff r ++ integer_readreg.readreg_bru_hdff r ++
  integer_readreg.readreg_csr_hdff r ++ integer_readreg.readreg_div_hdff r ++
  integer_readreg.readreg_mul_hdff r ++
  lsu_readreg.readreg_lu_hdff l ++ lsu_readreg.readreg_sau_hdff l ++ lsu_readreg.readreg_sdu_hdff l.

Record emptied s : Prop := {
  em_fetch1 : port.get (fetch1_fetch2_port s) = fetch1_fetch2.pack_init /\ jump_wait s = false;
  em_fetch2 : empty_fifo (fetch2_decode_fifo s) /\ fetch2_busy s = false;
  em_decode : empty_fifo (decode_rename_fifo s);
  em_rename : port.get (rename_dispatch_port s) = rename_dispatch.pack_init;
  em_dispatch :
    let d := dispatch_stage s in
    dispatch.integer_busy d = false /\ dispatch.lsu_busy d = false /\ dispatch.busy d = false /\
    dispatch.is_inst_waiting d = false /\ dispatch.is_stbuf_empty_waiting d = false /\
    port.get (dispatch.dispatch_integer_issue_port d) = dispatch_issue.init /\
    port.get (dispatch.dispatch_lsu_issue_port d) = dispatch_issue.init;
  em_integer_issue :
    let i := integer_issue_stage s in
    empty_queue (integer_issue.issue_q i) /\ integer_issue.busy i = false /\
    port.get (integer_issue.integer_issue_readreg_port i) = integer_issue.pack_init;
  em_lsu_issue :
    let i := lsu_issue_stage s in
    empty_queue (lsu_issue.issue_q i) /\ lsu_issue.busy i = false /\
    port.get (lsu_issue.lsu_issue_readreg_port i) = lsu_issue.pack_init;
  em_readreg : Forall no_data (unit_hdffs s) /\ lsu_readreg.busy (lsu_readreg_stage s) = false;
  em_execute :
    div.busy (div_stage s) = false /\ lu.l2_rev_pack (lu_stage s) = readreg_execute.init /\
    lu.l2_stall (lu_stage s) = false;
  em_wb : Forall idle_port (commit_order (wb_ports s));
  em_commit : Forall idle_port (commit_order (commit_ports s))
}.
(** The ports behind the units that come in pairs. *)
Definition paired s : Prop := length (alu_port (wb_ports s)) = 2%nat /\ length (mul_port (wb_ports s)) = 2%nat.

(** The state the commit stage is responsible for. *)
Record core_t := mk_core {
  co_speculative_rat : rat_t;
  co_retire_rat : rat_t;
  co_phy_regfile : phy_regfile.regfile_t;
  co_rob : rob_t;
  co_free_list : free_list_t;
  co_checkpoints : fifo_t checkpoint_t;
  co_store_buffer : store_buffer_t
}.
Definition core s : core_t :=
  mk_core (speculative_rat s) (retire_rat s) (phy_regfile s) (rob s) (phy_id_free_list s)
    (checkpoint_buffer s) (store_buffer s).
Definition core_sync (c : core_t) : core_t :=
  mk_core (rat.sync (co_speculative_rat c)) (rat.sync (co_retire_rat c)) (phy_regfile.sync (co_phy_regfile c))
    (rob.sync (co_rob c)) (free_list.sync (co_free_list c)) (fifo.sync (co_checkpoints c))
    (store_buffer.sync (co_store_buffer c)).
Definition untouched s s' : Prop := core s' = core_sync (core s).

(** Without the normalisation that [injection] does. *)
Lemma ok_inj {T} (x y : T) : Ok x = Ok y -> x = y.
Proof. by intros [= ->]. Qed.

(** ** The units *)
Lemma flush_unit f bru sau h p :
  unit_stage.run f bru sau true h p =
  Ok (execute_wb.feedback execute_wb.init, h, port.set execute_wb.init p).
Proof. unfold unit_stage.run, unit_stage.receive. by rewrite andb_false_r. Qed.

Definition next_idle (p : port_t wb_t) : Prop := port.get_new p = execute_wb.init.
(** What the units leave behind. *)
Record units_idle s : Prop := {
  ui_alu : Forall next_idle (alu_port (wb_ports s));
  ui_bru : Forall next_idle (bru_port (wb_ports s));
  ui_csr : Forall next_idle (csr_port (wb_ports s));
  ui_div : Forall next_idle (div_port (wb_ports s));
  ui_mul : Forall next_idle (mul_port (wb_ports s));
  ui_lu : Forall next_idle (lu_port (wb_ports s));
  ui_sau : Forall next_idle (sau_port (wb_ports s));
  ui_sdu : Forall next_idle (sdu_port (wb_ports s));
  ui_div_busy : div.busy (div_stage s) = false;
  ui_lu_pack : lu.l2_rev_pack (lu_stage s) = readreg_execute.init;
  ui_lu_stall : lu.l2_stall (lu_stage s) = false
}.

(** Replacing both elements of a pair. *)
Lemma replace_pair {T} (P : T -> Prop) (l l1 l2 : list T) x y :
  length l = 2%nat -> arr_set l 0 x = Ok l1 -> arr_set l1 1 y = Ok l2 -> P x -> P y -> Forall P l2.
Proof.
  destruct l as [| a [| b [| ? ?]]]; intros L H1 H2 Hx Hy; try discriminate L.
  unfold arr_set in H1. cbn in H1. apply ok_inj in H1 as <-. unfold arr_set in H2. cbn in H2. apply ok_inj in H2 as <-.
  by repeat constructor.
Qed.
Lemma set_length {T} (l l1 : list T) i x : arr_set l i x = Ok l1 -> length l1 = length l.
Proof. unfold arr_set. intros H. destruct (_ && _); [| done]. apply ok_inj in H as <-. apply length_insert. Qed.

(** Each unit by itself: what it writes, and that its port gets nothing. *)
Section units.
Context (bru : bru_feedback_t) (sau : sau_feedback_t).

Lemma flush_at_unit f i hs ps x : at_unit i (unit_stage.run f bru sau true) hs ps = Ok x ->
  exists p, arr_set ps i p = Ok x.2 /\ next_idle p.
Proof using.
  unfold at_unit. intros H.
  apply bind_Ok in H as (h & _ & H). apply bind_Ok in H as (p & _ & H).
  rewrite flush_unit in H. cbn [mbind outcome_bind fst snd] in H.
  apply bind_Ok in H as (hs' & _ & H). apply bind_Ok in H as (ps' & E & H).
  injection H as <-. by eexists.
Qed.
Lemma flush_alu i s x : run_alu bru sau true i s = Ok x ->
  exists r ps p, x.2 = { s with readreg_hdffs := r; wb_ports ::= λ q, { q with alu_port := ps } } /\
    arr_set (alu_port (wb_ports s)) i p = Ok ps /\ next_idle p.
Proof using.
  unfold run_alu. intros H. apply bind_Ok in H as ([[c hs] ps] & E & H).
  apply flush_at_unit in E as (p & E & N). injection H as <-. do 3 eexists. by split.
Qed.
Lemma flush_mul i s x : run_mul bru sau true i s = Ok x ->
  exists r ps p, x.2 = { s with readreg_hdffs := r; wb_ports ::= λ q, { q with mul_port := ps } } /\
    arr_set (mul_port (wb_ports s)) i p = Ok ps /\ next_idle p.
Proof using.
  unfold run_mul. intros H. apply bind_Ok in H as ([[c hs] ps] & E & H).
  apply flush_at_unit in E as (p & E & N). injection H as <-. do 3 eexists. by split.
Qed.
Lemma flush_bru s x : run_bru sau true s = Ok x ->
  exists r p w, x.2 = { put_recovery (recovery_view s) s with
                        readreg_hdffs := r; wb_ports ::= λ q, { q with bru_port := [p] }; predictors := w } /\
    next_idle p.
Proof using.
  unfold run_bru. intros H. apply bind_Ok in H as (h & _ & H). apply bind_Ok in H as (p & _ & H).
  unfold bru_stage.run, unit_stage.receive in H. rewrite andb_false_r in H.
  cbn -[put_recovery recovery_view] in H. injection H as <-. do 3 eexists. by split.
Qed.
Lemma flush_csr s x : run_csr true s = Ok x ->
  exists r p b, x.2 = { s with breakpoints := b; readreg_hdffs := r; wb_ports ::= λ q, { q with csr_port := [p] } } /\
    next_idle p.
Proof using.
  unfold run_csr. intros H. apply bind_Ok in H as (h & _ & H). apply bind_Ok in H as (p & _ & H).
  unfold csr_unit.run, unit_stage.receive in H. rewrite andb_false_r in H.
  cbn [mbind outcome_bind] in H. injection H as <-. do 3 eexists. by split.
Qed.
Lemma flush_div s x : run_div bru sau true s = Ok x ->
  exists r p d, x.2 = { s with div_stage := d; readreg_hdffs := r; wb_ports ::= λ q, { q with div_port := [p] } } /\
    next_idle p /\ div.busy d = false.
Proof using.
  unfold run_div. intros H. apply bind_Ok in H as (h & _ & H). apply bind_Ok in H as (p & _ & H).
  cbn [div.run negb mbind outcome_bind] in H. injection H as <-. do 3 eexists. by split.
Qed.
Lemma set_bus_stores c b (e : lu.lu_env bus_system_t) :
  lu.store_buffer (lu.set_bus c b e) = lu.store_buffer e.
Proof using. by destruct c. Qed.
Lemma flush_level2 (e : lu.lu_env bus_system_t) send f e1 : lu.level2 bru sau true false e = Ok (send, f, e1) ->
  lu.store_buffer e1 = lu.store_buffer e /\ next_idle (lu.lu_wb_port e1) /\ lu.l2_stall (lu.unit e1) = false.
Proof using.
  unfold lu.level2. cbv zeta. intros H. apply bind_Ok in H as (e2 & C & H).
  apply bind_Ok in H as ([[[send' f'] b] e3] & E & H). injection H as <- _ <-.
  assert (C2 : lu.store_buffer e2 = lu.store_buffer e).
  { unfold lu.count_replay in C. destruct (_ && _) in C; [| by injection C as <-].
    apply bind_Ok in C as (q & _ & C). apply bind_Ok in C as (w & _ & C). by injection C as <-. }
  rewrite andb_false_r in E. cbn [andb negb] in E.
  assert (R : send' = execute_wb.init /\ b = false /\ lu.store_buffer e3 = lu.store_buffer e2).
  { match type of E with context [lu.set_bus ?c ?b e2] =>
      pose proof (set_bus_stores c b e2) as Q; generalize dependent (lu.set_bus c b e2) end.
    intros e4 E Q. destruct (_ && _) in E; injection E as <- _ <- <-; by split_and!. }
  destruct R as (-> & -> & R). split_and!; [by rewrite <- C2, <- R | done | done].
Qed.
Lemma flush_lu s x : run_lu bru sau true s = Ok x ->
  exists e, x.2 = put_lu e s /\ lu.store_buffer e = store_buffer s /\ next_idle (lu.lu_wb_port e) /\
    lu.l2_rev_pack (lu.unit e) = readreg_execute.init /\ lu.l2_stall (lu.unit e) = false.
Proof using.
  unfold run_lu. intros H. apply bind_Ok in H as (e & E & H). apply bind_Ok in H as (y & Y & H).
  injection H as <-. unfold lu.run in Y. apply bind_Ok in Y as ([[send f] e1] & L & Y).
  injection Y as <-. apply flush_level2 in L as (B & N & S).
  exists (lu.clear_l2 e1). split; [done |]. split; [| by split_and!].
  change (lu.store_buffer e1 = store_buffer s). rewrite B.
  unfold lu_view in E. apply bind_Ok in E as (? & _ & E). apply bind_Ok in E as (? & _ & E).
  apply bind_Ok in E as (? & _ & E). by injection E as <-.
Qed.
Lemma flush_sau s x : run_sau bru true false s = Ok x ->
  exists l p, x.2 = { put_recovery (recovery_view s) s with lsu_readreg_stage := l;
                      wb_ports ::= λ q, { q with sau_port := [p] }; wait_table := wait_table s } /\ next_idle p.
Proof using.
  unfold run_sau. intros H. apply bind_Ok in H as (h & _ & H). apply bind_Ok in H as (p & _ & H).
  unfold sau.run, unit_stage.receive in H. rewrite andb_false_r in H.
  cbn -[put_recovery recovery_view] in H. injection H as <-. do 2 eexists. by split.
Qed.
Lemma flush_sdu s s' : run_sdu bru sau true s = Ok s' ->
  exists l p, s' = { s with store_buffer := store_buffer s; lsu_readreg_stage := l;
                     wb_ports ::= λ q, { q with sdu_port := [p] } } /\ next_idle p.
Proof using.
  unfold run_sdu. intros H. apply bind_Ok in H as (h & _ & H). apply bind_Ok in H as (p & _ & H).
  cbn [sdu.run negb mbind outcome_bind] in H. injection H as <-. do 2 eexists. by split.
Qed.

(** All of them. *)
Lemma flush_execute s x : paired s -> run_execute bru sau true s = Ok x ->
  units_idle x.2 /\ core x.2 = core s /\ fetch_pc x.2 = fetch_pc s.
Proof using.
  intros [PA PM] H. unfold run_execute in H.
  apply bind_Ok in H as (a0 & A0 & H). apply bind_Ok in H as (a1 & A1 & H).
  apply bind_Ok in H as (b & B & H). apply bind_Ok in H as (c & C & H).
  apply bind_Ok in H as (d & D & H). apply bind_Ok in H as (m0 & M0 & H).
  apply bind_Ok in H as (m1 & M1 & H). apply bind_Ok in H as (l & L & H).
  apply bind_Ok in H as (a & A & H). apply bind_Ok in H as (t & T & H). injection H as <-. cbn [snd].
  apply flush_alu in A0 as (r1 & ps1 & p1 & E1 & S1 & N1).
  apply flush_alu in A1 as (r2 & ps2 & p2 & E2 & S2 & N2).
  apply flush_bru in B as (r3 & p3 & w3 & E3 & N3). apply flush_csr in C as (r4 & p4 & b4 & E4 & N4).
  apply flush_div in D as (r5 & p5 & d5 & E5 & N5 & D5).
  apply flush_mul in M0 as (r6 & ps6 & p6 & E6 & S6 & N6).
  apply flush_mul in M1 as (r7 & ps7 & p7 & E7 & S7 & N7).
  apply flush_lu in L as (e8 & E8 & B8 & N8 & P8 & T8).
  apply flush_sau in A as (l9 & p9 & E9 & N9). apply flush_sdu in T as (l0 & p0 & E0 & N0).
  rewrite E1 in S2. change (arr_set ps1 1 p2 = Ok ps2) in S2.
  assert (FA : Forall next_idle ps2) by exact (replace_pair _ _ _ _ _ _ PA S1 S2 N1 N2).
  rewrite E6 in S7. change (arr_set ps6 1 p7 = Ok ps7) in S7.
  rewrite E5, E4, E3, E2, E1 in S6. change (arr_set (mul_port (wb_ports s)) 0 p6 = Ok ps6) in S6.
  assert (FM : Forall next_idle ps7) by exact (replace_pair _ _ _ _ _ _ PM S6 S7 N6 N7).
  assert (B' : lu.store_buffer e8 = store_buffer s) by (by rewrite B8, E7, E6, E5, E4, E3, E2, E1).
  rewrite E0, E9, E8, E7, E6, E5, E4, E3, E2, E1. clear - FA FM N3 N4 N5 D5 N8 P8 T8 N9 N0 B'.
  split; [split; first [exact FA | exact FM | exact D5 | exact P8 | exact T8 | by repeat constructor] |]. split; [| done].
  transitivity { core s with co_store_buffer := lu.store_buffer e8 }; [done |]. rewrite B'. by destruct s.
Qed.
End units.

(** ** From register read to dispatch *)
Definition back s :=
  (readreg_hdffs s, lsu_readreg_stage s, integer_issue_stage s, lsu_issue_stage s, dispatch_stage s,
   wb_ports s, div_stage s, lu_stage s).
Definition front s :=
  (fetch1_fetch2_port s, jump_wait s, fetch_pc s, fetch2_decode_fifo s, fetch2_busy s, decode_rename_fifo s,
   rename_dispatch_port s).
Definition flush_integer_issue (q : integer_issue_t) : integer_issue_t :=
  integer_issue.all_idle
    { integer_issue.all_idle { q with integer_issue.integer_issue_readreg_port ::= port.set integer_issue.pack_init }
      with integer_issue.issue_q ::= ooo_issue_queue.flush; integer_issue.busy := false;
           integer_issue.hold_rev_pack := dispatch_issue.init; integer_issue.next_port_index := 0 }.
Definition flush_lsu_issue (q : lsu_issue_t) : lsu_issue_t :=
  { q with lsu_issue.lsu_issue_readreg_port ::= port.set lsu_issue.pack_init;
           lsu_issue.issue_q ::= ooo_issue_queue.flush; lsu_issue.busy := false;
           lsu_issue.hold_rev_pack := dispatch_issue.init }.

Lemma flush_issue g s x : commit_feedback.flush (commit_fb g) = true -> run_issue g s = Ok x ->
  x.2 = { s with readreg_hdffs := integer_readreg.map_all handshake_dff.flush (readreg_hdffs s);
                 lsu_readreg_stage := lsu_readreg.reset (lsu_readreg.map_all handshake_dff.flush (lsu_readreg_stage s));
                 integer_issue_stage := flush_integer_issue (integer_issue_stage s);
                 lsu_issue_stage := flush_lsu_issue (lsu_issue_stage s);
                 dispatch_stage := dispatch.flush (dispatch_stage s) }.
Proof.
  intros F H. unfold run_issue, dispatch.run in H. rewrite F in H.
  unfold integer_readreg.run, lsu_readreg.run, integer_issue.run_output, lsu_issue.run_output,
    integer_issue.run_wakeup, lsu_issue.run_wakeup, integer_issue.run_input, lsu_issue.run_input in H.
  cbn [negb andb mbind outcome_bind fst snd] in H. apply ok_inj in H as <-. reflexivity.
Qed.

(** ** From rename to the first fetch stage *)
Record front_flushed (g : signals_t) s s' : Prop := {
  ff_port : port.get_new (fetch1_fetch2_port s') = fetch1_fetch2.pack_init;
  ff_wait : jump_wait s' = false;
  ff_pc : fetch_pc s' = redirect_target fetch2_feedback.init (bru_fb g) (sau_fb g) (commit_fb g) (fetch_pc s);
  ff_fetch2 : fetch2_decode_fifo s' = fifo.flush (fetch2_decode_fifo s) /\ fetch2_busy s' = false;
  ff_decode : decode_rename_fifo s' = fifo.flush (decode_rename_fifo s);
  ff_rename : port.get_new (rename_dispatch_port s') = rename_dispatch.pack_init;
  ff_back : back s' = back s;
  ff_core : core s' = core s
}.
Lemma flush_front g b s s' : commit_feedback.flush (commit_fb g) = true -> run_front g b s = Ok s' ->
  front_flushed g s s'.
Proof.
  intros F H. unfold run_front in H. rewrite F in H.
  unfold rename.run, decode.run, fetch2.run in H. cbn [negb andb] in H.
  apply bind_Ok in H as (r & R & H).
  assert (Er : r.2 = { rename_view s with rename.rename_dispatch_port ::= port.set rename_dispatch.pack_init }).
  { change (Ok (fifo.customer_is_empty (decode_rename_fifo s),
                { rename_view s with rename.rename_dispatch_port ::= port.set rename_dispatch.pack_init }) = Ok r) in R.
    by apply ok_inj in R as <-. }
  cbn [mbind outcome_bind fst snd] in H. rewrite Er in H. apply bind_Ok in H as (x & X & H).
  assert (D : redirected {| fetch2_feedback.idle := true; fetch2_feedback.stall := fetch2_busy s;
                fetch2_feedback.pc_redirect := false; fetch2_feedback.new_pc := 0 |}
                (bru_fb g) (sau_fb g) (commit_fb g) = true) by (unfold redirected; by rewrite F).
  apply (run_redirected _ _ _ _ _ _ _ D) in X as (X1 & X2 & X3 & _). apply ok_inj in H as <-.
  split; [exact X3 | exact X2 | | done | done | done | done | by destruct s].
  transitivity (fetch1.pc x); [done |]. rewrite X1. unfold redirect_target. by rewrite F.
Qed.

(** ** The end of the cycle *)
Lemma flush_post s s' : run_post s = Ok s' ->
  front s' = front s /\ back s' = back s /\ core s' = core s /\
  commit_ports s' = set_commit_ports (wb_ports s) (commit_ports s).
Proof.
  unfold run_post. intros H.
  apply bind_Ok in H as (it & _ & H). apply bind_Ok in H as (c & _ & H). apply bind_Ok in H as (n & _ & H).
  apply bind_Ok in H as (rc & _ & H). apply bind_Ok in H as (c' & _ & H). apply bind_Ok in H as (n' & _ & H).
  apply bind_Ok in H as (p & _ & H). apply bind_Ok in H as (t & _ & H). apply ok_inj in H as <-. by split_and!.
Qed.

(** ** The clock *)
Lemma clock_fifo {T} (f : fifo_t T) : empty_fifo (fifo.sync (fifo.flush f)).
Proof. done. Qed.
Lemma clock_queue {T} (q : ooo_issue_queue.queue_t T) :
  empty_queue (ooo_issue_queue.sync (ooo_issue_queue.flush q)).
Proof. unfold empty_queue. cbn. by rewrite !Forall_fmap, Forall_forall. Qed.
Lemma clock_hdffs (l : list (handshake_dff_t rev_t)) :
  Forall no_data (handshake_dff.sync <$> (handshake_dff.flush <$> l)).
Proof. by rewrite !Forall_fmap, Forall_forall. Qed.
Lemma clock_ports l : Forall next_idle l -> Forall idle_port (port.sync <$> l).
Proof. intros H. rewrite Forall_fmap. exact H. Qed.
Lemma commit_ports_idle l c : Forall next_idle l -> Forall idle_port (port.sync <$> to_commit l c).
Proof.
  intros H. apply clock_ports. unfold to_commit. revert c.
  induction H as [| w l Hw _ IH]; intros [| c cs]; cbn [zip_with]; constructor; [exact Hw | apply IH].
Qed.

(** The state the units and the stages leave. *)
Lemma clock_emptied s c t : units_idle s ->
  readreg_hdffs t = integer_readreg.map_all handshake_dff.flush (readreg_hdffs s) ->
  lsu_readreg_stage t =
    lsu_readreg.reset (lsu_readreg.map_all handshake_dff.flush (lsu_readreg_stage s)) ->
  integer_issue_stage t = flush_integer_issue (integer_issue_stage s) ->
  lsu_issue_stage t = flush_lsu_issue (lsu_issue_stage s) ->
  dispatch_stage t = dispatch.flush (dispatch_stage s) ->
  wb_ports t = wb_ports s -> div_stage t = div_stage s -> lu_stage t = lu_stage s ->
  commit_ports t = set_commit_ports (wb_ports s) c ->
  port.get_new (fetch1_fetch2_port t) = fetch1_fetch2.pack_init -> jump_wait t = false ->
  fetch2_decode_fifo t = fifo.flush (fetch2_decode_fifo s) -> fetch2_busy t = false ->
  decode_rename_fifo t = fifo.flush (decode_rename_fifo s) ->
  port.get_new (rename_dispatch_port t) = rename_dispatch.pack_init -> emptied (clock t).
Proof.
  intros [] Hh Hl Hi Hs Hd Hw Hv Hu Hc H1 H2 H3 H4 H5 H6.
  split.
  - by split.
  - change (empty_fifo (fifo.sync (fetch2_decode_fifo t)) /\ fetch2_busy t = false). by rewrite H3.
  - change (empty_fifo (fifo.sync (decode_rename_fifo t))). by rewrite H5.
  - done.
  - change (dispatch_stage (clock t)) with (clock_dispatch (dispatch_stage t)). by rewrite Hd.
  - change (integer_issue_stage (clock t)) with (integer_issue.sync (integer_issue_stage t)).
    rewrite Hi. split; [apply clock_queue | done].
  - change (lsu_issue_stage (clock t)) with (lsu_issue.sync (lsu_issue_stage t)).
    rewrite Hs. split; [apply clock_queue | done].
  - unfold unit_hdffs. change (lsu_readreg_stage (clock t)) with (clock_lsu_readreg (lsu_readreg_stage t)).
    change (readreg_hdffs (clock t)) with (integer_readreg.map_all handshake_dff.sync (readreg_hdffs t)).
    rewrite Hh, Hl. split; [| done]. rewrite !Forall_app. split_and!; apply clock_hdffs.
  - change (div.busy (div_stage t) = false /\ lu.l2_rev_pack (lu_stage t) = readreg_execute.init /\
            lu.l2_stall (lu_stage t) = false). by rewrite Hv, Hu.
  - change (wb_ports (clock t)) with (map_ports port.sync (wb_ports t)).
    rewrite Hw. unfold commit_order, wb_order. rewrite !Forall_app. split_and!; by apply clock_ports.
  - change (commit_ports (clock t)) with (map_ports port.sync (commit_ports t)).
    rewrite Hc. unfold commit_order, wb_order. rewrite !Forall_app. split_and!; by apply commit_ports_idle.
Qed.

(** ** The whole cycle *)

(** [cf] is the decision of the commit stage in the cycle that begins in [s],
    [t] the state it leaves. *)
Definition commits s (cf : commit_feedback_t) t : Prop :=
  exists s0 x, run_pre s = Ok s0 /\ run_sau flush_feedback.init false true s0 = Ok x /\
    run_commit x.2 = Ok (cf, t).

Lemma pre_ports s s' : run_pre s = Ok s' -> wb_ports s' = wb_ports s /\ fetch_pc s' = fetch_pc s.
Proof.
  unfold run_pre. intros H. apply bind_Ok in H as (c & _ & H). apply bind_Ok in H as (i & _ & H).
  by apply ok_inj in H as <-.
Qed.
Lemma ask_sau_ports s x : paired s -> run_sau flush_feedback.init false true s = Ok x ->
  paired x.2 /\ fetch_pc x.2 = fetch_pc s.
Proof.
  unfold run_sau. intros P H. apply bind_Ok in H as (h & _ & H). apply bind_Ok in H as (p & _ & H).
  apply bind_Ok in H as ([[[[f h'] p'] r] w] & _ & H). by apply ok_inj in H as <-.
Qed.
Lemma commit_wb_ports s x : run_commit s = Ok x -> wb_ports x.2 = wb_ports s /\ fetch_pc x.2 = fetch_pc s.
Proof. unfold run_commit. intros H. apply bind_Ok in H as (fc & _ & H). by apply ok_inj in H as <-. Qed.
Lemma flush_wb b a s x : run_wb b a true s = Ok x -> x.2 = { s with phy_regfile := phy_regfile s }.
Proof. unfold run_wb. intros H. by apply ok_inj in H as <-. Qed.

Lemma commits_ports s cf t : paired s -> commits s cf t -> paired t /\ fetch_pc t = fetch_pc s.
Proof.
  intros P (s0 & x & P0 & A & C). apply pre_ports in P0 as [P0 F0].
  apply ask_sau_ports in A as [A FA]; [| unfold paired; by rewrite P0].
  apply commit_wb_ports in C as [C FC]. cbn [snd] in C, FC. unfold paired. rewrite C, FC, FA, F0. by split.
Qed.

Lemma flush_run s cf t s' :
  paired s -> commits s cf t -> commit_feedback.flush cf = true -> run s = Ok s' ->
  emptied s' /\ untouched t s' /\
  fetch_pc s' = redirect_target fetch2_feedback.init flush_feedback.init flush_feedback.init cf (fetch_pc s).
Proof.
  intros P C F H. pose proof (commits_ports _ _ _ P C) as [Pt Ft]. rewrite <- Ft.
  destruct C as (s0 & x & P0 & A & C). unfold run in H. rewrite P0 in H. cbn [mbind outcome_bind] in H.
  apply bind_Ok in H as (b & _ & H). rewrite A in H. cbn [mbind outcome_bind] in H. rewrite C in H.
  cbn [mbind outcome_bind fst snd] in H. rewrite F in H.
  apply bind_Ok in H as (w & W & H). apply flush_wb in W.
  apply bind_Ok in H as (e & E & H).
  apply flush_execute in E as (U & E & FE); [| by rewrite W].
  apply bind_Ok in H as (i & I & H). apply flush_issue in I; [| exact F].
  apply bind_Ok in H as (s4 & X & H). apply flush_front in X as [X1 X2 X3 [X4 X5] X6 X7 X8 X9]; [| exact F].
  apply bind_Ok in H as (s5 & Q & H). apply flush_post in Q as (Q1 & Q2 & Q3 & Q4). apply ok_inj in H as <-.
  unfold front in Q1. rewrite !pair_equal_spec in Q1. destruct Q1 as ((((((R1 & R2) & R3) & R4) & R5) & R6) & R7).
  rewrite X8, I in Q2. unfold back in Q2. rewrite !pair_equal_spec in Q2.
  destruct Q2 as (((((((B1 & B2) & B3) & B4) & B5) & B6) & B7) & B8).
  rewrite I in X3, X4, X6. pose proof (f_equal (λ z, wb_ports z) I) as Wi.
  unfold back in X8. rewrite !pair_equal_spec in X8. destruct X8 as (((_ & W4) & _) & _).
  split; [| split].
  - apply (clock_emptied e.2 (commit_ports s4)); [exact U | exact B1 | exact B2 | exact B3 | exact B4 | exact B5
      | exact B6 | exact B7 | exact B8 | | by rewrite R1 | by rewrite R2 | by rewrite R4 | by rewrite R5
      | by rewrite R6 | by rewrite R7].
    by rewrite Q4, W4, Wi.
  - unfold untouched. transitivity (core_sync (core s5)); [done |]. f_equal.
    rewrite Q3, X9, I. transitivity (core e.2); [done |]. by rewrite E, W.
  - transitivity (fetch_pc s5); [done |]. rewrite R3, X3. unfold redirect_target. cbn [commit_fb]. rewrite F.
    transitivity (if commit_feedback.has_exception cf then commit_feedback.exception_pc cf
                  else if commit_feedback.jump_enable cf then commit_feedback.jump_next_pc cf else fetch_pc e.2);
      [done |]. by rewrite FE, W.
Qed.
