(* ===== verification/CycleRecovery.v ===== *)
(** * Recovery from a mispredicted branch

    What the branch unit does to the renaming state, the queues and the
    register file when it returns to the checkpoint of a branch: everything is
    as if the instructions behind the branch had never been renamed. *)

From S2P Require Import Prelude Word Ops IsaDecode Dff Fifo FifoSpec FifoWindow.
From S2P Require Import Rat RatSpec FreeList FreeListTrace AgeSpec CycleDecode CyclePack LoadStore.
From S2P Require Import Rob RenameInv RegsInv CycleCsr CycleExec CycleExecSpec Predict.
From S2P Require Import CycleCommit CycleCommitSpec CycleLsu.

(** ** A queue in the middle of a cycle

    Nothing has been pushed yet; [p] elements have been taken from the front
    and items may have been overwritten.  [l] still has the elements taken. *)
Section held.
Context {T : Type}.
Implicit Types (f : fifo_t T) (l : list T).

Record held f (R p : Z) l : Prop := {
  hd_window : window f R l;
  hd_popped : 0 <= p <= zlen l;
  hd_rptr : dff.get_new (fifo.rptr f) = ptr (fifo.size f) (R + p) /\
            dff.get_new (fifo.rstage f) = stg (fifo.size f) (R + p);
  hd_wptr : dff.get (fifo.wptr f) = ptr (fifo.size f) (R + zlen l) /\
            dff.get (fifo.wstage f) = stg (fifo.size f) (R + zlen l)
}.

Section seen.
Context f R p l (H : held f R p l).
#[local] Abbreviation sz := (fifo.size f).

Lemma held_next k : p <= k < zlen l -> exists v,
  fifo.customer_get_next_id_stage (ptr sz (R + k)) (stg sz (R + k)) f =
    Ok (v, ptr sz (R + (k + 1)), stg sz (R + (k + 1))).
Proof using H.
  intros Hk. pose proof (hd_window _ _ _ _ H) as Hw. pose proof (hd_popped _ _ _ _ H) as Hp.
  destruct (window_bounds _ _ _ Hw) as [Hs Hl].
  destruct (window_next _ _ _ Hw k) as (st & -> & E); [lia |].
  unfold fifo.producer_get_next_id_stage in E. unfold fifo.customer_get_next_id_stage.
  rewrite (window_valid _ _ _ Hw k ltac:(lia)) in E. replace (k <? zlen l) with true in E by lia.
  cbn [verify mbind outcome_bind] in E.
  injection E as _ -> ->.
  assert (Hv : fifo.customer_check_id_valid (ptr sz (R + k)) f = true).
  { unfold fifo.customer_check_id_valid, fifo.customer_is_empty.
    destruct (hd_rptr _ _ _ _ H) as [-> ->]. destruct (hd_wptr _ _ _ _ H) as [-> ->].
    replace (R + zlen l) with (R + p + (zlen l - p)) by lia.
    destruct (compare sz Hs (R + p) (zlen l - p)) as [-> _]; [lia |].
    replace (R + k) with (R + p + (k - p)) by lia.
    rewrite ring_valid by lia. destruct (zlen l - p =? 0) eqn:E0; lia. }
  rewrite Hv. cbn [verify mbind outcome_bind]. by eexists.
Qed.

(** The write pointer goes back to position [n]; then the clock. *)
Lemma held_truncate n : p <= n <= zlen l ->
  held (fifo.sync (fifo.update_wptr (ptr sz (R + n)) (stg sz (R + n)) f)) (R + p) 0
    (drop (Z.to_nat p) (take (Z.to_nat n) l)).
Proof using H.
  intros Hn. pose proof (hd_window _ _ _ _ H) as Hw. pose proof (hd_popped _ _ _ _ H) as Hp.
  pose proof (window_truncate _ _ _ Hw (Z.to_nat n)) as Ht. rewrite Z2Nat.id in Ht by lia.
  specialize (Ht ltac:(unfold zlen in *; lia)).
  assert (Hz : zlen (take (Z.to_nat n) l) = n) by (unfold zlen in *; rewrite length_take; lia).
  pose proof (hd_rptr _ _ _ _ H) as [H1 H2].
  pose proof (window_sync _ _ _ Ht p ltac:(lia) H1 H2) as Hs.
  assert (Hd : zlen (drop (Z.to_nat p) (take (Z.to_nat n) l)) = n - p).
  { unfold zlen in *. rewrite length_drop. lia. }
  split; [exact Hs | lia | rewrite Z.add_0_r; by split |].
  rewrite Hd. replace (R + p + (n - p)) with (R + n) by lia. by split.
Qed.
End seen.
End held.

(** ** The renaming state *)

(** Entries one after the other. *)
Lemma in_flight_app_inv sz m n l1 l2 m2 n2 : in_flight sz m n (l1 ++ l2) m2 n2 ->
  exists m1 n1, in_flight sz m n l1 m1 n1 /\ in_flight sz m1 n1 l2 m2 n2.
Proof.
  revert m n. induction l1 as [|it l1 IH]; intros m n H; cbn [app] in H.
  - exists m, n. split; [constructor | done].
  - inversion H; subst.
    match goal with X : in_flight _ _ _ _ _ _ |- _ => destruct (IH _ _ X) as (m3 & n3 & Ha & Hb) end.
    exists m3, n3. split; [by econstructor | done].
Qed.

Lemma in_flight_dom sz m n l m1 n1 a : in_flight sz m n l m1 n1 -> is_Some (m1 !! a) <-> is_Some (m !! a).
Proof.
  induction 1 as [m n|m n it m1 n1 l m2 n2 Hs _ _ _ IH]; [done |]. rewrite IH.
  destruct Hs as [old _ Hold _ | _]; [| done]. destruct (decide (a = rob.rd it)) as [-> |].
  - rewrite lookup_insert_eq, Hold. split; by eexists.
  - by rewrite lookup_insert_ne.
Qed.

Section renaming.
Context (sz A : Z).
Implicit Types (r : rat_t) (m : gmap Z Z) (l : list rob.item_t) (g : ledger).

Lemma flight_range rr mr n l mb nb a p :
  rat_is sz A rr mr -> in_flight sz mr n l mb nb -> Forall (λ p, 0 <= p < sz) (regs_of l) ->
  mb !! a = Some p -> 0 < a < A /\ 0 <= p < sz.
Proof.
  intros Hr Hf Hl Hp. assert (Hd : is_Some (mb !! a)) by (by exists p).
  apply (in_flight_dom _ _ _ _ _ _ _ Hf) in Hd as [q Hq].
  split; [by apply (rat_is_range _ _ _ _ _ _ Hr Hq) |].
  destruct (in_flight_values _ _ _ _ _ _ _ _ Hf Hp) as [Hm | Hin].
  - by apply (rat_is_range _ _ _ _ _ _ Hr Hm).
  - rewrite Forall_forall in Hl. by apply Hl.
Qed.

Lemma rat_restore r rr m mr n l mb nb lsz ssz csz cp nl ns nc :
  rat_is sz A r m -> rat_is sz A rr mr -> in_flight sz mr n l mb nb -> recalls (tbl r) mr l ->
  Forall (λ p, 0 <= p < sz) (regs_of l) -> marks sz lsz ssz csz cp mb nb nl ns nc ->
  rat_is sz A (rat.restore_from_checkpoint cp r) mb /\ tbl (rat.restore_from_checkpoint cp r) = tbl r.
Proof.
  intros H Hr Hf Hk Hin Hc.
  assert (Hl : length (checkpoint.phy_map_table_valid cp) = length (rat.phy_map_table_valid r)).
  { pose proof (mk_len _ _ _ _ _ _ _ _ _ _ Hc) as H1. pose proof (w_vld _ (ri_wf _ _ _ _ H)) as H2.
    rewrite (ri_num _ _ _ _ H) in H2. unfold zlen in *. lia. }
  destruct (restore_vld r cp Hl) as [Ev Et]. split; [| done].
  pose proof (w_tbl _ (ri_wf _ _ _ _ H)) as Hlen. rewrite (ri_num _ _ _ _ H) in Hlen.
  assert (Hm : forall p a, maps (rat.restore_from_checkpoint cp r) p a <-> mb !! a = Some p).
  { intros p a. unfold maps. rewrite Et, Ev. split.
    - intros (H0 & Ha & Hv). assert (Hp : 0 <= p < sz).
      { apply lookup_lt_Some in Ha. unfold tbl in Ha. rewrite length_fmap in Ha. unfold zlen in Hlen. lia. }
      apply (mk_valid _ _ _ _ _ _ _ _ _ _ Hc p Hp) in Hv as [b Hb].
      rewrite (recalls_map _ _ _ _ _ _ _ _ _ Hk Hf Hb) in Ha. by injection Ha as ->.
    - intros Hp. pose proof (recalls_map _ _ _ _ _ _ _ _ _ Hk Hf Hp) as Ha.
      assert (0 <= p < sz) by (by apply (flight_range rr mr n l mb nb a)).
      split; [lia |]. split; [done |]. apply (mk_valid _ _ _ _ _ _ _ _ _ _ Hc p); [done |]. by exists a. }
  split; [| | apply H | apply H | exact Hm].
  - split; try apply H.
    + change (zlen (zip_with (λ d v, dff.set v d) (rat.phy_map_table_valid r)
        (checkpoint.phy_map_table_valid cp)) = rat.phy_reg_num r).
      unfold zlen. rewrite length_zip_with, Hl, Nat.min_id. apply (w_vld _ (ri_wf _ _ _ _ H)).
    + intros p a Hp. apply Hm in Hp. change (0 < a < rat.arch_reg_num r). rewrite (ri_arch _ _ _ _ H).
      by apply (flight_range rr mr n l mb nb a p Hr Hf).
    + intros p q a Hp Hq. apply Hm in Hp, Hq. congruence.
  - intros a Ha. change (0 < a < rat.arch_reg_num r) in Ha. rewrite (ri_arch _ _ _ _ H) in Ha.
    pose proof (rat_is_dom _ _ _ _ a Hr Ha) as Hd. apply (in_flight_dom _ _ _ _ _ _ _ Hf) in Hd as [p Hp].
    exists p. by apply Hm.
Qed.

(** The ledger with the entries behind [l1] gone. *)
Lemma inv_rollback srat rrat fl l1 l2 g mr ms mb nb lsz ssz csz cp nl ns nc :
  ren_inv sz A srat rrat fl (l1 ++ l2) g mr ms -> lg_now g = O ->
  in_flight sz mr (lg_base g) l1 mb nb -> marks sz lsz ssz csz cp mb nb nl ns nc ->
  exists fl' g', free_list.restore (checkpoint.new_phy_id_free_list_rptr cp)
      (checkpoint.new_phy_id_free_list_rstage cp) fl = Ok fl' /\
    ren_inv sz A (rat.sync (rat.restore_from_checkpoint cp srat)) (rat.sync rrat) (free_list.sync fl')
      l1 g' mr mb /\ lg_out g' = lg_out g /\ lg_now g' = O /\
    q_next (lg_queue g') = regs_of l2 ++ q_next (lg_queue g).
Proof.
  intros H Hnow Hf Hc. pose proof (in_flight_count _ _ _ _ _ _ Hf) as En.
  pose proof (i_spec _ _ _ _ _ _ _ _ _ H) as Hspec. rewrite regs_of_app in Hspec.
  assert (Ek : Z.to_nat (nb - lg_base g) = length (regs_of l1)) by (unfold zlen in En; lia).
  destruct (step_rollback sz fl g (i_follows _ _ _ _ _ _ _ _ _ H) nb) as (fl' & E & Hf').
  { unfold zlen in En. lia. }
  { rewrite Ek, Hspec, length_app. lia. }
  { done. }
  pose proof (mk_free _ _ _ _ _ _ _ _ _ _ Hc) as Efl. unfold at_count in Efl. injection Efl as -> ->.
  rewrite Ek, Hspec, take_app_length, drop_app_length in Hf'.
  exists fl', (mk_ledger (lg_out g) (regs_of l1) 0 (mk_queue 0 (regs_of l2 ++ q_next (lg_queue g)) []) (lg_base g)).
  split; [exact E |].
  assert (Hk : recalls (tbl srat) mr l1).
  { pose proof (i_recalls _ _ _ _ _ _ _ _ _ H) as [K0 K]. split; [done |]. by apply Forall_app in K as [K _]. }
  destruct (rat_restore srat rrat ms mr (lg_base g) l1 mb nb lsz ssz csz cp nl ns nc) as [Hs Et];
    try done; try apply H.
  { destruct (follows_nodup _ _ _ (i_follows _ _ _ _ _ _ _ _ _ H)) as [_ Hr]. unfold holders in Hr.
    rewrite Hspec, !Forall_app in Hr. tauto. }
  split; [| split_and!; [done | done | apply app_nil_r]]. split; [by apply rat_is_sync | apply rat_is_sync, H | | exact Hf' | apply H | done |].
  - unfold handed_out. cbn. by rewrite <- En.
  - destruct (sync_new (rat.restore_from_checkpoint cp srat)) as [-> _]. by rewrite Et.
Qed.
End renaming.

(** ** The register file *)
Section registers.
Import phy_regfile.
Implicit Types (f : regfile_t) (x : reg_t) (l : list rob.item_t).

(** The rollback at entry number [n]: the values written by the entries behind
    it become invalid and nothing else changes. *)
Lemma restore_next rsz f R0 m0 pre l1 l2 n :
  0 < zlen l1 -> zlen (pre ++ l1 ++ l2) <= rsz -> n = R0 + zlen pre + zlen l1 - 1 ->
  regs_hold rsz now f R0 m0 (pre ++ l1 ++ l2) ->
  forall p x, 0 <= p -> regs f !! Z.to_nat p = Some x ->
    let y := restore_if age_compare.lt (age_at rsz n) x in
    if decide (p ∈ regs_of l2) then (now x).1.1 = true -> (next y).1.1 = false else y = x.
Proof.
  intros Hl1 Hlen Hn H p x Hp Hx y. assert (Hs : 0 < rsz) by (rewrite !zlen_app in Hlen; unfold zlen in *; lia).
  destruct (H p x Hp Hx) as (Hret & Hfl & Hun). unfold y, restore_if.
  change (dff.get (reg_data_valid x)) with (now x).1.1. change (dff.get (reg_oldest x)) with (now x).2.
  change (age_of x) with (now x).1.2.
  destruct (decide (p ∈ regs_of l2)) as [Hin | Hni].
  - intros Hv. apply reg_of_elem in Hin as (k & it & Hk & E).
    destruct (Hfl (length (pre ++ l1) + k)%nat it) as [-> ->]; [| done | done |].
    { rewrite app_assoc, lookup_app_r by lia. by replace (_ + k - _)%nat with k by lia. }
    rewrite Hv. cbn [andb negb]. pose proof (lookup_lt_Some _ _ _ Hk).
    rewrite !zlen_app in Hlen. unfold zlen in *.
    destruct (age_order rsz Hs (R0 + Z.of_nat (length (pre ++ l1) + k)) n) as (-> & _).
    { rewrite length_app. lia. }
    rewrite length_app. replace (n <? _) with true by lia. done.
  - destruct (now x).1.1 eqn:Hv; [| done]. destruct (now x).2 eqn:Ho; [done |]. cbn [andb negb].
    destruct (decide (p ∈ regs_of (pre ++ l1))) as [Hin | Hni2].
    + apply reg_of_elem in Hin as (k & it & Hk & E). pose proof (lookup_lt_Some _ _ _ Hk) as Hlt.
      destruct (Hfl k it) as [-> _]; [by rewrite app_assoc; apply lookup_app_l_Some | done | done |].
      rewrite length_app in Hlt. rewrite !zlen_app in Hlen. unfold zlen in *.
      destruct (age_order rsz Hs (R0 + Z.of_nat k) n) as (-> & _); [lia |].
      by replace (n <? _) with false by lia.
    + assert (Hno : p ∉ regs_of (pre ++ l1 ++ l2)).
      { rewrite app_assoc, regs_of_app. intros [?|?]%elem_of_app; done. }
      specialize (Hun). exfalso. enough (true = false) by done. apply Hun; [| done].
      intros a Ha. specialize (Hret a Ha). congruence.
Qed.

Lemma restored_invalid younger a x : next x = now x ->
  ((now x).1.1 = true -> (next (restore_if younger a x)).1.1 = false) ->
  (next (restore_if younger a x)).1.1 = false.
Proof.
  intros E H. destruct (now x).1.1 eqn:Hv; [by apply H |]. unfold restore_if.
  change (dff.get (reg_data_valid x)) with (now x).1.1. rewrite Hv. cbn [andb]. by rewrite E.
Qed.

Lemma regs_rollback rsz f R0 m0 pre m l1 l2 n :
  0 < zlen l1 -> zlen (pre ++ l1 ++ l2) <= rsz -> n = R0 + zlen pre + zlen l1 - 1 ->
  regs_hold rsz now f R0 m0 (pre ++ l1 ++ l2) -> regs_hold rsz next f (R0 + zlen pre) m (l1 ++ l2) ->
  (forall p x, p ∈ regs_of l2 -> regs f !! Z.to_nat p = Some x -> next x = now x) ->
  let f' := restore (ptr rsz n) (stg rsz n) f in
  regs_hold rsz now (sync f') (R0 + zlen pre) m l1 /\
  forall p, 0 <= p -> p ∉ regs_of l2 -> reg_next f' p = reg_next f p.
Proof.
  intros Hl1 Hlen Hn H1 H2 H3 f'.
  assert (Hf : regs f' = restore_if age_compare.lt (age_at rsz n) <$> regs f) by done.
  pose proof (restore_next rsz f R0 m0 pre l1 l2 n Hl1 Hlen Hn H1) as Hy. split.
  - intros p y Hp Hpy. change (regs (sync f')) with (sync_reg <$> regs f') in Hpy.
    rewrite Hf, !list_lookup_fmap in Hpy. destruct (regs f !! Z.to_nat p) as [x|] eqn:Hx; [| discriminate].
    cbn in Hpy. injection Hpy as <-. rewrite now_sync.
    destruct (H2 p x Hp Hx) as (Hret & Hfl & Hun). specialize (Hy p x Hp Hx). cbn zeta in Hy.
    destruct (decide (p ∈ regs_of l2)) as [Hin | Hni].
    + specialize (H3 p x Hin Hx). split_and!.
      * intros a Ha. specialize (Hret a Ha). unfold restore_if. by repeat case_match.
      * intros k it _ _. rewrite restored_invalid; [discriminate | done | done].
      * intros _ _. by apply restored_invalid.
    + rewrite Hy. split_and!; [done | |].
      * intros k it Hk. apply Hfl. by apply lookup_app_l_Some.
      * intros Hm Hl. apply Hun; [done |]. rewrite regs_of_app. by intros [?|?]%elem_of_app.
  - intros p Hp Hni. unfold reg_next. rewrite Hf, list_lookup_fmap.
    destruct (regs f !! Z.to_nat p) as [x|] eqn:Hx; [| done]. cbn. do 2 f_equal.
    all: specialize (Hy p x Hp Hx); cbn zeta in Hy; rewrite decide_False in Hy by done; by rewrite Hy.
Qed.
End registers.

(** ** The branch unit goes back *)

(** A queue and its elements: [pt_items] are numbers [pt_at], [pt_at + 1], ...
    since reset; the first [pt_popped] have left in this cycle. *)
Record part (T : Type) := mk_part { pt_at : Z; pt_popped : Z; pt_items : list T }.
Arguments mk_part {T}.
Arguments pt_at {T}.
Arguments pt_popped {T}.
Arguments pt_items {T}.
Definition holds {T} (f : fifo_t T) (P : part T) : Prop := held f (pt_at P) (pt_popped P) (pt_items P).
Definition live {T} (P : part T) : list T := drop (Z.to_nat (pt_popped P)) (pt_items P).
(** The next cycle, with the elements from number [n] on dropped. *)
Definition cut {T} (n : Z) (P : part T) : part T :=
  mk_part (pt_at P + pt_popped P) 0 (drop (Z.to_nat (pt_popped P)) (take (Z.to_nat (n - pt_at P)) (pt_items P))).
(** Number [n] is the number of an element, or of the next to come. *)
Definition within {T} (n : Z) (P : part T) : Prop :=
  pt_at P + pt_popped P <= n <= pt_at P + zlen (pt_items P).

Lemma holds_cut {T} (f : fifo_t T) P n w : holds f P -> within n P -> w = at_count (fifo.size f) n ->
  holds (fifo.sync (fifo.update_wptr w.1 w.2 f)) (cut n P).
Proof.
  intros H Hn ->. unfold within in Hn. pose proof (held_truncate _ _ _ _ H (n - pt_at P)) as Ht.
  replace (pt_at P + (n - pt_at P)) with n in Ht by lia. apply Ht. lia.
Qed.

Lemma drop_take_zlen {T} (l : list T) p n : 0 <= p <= n -> n <= zlen l ->
  zlen (drop (Z.to_nat p) (take (Z.to_nat n) l)) = n - p.
Proof. intros Hp Hn. unfold zlen in *. rewrite length_drop, length_take. lia. Qed.
Lemma drop_split {T} (l : list T) p n : 0 <= p <= n ->
  drop (Z.to_nat p) l = drop (Z.to_nat p) (take (Z.to_nat n) l) ++ drop (Z.to_nat n) l.
Proof.
  intros Hp. rewrite <- (take_drop (Z.to_nat n) l) at 1.
  destruct (decide (n <= zlen l)) as [Hn | Hn]; unfold zlen in *.
  - rewrite drop_app_le; [done |]. rewrite length_take. lia.
  - rewrite (drop_ge l (Z.to_nat n)), (take_ge l) by lia. by rewrite !app_nil_r.
Qed.

Section rollback.
Context (sz A : Z).
Implicit Types (s : recovery_t) (g : ledger) (mr ms : gmap Z Z) (cp : checkpoint_t).

Record contents := mk_contents {
  c_rob : part rob.item_t; c_loads : part load_queue.item_t; c_stores : part store_buffer.item_t;
  c_cps : part checkpoint_t
}.
#[local] Abbreviation rob_size s := (fifo.size (rob.base (rc_rob s))).

(** The state between commit and the branch unit: [m0] is the retired map as
    it was at the start of the cycle, [mr] as it is after commit. *)
Record recovery_inv rrat s (c : contents) g (m0 mr ms : gmap Z Z) : Prop := {
  rv_rob : holds (rob.base (rc_rob s)) (c_rob c);
  rv_loads : holds (load_queue.base (rc_load_queue s)) (c_loads c);
  rv_stores : holds (store_buffer.base (rc_store_buffer s)) (c_stores c);
  rv_cps : holds (rc_checkpoint_buffer s) (c_cps c);
  rv_ren : ren_inv sz A (rc_speculative_rat s) rrat (rc_phy_id_free_list s) (live (c_rob c)) g mr ms;
  rv_now : lg_now g = O;
  rv_before : regs_hold (rob_size s) now (rc_phy_regfile s) (pt_at (c_rob c)) m0 (pt_items (c_rob c));
  rv_regs : regs_hold (rob_size s) next (rc_phy_regfile s) (pt_at (c_rob c) + pt_popped (c_rob c)) mr
    (live (c_rob c))
}.

(** The clock on these components. *)
Definition tick_recovery s : recovery_t :=
  { s with rc_speculative_rat ::= rat.sync; rc_rob ::= rob.sync; rc_phy_regfile ::= phy_regfile.sync;
           rc_phy_id_free_list ::= free_list.sync; rc_checkpoint_buffer ::= fifo.sync;
           rc_load_queue ::= λ q, { q with load_queue.base ::= fifo.sync };
           rc_store_buffer ::= λ b, { b with store_buffer.base ::= fifo.sync } }.

(** The entries up to number [n] and those behind it. *)
Definition up_to (n : Z) (c : contents) : list rob.item_t := pt_items (cut (n + 1) (c_rob c)).
Definition behind (n : Z) (c : contents) : list rob.item_t :=
  drop (Z.to_nat (n + 1 - pt_at (c_rob c))) (pt_items (c_rob c)).

Lemma bru_rollback rrat s c g m0 mr ms send n cp mb nb nl ns nc :
  let base := execute_wb.base send in
  recovery_inv rrat s c g m0 mr ms ->
  pt_at (c_rob c) + pt_popped (c_rob c) <= n < pt_at (c_rob c) + zlen (pt_items (c_rob c)) ->
  (readreg_execute.rob_id base, readreg_execute.rob_id_stage base) = at_count (rob_size s) n ->
  fifo.customer_get_item (bp_info.checkpoint_id (readreg_execute.branch_predictor_info_pack base))
    (rc_checkpoint_buffer s) = Ok cp ->
  in_flight sz mr (lg_base g) (up_to n c) mb nb ->
  marks sz (fifo.size (load_queue.base (rc_load_queue s))) (fifo.size (store_buffer.base (rc_store_buffer s)))
    (fifo.size (rc_checkpoint_buffer s)) cp mb nb nl ns nc ->
  within nl (c_loads c) -> within ns (c_stores c) -> within nc (c_cps c) ->
  (forall p x, p ∈ regs_of (behind n c) -> phy_regfile.regs (rc_phy_regfile s) !! Z.to_nat p = Some x ->
    next x = now x) ->
  exists s' g', bru_stage.rollback send s = Ok s' /\
    recovery_inv (rat.sync rrat) (tick_recovery s')
      (mk_contents (cut (n + 1) (c_rob c)) (cut nl (c_loads c)) (cut ns (c_stores c)) (cut nc (c_cps c)))
      g' mr mr mb /\
    lg_out g' = lg_out g /\ q_next (lg_queue g') = regs_of (behind n c) ++ q_next (lg_queue g) /\
    forall p, 0 <= p -> p ∉ regs_of (behind n c) ->
      reg_next (rc_phy_regfile s') p = reg_next (rc_phy_regfile s) p.
Proof.
  intros base H Hn Hid Hcp Hf Hm Hl Hs Hc Hset.
  pose proof (hd_popped _ _ _ _ (rv_rob _ _ _ _ _ _ _ H)) as Hpop.
  set (R := pt_at (c_rob c)) in *. set (q := pt_popped (c_rob c)) in *. set (L := pt_items (c_rob c)) in *.
  assert (Hlive : live (c_rob c) = up_to n c ++ behind n c).
  { unfold live, up_to, behind. cbn [cut pt_items]. apply drop_split. fold R q L. lia. }
  assert (Hlen : zlen (up_to n c) = n + 1 - R - q).
  { unfold up_to. cbn [cut pt_items]. apply drop_take_zlen; fold R q L; lia. }
  assert (Hitems : L = take (Z.to_nat q) L ++ up_to n c ++ behind n c) by (rewrite <- Hlive; symmetry; apply take_drop).
  assert (Hpre : zlen (take (Z.to_nat q) L) = q) by (unfold zlen in *; rewrite length_take; lia).
  unfold at_count in Hid. injection Hid as Eid Est.
  destruct (held_next _ _ _ _ (rv_rob _ _ _ _ _ _ _ H) (n - R)) as (v & En); [fold q L; lia |].
  fold R in En. replace (R + (n - R)) with n in En by lia.
  replace (R + (n - R + 1)) with (n + 1) in En by lia.
  pose proof (rv_ren _ _ _ _ _ _ _ H) as Hren. rewrite Hlive in Hren.
  destruct (inv_rollback _ _ _ _ _ _ _ _ _ _ _ _ _ _ _ _ _ _ _ Hren (rv_now _ _ _ _ _ _ _ H) Hf Hm)
    as (fl' & g' & Efl & Hren' & Hout & Hnow & Hq).
  unfold bru_stage.rollback. fold base. rewrite Hcp. cbn [mbind outcome_bind].
  rewrite Eid, Est, En. cbn [mbind outcome_bind]. rewrite Efl. cbn [mbind outcome_bind fst snd].
  eexists _, g'. split; [reflexivity |].
  pose proof (rv_before _ _ _ _ _ _ _ H) as Hb. fold R L in Hb. rewrite Hitems in Hb.
  pose proof (rv_regs _ _ _ _ _ _ _ H) as Ha. rewrite Hlive in Ha. fold R q in Ha. rewrite <- Hpre in Ha.
  pose proof (w_bound _ _ _ (hd_window _ _ _ _ (rv_rob _ _ _ _ _ _ _ H))) as Hbound.
  fold L in Hbound. rewrite Hitems in Hbound.
  destruct (regs_rollback _ _ R m0 (take (Z.to_nat q) L) mr (up_to n c) (behind n c) n ltac:(lia) Hbound ltac:(lia) Hb Ha Hset) as [Hregs Hdata].
  split; [| by split_and!].
  assert (Hw : within (n + 1) (c_rob c)) by (unfold within; fold R q L; lia).
  split; cbn [c_rob c_loads c_stores c_cps]; try done.
  - exact (holds_cut _ _ _ _ (rv_rob _ _ _ _ _ _ _ H) Hw eq_refl).
  - exact (holds_cut _ _ _ _ (rv_loads _ _ _ _ _ _ _ H) Hl (mk_loads _ _ _ _ _ _ _ _ _ _ Hm)).
  - exact (holds_cut _ _ _ _ (rv_stores _ _ _ _ _ _ _ H) Hs (mk_stores _ _ _ _ _ _ _ _ _ _ Hm)).
  - exact (holds_cut _ _ _ _ (rv_cps _ _ _ _ _ _ _ H) Hc (mk_cps _ _ _ _ _ _ _ _ _ _ Hm)).
  - rewrite Hpre in Hregs. exact Hregs.
  - rewrite Hpre in Hregs. cbn [cut pt_at pt_popped]. rewrite Z.add_0_r. apply regs_hold_sync. exact Hregs.
Qed.
End rollback.

(** ** Write back in the same cycle

    Write back runs before the branch unit, but it already sees the flush. *)
Section writeback.
Context (sz A rsz : Z).
Implicit Types (f : phy_regfile.regfile_t) (l : list rob.item_t) (m : gmap Z Z) (send : wb_t).

(** What writes is the result of an entry, number [C] being that of the first. *)
Definition result_of (C : Z) l send : Prop :=
  execute_wb.writes send = true -> exists k it, l !! k = Some it /\
    reg_of it = Some (readreg_execute.rd_phy (execute_wb.base send)) /\
    execute_wb.age send = age_at rsz (C + Z.of_nat k).

Lemma regs_hold_ext v f f' R m l :
  (forall i y, phy_regfile.regs f' !! i = Some y -> exists x, phy_regfile.regs f !! i = Some x /\ v y = v x) ->
  regs_hold rsz v f R m l -> regs_hold rsz v f' R m l.
Proof using Type. intros He H p y Hp Hy. destruct (He _ _ Hy) as (x & Hx & ->). by apply H. Qed.

Section packs.
Context (bru sau : bru_feedback_t) (C : Z) (m : gmap Z Z) (l : list rob.item_t).
Context (Hnd : NoDup (regs_of l)) (Hdis : forall a p, m !! a = Some p -> p ∉ regs_of l).
Context (Hin : Forall (λ p, 0 <= p < sz) (regs_of l)).

(** What one pack or a list of packs does. *)
Record written (packs : list wb_t) f f' : Prop := {
  wn_ok : regs_ok sz f';
  wn_next : regs_hold rsz next f C m l -> regs_hold rsz next f' C m l;
  wn_now : forall i y, phy_regfile.regs f' !! i = Some y ->
    exists x, phy_regfile.regs f !! i = Some x /\ now y = now x;
  wn_rest : forall p, 0 <= p -> (forall s, s ∈ packs -> writer bru sau s = true ->
      readreg_execute.rd_phy (execute_wb.base s) <> p) ->
    phy_regfile.regs f' !! Z.to_nat p = phy_regfile.regs f !! Z.to_nat p
}.

Lemma write_one_holds s f : regs_ok sz f -> result_of C l s ->
  exists f', wb.write_one bru sau s f = Ok (quiet_channel bru sau s, f') /\ written [s] f f'.
Proof using Hnd Hdis Hin.
  intros [Hz Hsz] Hs.
  assert (Hw : writer bru sau s = true -> execute_wb.writes s = true) by (unfold writer; lia).
  assert (Hrd : writer bru sau s = true -> exists k it, l !! k = Some it /\
    reg_of it = Some (readreg_execute.rd_phy (execute_wb.base s)) /\
    execute_wb.age s = age_at rsz (C + Z.of_nat k) /\
    0 <= readreg_execute.rd_phy (execute_wb.base s) < sz).
  { intros E. destruct (Hs (Hw E)) as (k & it & Hk & Hr & Ha). exists k, it. split_and!; try done.
    all: rewrite Forall_forall in Hin; apply Hin, reg_of_elem; by exists k, it. }
  destruct (write_one_spec bru sau s f) as (f' & E & Hs' & Hregs).
  { intros Ew. destruct (Hrd Ew) as (_ & _ & _ & _ & _ & Hp). lia. }
  exists f'. split; [done |]. destruct (writer bru sau s) eqn:Ew.
  2: { split; rewrite ?Hregs; [split; [by rewrite Hregs | lia] | | by eauto | done].
       intros H p x Hp Hx. rewrite Hregs in Hx. by apply H. }
  destruct (Hrd eq_refl) as (k & it & Hk & Hr & Ha & Hp). split.
  - split; [rewrite Hregs; unfold zlen in *; by rewrite length_alter | lia].
  - intros H. apply (regs_hold_write rsz f f' C m l k it _ _ H Hnd) in Hregs; try done; [| lia |].
    + intros a Hm. apply (Hdis _ _ Hm), reg_of_elem. by exists k, it.
    + intros x. change (next (written_reg s x)) with (true, execute_wb.age s, false). by rewrite Ha.
  - intros i y Hy. rewrite Hregs in Hy.
    destruct (decide (i = Z.to_nat (readreg_execute.rd_phy (execute_wb.base s)))) as [-> | Hne].
    + rewrite list_lookup_alter_eq in Hy. apply fmap_Some in Hy as (x & Hx & ->). by exists x.
    + rewrite list_lookup_alter_ne in Hy by done. by exists y.
  - intros q Hq Hno. rewrite Hregs. rewrite list_lookup_alter_ne; [done |].
    specialize (Hno s ltac:(by left) Ew). lia.
Qed.

Lemma write_all_holds packs f : regs_ok sz f -> Forall (result_of C l) packs ->
  exists f', wb.write_all bru sau packs f = Ok (quiet_channel bru sau <$> packs, f') /\ written packs f f'.
Proof using Hnd Hdis Hin.
  revert f. induction packs as [|s packs IH]; intros f Hf Hall.
  - exists f. split; [done |]. split; [done | done | by eauto | done].
  - apply Forall_cons in Hall as [Hs Hall].
    destruct (write_one_holds s f Hf Hs) as (f1 & E1 & W1).
    destruct (IH f1 (wn_ok _ _ _ W1) Hall) as (f2 & E2 & W2).
    exists f2. cbn [wb.write_all]. rewrite E1. cbn [mbind outcome_bind fst snd]. rewrite E2.
    split; [done |]. split.
    + apply W2.
    + intros H. by apply (wn_next _ _ _ W2), (wn_next _ _ _ W1).
    + intros i y Hy. destruct (wn_now _ _ _ W2 i y Hy) as (x & Hx & ->). by apply (wn_now _ _ _ W1).
    + intros p Hp Hno. rewrite (wn_rest _ _ _ W2 p Hp), (wn_rest _ _ _ W1 p Hp); [done | |].
      * intros t Ht. apply Hno. apply list_elem_of_singleton in Ht as ->. left.
      * intros t Ht. apply Hno. by right.
Qed.
End packs.
End writeback.

(** ** The cycle of a mispredicted branch *)
Section recovery.
Context (sz A : Z).
Implicit Types (s : recovery_t) (c : contents) (g : ledger) (mr ms : gmap Z Z) (send : wb_t).
#[local] Abbreviation rob_size s := (fifo.size (rob.base (rc_rob s))).

(** No register of the entries [l] has been written in this cycle. *)
Definition unwritten (l : list rob.item_t) (f : phy_regfile.regfile_t) : Prop :=
  forall p x, p ∈ regs_of l -> phy_regfile.regs f !! Z.to_nat p = Some x -> next x = now x.

Lemma squashed_behind rsz n k bru sau a : 0 < rsz -> n < k < n + rsz -> flush_feedback.flush bru = true ->
  flush_feedback.age bru = age_at rsz n -> a = age_at rsz k -> squashed bru sau a = true.
Proof using Type.
  intros Hs Hk Hf Ha ->. unfold squashed. rewrite Hf, Ha.
  destruct (age_order rsz Hs k n) as (-> & _); [lia |]. by replace (n <? k) with true by lia.
Qed.

Lemma live_in_range rrat s c g m0 mr ms : recovery_inv sz A rrat s c g m0 mr ms ->
  NoDup (regs_of (live (c_rob c))) /\ (forall a p, mr !! a = Some p -> p ∉ regs_of (live (c_rob c))) /\
  Forall (λ p, 0 <= p < sz) (regs_of (live (c_rob c))).
Proof using Type.
  intros H. pose proof (rv_ren _ _ _ _ _ _ _ _ _ H) as Hr.
  destruct (regs_nodup _ _ _ _ _ _ _ _ _ Hr) as [H1 H2]. split_and!; [done | done |].
  destruct (follows_nodup _ _ _ (i_follows _ _ _ _ _ _ _ _ _ Hr)) as [_ Hf]. unfold holders in Hf.
  rewrite (i_spec _ _ _ _ _ _ _ _ _ Hr), !Forall_app in Hf. tauto.
Qed.

(** Write back keeps the invariant and leaves the registers of the entries
    behind the branch alone. *)
Lemma write_back_recovery rrat s c g m0 mr ms send n sau packs :
  let base := execute_wb.base send in
  let bru := bru.feedback send in
  recovery_inv sz A rrat s c g m0 mr ms -> regs_ok sz (rc_phy_regfile s) ->
  pt_at (c_rob c) + pt_popped (c_rob c) <= n < pt_at (c_rob c) + zlen (pt_items (c_rob c)) ->
  (readreg_execute.rob_id base, readreg_execute.rob_id_stage base) = at_count (rob_size s) n ->
  flush_feedback.flush bru = true -> unwritten (live (c_rob c)) (rc_phy_regfile s) ->
  Forall (result_of (rob_size s) (pt_at (c_rob c) + pt_popped (c_rob c)) (live (c_rob c))) packs ->
  exists f', wb.write_all bru sau packs (rc_phy_regfile s) = Ok (quiet_channel bru sau <$> packs, f') /\
    regs_ok sz f' /\ recovery_inv sz A rrat { s with rc_phy_regfile := f' } c g m0 mr ms /\
    unwritten (behind n c) f' /\
    written sz (rob_size s) bru sau (pt_at (c_rob c) + pt_popped (c_rob c)) mr (live (c_rob c)) packs
      (rc_phy_regfile s) f'.
Proof using Type.
  intros base bru H Hok Hn Hid Hflush Hun Hpacks.
  destruct (live_in_range _ _ _ _ _ _ _ H) as (Hnd & Hdis & Hin).
  destruct (write_all_holds sz (rob_size s) bru sau _ mr _ Hnd Hdis Hin packs _ Hok Hpacks) as (f' & E & W).
  exists f'. split; [exact E |]. split; [by apply W |]. split; [| split; [| exact W]].
  - destruct H. split; try done.
    + apply (regs_hold_ext _ _ (rc_phy_regfile s)); [apply W | done].
    + by apply (wn_next _ _ _ _ _ _ _ _ _ _ W).
  - intros p x Hp Hx. pose proof (rv_rob _ _ _ _ _ _ _ _ _ H) as Hrob. unfold holds in Hrob.
    pose proof (hd_popped _ _ _ _ Hrob) as Hpop.
    assert (Hsplit : live (c_rob c) = up_to n c ++ behind n c).
    { unfold live, up_to, behind. cbn [cut pt_items]. apply drop_split. lia. }
    assert (Hlen : zlen (up_to n c) = n + 1 - pt_at (c_rob c) - pt_popped (c_rob c)).
    { unfold up_to. cbn [cut pt_items]. apply drop_take_zlen; lia. }
    assert (Hlive : p ∈ regs_of (live (c_rob c))).
    { rewrite Hsplit, regs_of_app. apply elem_of_app. by right. }
    apply (Hun p); [done |]. rewrite <- Hx. symmetry. apply (wn_rest _ _ _ _ _ _ _ _ _ _ W).
    { rewrite Forall_forall in Hin. by apply Hin. }
    intros t Ht Hw Hrd. rewrite Forall_forall in Hpacks.
    destruct (Hpacks t Ht) as (k & it & Hk & Hit & Hage).
    { unfold writer in Hw. lia. }
    apply reg_of_elem in Hp as (j & it' & Hj & Hjt). rewrite Hrd in Hit.
    assert (Hk' : live (c_rob c) !! (length (up_to n c) + j)%nat = Some it').
    { rewrite Hsplit, lookup_app_r by lia. by replace (_ + j - _)%nat with j by lia. }
    pose proof (regs_of_inj _ _ _ _ _ _ Hnd Hk Hk' Hit Hjt) as ->.
    pose proof (lookup_lt_Some _ _ _ Hk') as Hlt. rewrite Hsplit, length_app in Hlt.
    pose proof (w_bound _ _ _ (hd_window _ _ _ _ Hrob)) as Hb.
    assert (Hll : zlen (live (c_rob c)) = zlen (pt_items (c_rob c)) - pt_popped (c_rob c)).
    { unfold live, zlen in *. rewrite length_drop. lia. }
    rewrite Hsplit, zlen_app in Hll.
    assert (Hage' : flush_feedback.age bru = age_at (rob_size s) n).
    { unfold at_count in Hid. injection Hid as E1 E2. unfold age_at. by rewrite <- E1, <- E2. }
    unfold writer in Hw.
    rewrite (squashed_behind (rob_size s) n _ bru sau _) with (5 := Hage) in Hw; try done.
    all: unfold zlen in *; lia.
Qed.

(** After the clock nothing has been written. *)
Lemma unwritten_sync l f : unwritten l (phy_regfile.sync f).
Proof using Type.
  intros p x _ Hx. change (phy_regfile.regs (phy_regfile.sync f)) with (phy_regfile.sync_reg <$> phy_regfile.regs f) in Hx.
  by apply list_lookup_fmap_Some in Hx as (y & -> & _).
Qed.

(** What the branch unit receives. *)
Lemma receive_some h r : handshake_dff.get_data h = Some r ->
  bru_stage.peek h = Ok (Some r) /\ unit_stage.receive false h = Ok (Some r, (handshake_dff.pop h).2).
Proof using Type.
  unfold handshake_dff.get_data, bru_stage.peek, unit_stage.receive, handshake_dff.pop, handshake_dff.get_data.
  destruct (handshake_dff.is_empty h); [done |]. by intros [= ->].
Qed.

Lemma bru_run_flush csr sau h p mode l1 s r send s' :
  handshake_dff.get_data h = Some r -> bru_stage.compute csr sau (Some r) = Ok send ->
  flush_feedback.flush (bru.feedback send) = true -> bru_stage.rollback send s = Ok s' ->
  bru_stage.run_feedback csr sau false h = Ok (bru.feedback send) /\
  bru_stage.run csr sau false h p mode l1 s =
    Ok (execute_wb.feedback send, (handshake_dff.pop h).2, port.set send p,
        bru_stage.train send mode, bru_stage.train send l1, s').
Proof using Type.
  intros Hd Hc Hf Hr. destruct (receive_some h r Hd) as [E1 E2].
  unfold bru_stage.run_feedback, bru_stage.run. cbn [negb]. rewrite E1, E2. cbn [mbind outcome_bind fst snd].
  rewrite Hc. cbn [mbind outcome_bind]. rewrite Hf, Hr. done.
Qed.
End recovery.

(** ** The rollback of the store address unit

    A load that read too early is to be repeated: the free list goes back to
    where it was before the load, but the valid bits are those of the
    checkpoint, taken when the load had its register already.  That register
    would be mapped and free at once.  (The code is not reached, see
    [CycleIssueProps.load_checkpoint_lost].) *)
Section load_rollback.
Context (sz A : Z).

Lemma load_rollback_mapped_and_free rrat s s' i cp l1 it l2 g mr ms mb nb lsz ssz csz nl ns nc p :
  ren_inv sz A (rc_speculative_rat s) rrat (rc_phy_id_free_list s) (l1 ++ it :: l2) g mr ms ->
  lg_now g = O -> reg_of it = Some p -> in_flight sz mr (lg_base g) (l1 ++ [it]) mb nb ->
  fifo.customer_get_item (load_queue.checkpoint_id i) (rc_checkpoint_buffer s) = Ok cp ->
  marks sz lsz ssz csz cp mb nb nl ns nc ->
  (checkpoint.old_phy_id_free_list_rptr cp, checkpoint.old_phy_id_free_list_rstage cp) = old_ptr it ->
  sau.rollback i s = Ok s' ->
  rat_is sz A (rc_speculative_rat s') mb /\ mb !! rob.rd it = Some p /\
  exists g', follows sz (free_list.sync (rc_phy_id_free_list s')) g' /\ p ∈ q_next (lg_queue g').
Proof.
  intros H Hnow Hp Hf Hcp Hm Hold E. unfold sau.rollback in E. rewrite Hcp in E. cbn [mbind outcome_bind] in E.
  apply bind_Ok in E as (fl & Efl & E). injection E as <-.
  destruct (in_flight_app_inv _ _ _ _ _ _ _ Hf) as (m1 & n1 & Hf1 & Hf2).
  inversion Hf2 as [| ? ? ? m2 n2 ? ? ? Hs Ho _ Hend]; subst. inversion Hend; subst.
  unfold reg_of in Hp. destruct (rob.old_phy_reg_id_valid it) eqn:V; [| discriminate]. injection Hp as <-.
  inversion Hs; subst; [| congruence].
  pose proof (i_spec _ _ _ _ _ _ _ _ _ H) as Hspec. rewrite regs_of_app in Hspec.
  unfold regs_of at 2 in Hspec. cbn in Hspec. unfold reg_of at 1 in Hspec. rewrite V in Hspec.
  fold (regs_of l2) in Hspec. pose proof (in_flight_count _ _ _ _ _ _ Hf1) as En.
  rewrite Ho in Hold. unfold at_count in Hold. injection Hold as E1 E2. rewrite E1, E2 in Efl.
  assert (Ek : Z.to_nat (n1 - lg_base g) = length (regs_of l1)) by (unfold zlen in En; lia).
  destruct (step_rollback sz _ g (i_follows _ _ _ _ _ _ _ _ _ H) n1) as (fl' & Efl' & Hfol);
    [unfold zlen in En; lia | rewrite Ek, Hspec, length_app; lia | done |].
  rewrite Efl in Efl'. injection Efl' as <-. rewrite Ek, Hspec, take_app_length, drop_app_length in Hfol.
  split; [| split; [by rewrite lookup_insert_eq |]].
  - apply (rat_restore sz A _ rrat ms mr (lg_base g) (l1 ++ [it]) _ (n1 + 1) lsz ssz csz cp nl ns nc);
      [apply H | apply H | exact Hf | | | exact Hm].
    + pose proof (i_recalls _ _ _ _ _ _ _ _ _ H) as [K0 K]. split; [done |].
      change (l1 ++ it :: l2) with (l1 ++ [it] ++ l2) in K. rewrite app_assoc in K. by apply Forall_app in K as [K _].
    + destruct (follows_nodup _ _ _ (i_follows _ _ _ _ _ _ _ _ _ H)) as [_ Hr]. unfold holders in Hr.
      rewrite Hspec, regs_of_app in *. unfold regs_of at 2. cbn. unfold reg_of at 1. rewrite V.
      apply Forall_app in Hr as [_ Hr]. apply Forall_app in Hr as [Hr _].
      apply Forall_app in Hr as [Hr1 Hr2]. apply Forall_cons in Hr2 as [Hr2 _].
      apply Forall_app. split; [exact Hr1 | by apply Forall_singleton].
  - eexists. split; [exact Hfol |]. unfold q_next. cbn. left.
Qed.
End load_rollback.
