(* ===== verification/CycleRecoveryProps.v ===== *)
(** * Properties of the recovery from a mispredicted branch

    The rename stage saves a checkpoint of the state behind a branch; the
    branch unit goes back to it when the prediction was wrong. *)

From S2P Require Import Prelude Word Ops IsaDecode Dff Fifo FifoSpec FifoWindow Rat RatSpec.
From S2P Require Import FreeList FreeListTrace AgeSpec CycleBoot CycleDecode CycleDecodeSpec CycleProps.
From S2P Require Import CyclePack LoadStore CycleCsr CycleExec CycleExecSpec Predict Ras Rob.
From S2P Require Import RenameInv RegsInv CycleRename CycleRenameSpec CycleCommit CycleCommitSpec.
From S2P Require Import CycleOrderProps CycleLsu CycleRecovery.

(** ** C6
    Checkpoints: in a state with the renaming invariant the rename stage
    renames an enabled instruction, keeping the invariant.  If the direction
    of the instruction was predicted, or it is a load, and the checkpoint
    buffer has room, the stage also saves a checkpoint, gives its number to the
    instruction, and the checkpoint is of the state right behind the
    instruction: the valid bits of the map [ms'] it leaves, the number of
    registers handed out so far, and the next places in the checkpoint buffer
    and, as they were before it, in the load queue and the store buffer. *)
Theorem checkpoint_taken n rrat mr s v pre live g ms (r : fetch2_decode.pack_t bp_info.pack_t inst_common_info_t) d :
  stage_inv n A rrat mr s v pre live g ms -> is_u32 (fetch2_decode.value r) -> decoded_as r d ->
  let u := decode_rename.uop d in
  decode_rename.enable u = true -> has_room s u -> fifo.producer_is_full (rob.base (rename.rob s)) = false ->
  exists o it s' v' g' ms' cp,
    rename.rename_op (rename.copy d) s = Ok (o, s') /\
    stage_inv n A rrat mr s' v' pre (live ++ [it]) g' ms' /\
    renamed_as (fifo.size (rob.base (rename.rob s))) (v_rob_at v + zlen (v_rob v)) ms (rename.copy d) o it ms' /\
    checkpoint_added s v (rename.copy d) cp o v' /\
    marks n (fifo.size (load_queue.base (rename.load_queue s)))
      (fifo.size (store_buffer.base (rename.store_buffer s))) (fifo.size (rename.checkpoint_buffer s)) cp ms'
      (handed_out g') (v_loads_at v + zlen (v_loads v)) (v_stores_at v + zlen (v_stores v))
      (v_cps_at v + zlen (v_cps v) + 1).
Proof.
  intros H Hr Hd u He Hroom Hfull.
  destruct (rename_op_spec n A rrat mr s v pre live g ms (rename.copy d) H (decoded_pack_wf r d Hr Hd) Hroom He Hfull)
    as (o & it & s' & v' & g' & ms' & E & Hs & _ & _ & _ & _ & Ha & cp & Hc & Hm).
  by exists o, it, s', v', g', ms', cp.
Qed.

(** ** C5
    Recovery from a mispredicted branch: commit has run in this cycle and left
    the invariant [recovery_inv], and the branch unit finds that the branch in
    entry number [num] of the reorder buffer went another way than predicted.
    Write back, which sees the feedback of the branch unit, writes the results
    of the branch and of older instructions only; the branch unit then goes
    back to the branch's checkpoint.  After the clock the state is the one
    right behind the branch: the reorder buffer ends with the branch, the
    alias table is the map [mb] the checkpoint was taken of, the free list has
    the registers of the instructions behind the branch again, at its front
    and in their order, the load queue, the store buffer and the checkpoint
    buffer end where they ended when the branch was renamed, registers of
    those instructions are invalid, all others keep what write back left, and
    the whole invariant holds.  No check fails on the way. *)
Theorem branch_recovery n a csr sau rrat s c g m0 mr ms ports num cp mb nb nl ns nc h p mode l1 r send :
  let rsz := fifo.size (rob.base (rc_rob s)) in
  let front := pt_at (c_rob c) + pt_popped (c_rob c) in
  let base := execute_wb.base send in
  recovery_inv n a rrat s c g m0 mr ms -> regs_ok n (rc_phy_regfile s) ->
  unwritten (live (c_rob c)) (rc_phy_regfile s) ->
  Forall (result_of rsz front (live (c_rob c))) (port.get <$> ports) ->
  handshake_dff.get_data h = Some r -> bru_stage.compute csr sau (Some r) = Ok send ->
  flush_feedback.flush (bru.feedback send) = true ->
  front <= num < pt_at (c_rob c) + zlen (pt_items (c_rob c)) ->
  (readreg_execute.rob_id base, readreg_execute.rob_id_stage base) = at_count rsz num ->
  fifo.customer_get_item (bp_info.checkpoint_id (readreg_execute.branch_predictor_info_pack base))
    (rc_checkpoint_buffer s) = Ok cp ->
  in_flight n mr (lg_base g) (up_to num c) mb nb ->
  marks n (fifo.size (load_queue.base (rc_load_queue s))) (fifo.size (store_buffer.base (rc_store_buffer s)))
    (fifo.size (rc_checkpoint_buffer s)) cp mb nb nl ns nc ->
  within nl (c_loads c) -> within ns (c_stores c) -> within nc (c_cps c) ->
  exists f' s' g',
    bru_stage.run_feedback csr sau false h = Ok (bru.feedback send) /\
    wb.run (bru.feedback send) sau false ports (rc_phy_regfile s) =
      Ok (quiet_channel (bru.feedback send) sau <$> (port.get <$> ports), f') /\
    bru_stage.run csr sau false h p mode l1 { s with rc_phy_regfile := f' } =
      Ok (execute_wb.feedback send, (handshake_dff.pop h).2, port.set send p,
          bru_stage.train send mode, bru_stage.train send l1, s') /\
    recovery_inv n a (rat.sync rrat) (tick_recovery s')
      (mk_contents (cut (num + 1) (c_rob c)) (cut nl (c_loads c)) (cut ns (c_stores c)) (cut nc (c_cps c)))
      g' mr mr mb /\
    lg_out g' = lg_out g /\ q_next (lg_queue g') = regs_of (behind num c) ++ q_next (lg_queue g) /\
    forall q, 0 <= q -> q ∉ regs_of (behind num c) -> reg_next (rc_phy_regfile s') q = reg_next f' q.
Proof.
  intros rsz front base H Hok Hun Hports Hd Hcomp Hf Hn Hid Hcp Hfl Hm Hl Hs Hc.
  destruct (write_back_recovery n a rrat s c g m0 mr ms send num sau _ H Hok Hn Hid Hf Hun Hports)
    as (f' & E & _ & H' & Hun' & _).
  destruct (bru_rollback n a rrat _ c g m0 mr ms send num cp mb nb nl ns nc H' Hn Hid Hcp Hfl Hm Hl Hs Hc Hun')
    as (s' & g' & Er & Hinv & Hout & Hq & Hregs).
  destruct (bru_run_flush csr sau h p mode l1 _ r send s' Hd Hcomp Hf Er) as [E1 E2].
  by exists f', s', g'.
Qed.

(** *** A branch and an addi behind it *)

(** [bne x1, x2, 16], predicted not taken, and the instruction behind it, whose
    result is in the register file already. *)
Definition fork_branch : rob.item_t :=
  { rob.item_init with
    rob.pc := 0x80000000; rob.bru_op := true; rob.last_uop := true;
    rob.old_phy_id_free_list_rptr := 31; rob.old_phy_id_free_list_rstage := false;
    rob.new_phy_id_free_list_rptr := 31; rob.new_phy_id_free_list_rstage := false }.
Definition fork_next : rob.item_t := { demo_first with rob.pc := 0x80000004 }.
Definition fork_live : list rob.item_t := [fork_branch; fork_next].
Definition fork_cp : checkpoint_t :=
  rat.producer_save_to_checkpoint
    (checkpoint.mk [] 31 false 31 false 0 false 1 false 0 false 0 false) boot_rat.

Definition two_items {T} (n : Z) (d : T) (l : list T) : fifo_t T :=
  match foldl (λ (f : outcome (fifo_t T)) x, f ← f; bf ← fifo.push x f; Ok bf.2)
          (Ok (fifo.sync (fifo.new n d))) l with
  | Ok f => fifo.sync f | _ => fifo.new n d
  end.
Lemma pushed_repr {T} (d : T) l : forall f l0,
  repr_at f (mk_queue 0 [] l0) 0 -> zlen l0 + zlen l < fifo.size f ->
  exists f', foldl (λ (f : outcome (fifo_t T)) x, f ← f; bf ← fifo.push x f; Ok bf.2) (Ok f) l = Ok f' /\
    repr_at f' (mk_queue 0 [] (l0 ++ l)) 0.
Proof.
  induction l as [|x l IH]; intros f l0 H Hl; [exists f; by rewrite app_nil_r |].
  pose proof (push_spec_at _ _ _ H x) as Hp. cbn [q_popped q_next q_view q_fresh app] in Hp.
  unfold q_next in Hp. cbn [q_view q_fresh app] in Hp.
  replace (_ =? fifo.size f) with false in Hp by (unfold zlen in *; cbn [length] in *; lia).
  destruct Hp as (f1 & E & H1 & Hs). cbn [foldl]. cbn [mbind outcome_bind]. rewrite E. cbn [mbind outcome_bind snd].
  destruct (IH f1 (l0 ++ [x]) H1) as (f' & E' & H'); [rewrite zlen_app, Hs; unfold zlen in *; cbn [length] in *; lia |].
  exists f'. split; [exact E' |]. by rewrite <- app_assoc in H'.
Qed.
Lemma two_items_repr {T} n (d : T) l : 0 < n < 2 ^ 30 -> zlen l < n ->
  repr_at (two_items n d l) (mk_queue 0 l []) 0.
Proof.
  intros Hn Hl. destruct (pushed_repr d l _ [] (empty_repr n d Hn)) as (f & E & H); [exact Hl |].
  unfold two_items. rewrite E. exact (sync_spec_at _ _ _ H).
Qed.

Definition fork_f (l : list rob.item_t) : rob_t := rob.mk (two_items 64 rob.item_init l) false 0 0.
Definition fork_regfile : phy_regfile.regfile_t :=
  match phy_regfile.write 31 77 true 1 false false boot_regfile with
  | Ok f => phy_regfile.sync f | _ => boot_regfile
  end.
Definition fork_state : recovery_t :=
  mk_recovery demo_srat (fork_f fork_live) fork_regfile demo_free_list (two_items 64 no_cp [fork_cp])
    (load_queue.sync (load_queue.new 32)) (store_buffer.sync (store_buffer.new 16)).
Definition fork_contents : contents :=
  mk_contents (mk_part 0 0 fork_live) (mk_part 0 0 []) (mk_part 0 0 []) (mk_part 0 0 [fork_cp]).

Lemma repr_held {T} (f : fifo_t T) l : repr_at f (mk_queue 0 l []) 0 -> holds f (mk_part 0 0 l).
Proof.
  intros H. pose proof (repr_window _ _ _ H eq_refl) as Hw. unfold q_next in Hw. cbn [q_view q_fresh] in Hw.
  rewrite app_nil_r in Hw. pose proof (zlen_nonneg l).
  split; cbn [pt_at pt_popped pt_items]; [exact Hw | lia | apply (r_rptr_new _ _ _ H) | apply (r_wptr _ _ _ H)].
Qed.

Lemma fork_ren : exists g nb, lg_now g = O /\
  ren_inv sz A demo_srat (rat.sync boot_rat) demo_free_list fork_live g boot_map (<[5 := 31]> boot_map) /\
  in_flight sz boot_map (lg_base g) [fork_branch] boot_map nb /\ at_count sz nb = (31, false).
Proof.
  pose proof (inv_other _ _ _ _ _ _ _ _ _ boot_ren fork_branch eq_refl eq_refl eq_refl) as H0.
  destruct (inv_alloc _ _ _ _ _ _ _ _ _ H0 5 31 (seqZ 32 96))
    as (fl & old & r & g & Epop & Hold & Eset & _ & _ & _ & _ & H); [done | done |].
  apply boot_map_spec in Hold as [_ ->].
  pose proof (H fork_next eq_refl eq_refl eq_refl eq_refl) as H1.
  assert (E : (dl ← free_list.pop boot_free_list; Ok (free_list.save dl.2)) = Ok (32, false)) by reflexivity.
  rewrite Epop in E. change (Ok (free_list.save fl) = Ok (32, false)) in E.
  specialize (H1 eq_refl eq_refl). exists (tick g).
  pose proof (i_flight _ _ _ _ _ _ _ _ _ H1) as Hf. inversion Hf as [| ? ? ? m1 n1 ? ? ? Hs Ho Hn _]; subst.
  exists n1. split; [done |]. split; [unfold demo_srat, demo_free_list; rewrite Epop, Eset; by apply inv_tick |].
  inversion Hs; subst; [discriminate |]. split; [| by rewrite <- Hn].
  econstructor; [exact Hs | exact Ho | exact Hn | constructor].
Qed.

Lemma fork_marks nb : at_count sz nb = (31, false) -> marks sz 32 16 64 fork_cp boot_map nb 0 0 1.
Proof.
  intros E. split; try done. intros p Hp. by apply (rat_is_valid sz A boot_rat boot_map p boot_rat_is).
Qed.

Lemma fork_inv : exists g nb,
  recovery_inv sz A (rat.sync boot_rat) fork_state fork_contents g boot_map boot_map (<[5 := 31]> boot_map) /\
  in_flight sz boot_map (lg_base g) (up_to 0 fork_contents) boot_map nb /\
  marks sz 32 16 64 fork_cp boot_map nb 0 0 1.
Proof.
  destruct fork_ren as (g & nb & Hn & H & Hf & E). exists g, nb. split; [| split; [exact Hf | by apply fork_marks]].
  assert (Hh : regs_hold 64 now fork_regfile 0 boot_map fork_live) by (apply regs_hold_check; decide_closed).
  split; try (apply repr_held; (apply two_items_repr || apply empty_repr); done); try done.
  change fork_regfile with (phy_regfile.sync
    match phy_regfile.write 31 77 true 1 false false boot_regfile with Ok f => f | _ => boot_regfile end).
  apply regs_hold_sync. exact Hh.
Qed.

Lemma fork_unwritten : unwritten (live (c_rob fork_contents)) (rc_phy_regfile fork_state).
Proof.
  change (rc_phy_regfile fork_state) with (phy_regfile.sync
    match phy_regfile.write 31 77 true 1 false false boot_regfile with Ok f => f | _ => boot_regfile end).
  apply unwritten_sync.
Qed.

(** The branch is taken. *)
Definition fork_prediction : bp_info.pack_t :=
  { bp_info.init with bp_info.predicted := true; bp_info.next_pc := 0x80000004 }.
Definition fork_fetched : fetch2_decode.pack_t bp_info.pack_t inst_common_info_t :=
  fetch2_decode.mk (mk_info 0) true 0x80000000 0x00209863 false
    riscv_exception.instruction_address_misaligned 0 fork_prediction.
Definition fork_uop : decode_rename.pack_t := Eval vm_compute in
  match decode.op_info fork_fetched with Ok (u :: _) => as_last u | _ => decode_rename.init end.
Definition fork_rev : readreg_execute.pack_t :=
  { readreg_execute.init with
    readreg_execute.uop := fork_uop; readreg_execute.src1_value := 1; readreg_execute.src2_value := 2;
    readreg_execute.branch_predictor_info_pack :=
      { fork_prediction with bp_info.checkpoint_id_valid := true } }.
Definition fork_send : execute_wb.pack_t := Eval vm_compute in
  match bru_stage.compute (cycle_csrfile.new [] []) flush_feedback.init (Some fork_rev) with
  | Ok x => x | _ => execute_wb.init
  end.
Definition fork_hdff : handshake_dff_t readreg_execute.pack_t :=
  handshake_dff.sync (handshake_dff.push fork_rev (handshake_dff.sync (handshake_dff.new fork_rev))).2.

(** The fetch is sent to 0x80000010; in the next cycle the reorder buffer ends
    with the branch, x5 is register 4 again, register 31 is the next to be
    handed out and not valid. *)
Lemma branch_recovery_witness :
  exists f' x s' g', bru_stage.run_feedback (cycle_csrfile.new [] []) flush_feedback.init false fork_hdff =
      Ok (flush_feedback.mk true 0x80000010 false 0) /\
    wb.run (bru.feedback fork_send) flush_feedback.init false [port.new execute_wb.init] fork_regfile =
      Ok ([execute_feedback.init], f') /\
    bru_stage.run (cycle_csrfile.new [] []) flush_feedback.init false fork_hdff (port.new execute_wb.init)
      (mk_with [] (bi_mode.mk [] [] 0 0 [] [] [])) (mk_with [] l1_btb.mk)
      { fork_state with rc_phy_regfile := f' } = Ok (x, s') /\
    holds (rob.base (rc_rob (tick_recovery s'))) (mk_part 0 0 [fork_branch]) /\
    rat_is sz A (rc_speculative_rat (tick_recovery s')) boot_map /\
    regs_hold (fifo.size (rob.base (rc_rob (tick_recovery s')))) now (rc_phy_regfile (tick_recovery s')) 0
      boot_map [fork_branch] /\
    head (q_next (lg_queue g')) = Some 31.
Proof.
  destruct fork_inv as (g & nb & H & Hf & Hm).
  destruct (branch_recovery sz A (cycle_csrfile.new [] []) flush_feedback.init (rat.sync boot_rat) fork_state
    fork_contents g boot_map boot_map (<[5 := 31]> boot_map) [port.new execute_wb.init] 0 fork_cp boot_map nb
    0 0 1 fork_hdff (port.new execute_wb.init) (mk_with [] (bi_mode.mk [] [] 0 0 [] [] [])) (mk_with [] l1_btb.mk)
    fork_rev fork_send H) as (f' & s' & g' & E1 & E2 & E3 & Hi & _ & Hq & _).
  - split; reflexivity.
  - exact fork_unwritten.
  - apply Forall_singleton. discriminate.
  - reflexivity.
  - vm_compute. reflexivity.
  - reflexivity.
  - split; [discriminate | reflexivity].
  - reflexivity.
  - vm_compute. reflexivity.
  - exact Hf.
  - exact Hm.
  - split; discriminate.
  - split; discriminate.
  - split; discriminate.
  - exists f'. eexists _, s', g'. split; [exact E1 |]. split; [exact E2 |]. split; [exact E3 |].
    split; [exact (rv_rob _ _ _ _ _ _ _ _ _ Hi) |].
    split; [exact (i_srat _ _ _ _ _ _ _ _ _ (rv_ren _ _ _ _ _ _ _ _ _ Hi)) |].
    split; [| rewrite Hq; reflexivity]. exact (rv_before _ _ _ _ _ _ _ _ _ Hi).
Defined.

(** *** Its checkpoint when it is the first instruction after reset *)
Definition fork_decoded : rename.in_t := Eval vm_compute in
  decode_rename.mk_full fork_uop (mk_info 0) fork_prediction.
Lemma fork_decoded_as : decoded_as fork_fetched fork_decoded.
Proof.
  destruct (op_info_spec fork_fetched eq_refl) as (u & base & E & _ & _ & H).
  assert (Eu : decode.op_info fork_fetched = Ok [u; base]) by exact E.
  vm_compute in Eu. injection Eu as <- _. exact H.
Qed.

Lemma checkpoint_taken_witness :
  exists o s' g' cp, rename.rename_op (rename.copy fork_decoded) boot_rename = Ok (o, s') /\
    window (rename.checkpoint_buffer s') 0 [cp] /\
    bp_info.checkpoint_id_valid (rename_dispatch.branch_predictor_info_pack o) = true /\
    bp_info.checkpoint_id (rename_dispatch.branch_predictor_info_pack o) = 0 /\
    marks sz 32 16 64 cp boot_map (handed_out g') 0 0 1.
Proof.
  destruct (checkpoint_taken sz boot_rat boot_map boot_rename boot_view [] [] boot_ledger boot_map
    fork_fetched fork_decoded boot_stage) as (o & it & s' & v' & g' & ms' & cp & E & Hs & Ha & [C1 C2] & Hm).
  - split; [discriminate | reflexivity].
  - exact fork_decoded_as.
  - reflexivity.
  - intros _. split; reflexivity.
  - reflexivity.
  - exists o, s', g', cp. split; [exact E |].
    change (takes_checkpoint _ _) with true in C2. cbv iota in C2. destruct C2 as [C2 C3].
    pose proof (qo_cps _ _ (si_queues _ _ _ _ _ _ _ _ _ _ Hs)) as Hw. rewrite C1, C2 in Hw.
    split; [exact Hw |]. rewrite C3. split; [reflexivity |]. split; [reflexivity |].
    pose proof (ra_rd _ _ _ _ _ _ _ Ha) as Hd. unfold destination in Hd.
    change (_ && _) with false in Hd. destruct Hd as [_ ->]. exact Hm.
Defined.
