(* ===== verification/CycleWholeProps.v ===== *)
(** * The cycle model as a whole

    The states the cycle model reaches, from the constructor, by loading
    programs, resetting and running: in all of them the units that come in pairs
    have two ports each.  Then a cycle with a flush, from any of them. *)

From S2P Require Import Prelude Word Ops IsaDecode Csr IsaBus Breakpoint Dff Fifo.
From S2P Require Import Rat FreeList CycleBoot CycleDecode CyclePack LoadStore CycleCsr CycleExec.
From S2P Require Import Predict Ras Rob CycleRename CycleCommit CycleBus CycleLsu CycleDispatch.
From S2P Require Import CycleIssue CycleLsuIssue CycleReadreg CycleFetch CycleModel CycleStart CycleFlush.
From S2P Require Import CycleFetchSpec.

Import cycle_model.
Implicit Types (s t : cycle_model_t).

(** ** Reachable states *)
Inductive reachable : cycle_model_t -> Prop :=
| reach_create sf rf junk s : cycle_start.create sf rf junk = Ok s -> reachable s
| reach_reset s s' : reachable s -> cycle_start.reset s = Ok s' -> reachable s'
| reach_load buf s s' : reachable s -> load buf s = Ok s' -> reachable s'
| reach_run s s' : reachable s -> run s = Ok s' -> reachable s'.

(** ** Two ports each *)
Definition same_pairs s t : Prop :=
  length (alu_port (wb_ports t)) = length (alu_port (wb_ports s)) /\
  length (mul_port (wb_ports t)) = length (mul_port (wb_ports s)).
Lemma same_pairs_ports s t : wb_ports t = wb_ports s -> same_pairs s t.
Proof. unfold same_pairs. by intros ->. Qed.
Lemma same_pairs_trans s t u : same_pairs s t -> same_pairs t u -> same_pairs s u.
Proof. unfold same_pairs. intros [-> ->] [-> ->]. done. Qed.
Lemma paired_same s t : same_pairs s t -> paired s -> paired t.
Proof. unfold paired. by intros [-> ->]. Qed.

(** *** A cycle *)
Section cycle.
Context (bru : bru_feedback_t) (sau : sau_feedback_t) (cf : bool).

Lemma at_unit_length i f hs ps x : at_unit i f hs ps = Ok x -> length x.2 = length ps.
Proof using.
  unfold at_unit. intros H. apply bind_Ok in H as (h & _ & H). apply bind_Ok in H as (p & _ & H).
  apply bind_Ok in H as (y & _ & H). apply bind_Ok in H as (hs' & _ & H). apply bind_Ok in H as (ps' & E & H).
  apply ok_inj in H as <-. by apply set_length in E.
Qed.
Lemma alu_pairs i s x : run_alu bru sau cf i s = Ok x -> same_pairs s x.2.
Proof using.
  unfold run_alu. intros H. apply bind_Ok in H as ([[c hs] ps] & E & H). apply at_unit_length in E.
  apply ok_inj in H as <-. by split.
Qed.
Lemma mul_pairs i s x : run_mul bru sau cf i s = Ok x -> same_pairs s x.2.
Proof using.
  unfold run_mul. intros H. apply bind_Ok in H as ([[c hs] ps] & E & H). apply at_unit_length in E.
  apply ok_inj in H as <-. by split.
Qed.
Lemma bru_pairs s x : run_bru sau cf s = Ok x -> same_pairs s x.2.
Proof using.
  unfold run_bru. intros H. apply bind_Ok in H as (h & _ & H). apply bind_Ok in H as (p & _ & H).
  apply bind_Ok in H as ([[[[[c h'] p'] m] l] r] & _ & H). apply ok_inj in H as <-. by split.
Qed.
Lemma csr_pairs s x : run_csr cf s = Ok x -> same_pairs s x.2.
Proof using.
  unfold run_csr. intros H. apply bind_Ok in H as (h & _ & H). apply bind_Ok in H as (p & _ & H).
  apply bind_Ok in H as ([[[c b] h'] p'] & _ & H). apply ok_inj in H as <-. by split.
Qed.
Lemma div_pairs s x : run_div bru sau cf s = Ok x -> same_pairs s x.2.
Proof using.
  unfold run_div. intros H. apply bind_Ok in H as (h & _ & H). apply bind_Ok in H as (p & _ & H).
  apply bind_Ok in H as ([[[c b] h'] p'] & _ & H). apply ok_inj in H as <-. by split.
Qed.
Lemma lu_pairs s x : run_lu bru sau cf s = Ok x -> same_pairs s x.2.
Proof using.
  unfold run_lu. intros H. apply bind_Ok in H as (e & _ & H). apply bind_Ok in H as (y & _ & H).
  apply ok_inj in H as <-. by split.
Qed.
Lemma sau_pairs only s x : run_sau bru cf only s = Ok x -> same_pairs s x.2.
Proof using.
  unfold run_sau. intros H. apply bind_Ok in H as (h & _ & H). apply bind_Ok in H as (p & _ & H).
  apply bind_Ok in H as ([[[[f h'] p'] r] w] & _ & H). apply ok_inj in H as <-. by split.
Qed.
Lemma sdu_pairs s t : run_sdu bru sau cf s = Ok t -> same_pairs s t.
Proof using.
  unfold run_sdu. intros H. apply bind_Ok in H as (h & _ & H). apply bind_Ok in H as (p & _ & H).
  apply bind_Ok in H as ([[b h'] p'] & _ & H). apply ok_inj in H as <-. by split.
Qed.
Lemma execute_pairs s x : run_execute bru sau cf s = Ok x -> same_pairs s x.2.
Proof using.
  unfold run_execute. intros H.
  apply bind_Ok in H as (a0 & A0 & H). apply bind_Ok in H as (a1 & A1 & H).
  apply bind_Ok in H as (b & B & H). apply bind_Ok in H as (c & C & H).
  apply bind_Ok in H as (d & D & H). apply bind_Ok in H as (m0 & M0 & H).
  apply bind_Ok in H as (m1 & M1 & H). apply bind_Ok in H as (l & L & H).
  apply bind_Ok in H as (a & A & H). apply bind_Ok in H as (t & T & H). apply ok_inj in H as <-. cbn [snd].
  apply alu_pairs in A0, A1. apply bru_pairs in B. apply csr_pairs in C. apply div_pairs in D.
  apply mul_pairs in M0, M1. apply lu_pairs in L. apply sau_pairs in A. apply sdu_pairs in T.
  do 9 (eapply same_pairs_trans; [eassumption |]). exact T.
Qed.
End cycle.

Lemma wb_pairs b a cf s x : run_wb b a cf s = Ok x -> wb_ports x.2 = wb_ports s.
Proof. unfold run_wb. intros H. apply bind_Ok in H as (y & _ & H). by apply ok_inj in H as <-. Qed.
Lemma issue_pairs g s x : run_issue g s = Ok x -> wb_ports x.2 = wb_ports s.
Proof.
  unfold run_issue. intros H. repeat (apply bind_Ok in H as (? & _ & H)). by apply ok_inj in H as <-.
Qed.
Lemma front_pairs g b s t : run_front g b s = Ok t -> wb_ports t = wb_ports s.
Proof.
  unfold run_front. intros H. apply bind_Ok in H as (r & _ & H). apply bind_Ok in H as ([[i fin] fout] & _ & H).
  apply bind_Ok in H as (f & _ & H). apply bind_Ok in H as (x & _ & H). by apply ok_inj in H as <-.
Qed.
Lemma run_pairs s t : run s = Ok t -> same_pairs s t.
Proof.
  unfold run. intros H. apply bind_Ok in H as (s0 & P0 & H). apply pre_ports in P0 as [P0 _].
  apply bind_Ok in H as (b & _ & H). apply bind_Ok in H as (a & A & H). apply sau_pairs in A.
  apply bind_Ok in H as (c & C & H). apply commit_wb_ports in C as [C _].
  apply bind_Ok in H as (w & W & H). apply wb_pairs in W.
  apply bind_Ok in H as (e & E & H). apply execute_pairs in E.
  apply bind_Ok in H as (i & I & H). apply issue_pairs in I.
  apply bind_Ok in H as (f & F & H). apply front_pairs in F.
  apply bind_Ok in H as (p & P & H). apply flush_post in P as (_ & P & _). apply ok_inj in H as <-.
  assert (Q : wb_ports p = wb_ports e.2).
  { unfold back in P. rewrite !pair_equal_spec in P. destruct P as (((_ & P) & _) & _). by rewrite P, F, I. }
  apply same_pairs_trans with (t := e.2).
  - eapply same_pairs_trans; [by apply same_pairs_ports |]. eapply same_pairs_trans; [exact A |].
    eapply same_pairs_trans; [apply same_pairs_ports, C |].
    eapply same_pairs_trans; [apply same_pairs_ports, W | exact E].
  - split.
    + change (length (port.sync <$> alu_port (wb_ports p)) = length (alu_port (wb_ports e.2))).
      by rewrite length_fmap, Q.
    + change (length (port.sync <$> mul_port (wb_ports p)) = length (mul_port (wb_ports e.2))).
      by rewrite length_fmap, Q.
Qed.

(** *** Reset and construction *)
Lemma reset_pairs s t : cycle_start.reset s = Ok t -> same_pairs s t.
Proof.
  unfold cycle_start.reset, cycle_start.reset_components. intros H.
  apply bind_Ok in H as (r & _ & H). apply bind_Ok in H as (u & U & H). apply ok_inj in H as <-.
  apply bind_Ok in U as (c & _ & U). apply bind_Ok in U as (n & _ & U). apply ok_inj in U as <-.
  split.
  - change (length (port.sync <$> (port.reset <$> (port.sync <$> (cycle_start.port_all <$> alu_port (wb_ports s))))) =
            length (alu_port (wb_ports s))). by rewrite !length_fmap.
  - change (length (port.sync <$> (port.reset <$> (port.sync <$> (cycle_start.port_all <$> mul_port (wb_ports s))))) =
            length (mul_port (wb_ports s))). by rewrite !length_fmap.
Qed.
Lemma create_paired sf rf junk s : cycle_start.create sf rf junk = Ok s -> paired s.
Proof.
  unfold cycle_start.create. intros H. apply bind_Ok in H as (r & _ & H).
  apply bind_Ok in H as (c & _ & H). apply bind_Ok in H as (n & _ & H). apply bind_Ok in H as (t & _ & H).
  apply bind_Ok in H as (u & _ & H). apply reset_pairs in H. by apply (paired_same _ _ H).
Qed.
Lemma reachable_paired s : reachable s -> paired s.
Proof.
  induction 1 as [sf rf junk s H | s t _ IH H | buf s t _ IH H | s t _ IH H].
  - by eapply create_paired.
  - apply (paired_same s), IH. by apply reset_pairs.
  - unfold load in H. apply bind_Ok in H as ([] & _ & H). apply bind_Ok in H as (b & _ & H).
    apply ok_inj in H as <-. exact IH.
  - apply (paired_same s), IH. by apply run_pairs.
Qed.


(** ** C2
    A cycle of the whole machine, from any state it reaches, in which the
    commit stage asks for a flush: for an exception, an interrupt, a jump that
    was not predicted as it went, or a load that has to be repeated.  After the
    clock no register or queue between the stages, no issue queue, execute unit
    or port holds an instruction, and no stage waits; the alias tables, the
    register file, the reorder buffer, the free list, the checkpoints and the
    store buffer are those the commit stage left, clocked once, whatever the
    units and stages that ran after it in the cycle held; and the fetch goes on
    at the handler of the exception, or else at the target of the jump, or else
    where it was. *)
Theorem flush_restarts s cf t s' :
  reachable s -> commits s cf t -> commit_feedback.flush cf = true -> run s = Ok s' ->
  emptied s' /\ untouched t s' /\
  fetch_pc s' = (if commit_feedback.has_exception cf then commit_feedback.exception_pc cf
                 else if commit_feedback.jump_enable cf then commit_feedback.jump_next_pc cf
                 else fetch_pc s).
Proof.
  intros R C F H. apply reachable_paired in R. destruct (flush_run s cf t s' R C F H) as (E & U & P).
  split_and!; [exact E | exact U |]. rewrite P. unfold redirect_target. by rewrite F.
Qed.

Lemma reachable_run_n n : forall s t, reachable s -> run_n n s = Ok t -> reachable t.
Proof.
  induction n as [| n IH]; intros s t R H; [by injection H as <- |].
  apply bind_Ok in H as (u & U & H). apply (IH u); [by eapply reach_run | exact H].
Qed.

(** An unassigned instruction word as the program: in the twelfth cycle it
    reaches the head of the reorder buffer, and the trap is taken. *)
#[local] Abbreviation demo_start :=
  (c ← cycle_start.create [] [] [0; 0; 0; 0]; load [255; 255; 255; 255] c).
Definition commit_stage (s : cycle_model_t) : outcome (commit_feedback_t * cycle_model_t) :=
  s0 ← run_pre s; x ← run_sau flush_feedback.init false true s0; run_commit x.2.
(** After [n] cycles, the next one takes a trap to address 0. *)
Definition traps_after (n : nat) (start : outcome cycle_model_t) : bool :=
  match s ← start; run_n n s with
  | Ok s =>
      match commit_stage s, run s with
      | Ok ct, Ok s' =>
          commit_feedback.flush ct.1 && commit_feedback.has_exception ct.1 &&
          (commit_feedback.exception_pc ct.1 =? 0) && negb (fetch_pc s =? 0)
      | _, _ => false
      end
  | _ => false
  end.
Lemma traps_after_spec n start : traps_after n start = true -> (forall s, start = Ok s -> reachable s) ->
  exists s cf t s', reachable s /\ commits s cf t /\ run s = Ok s' /\
  commit_feedback.flush cf = true /\ commit_feedback.has_exception cf = true /\
  commit_feedback.exception_pc cf = 0 /\ fetch_pc s <> 0.
Proof.
  unfold traps_after. intros D HR. destruct start as [l | | |]; try discriminate D.
  specialize (HR l eq_refl). cbn [mbind outcome_bind] in D.
  destruct (run_n n l) as [s | | |] eqn:S; try discriminate D.
  destruct (commit_stage s) as [[cf t] | | |] eqn:C; try discriminate D.
  destruct (run s) as [s' | | |] eqn:R; try discriminate D.
  apply andb_true_iff in D as [D D4]. apply andb_true_iff in D as [D D3]. apply andb_true_iff in D as [D1 D2].
  exists s, cf, t, s'. split; [by eapply reachable_run_n |]. split.
  - unfold commit_stage in C. apply bind_Ok in C as (s0 & P & C). apply bind_Ok in C as (x & X & C).
    exists s0, x. split; [exact P |]. split; [exact X | exact C].
  - cbn [fst] in *. apply Z.eqb_eq in D3. apply negb_true_iff, Z.eqb_neq in D4. by split_and!.
Qed.
Lemma demo_reachable s : demo_start = Ok s -> reachable s.
Proof.
  intros H. apply bind_Ok in H as (c & C & L). eapply reach_load; [| exact L]. by eapply reach_create.
Qed.
Lemma demo_traps : traps_after 11 demo_start = true.
Proof. vm_cast_no_check (eq_refl true). Qed.
Lemma flush_restarts_witness :
  exists s s', reachable s /\ run s = Ok s' /\ fetch_pc s <> 0 /\ emptied s' /\ fetch_pc s' = 0.
Proof.
  destruct (traps_after_spec 11 demo_start demo_traps demo_reachable) as (s & cf & t & s' & R & C & H & F & X & P & N). exists s, s'.
  destruct (flush_restarts s cf t s' R C F H) as (E & _ & Q). rewrite X, P in Q. by split_and!.
Defined.
