(* ===== verification/CycleType.v ===== *)
(** * The union in a micro-operation is read as it was written

    [typed]: the member of the union [sub_op] is the one of [op_unit].  What
    decode makes is typed, the load/store issue stage keeps it so when it cuts
    a store in two, and the execute units read no other member. *)

From S2P Require Import Prelude Word Ops IsaDecode IsaModel Csr Dff Rat CycleDecode CyclePack.
From S2P Require Import CycleCsr CycleExec LoadStore Rob CycleRename CycleIssue CycleLsuIssue.

Import decode_rename decode.
Implicit Type u : decode_rename.pack_t.

Definition matching (x : cop_unit.op_unit_t) (s : csub_op_t) : bool :=
  match x, s with
  | cop_unit.alu, sub_alu_op _ | cop_unit.bru, sub_bru_op _ | cop_unit.csr, sub_csr_op _
  | cop_unit.div, sub_div_op _ | cop_unit.mul, sub_mul_op _ | cop_unit.lu, sub_lu_op _
  | cop_unit.sau, sub_sau_op _ | cop_unit.sdu, sub_sdu_op _ => true
  | _, _ => false
  end.
Definition typed u : Prop := valid u = true -> matching (op_unit u) (sub_op u) = true.

(** ** Decode *)
Definition decodes_to u : Prop := typed u /\ op_unit u <> cop_unit.sau.

Lemma switch_typed f s u : switch_opcode f s = Ok u -> decodes_to u \/ valid u = false.
Proof.
  destruct s as [? ? v]. intros H. unfold switch_opcode in H. cbv zeta in H.
  repeat match type of H with (if ?c then _ else _) = _ => destruct c end;
  unfold case_lui, case_auipc, case_jal, case_jalr, case_branch, case_load, case_store, case_op_imm, case_op,
    case_fence, case_system, case_system_priv in H; cbv zeta in H;
  repeat match type of H with
  | (sign_extend ?a ?b ≫= _) = _ => destruct (sign_extend a b); cbn [mbind outcome_bind] in H; try discriminate H
  end;
  apply (f_equal (λ x, match x with Ok u => u | _ => u end)) in H; subst u;
  repeat match goal with |- context [if ?c then _ else _] => destruct c end;
  (by right) || (left; by split).
Qed.
Lemma finish_typed w exc id ev u : decodes_to u \/ valid u = false -> decodes_to (finish w exc id ev (fix_unit u)).
Proof.
  destruct u as [? ? v]. unfold fix_unit, decodes_to, typed. cbn.
  intros [[T N] | ->]; [destruct v |]; by split.
Qed.
Lemma op_info_typed {B I} (r : fetch2_decode.pack_t B I) l : op_info r = Ok l -> Forall decodes_to l.
Proof.
  unfold op_info. destruct (fetch2_decode.enable r); intros H.
  - apply bind_Ok in H as (u & S & H). injection H as <-. apply Forall_cons. split.
    + by apply finish_typed, (switch_typed _ _ _ S).
    + by repeat constructor.
  - injection H as <-. by repeat constructor.
Qed.

(** ** The two halves of a store *)
Lemma part_typed i both x u : typed u -> valid u = true -> (i = 0 \/ op_unit u = cop_unit.sdu) ->
  exists u', lsu_issue.part i both x u = Ok u' /\ typed u' /\
    op_unit u' = (if i =? 1 then cop_unit.sau else op_unit u).
Proof.
  intros T V D. unfold lsu_issue.part. destruct (i =? 1) eqn:E1; [| by destruct (i =? 2); eexists].
  destruct D as [-> | D]; [done |]. specialize (T V). rewrite D in T.
  destruct (sub_op u); try discriminate T. by eexists.
Qed.

(** ** The execute units *)
Definition unread {T} (x : outcome T) : Prop := safe (λ _, True) x.
Lemma defined {T} (x : outcome T) : unread x -> x <> Undef.
Proof. by destruct x. Qed.
Section units.
Context (p : rev_t) (T : typed (readreg_execute.uop p)).

Lemma check_typed {A} x (k : outcome A) :
  (readreg_execute.valid p = true -> matching x (sub_op (readreg_execute.uop p)) = true -> unread k) ->
  unread (unit_stage.check_valid_unit x p ;; k).
Proof using T.
  intros H. unfold unit_stage.check_valid_unit.
  destruct (readreg_execute.valid p) eqn:V; [| done]. cbn [verify mbind outcome_bind].
  destruct (bool_decide _) eqn:E; [| done]. apply bool_decide_eq_true_1 in E. apply H; [done |].
  rewrite <- E. exact (T V).
Qed.
Lemma alu_typed : unread (alu.compute p).
Proof using T.
  unfold alu.compute, unit_stage.check_unit. destruct (readreg_execute.enable p); [| done].
  destruct (bool_decide _) eqn:E; [| done]. apply bool_decide_eq_true_1 in E.
  cbn [verify mbind outcome_bind andb]. destruct (negb (readreg_execute.has_exception p)); [| done].
  destruct (readreg_execute.valid p) eqn:V; [| done]. cbn [negb].
  specialize (T V). rewrite E in T. by destruct (sub_op _).
Qed.
Lemma mul_typed : unread (mul.compute p).
Proof using T.
  unfold mul.compute. destruct (readreg_execute.enable p); [| done].
  apply check_typed. intros _ M. by destruct (sub_op _).
Qed.
Lemma div_typed s : unread (div.compute p s).
Proof using T.
  unfold div.compute. destruct (readreg_execute.enable p); [| done].
  apply check_typed. intros _ M. by destruct (sub_op _).
Qed.
Lemma mepc_read f : unread (cycle_csrfile.read_sys bru.CSR_MEPC f).
Proof using.
  unfold cycle_csrfile.read_sys, cycle_csrfile.found, cycle_csrfile.item.
  destruct (cycle_csrfile.csr_map_table f !! _); [| done]. by rewrite bool_decide_eq_true_2.
Qed.
Lemma bru_typed f : unread (bru.compute f p).
Proof using T.
  unfold bru.compute. cbv zeta. eapply safe_bind with (P := λ _, True); [| done].
  destruct (readreg_execute.enable p); [| done].
  apply check_typed. intros _ M. destruct (sub_op _) as [| o | | | | | |]; try discriminate M.
  cbn [csub_op.get_bru_op mbind outcome_bind].
  destruct o; try done. cbn [bru.result]. eapply safe_bind; [apply mepc_read | done].
Qed.
Lemma csr_typed f b : unread (csr_unit.compute f b p).
Proof using T.
  unfold csr_unit.compute. destruct (readreg_execute.enable p); [| done].
  apply check_typed. intros _ M. cbv zeta. destruct (_ && bool_decide _); [done |].
  destruct (negb _); [| done]. destruct (sub_op _); try discriminate M.
  cbn [csub_op.get_csr_op mbind outcome_bind]. by destruct (negb _).
Qed.
(** The operations of the three units behind the load/store queue. *)
Lemma lsu_typed : readreg_execute.valid p = true ->
  match op_unit (readreg_execute.uop p) with
  | cop_unit.lu => exists o, csub_op.get_lu_op (sub_op (readreg_execute.uop p)) = Ok o
  | cop_unit.sau => exists o, csub_op.get_sau_op (sub_op (readreg_execute.uop p)) = Ok o
  | cop_unit.sdu => exists o, csub_op.get_sdu_op (sub_op (readreg_execute.uop p)) = Ok o
  | _ => True
  end.
Proof using T.
  intros V. specialize (T V). destruct (op_unit _), (sub_op _); try discriminate T; by try eexists.
Qed.
End units.
