(* ===== verification/CycleIssueSpec.v ===== *)
(** * The issue stages send the oldest instruction that can go

    Both stages look for it with a loop over the slots of their queue that
    keeps the oldest so far; [oldest] is what such a loop finds.  When an
    instruction can go is said here apart from the tests of the code:
    [integer_ready] and [lsu_ready], over the numbers of the instructions in
    program order ([in_order]). *)

From S2P Require Import Prelude Word Ops IsaDecode Dff Fifo FifoSpec Rat AgeSpec CycleDecode CyclePack.
From S2P Require Import LoadStore Rob CycleRename CycleDispatch CycleLsu CycleExec CycleIssue CycleLsuIssue.

Abbreviation selected_t := integer_issue.selected_t.

(** ** The loop *)
Section oldest.
Context {T : Type} (age : T -> age_t) (L : list T) (ok : nat -> T -> bool).
(** The instructions are numbered in program order; all that are looked at are
    in the ROB together. *)
Context (sz : Z) (num : nat -> Z).
Definition numbered : Prop :=
  0 < sz /\
  (forall k x, L !! k = Some x -> ok k x = true -> age x = age_at sz (num k)) /\
  (forall k k' x x', L !! k = Some x -> ok k x = true -> L !! k' = Some x' -> ok k' x' = true ->
     num k - num k' < sz).

(** Of the first [n] slots. *)
Definition oldest (n : nat) (sel : selected_t) : Prop :=
  match sel with
  | None => forall k x, (k < n)%nat -> L !! k = Some x -> ok k x = false
  | Some (j, a) =>
      exists k x, j = Z.of_nat k /\ (k < n)%nat /\ L !! k = Some x /\ ok k x = true /\ a = age x /\
        forall k' x', (k' < n)%nat -> L !! k' = Some x' -> ok k' x' = true -> num k <= num k'
  end.
Definition step (k : nat) (x : T) (sel : selected_t) : selected_t :=
  if ok k x && integer_issue.older_than_selected (age x) sel then Some (Z.of_nat k, age x) else sel.

Lemma oldest_step n x sel : numbered -> L !! n = Some x -> oldest n sel -> oldest (S n) (step n x sel).
Proof.
  intros (Hsz & Ha & Hw) Hx H. unfold step. destruct (ok n x) eqn:O; cbn [andb].
  - destruct sel as [[j a] |]; cbn [integer_issue.older_than_selected oldest] in *.
    + destruct H as (k & y & -> & Hk & Hy & Oy & -> & Hmin).
      assert (E : age_compare.gt (age x) (age y) = (num n <? num k)).
      { rewrite (Ha n x Hx O), (Ha k y Hy Oy). apply age_order; [done |].
        pose proof (Hw n k x y Hx O Hy Oy). pose proof (Hw k n y x Hy Oy Hx O). lia. }
      rewrite E. destruct (num n <? num k) eqn:F; cbn.
      * exists n, x. split_and!; try done; [lia |]. intros k' x' Hk' Hx' O'.
        destruct (decide (k' = n)) as [-> |]; [lia |]. assert (num k <= num k') by (eapply Hmin; [lia | done..]). lia.
      * exists k, y. split_and!; try done; [lia |]. intros k' x' Hk' Hx' O'.
        destruct (decide (k' = n)) as [-> |]; [lia |]. eapply Hmin; [lia | done..].
    + exists n, x. split_and!; try done; [lia |]. intros k' x' Hk' Hx' O'.
      destruct (decide (k' = n)) as [-> |]; [lia |]. rewrite (H k' x') in O'; [done | lia | done].
  - destruct sel as [[j a] |]; cbn [oldest] in *.
    + destruct H as (k & y & -> & Hk & Hy & Oy & -> & Hmin). exists k, y. split_and!; try done; [lia |].
      intros k' x' Hk' Hx' O'. destruct (decide (k' = n)) as [-> |]; [congruence |]. eapply Hmin; [lia | done..].
    + intros k' x' Hk' Hx'. destruct (decide (k' = n)) as [-> |]; [congruence |]. apply (H k'); [lia | done].
Qed.
Lemma oldest_end n sel : oldest n sel -> (length L <= n)%nat -> oldest (length L) sel.
Proof.
  intros H Hn. destruct sel as [[j a] |]; cbn [oldest] in *.
  - destruct H as (k & y & -> & Hk & Hy & Oy & -> & Hmin). exists k, y. split_and!; try done.
    + by apply lookup_lt_Some in Hy.
    + intros k' x' Hk' Hx' O'. apply (Hmin k' x'); [lia | done..].
  - intros k x Hk Hx. apply (H k x); [lia | done].
Qed.
End oldest.
Lemma numbered_weaken {T} (age : T -> age_t) L (ok ok' : nat -> T -> bool) sz num :
  (forall k x, L !! k = Some x -> ok' k x = true -> ok k x = true) ->
  numbered age L ok sz num -> numbered age L ok' sz num.
Proof. intros H (Hsz & Ha & Hw). split_and!; [done | eauto | eauto 8]. Qed.
Lemma drop_cons {T} n (L : list T) x l : drop n L = x :: l -> L !! n = Some x /\ drop (S n) L = l.
Proof.
  intros H. split.
  - by rewrite <- (Nat.add_0_r n), <- lookup_drop, H.
  - apply (f_equal (drop 1)) in H. rewrite drop_drop in H. cbn in H. by rewrite Nat.add_1_r in H.
Qed.

(** The valid bit of a slot. *)
Definition valid_bit (q : ooo_issue_queue.queue_t op_info_t) (k : nat) : bool :=
  match ooo_issue_queue.is_valid (Z.of_nat k) q with Ok b => b | _ => false end.

(** ** The queue in program order, and what "can go" means *)
Definition occupied (q : ooo_issue_queue.queue_t op_info_t) (k : nat) : Prop :=
  exists d, ooo_issue_queue.valid q !! k = Some d /\ dff.get d = true.
Lemma occupied_valid_bit q k : occupied q k <-> valid_bit q k = true.
Proof.
  unfold occupied, valid_bit, ooo_issue_queue.is_valid, tget, arr_get.
  replace (Z.of_nat k <? 0) with false by lia. rewrite Nat2Z.id.
  destruct (ooo_issue_queue.valid q !! k) as [d |]; cbn; [| naive_solver].
  split; [by intros (? & [= <-] & ?) | by eexists].
Qed.

Lemma both_iff (A B C D : Prop) : (A <-> B) -> (C <-> D) -> (A /\ C <-> B /\ D).
Proof. tauto. Qed.

Section order.
Context {T : Type} (age : T -> age_t) (L : list T) (q : ooo_issue_queue.queue_t op_info_t).
Context (bru : bru_feedback_t) (sau : sau_feedback_t).
Context (sz : Z) (num : nat -> Z) (nb ns : Z).

(** [num] numbers the instructions in the occupied slots in program order, [nb]
    and [ns] are the numbers of the branch and of the load a flush is for; all
    of them are in the ROB together. *)
Definition in_rob (n : Z) (a : age_t) : Prop :=
  a = age_at sz n /\ forall k x, L !! k = Some x -> occupied q k -> - sz < num k - n < sz.
Record in_order : Prop := {
  io_size : 0 < sz;
  io_slots : forall k x, L !! k = Some x -> occupied q k -> in_rob (num k) (age x);
  io_bru : flush_feedback.flush bru = true -> in_rob nb (flush_feedback.age bru);
  io_sau : flush_feedback.flush sau = true -> in_rob ns (flush_feedback.age sau)
}.
(** Not younger than the branch, older than the load. *)
Definition survives (k : nat) : Prop :=
  (flush_feedback.flush bru = true -> num k <= nb) /\ (flush_feedback.flush sau = true -> num k < ns).

(** The oldest of the slots with the property [P]. *)
Definition oldest_of (P : nat -> T -> Prop) (sel : selected_t) : Prop :=
  match sel with
  | None => forall k x, L !! k = Some x -> ~ P k x
  | Some (j, a) =>
      exists k x, j = Z.of_nat k /\ L !! k = Some x /\ P k x /\ a = age x /\
        forall k' x', L !! k' = Some x' -> P k' x' -> num k <= num k'
  end.
Lemma oldest_meaning ok (P : nat -> T -> Prop) sel :
  (forall k x, L !! k = Some x -> ok k x = true <-> P k x) ->
  oldest age L ok num (length L) sel -> oldest_of P sel.
Proof using.
  intros H. destruct sel as [[j a] |]; cbn [oldest oldest_of].
  - intros (k & x & -> & Hk & Hx & O & -> & Hmin). exists k, x. split_and!; try done; [by apply (H k x Hx) |].
    intros k' x' Hx' HP. apply (Hmin k' x'); [by apply lookup_lt_Some in Hx' | done | by apply (H k' x' Hx')].
  - intros Hn k x Hx HP. apply (H k x Hx) in HP. rewrite (Hn k x) in HP; [done | by apply lookup_lt_Some in Hx | done].
Qed.
Lemma in_order_numbered (ok : nat -> T -> bool) :
  (forall k x, ok k x = true -> valid_bit q k = true) -> in_order -> numbered age L ok sz num.
Proof using.
  intros Hok [Hsz Hs _ _]. split; [done | split].
  - intros k x Hx O. by apply (Hs k x Hx), occupied_valid_bit, (Hok k x).
  - intros k k' x x' Hx O Hx' O'.
    destruct (Hs k' x' Hx' ltac:(by apply occupied_valid_bit, (Hok k' x'))) as [_ W].
    specialize (W k x Hx ltac:(by apply occupied_valid_bit, (Hok k x))). lia.
Qed.

Section slot.
Context (k : nat) (x : T) (Hx : L !! k = Some x) (Ho : occupied q k) (H : in_order).
Lemma survives_older :
  (negb (flush_feedback.flush bru) || age_compare.ge (age x) (flush_feedback.age bru)) &&
  (negb (flush_feedback.flush sau) || age_compare.gt (age x) (flush_feedback.age sau)) = true <-> survives k.
Proof using Hx Ho H.
  destruct H as [Hsz Hs Hb Ha]. destruct (Hs k x Hx Ho) as [Ea _]. unfold survives. rewrite andb_true_iff, Ea.
  apply both_iff.
  - destruct (flush_feedback.flush bru); cbn [negb orb]; [| done]. destruct (Hb eq_refl) as [-> W].
    destruct (age_order sz Hsz (num k) nb (W k x Hx Ho)) as (_ & _ & _ & _ & _ & ->). split; [lia | intros G; specialize (G eq_refl); lia].
  - destruct (flush_feedback.flush sau); cbn [negb orb]; [| done]. destruct (Ha eq_refl) as [-> W].
    destruct (age_order sz Hsz (num k) ns (W k x Hx Ho)) as (_ & -> & _). split; [lia | intros G; specialize (G eq_refl); lia].
Qed.
Lemma survives_squashed : squashed bru sau (age x) = false <-> survives k.
Proof using Hx Ho H.
  destruct H as [Hsz Hs Hb Ha]. destruct (Hs k x Hx Ho) as [Ea _]. unfold squashed, survives.
  rewrite orb_false_iff, Ea. apply both_iff.
  - destruct (flush_feedback.flush bru); cbn [andb]; [| done]. destruct (Hb eq_refl) as [-> W].
    destruct (age_order sz Hsz (num k) nb (W k x Hx Ho)) as (-> & _). split; [lia | intros G; specialize (G eq_refl); lia].
  - destruct (flush_feedback.flush sau); cbn [andb]; [| done]. destruct (Ha eq_refl) as [-> W].
    destruct (age_order sz Hsz (num k) ns (W k x Hx Ho)) as (_ & _ & _ & _ & -> & _). split; [lia | intros G; specialize (G eq_refl); lia].
Qed.
End slot.
End order.

(** A load that is turned away takes the instructions in the last window of an
    operand with it. *)
Definition not_turned_away (lu : lu_feedback_t) (a b : src_t) : Prop :=
  lu_feedback.replay lu = true ->
  Z.testbit (issue_src.lpv a) 0 = false /\ Z.testbit (issue_src.lpv b) 0 = false.
Lemma last_bit v : negb (Z.land v 1 =? 0) = Z.testbit v 0.
Proof.
  change 1 with (Z.ones 1). rewrite Z.land_ones, Z.bit0_odd, Zmod_odd by lia. by destruct (Z.odd v).
Qed.
Lemma turned_away_bits lu a b :
  negb (lu_feedback.replay lu && (negb (Z.land (issue_src.lpv a) 1 =? 0) || negb (Z.land (issue_src.lpv b) 1 =? 0)))
    = true <-> not_turned_away lu a b.
Proof.
  unfold not_turned_away. rewrite !last_bit, negb_true_iff, andb_false_iff, orb_false_iff.
  destruct (lu_feedback.replay lu); naive_solver.
Qed.

(** ** Integer issue *)
Section integer.
Context (bru : bru_feedback_t) (lu : lu_feedback_t) (sau : sau_feedback_t).
Implicit Type s : integer_issue_t.

(** An instruction port [i] could send. *)
Definition can_go (i mask : Z) (port : integer_issue.slot_t) (q : ooo_issue_queue.queue_t op_info_t)
  (k : nat) (x : integer_issue.slot_t) : bool :=
  integer_issue.candidate bru sau i mask (valid_bit q k) x && negb (integer_issue.skipped lu port x).
Lemma select_oldest sz num i mask port q L : numbered integer_issue.slot_age L (can_go i mask port q) sz num ->
  forall l n sel sel', drop n L = l -> oldest integer_issue.slot_age L (can_go i mask port q) num n sel ->
  integer_issue.select bru lu sau i mask port q (Z.of_nat n) l sel = Ok sel' ->
  oldest integer_issue.slot_age L (can_go i mask port q) num (length L) sel'.
Proof using.
  intros Hn l. induction l as [| x l IH]; intros n sel sel' Hl Ho H.
  - injection H as <-. apply (oldest_end _ _ _ num n); [done |].
    apply (f_equal length) in Hl. rewrite length_drop in Hl. cbn in Hl. lia.
  - destruct (drop_cons _ _ _ _ Hl) as [Hx Hl'].
    cbn [integer_issue.select] in H. apply bind_Ok in H as (v & V & H).
    replace (Z.of_nat n + 1) with (Z.of_nat (S n)) in H by lia.
    eapply IH; [exact Hl' | | exact H].
    pose proof (oldest_step _ _ _ sz num n x sel Hn Hx Ho) as St. unfold step, can_go, valid_bit in St |- *.
    rewrite V in St. rewrite <- andb_assoc, (andb_comm (integer_issue.older_than_selected _ _)), andb_assoc.
    exact St.
Qed.

(** What a port is given for a selected slot. *)
Definition sends s (sel : selected_t) (o : issue_readreg.op_info_t) : Prop :=
  match sel with
  | None => o = issue_readreg.init
  | Some (j, _) =>
      exists r x, fifo.customer_get_item j (ooo_issue_queue.base (integer_issue.issue_q s)) = Ok r /\
        arr_get (integer_issue.slots s) j = Ok x /\ o = issue_readreg.mk r (integer_issue.send_lpv lu x)
  end.
(** The slots after an instruction has left: what its operands wait for is as
    before. *)
Definition same_slots s s' : Prop :=
  ooo_issue_queue.base (integer_issue.issue_q s') = ooo_issue_queue.base (integer_issue.issue_q s) /\
  forall j x', arr_get (integer_issue.slots s') j = Ok x' ->
    exists x, arr_get (integer_issue.slots s) j = Ok x /\
      integer_issue.send_lpv lu x' = integer_issue.send_lpv lu x.
Lemma queue_pop_base (q q' : ooo_issue_queue.queue_t op_info_t) (c : bool) j :
  (if c then ooo_issue_queue.pop j q else Ok q) = Ok q' -> ooo_issue_queue.base q' = ooo_issue_queue.base q.
Proof using.
  destruct c; [| by intros [= ->]]. unfold ooo_issue_queue.pop. intros H.
  apply bind_Ok in H as (b & _ & H). apply bind_Ok in H as (u & _ & H). apply bind_Ok in H as (v & _ & H).
  by injection H as <-.
Qed.
Lemma send_one_spec sel s x : integer_issue.send_one lu sel s = Ok x -> sends s sel x.1 /\ same_slots s x.2.
Proof using.
  unfold integer_issue.send_one. destruct sel as [[j a] |]; intros H.
  - apply bind_Ok in H as (r & R & H). apply bind_Ok in H as (y & Y & H).
    apply bind_Ok in H as (q & Q & H). apply bind_Ok in H as (l & U & H). injection H as <-.
    split; [by exists r, y |]. apply queue_pop_base in Q. split; [exact Q |]. cbn [snd integer_issue.slots].
    unfold arr_update in U. rewrite Y in U. cbn [mbind outcome_bind] in U.
    intros k z Z. change (arr_get l k = Ok z) in Z. rewrite (arr_get_set _ _ _ _ k U) in Z.
    destruct (k =? j) eqn:E; [| by exists z]. apply Z.eqb_eq in E as ->. injection Z as <-. by exists y.
  - injection H as <-. split; [done |]. split; [done |]. intros k z Z. by exists z.
Qed.
Lemma sends_same s s' sel o : same_slots s s' -> sends s' sel o -> sends s sel o.
Proof using.
  destruct sel as [[j a] |]; [| done]. intros [B H] (r & x & R & X & ->).
  destruct (H j x X) as (y & Y & ->). exists r, y. by rewrite <- B.
Qed.
Lemma run_output_spec s x : integer_issue.run_output bru lu sau false s = Ok x ->
  exists sel0 sel1 o0 o1,
    integer_issue.select_port bru lu sau 0 s = Ok sel0 /\ integer_issue.select_port bru lu sau 1 s = Ok sel1 /\
    port.get_new (integer_issue.integer_issue_readreg_port x.2) = [o0; o1] /\
    sends s sel0 o0 /\ sends s sel1 o1.
Proof using.
  unfold integer_issue.run_output. cbn [negb]. intros H.
  apply bind_Ok in H as (sel0 & S0 & H). apply bind_Ok in H as (sel1 & S1 & H).
  apply bind_Ok in H as (o0 & O0 & H). apply bind_Ok in H as (o1 & O1 & H).
  apply bind_Ok in H as (w0 & _ & H). apply bind_Ok in H as (w1 & _ & H).
  apply bind_Ok in H as (t0 & _ & H). apply bind_Ok in H as (t1 & _ & H). injection H as <-.
  apply send_one_spec in O0 as [O0 P0]. apply send_one_spec in O1 as [O1 _].
  exists sel0, sel1, o0.1, o1.1. split_and!; try done. by eapply sends_same.
Qed.
Lemma can_go_numbered sz num i mask port q L :
  numbered integer_issue.slot_age L (λ k _, valid_bit q k) sz num ->
  numbered integer_issue.slot_age L (can_go i mask port q) sz num.
Proof using.
  apply numbered_weaken. intros k x _. unfold can_go, integer_issue.candidate.
  by destruct (valid_bit q k).
Qed.
Lemma select_port_spec sz num i mask port s sel :
  integer_issue.unit_mask i s = Ok mask -> arr_get (integer_issue.slots s) i = Ok port ->
  numbered integer_issue.slot_age (integer_issue.slots s) (can_go i mask port (integer_issue.issue_q s)) sz num ->
  integer_issue.select_port bru lu sau i s = Ok sel ->
  oldest integer_issue.slot_age (integer_issue.slots s) (can_go i mask port (integer_issue.issue_q s)) num
    (length (integer_issue.slots s)) sel.
Proof using.
  unfold integer_issue.select_port. intros -> -> N H. cbn [mbind outcome_bind] in H.
  eapply (select_oldest sz num i mask port _ _ N (integer_issue.slots s) 0 None);
    [done | intros k x Hk; lia | exact H].
Qed.

(** *** Without the code's tests *)
Definition is_idle (l : list integer_issue.unit_t) (i : Z) : Prop :=
  exists u, l !! Z.to_nat i = Some u /\ integer_issue.idle u = true.
(** The unit the instruction is for is free at port [i]; the bits of
    [op_unit_seq] stand for alu, bru, csr, div and mul. *)
Definition unit_free (i : Z) s (x : integer_issue.slot_t) : Prop :=
  let u := Z.testbit (integer_issue.op_unit_seq x) in
  (u 0 = true /\ is_idle (integer_issue.alu_idle s) i) \/
  (u 4 = true /\ is_idle (integer_issue.mul_idle s) i) \/
  (i = 0 /\ u 1 = true /\ is_idle (integer_issue.bru_idle s) 0) \/
  (i = 0 /\ u 2 = true /\ is_idle (integer_issue.csr_idle s) 0) \/
  (i = 1 /\ u 3 = true /\ is_idle (integer_issue.div_idle s) 0).
Record integer_ready (num : nat -> Z) (nb ns i : Z) s (k : nat) (x : integer_issue.slot_t) : Prop := {
  ir_occupied : occupied (integer_issue.issue_q s) k;
  ir_here : dff.get (integer_issue.issued x) = false;
  ir_port : integer_issue.port_index x = i;
  ir_unit : unit_free i s x;
  ir_src1 : issue_src.ready (integer_issue.src1 x) = true;
  ir_src2 : issue_src.ready (integer_issue.src2 x) = true;
  ir_flush : survives bru sau num nb ns k;
  ir_load : not_turned_away lu (integer_issue.src1 x) (integer_issue.src2 x)
}.
(** While the load unit stalls, a port sends nothing if an operand of the slot
    with the number of the port depends on a load. *)
Definition held_up (i : Z) s : Prop :=
  lu_feedback.stall lu = true /\ exists y, integer_issue.slots s !! Z.to_nat i = Some y /\
    (issue_src.lpv (integer_issue.src1 y) <> 0 \/ issue_src.lpv (integer_issue.src2 y) <> 0).

Definition idle_set (l : list integer_issue.unit_t) (i : Z) : bool :=
  match l !! Z.to_nat i with Some u => integer_issue.idle u | None => false end.
Lemma idle_bit_spec l i k m : 0 <= i -> integer_issue.idle_bit l i k = Ok m ->
  m = shl32 (b2z (idle_set l i)) k /\ (idle_set l i = true <-> is_idle l i).
Proof using.
  intros Hi H. apply bind_Ok in H as (u & U & H). injection H as <-. apply arr_get_Some in U as [_ U].
  unfold idle_set, is_idle. rewrite U. split; [done |]. split; [by eexists | by intros (? & [= <-] & ?)].
Qed.
Lemma land_small x m : 0 <= m < 32 ->
  negb (Z.land x m =? 0) = existsb (λ k, Z.testbit x k && Z.testbit m k) [0; 1; 2; 3; 4].
Proof using.
  intros Hm. apply eq_true_iff_eq. rewrite negb_true_iff, Z.eqb_neq, existsb_exists. split.
  - intros H. destruct (existsb (λ k, Z.testbit x k && Z.testbit m k) [0; 1; 2; 3; 4]) eqn:E.
    { by apply existsb_exists in E. }
    destruct H. apply Z.bits_inj'. intros k Hk. rewrite Z.land_spec, Z.bits_0.
    destruct (Z.lt_ge_cases k 5) as [L | L]; [| by rewrite (testbit_high 5 m k), andb_false_r by lia].
    apply not_true_iff_false. intros G. apply not_true_iff_false in E. apply E, existsb_exists.
    exists k. split; [cbn; lia | done].
  - intros (k & _ & H) E. by rewrite <- Z.land_spec, E, Z.bits_0 in H.
Qed.
(** The mask of four units, bit by bit. *)
Lemma mask_bits (a b c d e : bool) :
  let m := Z.lor (Z.lor (Z.lor (shl32 (b2z a) 0) (shl32 (b2z e) 4)) (shl32 (b2z c) 2)) (Z.lor (shl32 (b2z b) 1) (shl32 (b2z d) 3)) in
  0 <= m < 32 /\ Z.testbit m 0 = a /\ Z.testbit m 1 = b /\ Z.testbit m 2 = c /\ Z.testbit m 3 = d /\ Z.testbit m 4 = e.
Proof using. destruct a, b, c, d, e; vm_compute; split_and!; congruence. Qed.
Lemma masked x a b c d e :
  negb (Z.land x (Z.lor (Z.lor (Z.lor (shl32 (b2z a) 0) (shl32 (b2z e) 4)) (shl32 (b2z c) 2))
                    (Z.lor (shl32 (b2z b) 1) (shl32 (b2z d) 3))) =? 0) = true <->
  (Z.testbit x 0 = true /\ a = true) \/ (Z.testbit x 4 = true /\ e = true) \/
  (Z.testbit x 1 = true /\ b = true) \/ (Z.testbit x 2 = true /\ c = true) \/
  (Z.testbit x 3 = true /\ d = true).
Proof using.
  destruct (mask_bits a b c d e) as (Hm & E0 & E1 & E2 & E3 & E4). rewrite land_small by done.
  cbn [existsb]. rewrite E0, E1, E2, E3, E4, !orb_true_iff, !andb_true_iff. intuition congruence.
Qed.
Lemma unit_mask_spec i s mask x : i = 0 \/ i = 1 -> integer_issue.unit_mask i s = Ok mask ->
  negb (Z.land (integer_issue.op_unit_seq x) mask =? 0) = true <-> unit_free i s x.
Proof using.
  intros Hi H. unfold integer_issue.unit_mask in H.
  apply bind_Ok in H as (a & A & H). apply bind_Ok in H as (m & M & H).
  apply idle_bit_spec in A as [-> A]; [| lia]. apply idle_bit_spec in M as [-> M]; [| lia].
  unfold unit_free. rewrite <- A, <- M.
  pose proof (masked (integer_issue.op_unit_seq x) (idle_set (integer_issue.alu_idle s) i)) as K.
  destruct Hi as [-> | ->]; cbn [Z.eqb] in H.
  - apply bind_Ok in H as (c & C & H). apply bind_Ok in H as (b & B & H). injection H as <-.
    apply idle_bit_spec in C as [-> C]; [| lia]. apply idle_bit_spec in B as [-> B]; [| lia].
    rewrite <- C, <- B. specialize (K (idle_set (integer_issue.bru_idle s) 0)
      (idle_set (integer_issue.csr_idle s) 0) false (idle_set (integer_issue.mul_idle s) 0)).
    change (shl32 (b2z false) 3) with 0 in K. rewrite Z.lor_0_r in K. rewrite K. intuition congruence.
  - apply bind_Ok in H as (d & D & H). injection H as <-.
    apply idle_bit_spec in D as [-> D]; [| lia].
    rewrite <- D. specialize (K false false (idle_set (integer_issue.div_idle s) 0) (idle_set (integer_issue.mul_idle s) 1)).
    change (shl32 (b2z false) 1) with 0 in K. change (shl32 (b2z false) 2) with 0 in K.
    rewrite Z.lor_0_l, Z.lor_0_r in K. rewrite K. intuition congruence.
Qed.
Lemma skipped_held i s port x :
  integer_issue.slots s !! Z.to_nat i = Some port -> held_up i s -> integer_issue.skipped lu port x = true.
Proof using.
  intros P (Hs & y & Hy & Hl). rewrite P in Hy. injection Hy as <-.
  unfold integer_issue.skipped. rewrite Hs. apply orb_true_iff. right. cbn [andb].
  destruct (issue_src.lpv (integer_issue.src1 port) =? 0) eqn:E1; [| done].
  destruct (issue_src.lpv (integer_issue.src2 port) =? 0) eqn:E2; [| done]. lia.
Qed.
Lemma can_go_meaning sz num nb ns i mask port s k x : i = 0 \/ i = 1 ->
  integer_issue.unit_mask i s = Ok mask -> integer_issue.slots s !! Z.to_nat i = Some port -> ~ held_up i s ->
  in_order integer_issue.slot_age (integer_issue.slots s) (integer_issue.issue_q s) bru sau sz num nb ns ->
  integer_issue.slots s !! k = Some x ->
  can_go i mask port (integer_issue.issue_q s) k x = true <-> integer_ready num nb ns i s k x.
Proof using.
  intros Hi Hm Hp Hh Ho Hx.
  assert (Es : integer_issue.skipped lu port x =
    lu_feedback.replay lu && (issue_src.last_window (integer_issue.src1 x) || issue_src.last_window (integer_issue.src2 x))).
  { unfold integer_issue.skipped. destruct (lu_feedback.stall lu) eqn:St; [| by rewrite orb_false_r].
    destruct (issue_src.lpv (integer_issue.src1 port) =? 0) eqn:E1.
    2: { destruct Hh. split; [done |]. exists port. split; [done |]. left. lia. }
    destruct (issue_src.lpv (integer_issue.src2 port) =? 0) eqn:E2; [by rewrite orb_false_r |].
    destruct Hh. split; [done |]. exists port. split; [done |]. right. lia. }
  unfold can_go, integer_issue.candidate. rewrite Es. unfold issue_src.last_window.
  rewrite !andb_true_iff, turned_away_bits, (unit_mask_spec i s mask x Hi Hm), negb_true_iff, Z.eqb_eq.
  split.
  - intros [[[[[[[V I] U] P] R1] R2] F] N]. apply occupied_valid_bit in V.
    split; try done. by apply (survives_older integer_issue.slot_age _ _ _ _ sz num nb ns k x Hx V Ho).
  - intros [V I P U R1 R2 F N]. pose proof V as V'. apply occupied_valid_bit in V'. split_and!; try done.
    by apply (survives_older integer_issue.slot_age _ _ _ _ sz num nb ns k x Hx V Ho).
Qed.

(** What leaves for a selected slot: the queued instruction, and the windows of
    its operands, one cycle on unless the load unit stalls. *)
Definition integer_sends s (sel : selected_t) (o : issue_readreg.op_info_t) : Prop :=
  match sel with
  | None => o = issue_readreg.init
  | Some (j, _) =>
      exists d x, fifo.buffer (ooo_issue_queue.base (integer_issue.issue_q s)) !! Z.to_nat j = Some d /\
        integer_issue.slots s !! Z.to_nat j = Some x /\ issue_readreg.info o = dff.get d /\
        forall n, 0 <= n -> Z.testbit (issue_readreg.lpv o) n =
          let m := if lu_feedback.stall lu then n else n + 1 in
          Z.testbit (issue_src.lpv (integer_issue.src1 x)) m || Z.testbit (issue_src.lpv (integer_issue.src2 x)) m
  end.
Lemma sends_meaning s sel o : sends s sel o -> integer_sends s sel o.
Proof using.
  unfold sends, integer_sends. destruct sel as [[j a] |]; [| done].
  intros (r & x & R & X & ->). apply bind_Ok in R as (d & D & R). injection R as <-.
  apply arr_get_Some in D as [_ D]. apply arr_get_Some in X as [_ X].
  exists d, x. split_and!; try done. intros n Hn. cbn [issue_readreg.lpv]. unfold integer_issue.send_lpv.
  destruct (lu_feedback.stall lu); [by rewrite Z.lor_spec |]. rewrite Z.shiftr_spec, Z.lor_spec by done. done.
Qed.

(** A port, as the code chooses for it. *)
Lemma select_port_meaning sz num nb ns i s sel : i = 0 \/ i = 1 ->
  in_order integer_issue.slot_age (integer_issue.slots s) (integer_issue.issue_q s) bru sau sz num nb ns ->
  integer_issue.select_port bru lu sau i s = Ok sel ->
  (held_up i s -> sel = None) /\
  (~ held_up i s -> oldest_of integer_issue.slot_age (integer_issue.slots s) num (integer_ready num nb ns i s) sel).
Proof using.
  intros Hi Ho H. pose proof H as H0. unfold integer_issue.select_port in H0.
  apply bind_Ok in H0 as (mask & M & H0). apply bind_Ok in H0 as (port & P & _).
  pose proof P as P'. apply arr_get_Some in P' as [_ P'].
  pose proof (select_port_spec sz num i mask port s sel M P) as S. split.
  - intros Hh. assert (E : oldest integer_issue.slot_age (integer_issue.slots s)
      (can_go i mask port (integer_issue.issue_q s)) num (length (integer_issue.slots s)) sel).
    { apply S; [| exact H]. eapply in_order_numbered; [| exact Ho]. intros k x C.
      unfold can_go, integer_issue.candidate in C. by destruct (valid_bit _ k). }
    destruct sel as [[j a] |]; [| done]. destruct E as (k & x & _ & _ & _ & C & _).
    unfold can_go in C. rewrite (skipped_held i s port x P' Hh) in C. by rewrite andb_false_r in C.
  - intros Hh. apply (oldest_meaning _ _ num (can_go i mask port (integer_issue.issue_q s))).
    + intros k x Hx. by apply (can_go_meaning sz).
    + apply S; [| exact H]. eapply in_order_numbered; [| exact Ho]. intros k x C.
      unfold can_go, integer_issue.candidate in C. by destruct (valid_bit _ k).
Qed.
End integer.

(** ** Load/store issue *)
Section lsu.
Context (bru : bru_feedback_t) (lu : lu_feedback_t) (sau : sau_feedback_t).
Implicit Type s : lsu_issue_t.

Definition lsu_can_go (i : Z) (q : ooo_issue_queue.queue_t op_info_t) (k : nat) (x : lsu_issue.slot_t) : bool :=
  lsu_issue.eligible bru lu sau (valid_bit q k) x && lsu_issue.suits i x.
Lemma lsu_select_oldest sz num i q L : numbered lsu_issue.slot_age L (lsu_can_go i q) sz num ->
  forall l n sel sel', drop n L = l -> oldest lsu_issue.slot_age L (lsu_can_go i q) num n sel ->
  lsu_issue.select bru lu sau i q (Z.of_nat n) l sel = Ok sel' ->
  oldest lsu_issue.slot_age L (lsu_can_go i q) num (length L) sel'.
Proof using.
  intros Hn l. induction l as [| x l IH]; intros n sel sel' Hl Ho H.
  - injection H as <-. apply (oldest_end _ _ _ num n); [done |].
    apply (f_equal length) in Hl. rewrite length_drop in Hl. cbn in Hl. lia.
  - destruct (drop_cons _ _ _ _ Hl) as [Hx Hl'].
    cbn [lsu_issue.select] in H. apply bind_Ok in H as (v & V & H).
    replace (Z.of_nat n + 1) with (Z.of_nat (S n)) in H by lia.
    eapply IH; [exact Hl' | | exact H].
    pose proof (oldest_step _ _ _ sz num n x sel Hn Hx Ho) as St. unfold step, lsu_can_go, valid_bit in St |- *.
    rewrite V in St. exact St.
Qed.

Lemma lsu_select_none sz num i q L sel : numbered lsu_issue.slot_age L (lsu_can_go i q) sz num ->
  lsu_issue.select bru lu sau i q 0 L None = Ok sel ->
  oldest lsu_issue.slot_age L (lsu_can_go i q) num (length L) sel.
Proof using.
  intros N H. eapply (lsu_select_oldest sz num i q _ N L 0 None); [done | intros k x Hk; lia | exact H].
Qed.
Lemma lsu_can_go_numbered sz num i q L :
  numbered lsu_issue.slot_age L (λ k _, valid_bit q k) sz num ->
  numbered lsu_issue.slot_age L (lsu_can_go i q) sz num.
Proof using.
  apply numbered_weaken. intros k x _. unfold lsu_can_go, lsu_issue.eligible.
  by destruct (valid_bit q k).
Qed.

Definition lsu_sends (i : Z) (both : bool) s (sel : selected_t) (o : issue_readreg.op_info_t) : Prop :=
  match sel with
  | None => o = issue_readreg.init
  | Some (j, _) =>
      exists r x u, fifo.customer_get_item j (ooo_issue_queue.base (lsu_issue.issue_q s)) = Ok r /\
        arr_get (lsu_issue.slots s) j = Ok x /\
        lsu_issue.part i both x (rename_dispatch.uop r) = Ok u /\
        o = issue_readreg.mk { r with rename_dispatch.uop := u } (lsu_issue.send_lpv x)
  end.
Definition lsu_same_slots s s' : Prop :=
  ooo_issue_queue.base (lsu_issue.issue_q s') = ooo_issue_queue.base (lsu_issue.issue_q s) /\
  forall j x', arr_get (lsu_issue.slots s') j = Ok x' ->
    exists x, arr_get (lsu_issue.slots s) j = Ok x /\ lsu_issue.send_lpv x' = lsu_issue.send_lpv x /\
      lsu_issue.sau_part_issued x' = lsu_issue.sau_part_issued x /\
      lsu_issue.sdu_part_issued x' = lsu_issue.sdu_part_issued x.
Lemma lsu_send_one_spec i both sel s x : lsu_issue.send_one i both sel s = Ok x ->
  lsu_sends i both s sel x.1 /\ lsu_same_slots s x.2.
Proof using.
  unfold lsu_issue.send_one. destruct sel as [[j a] |]; intros H.
  - apply bind_Ok in H as (r & R & H). apply bind_Ok in H as (y & Y & H). apply bind_Ok in H as (u & P & H).
    apply bind_Ok in H as (q & Q & H). apply bind_Ok in H as (l & U & H). injection H as <-.
    split; [by exists r, y, u |]. apply queue_pop_base in Q. split; [exact Q |].
    unfold arr_update in U. rewrite Y in U. cbn [mbind outcome_bind] in U.
    intros k z Z. change (arr_get l k = Ok z) in Z. rewrite (arr_get_set _ _ _ _ k U) in Z.
    destruct (k =? j) eqn:E; [| by exists z]. apply Z.eqb_eq in E as ->. injection Z as <-. by exists y.
  - injection H as <-. split; [done |]. split; [done |]. intros k z Z. by exists z.
Qed.
Lemma part_same i both x x' u : lsu_issue.sau_part_issued x' = lsu_issue.sau_part_issued x ->
  lsu_issue.sdu_part_issued x' = lsu_issue.sdu_part_issued x ->
  lsu_issue.part i both x' u = lsu_issue.part i both x u.
Proof using. unfold lsu_issue.part. by intros -> ->. Qed.
Lemma lsu_sends_same i both s s' sel o : lsu_same_slots s s' -> lsu_sends i both s' sel o -> lsu_sends i both s sel o.
Proof using.
  destruct sel as [[j a] |]; [| done]. intros [B H] (r & x & u & R & X & P & ->).
  destruct (H j x X) as (y & Y & -> & S1 & S2). exists r, y, u. rewrite <- B, <- (part_same _ _ _ _ _ S1 S2).
  by split_and!.
Qed.
Lemma lsu_same_trans s s' s'' : lsu_same_slots s s' -> lsu_same_slots s' s'' -> lsu_same_slots s s''.
Proof using.
  intros [B1 H1] [B2 H2]. split; [congruence |]. intros j x'' X. destruct (H2 j x'' X) as (x' & X' & ? & ? & ?).
  destruct (H1 j x' X') as (x & X0 & ? & ? & ?). exists x. split_and!; congruence.
Qed.
Lemma lsu_output_spec s x : lsu_issue.output bru lu sau s = Ok x ->
  exists l a d o0 o1 o2,
    lsu_issue.select bru lu sau 0 (lsu_issue.issue_q s) 0 (lsu_issue.slots s) None = Ok l /\
    lsu_issue.select bru lu sau 1 (lsu_issue.issue_q s) 0 (lsu_issue.slots s) None = Ok a /\
    lsu_issue.select bru lu sau 2 (lsu_issue.issue_q s) 0 (lsu_issue.slots s) None = Ok d /\
    port.get_new (lsu_issue.lsu_issue_readreg_port x.2) = [o0; o1; o2] /\
    lsu_sends 0 false s l o0 /\ lsu_sends 1 false s a o1 /\ lsu_sends 2 (lsu_issue.same_slot a d) s d o2.
Proof using.
  unfold lsu_issue.output. intros H.
  apply bind_Ok in H as (l & L & H). apply bind_Ok in H as (a & A & H). apply bind_Ok in H as (d & D & H).
  apply bind_Ok in H as (o0 & O0 & H). apply bind_Ok in H as (o1 & O1 & H). apply bind_Ok in H as (o2 & O2 & H).
  apply bind_Ok in H as (t0 & _ & H). apply bind_Ok in H as (t1 & _ & H). apply bind_Ok in H as (w0 & _ & H).
  apply bind_Ok in H as (w1 & _ & H). apply bind_Ok in H as (w2 & _ & H). injection H as <-.
  apply lsu_send_one_spec in O0 as [O0 P0]. apply lsu_send_one_spec in O1 as [O1 P1].
  apply lsu_send_one_spec in O2 as [O2 _].
  exists l, a, d, o0.1, o1.1, o2.1. split_and!; try done; [by eapply lsu_sends_same |].
  by eapply lsu_sends_same; [eapply lsu_same_trans |].
Qed.

(** *** Without the code's tests *)
Record lsu_ready (num : nat -> Z) (nb ns i : Z) s (k : nat) (x : lsu_issue.slot_t) : Prop := {
  lr_occupied : occupied (lsu_issue.issue_q s) k;
  lr_here : dff.get (lsu_issue.issued x) = false;
  lr_waits : lsu_issue.waiting_issue_id_ready x = true /\ lsu_issue.waiting_store x = false;
  lr_flush : survives bru sau num nb ns k;
  lr_load : not_turned_away lu (lsu_issue.src1 x) (lsu_issue.src2 x);
  lr_store : lsu_issue.is_store x = negb (i =? 0);
  (* the address needs the first operand, the data the second, a load both *)
  lr_src1 : i <> 2 -> issue_src.ready (lsu_issue.src1 x) = true;
  lr_src2 : i <> 1 -> issue_src.ready (lsu_issue.src2 x) = true;
  lr_address : i = 1 -> lsu_issue.sau_part_issued x = false;
  lr_data : i = 2 -> lsu_issue.sdu_part_issued x = false
}.
Lemma lsu_can_go_meaning sz num nb ns i s k x : i = 0 \/ i = 1 \/ i = 2 ->
  in_order lsu_issue.slot_age (lsu_issue.slots s) (lsu_issue.issue_q s) bru sau sz num nb ns ->
  lsu_issue.slots s !! k = Some x ->
  lsu_can_go i (lsu_issue.issue_q s) k x = true <-> lsu_ready num nb ns i s k x.
Proof using.
  intros Hi Ho Hx. unfold lsu_can_go, lsu_issue.eligible, lsu_issue.windows, lsu_issue.last_window.
  rewrite !andb_true_iff, turned_away_bits, !negb_true_iff.
  assert (Su : lsu_issue.suits i x = true <-> lsu_issue.is_store x = negb (i =? 0) /\
    (i <> 2 -> issue_src.ready (lsu_issue.src1 x) = true) /\ (i <> 1 -> issue_src.ready (lsu_issue.src2 x) = true) /\
    (i = 1 -> lsu_issue.sau_part_issued x = false) /\ (i = 2 -> lsu_issue.sdu_part_issued x = false)).
  { unfold lsu_issue.suits. destruct Hi as [-> | [-> | ->]]; cbn [Z.eqb Pos.eqb negb];
      rewrite !andb_true_iff, ?negb_true_iff; naive_solver lia. }
  rewrite Su. split.
  - intros [[[[[[V W] F] N] I] St] (S0 & S1 & S2 & S3 & S4)]. apply occupied_valid_bit in V.
    split; try done. by apply (survives_squashed lsu_issue.slot_age _ _ _ _ sz num nb ns k x Hx V Ho).
  - intros [V I [W St] F N S0 S1 S2 S3 S4]. pose proof V as V'. apply occupied_valid_bit in V'. split_and!; try done.
    by apply (survives_squashed lsu_issue.slot_age _ _ _ _ sz num nb ns k x Hx V Ho).
Qed.
Lemma lsu_select_meaning sz num nb ns i s sel : i = 0 \/ i = 1 \/ i = 2 ->
  in_order lsu_issue.slot_age (lsu_issue.slots s) (lsu_issue.issue_q s) bru sau sz num nb ns ->
  lsu_issue.select bru lu sau i (lsu_issue.issue_q s) 0 (lsu_issue.slots s) None = Ok sel ->
  oldest_of lsu_issue.slot_age (lsu_issue.slots s) num (lsu_ready num nb ns i s) sel.
Proof using.
  intros Hi Ho H. apply (oldest_meaning _ _ num (lsu_can_go i (lsu_issue.issue_q s))).
  - intros k x Hx. by apply (lsu_can_go_meaning sz).
  - apply (lsu_select_none sz); [| exact H]. eapply in_order_numbered; [| exact Ho]. intros k x C.
    unfold lsu_can_go, lsu_issue.eligible in C. by destruct (valid_bit _ k).
Qed.

(** What leaves through port [i]: a load as it is, the address half of a store
    with the operation of the store address unit, its data half; the half that
    leaves last, or with the other one ([together]), is the last micro-operation. *)
Definition half (i : Z) (together : bool) (x : lsu_issue.slot_t) (u u' : decode_rename.pack_t) : Prop :=
  if i =? 0 then u' = u
  else if i =? 1 then exists o, decode_rename.sub_op u = sub_sdu_op o /\
    u' = { u with decode_rename.op_unit := cop_unit.sau;
                  decode_rename.sub_op := sub_sau_op match o with
                    | sdu_op.sb => sau_op.stab | sdu_op.sh => sau_op.stah | sdu_op.sw => sau_op.staw end;
                  decode_rename.last_uop := lsu_issue.sdu_part_issued x }
  else u' = { u with decode_rename.last_uop := lsu_issue.sau_part_issued x || together }.
Definition lsu_leaves (i : Z) (together : bool) s (sel : selected_t) (o : issue_readreg.op_info_t) : Prop :=
  match sel with
  | None => o = issue_readreg.init
  | Some (j, _) =>
      exists d x u, fifo.buffer (ooo_issue_queue.base (lsu_issue.issue_q s)) !! Z.to_nat j = Some d /\
        lsu_issue.slots s !! Z.to_nat j = Some x /\
        half i together x (rename_dispatch.uop (dff.get d)) u /\
        issue_readreg.info o = { dff.get d with rename_dispatch.uop := u } /\
        forall n, 0 <= n -> Z.testbit (issue_readreg.lpv o) n =
          Z.testbit (issue_src.lpv (lsu_issue.src1 x)) (n + 1) || Z.testbit (issue_src.lpv (lsu_issue.src2 x)) (n + 1)
  end.
Definition same_store (a d : selected_t) : bool :=
  match a, d with Some (j, _), Some (j', _) => bool_decide (j = j') | _, _ => false end.
Lemma lsu_sends_meaning i both s sel o : i = 0 \/ i = 1 \/ i = 2 ->
  lsu_sends i both s sel o -> lsu_leaves i both s sel o.
Proof using.
  intros Hi. unfold lsu_sends, lsu_leaves. destruct sel as [[j a] |]; [| done].
  intros (r & x & u & R & X & P & ->). apply bind_Ok in R as (d & D & R). injection R as <-.
  apply arr_get_Some in D as [_ D]. apply arr_get_Some in X as [_ X].
  exists d, x, u. split_and!; try done.
  - unfold lsu_issue.part in P. unfold half. destruct Hi as [-> | [-> | ->]]; cbn [Z.eqb Pos.eqb] in *.
    + by injection P as <-.
    + apply bind_Ok in P as (op & O & P). injection P as <-. unfold csub_op.get_sdu_op in O.
      destruct (decode_rename.sub_op _) eqn:E; try discriminate O. injection O as ->. exists op.
      split; [done |]. unfold lsu_issue.with_last. by destruct op.
    + by injection P as <-.
  - intros n Hn. cbn [issue_readreg.lpv]. unfold lsu_issue.send_lpv. by rewrite Z.shiftr_spec, Z.lor_spec by done.
Qed.
Lemma data_half_together a d s o :
  lsu_sends 2 (lsu_issue.same_slot a d) s d o -> lsu_leaves 2 (same_store a d) s d o.
Proof using.
  intros H. apply lsu_sends_meaning in H; [| auto].
  replace (same_store a d) with (match d with None => false | _ => lsu_issue.same_slot a d end).
  - by destruct d.
  - destruct a as [[j b] |], d as [[j' b'] |]; cbn; try done. destruct (Z.eqb_spec j j') as [E | E].
    + by rewrite bool_decide_eq_true_2.
    + by rewrite bool_decide_eq_false_2.
Qed.
End lsu.
