(* ===== verification/CycleReadregSpec.v ===== *)
(** * The operands of an issued instruction

    [coherent val]: every result on its way to the register file, from the
    execute units or at write back, and every register the file marks as valid,
    has the value [val] gives the physical register.  Then an operand that can be
    had has that value, wherever the stage finds it. *)

From S2P Require Import Prelude Word Ops IsaDecode Dff Fifo Rat CycleDecode CyclePack.
From S2P Require Import LoadStore Rob CycleRename CycleDispatch CycleLsu CycleExec CycleIssue CycleLsuIssue CycleReadreg.

Section operands.
Context (exec wb : list channel_t) (regs : phy_regfile.regfile_t).
(** The two feedback packs, with a channel per unit that has results. *)
Definition packs : Prop := zlen exec = FEEDBACK_EXECUTE_UNIT_NUM /\ zlen wb = FEEDBACK_EXECUTE_UNIT_NUM.

(** A result on its way to register [p]; a register of the file. *)
Definition under_way (p v : Z) : Prop :=
  exists c, (c ∈ exec \/ c ∈ wb) /\ execute_feedback.enable c = true /\
    execute_feedback.phy_id c = p /\ execute_feedback.value c = v.
Definition in_regs (p v : Z) : Prop :=
  exists x, phy_regfile.regs regs !! Z.to_nat p = Some x /\
    dff.get (phy_regfile.reg_data_valid x) = true /\ dff.get (phy_regfile.reg_data x) = v.
(** The value of register [p] can be had. *)
Definition supplied (p : Z) : Prop := exists v, under_way p v \/ in_regs p v.
Definition in_file (p : Z) : Prop := p < phy_regfile.size regs /\ 0 <= p < zlen (phy_regfile.regs regs).
Definition coherent (val : Z -> Z) : Prop :=
  (forall p v, under_way p v -> v = val p) /\ (forall p v, 0 <= p -> in_regs p v -> v = val p).

Lemma elem_of_interleave {T} (a b : list T) c : length a = length b ->
  In c (operand.interleave a b) <-> c ∈ a \/ c ∈ b.
Proof using.
  revert b. induction a as [| x a IH]; intros [| y b] H; try discriminate H; cbn.
  - split; [done |]. by intros [?%list_elem_of_In | ?%list_elem_of_In].
  - injection H as H. rewrite (IH b H), !list_elem_of_In. cbn. rewrite <- !list_elem_of_In. intuition congruence.
Qed.
Lemma found_channel p : packs ->
  match List.find (issue_src.provides p) (operand.channels exec wb) with
  | Some c => under_way p (execute_feedback.value c)
  | None => forall v, ~ under_way p v
  end.
Proof using.
  intros [He Hw]. unfold operand.channels, issue_src.feedback_channels.
  rewrite !take_ge by (unfold zlen in *; lia).
  assert (L : length exec = length wb) by (unfold zlen in *; lia).
  destruct (List.find _ _) as [c |] eqn:F.
  - apply List.find_some in F as [I P]. apply (elem_of_interleave _ _ _ L) in I.
    unfold issue_src.provides in P. apply andb_true_iff in P as [P Q]. apply Z.eqb_eq in Q. by exists c.
  - intros v (c & I & E & <- & _). apply (elem_of_interleave _ _ _ L) in I.
    pose proof (List.find_none _ _ F c I) as P. unfold issue_src.provides in P. rewrite E in P. cbn in P. lia.
Qed.

Section coherent.
Context (val : Z -> Z) (Hp : packs) (Hval : coherent val).

Lemma read_mapped_spec p : in_file p ->
  exists v b, operand.read_mapped exec wb regs p = Ok (v, b) /\ (b = true <-> supplied p) /\
    (supplied p -> v = val p).
Proof using Hp Hval.
  intros [H1 H2]. apply Z.ltb_lt in H1. destruct (arr_get_ok _ _ H2) as [x X].
  pose proof (found_channel p Hp) as F.
  unfold operand.read_mapped, phy_regfile.read, phy_regfile.read_data_valid. rewrite H1, X.
  cbn [verify mbind outcome_bind]. apply arr_get_Some in X as [_ X].
  destruct (List.find _ _) as [c |].
  - eexists _, _. split; [done |]. split; [split; [intros _ | done]; eexists; by left |].
    intros _. by apply (proj1 Hval).
  - eexists _, _. split; [done |].
    assert (S : supplied p -> in_regs p (dff.get (phy_regfile.reg_data x))).
    { intros (v & [U | (y & Y & Vy & <-)]); [by destruct (F v) |]. rewrite X in Y. injection Y as <-.
      by exists x. }
    split; [split |].
    + intros V. exists (dff.get (phy_regfile.reg_data x)). right. by exists x.
    + intros (y & Y & V & _)%S. rewrite X in Y. by injection Y as <-.
    + intros G. apply (proj2 Hval p); [lia | by apply S].
Qed.

(** What an operand means, and when it can be had. *)
Definition meaning (o : issue_src.operand_t) (imm : Z) : Z :=
  if issue_src.need_map o then val (issue_src.phy o)
  else if bool_decide (issue_src.from o = arg_src.imm) then imm else 0.
Definition available (o : issue_src.operand_t) : Prop :=
  issue_src.need_map o = true -> supplied (issue_src.phy o).
Lemma read_spec o imm : (issue_src.need_map o = true -> in_file (issue_src.phy o)) ->
  exists v b, operand.read exec wb regs o (issue_src.from o) imm = Ok (v, b) /\ (b = true <-> available o) /\
    (available o -> v = meaning o imm).
Proof using Hp Hval.
  intros H. unfold operand.read, available, meaning. destruct (issue_src.need_map o).
  - destruct (read_mapped_spec (issue_src.phy o) (H eq_refl)) as (v & b & E & B & V).
    exists v, b. split_and!; [done | naive_solver | naive_solver].
  - eexists _, _. split; [done |]. naive_solver.
Qed.
End coherent.
End operands.
