(* ===== verification/CycleIssueProps.v ===== *)
(** * Properties of micro-operations, issue and register read *)

From S2P Require Import Prelude Word Ops IsaDecode Dff Fifo FifoSpec Rat AgeSpec CycleDecode CyclePack.
From S2P Require Import CycleCsr CycleExec LoadStore Rob CycleRename CycleDispatch CycleLsu CycleIssue.
From S2P Require Import CycleLsuIssue CycleReadreg CycleCommit CycleType CycleIssueSpec CycleReadregSpec.

(** ** C18
    The union in a micro-operation is only read as the member that was written.
    Whatever word it is given, decode writes the member that belongs to the unit
    it names, and never names the store address unit; when the load/store issue
    stage cuts a store in two, it gives the address half the matching operation
    of the store address unit, and does not fail; and with any operands each
    integer unit computes without reading another member, as do the three units
    behind the load/store queue. *)
Theorem micro_ops_typed {B I} (r : fetch2_decode.pack_t B I) l :
  decode.op_info r = Ok l ->
  Forall (λ u, typed u /\ decode_rename.op_unit u <> cop_unit.sau) l /\
  (forall i both x u, typed u -> decode_rename.valid u = true ->
     (i = 0 \/ decode_rename.op_unit u = cop_unit.sdu) ->
     exists u', lsu_issue.part i both x u = Ok u' /\ typed u' /\
       decode_rename.op_unit u' = (if i =? 1 then cop_unit.sau else decode_rename.op_unit u)) /\
  (forall p : rev_t, typed (readreg_execute.uop p) ->
     alu.compute p <> Undef /\ mul.compute p <> Undef /\ (forall s, div.compute p s <> Undef) /\
     (forall f, bru.compute f p <> Undef) /\ (forall f b, csr_unit.compute f b p <> Undef) /\
     (readreg_execute.valid p = true ->
      match decode_rename.op_unit (readreg_execute.uop p) with
      | cop_unit.lu => exists o, csub_op.get_lu_op (decode_rename.sub_op (readreg_execute.uop p)) = Ok o
      | cop_unit.sau => exists o, csub_op.get_sau_op (decode_rename.sub_op (readreg_execute.uop p)) = Ok o
      | cop_unit.sdu => exists o, csub_op.get_sdu_op (decode_rename.sub_op (readreg_execute.uop p)) = Ok o
      | _ => True
      end)).
Proof.
  intros H. split; [by apply (op_info_typed r) |]. split; [intros; by apply part_typed |].
  intros p T. split_and!; intros; try apply defined; auto using alu_typed, mul_typed, div_typed, bru_typed, csr_typed.
  by apply lsu_typed.
Qed.

(** [mulhu x3, x1, x2]. *)
Definition mulhu_word : fetch2_decode.pack_t unit unit :=
  fetch2_decode.mk tt true 0x80000000 0x0220b1b3 false riscv_exception.instruction_address_misaligned 0 tt.
Lemma micro_ops_typed_witness :
  exists u b, decode.op_info mulhu_word = Ok [u; b] /\ typed u /\
    decode_rename.sub_op u = sub_mul_op mul_op.mulhu.
Proof.
  destruct (decode.op_info mulhu_word) as [[| u [| b [| ? ?]]] | | |] eqn:E; try (vm_compute in E; discriminate E).
  exists u, b. split; [reflexivity |].
  destruct (micro_ops_typed mulhu_word [u; b] E) as (T & _). apply Forall_cons in T as [[T _] _].
  split; [exact T |]. vm_compute in E. by injection E as <- <-.
Defined.

(** ** C20
    The integer issue stage, in a cycle without a flush by commit: unless it is
    held up by a stall of the load unit, each of its two ports sends the oldest
    instruction of the queue that can go there, and nothing when there is none.
    An instruction can go to a port when its slot is occupied, it has not been
    issued yet, it is meant for the port, its unit is free, both operands are
    ready, it is neither younger than a branch nor as young as a load that
    flushes, and no operand is in the last window of a load that is turned away.
    What is sent is the queued instruction itself, with the windows in which a
    load may still turn it away.  While the load unit stalls, a port sends
    nothing if an operand of the slot with the number of the port depends on a
    load, whichever instruction is the oldest (the code's index, not the slot of
    the instruction).  The order is that of the counter that numbers the
    instructions, across the wrap-around of the reorder buffer. *)
Theorem integer_issue_oldest bru lu sau (s : integer_issue_t) x sz num nb ns :
  in_order integer_issue.slot_age (integer_issue.slots s) (integer_issue.issue_q s) bru sau sz num nb ns ->
  integer_issue.run_output bru lu sau false s = Ok x ->
  exists sel0 sel1 o0 o1,
    port.get_new (integer_issue.integer_issue_readreg_port x.2) = [o0; o1] /\
    integer_sends lu s sel0 o0 /\ integer_sends lu s sel1 o1 /\
    forall i sel, i = 0 /\ sel = sel0 \/ i = 1 /\ sel = sel1 ->
      (held_up lu i s -> sel = None) /\
      (~ held_up lu i s -> oldest_of integer_issue.slot_age (integer_issue.slots s) num
                             (integer_ready bru lu sau num nb ns i s) sel).
Proof.
  intros N H. destruct (run_output_spec bru lu sau s x H) as (sel0 & sel1 & o0 & o1 & S0 & S1 & E & O0 & O1).
  exists sel0, sel1, o0, o1. split; [done |]. split; [by apply sends_meaning |]. split; [by apply sends_meaning |].
  intros i sel [[-> ->] | [-> ->]]; eapply select_port_meaning; eauto.
Qed.

(** Two additions for port 0 are ready, in slots 0 and 1; the ROB wraps around
    between them, so that the second is the older one. *)
Definition demo_queue (ids : list Z) : ooo_issue_queue.queue_t op_info_t :=
  let items := (λ id, { rename_dispatch.init with rename_dispatch.rob_id := id }) <$> ids in
  ooo_issue_queue.mk
    { fifo.new 16 rename_dispatch.init with
      fifo.buffer := (dff.new <$> items) ++ replicate (16 - length ids) (dff.new rename_dispatch.init) }
    (replicate (length ids) (dff.new true) ++ replicate (16 - length ids) (dff.new false)).
Definition demo_num (k : nat) : Z := if (k =? 0)%nat then 66 else 60.
Definition ready_src : src_t := { issue_src.init with issue_src.ready := true }.
Definition demo_slot (id : Z) (stage : bool) : integer_issue.slot_t :=
  integer_issue.mk_slot ready_src ready_src 0 1 id stage true 7 0 0 (dff.new false).
Definition demo_integer : integer_issue_t :=
  { integer_issue.new with
    integer_issue.issue_q := demo_queue [2; 60];
    integer_issue.slots := demo_slot 2 true :: demo_slot 60 false :: replicate 14 (demo_slot 0 false) }.
Lemma demo_valid k : valid_bit (demo_queue [2; 60]) k = true -> k = 0%nat \/ k = 1%nat.
Proof.
  intros H. assert (K : (k < 16)%nat).
  { unfold valid_bit in H. destruct (ooo_issue_queue.is_valid _ _) as [b | | |] eqn:E; try discriminate H.
    apply bind_Ok in E as (d & D & _). apply arr_get_range in D. change (zlen _) with 16 in D. lia. }
  do 16 (destruct k as [| k]; [first [discriminate H | by left | by right] |]). lia.
Qed.
Lemma demo_occupied k : occupied (demo_queue [2; 60]) k -> k = 0%nat \/ k = 1%nat.
Proof. intros H. by apply demo_valid, occupied_valid_bit. Qed.
Lemma demo_in_order : in_order integer_issue.slot_age (integer_issue.slots demo_integer) (demo_queue [2; 60])
  flush_feedback.init flush_feedback.init 64 demo_num 0 0.
Proof.
  split; [done | | done | done].
  intros k x Hx [-> | ->]%demo_occupied;
    [change (Some (demo_slot 2 true) = Some x) in Hx | change (Some (demo_slot 60 false) = Some x) in Hx];
    injection Hx as <-; (split; [reflexivity |]); intros k x _ [-> | ->]%demo_occupied; cbn; lia.
Qed.
Lemma integer_issue_oldest_witness :
  exists x o0 o1 k a,
    integer_issue.run_output flush_feedback.init lu_feedback.init flush_feedback.init false demo_integer = Ok x /\
    port.get_new (integer_issue.integer_issue_readreg_port x.2) = [o0; o1] /\
    rename_dispatch.rob_id (issue_readreg.info o0) = 60 /\
    integer_sends lu_feedback.init demo_integer (Some (k, a)) o0 /\
    oldest_of integer_issue.slot_age (integer_issue.slots demo_integer) demo_num
      (integer_ready flush_feedback.init lu_feedback.init flush_feedback.init demo_num 0 0 0 demo_integer) (Some (k, a)).
Proof.
  assert (V : match integer_issue.run_output flush_feedback.init lu_feedback.init flush_feedback.init false demo_integer with
              | Ok x => (λ o, rename_dispatch.rob_id (issue_readreg.info o)) <$>
                          port.get_new (integer_issue.integer_issue_readreg_port x.2)
              | _ => []
              end = [60; 0]) by (vm_compute; reflexivity).
  destruct (integer_issue.run_output _ _ _ _ _) as [x | | |] eqn:E; try discriminate V.
  destruct (integer_issue_oldest flush_feedback.init lu_feedback.init flush_feedback.init demo_integer x 64 demo_num
    0 0 demo_in_order E) as (sel0 & sel1 & o0 & o1 & P & S0 & S1 & F).
  destruct (F 0 sel0 ltac:(by left)) as [_ F0]. specialize (F0 ltac:(intros [? _]; discriminate)).
  rewrite P in V. exists x, o0, o1. destruct sel0 as [[k a] |].
  - exists k, a. split; [reflexivity |]. split; [exact P |]. split; [by injection V |]. split; [exact S0 | exact F0].
  - cbn [integer_sends] in S0. subst o0. discriminate V.
Defined.

(** ** C22
    The load/store issue stage, in a cycle without a flush by commit and without
    a stall: of its three ports, one for loads, one for the addresses and one for
    the data of stores, each sends the oldest instruction of the queue that can
    go there, and nothing when there is none.  An instruction can go when its
    slot is occupied, it has not left yet, it waits neither for another
    instruction nor for older stores, no flush hits it and no operand is in the
    last window of a load that is turned away; a load needs both operands, the
    address of a store its first and the data its second, each only if that half
    has not left before.  The halves of a store carry the operation of their
    unit, and the half that leaves last, or with the other in the same cycle, is
    marked as the last micro-operation.  With a flush by commit or a stall
    nothing is sent and the queue stays as it is. *)
Theorem lsu_issue_oldest bru lu sau stall flush (s : lsu_issue_t) x sz num nb ns :
  in_order lsu_issue.slot_age (lsu_issue.slots s) (lsu_issue.issue_q s) bru sau sz num nb ns ->
  lsu_issue.run_output bru lu sau stall flush s = Ok x ->
  if stall || flush || lu_feedback.stall lu then
    port.get_new (lsu_issue.lsu_issue_readreg_port x.2) = replicate 3 issue_readreg.init /\
    lsu_issue.slots x.2 = lsu_issue.slots s /\ lsu_issue.issue_q x.2 = lsu_issue.issue_q s
  else exists l a d o0 o1 o2,
    port.get_new (lsu_issue.lsu_issue_readreg_port x.2) = [o0; o1; o2] /\
    lsu_leaves 0 false s l o0 /\ lsu_leaves 1 false s a o1 /\ lsu_leaves 2 (same_store a d) s d o2 /\
    forall i sel, i = 0 /\ sel = l \/ i = 1 /\ sel = a \/ i = 2 /\ sel = d ->
      oldest_of lsu_issue.slot_age (lsu_issue.slots s) num (lsu_ready bru lu sau num nb ns i s) sel.
Proof.
  intros N H. unfold lsu_issue.run_output in H.
  destruct stall, flush, (lu_feedback.stall lu); cbn [negb andb orb] in *;
    try (injection H as <-; by split_and!).
  destruct (lsu_output_spec bru lu sau s x H) as (l & a & d & o0 & o1 & o2 & L & A & D & E & O0 & O1 & O2).
  exists l, a, d, o0, o1, o2. split; [done |].
  split; [apply lsu_sends_meaning; [lia | done] |]. split; [apply lsu_sends_meaning; [lia | done] |].
  split; [by apply data_half_together |].
  intros i sel [[-> ->] | [[-> ->] | [-> ->]]]; eapply lsu_select_meaning; eauto.
Qed.

(** A load in slot 2, and a store in slot 60, one turn before, whose address is
    known and whose data is not. *)
Definition demo_lsu_slot (store : bool) (id : Z) (stage : bool) : lsu_issue.slot_t :=
  lsu_issue.mk_slot ready_src (if store then issue_src.init else ready_src) true 7 0 false false store id stage
    true 0 0 0 false 0 false (dff.new false).
Definition demo_store (o : op_info_t) : op_info_t :=
  { o with rename_dispatch.uop := { decode_rename.init with decode_rename.enable := true;
             decode_rename.valid := true; decode_rename.op_unit := cop_unit.sdu;
             decode_rename.sub_op := sub_sdu_op sdu_op.sw } }.
Definition demo_lsu : lsu_issue_t :=
  let q := demo_queue [2; 60] in
  { lsu_issue.new with
    lsu_issue.issue_q := { q with ooo_issue_queue.base ::= λ f, { f with fifo.buffer ::= fmap (λ d,
      dff.new (if rename_dispatch.rob_id (dff.get d) =? 60 then demo_store (dff.get d) else dff.get d)) } };
    lsu_issue.slots := demo_lsu_slot false 2 true :: demo_lsu_slot true 60 false ::
                       replicate 14 (demo_lsu_slot false 0 false) }.
Lemma demo_lsu_in_order : in_order lsu_issue.slot_age (lsu_issue.slots demo_lsu) (lsu_issue.issue_q demo_lsu)
  flush_feedback.init flush_feedback.init 64 demo_num 0 0.
Proof.
  assert (D : forall k, occupied (lsu_issue.issue_q demo_lsu) k -> k = 0%nat \/ k = 1%nat) by exact demo_occupied.
  split; [done | | done | done].
  intros k x Hx [-> | ->]%D;
    [change (Some (demo_lsu_slot false 2 true) = Some x) in Hx
    | change (Some (demo_lsu_slot true 60 false) = Some x) in Hx];
    injection Hx as <-; (split; [reflexivity |]); intros k x _ [-> | ->]%D; cbn; lia.
Qed.
Lemma lsu_issue_oldest_witness :
  exists x o0 o1 o2 l a,
    lsu_issue.run_output flush_feedback.init lu_feedback.init flush_feedback.init false false demo_lsu = Ok x /\
    port.get_new (lsu_issue.lsu_issue_readreg_port x.2) = [o0; o1; o2] /\
    lsu_leaves 0 false demo_lsu l o0 /\ lsu_leaves 1 false demo_lsu a o1 /\
    oldest_of lsu_issue.slot_age (lsu_issue.slots demo_lsu) demo_num
      (lsu_ready flush_feedback.init lu_feedback.init flush_feedback.init demo_num 0 0 1 demo_lsu) a /\
    (λ o, (rename_dispatch.rob_id (issue_readreg.info o), decode_rename.op_unit (issue_readreg.uop o))) <$>
      [o0; o1; o2] = [(2, cop_unit.alu); (60, cop_unit.sau); (0, cop_unit.alu)].
Proof.
  assert (V : match lsu_issue.run_output flush_feedback.init lu_feedback.init flush_feedback.init false false demo_lsu with
              | Ok x => (λ o, (rename_dispatch.rob_id (issue_readreg.info o), decode_rename.op_unit (issue_readreg.uop o)))
                          <$> port.get_new (lsu_issue.lsu_issue_readreg_port x.2)
              | _ => []
              end = [(2, cop_unit.alu); (60, cop_unit.sau); (0, cop_unit.alu)]) by (vm_compute; reflexivity).
  destruct (lsu_issue.run_output _ _ _ _ _ _) as [x | | |] eqn:E; try discriminate V.
  destruct (lsu_issue_oldest flush_feedback.init lu_feedback.init flush_feedback.init false false demo_lsu x 64 demo_num
    0 0 demo_lsu_in_order E) as (l & a & d & o0 & o1 & o2 & P & S0 & S1 & _ & F).
  rewrite P in V. exists x, o0, o1, o2, l, a. split_and!; try done. apply F. auto.
Defined.

(** A load that dispatch has sent comes back without the checkpoint that was
    made for it, so that commit does not find it in the ROB entry. *)
Lemma load_checkpoint_lost o lpv v1 v2 it :
  commit.has_checkpoint (commit.record_result
    (execute_wb.of_rev (readreg.copy (issue_readreg.mk (dispatch.of_lsu o) lpv) v1 v2)) it) = false.
Proof. done. Qed.

(** ** C19
    Register read with bypass.  Suppose the results on their way to the register
    file, from the execute units and at write back, and the registers it marks as
    valid agree on a value for each physical register.  Then the stage finds the
    operands of any instruction whose registers are in the file: it hands the
    instruction on with both values, a register that is under way or valid having
    its value and an immediate being the one of the instruction, and disables it
    exactly when a register is neither under way nor valid. *)
Theorem operands_bypassed exec wb regs val (o : issue_readreg.op_info_t) :
  let a := issue_src.src1 (issue_readreg.info o) in
  let b := issue_src.src2 (issue_readreg.info o) in
  let imm := decode_rename.imm (issue_readreg.uop o) in
  packs exec wb -> coherent exec wb regs val -> readreg.acts o = true ->
  (issue_src.need_map a = true -> in_file regs (issue_src.phy a)) ->
  (issue_src.need_map b = true -> in_file regs (issue_src.phy b)) ->
  exists v1 v2 r, integer_readreg.build exec wb regs o = Ok r /\
    (available exec wb regs a /\ available exec wb regs b -> r = readreg.copy o v1 v2) /\
    (~ (available exec wb regs a /\ available exec wb regs b) -> r = readreg.disable (readreg.copy o v1 v2)) /\
    (available exec wb regs a -> v1 = meaning val a imm) /\
    (available exec wb regs b -> v2 = meaning val b imm).
Proof.
  cbv zeta. intros P C A Ha Hb. unfold integer_readreg.build. rewrite A.
  destruct (read_spec exec wb regs val P C _ (decode_rename.imm (issue_readreg.uop o)) Ha) as (v1 & b1 & R1 & B1 & E1).
  destruct (read_spec exec wb regs val P C _ (decode_rename.imm (issue_readreg.uop o)) Hb) as (v2 & b2 & R2 & B2 & E2).
  exists v1, v2. change (decode_rename.arg1_src (issue_readreg.uop o)) with
    (issue_src.from (issue_src.src1 (issue_readreg.info o))).
  change (decode_rename.arg2_src (issue_readreg.uop o)) with
    (issue_src.from (issue_src.src2 (issue_readreg.info o))).
  rewrite R1, R2. cbn [mbind outcome_bind fst snd].
  eexists. split; [reflexivity |]. rewrite <- B1, <- B2 in *. split_and!; try done.
  - by intros [-> ->].
  - destruct b1, b2; cbn; naive_solver.
Qed.

(** The first register comes from an execute unit, the second from the file,
    where the first one is not valid yet. *)
Definition demo_val (p : Z) : Z := if p =? 1 then 11 else if p =? 2 then 22 else 0.
Definition demo_regs : phy_regfile.regfile_t :=
  let reg v b := phy_regfile.mk_reg (dff.new v) (dff.new b) (dff.new 0) (dff.new false) (dff.new false) in
  phy_regfile.mk [reg 0 false; reg 99 false; reg 22 true] 3.
Definition demo_exec : list channel_t :=
  execute_feedback.mk true 1 11 5 false :: replicate 7 execute_feedback.init.
Definition demo_issued : issue_readreg.op_info_t :=
  issue_readreg.mk
    { rename_dispatch.init with
      rename_dispatch.uop := { decode_rename.init with decode_rename.enable := true;
        decode_rename.valid := true; decode_rename.rs1_need_map := true; decode_rename.rs2_need_map := true };
      rename_dispatch.rs1_phy := 1; rename_dispatch.rs2_phy := 2 } 0.
Definition demo_wb : list channel_t := replicate 8 execute_feedback.init.
Lemma demo_coherent : coherent demo_exec demo_wb demo_regs demo_val.
Proof.
  split.
  - intros p v (c & Hc & E & <- & <-). rewrite !list_elem_of_In in Hc. cbv in Hc.
    repeat destruct Hc as [Hc | Hc]; subst; try discriminate; try contradiction; reflexivity.
  - intros p v Hp (x & X & V & <-). assert (p = 2) as ->.
    { destruct (Z.to_nat p) as [| [| [| k]]] eqn:E; [| | lia |]; [| | apply lookup_lt_Some in X; cbn in X; lia];
        injection X as <-; discriminate V. }
    by injection X as <-.
Qed.
Lemma demo_supplied : available demo_exec demo_wb demo_regs (issue_src.src1 (issue_readreg.info demo_issued)) /\
  available demo_exec demo_wb demo_regs (issue_src.src2 (issue_readreg.info demo_issued)).
Proof.
  split; intros _.
  - exists 11. left. eexists. split; [left; by left | done].
  - exists 22. right. eexists. split; [reflexivity | done].
Qed.
Lemma operands_bypassed_witness :
  integer_readreg.build demo_exec demo_wb demo_regs demo_issued = Ok (readreg.copy demo_issued 11 22).
Proof.
  destruct (operands_bypassed demo_exec demo_wb demo_regs demo_val demo_issued
    ltac:(split; reflexivity) demo_coherent eq_refl) as (v1 & v2 & r & E & R & _ & E1 & E2).
  - intros _. split; [reflexivity | split; [discriminate | reflexivity]].
  - intros _. split; [reflexivity | split; [discriminate | reflexivity]].
  - rewrite E, (R demo_supplied), (E1 (proj1 demo_supplied)), (E2 (proj2 demo_supplied)). reflexivity.
Defined.
