(* ===== verification/MainLoopProps.v ===== *)
(** * Properties of the main loop

    The comparison of the two models reports exactly the differences of the
    registers and CSRs it reads, a turn of the loop leads the ISA model along the
    instructions the cycle model has retired, and the flags of the debugger
    pause the machine where its commands say.  Last, a program on which the two
    models are run against each other. *)

From S2P Require Import Prelude Word Rv32 Ops IsaDecode Csr IsaBus IsaModel Breakpoint.
From S2P Require Import IsaInv IsaSafe IsaRefine Dff Fifo FixedSizeBuffer Rat RatSpec CyclePack.
From S2P Require Import CycleDecode CycleCsr CycleExec Rob CycleRename CycleCommit CycleBus CycleLsu.
From S2P Require Import CycleReadreg CycleFetch CycleModel CycleStart CycleFlush RenameInv CycleCommitSpec.
From S2P Require Import CycleProps CycleOrderProps MainLoop.
Import cycle_model.

(** ** The clock of the cycle model *)

(** The units before the CSR unit leave its input alone. *)
Lemma alu_csr_input bru sau cf i s x : run_alu bru sau cf i s = Ok x ->
  integer_readreg.readreg_csr_hdff (readreg_hdffs x.2) = integer_readreg.readreg_csr_hdff (readreg_hdffs s).
Proof. unfold run_alu. intros H. apply bind_Ok in H as ([[? ?] ?] & _ & H). by apply ok_inj in H as <-. Qed.
Lemma bru_csr_input sau cf s x : run_bru sau cf s = Ok x ->
  integer_readreg.readreg_csr_hdff (readreg_hdffs x.2) = integer_readreg.readreg_csr_hdff (readreg_hdffs s).
Proof.
  unfold run_bru. intros H. apply bind_Ok in H as (h & _ & H). apply bind_Ok in H as (p & _ & H).
  apply bind_Ok in H as ([[[[[? ?] ?] ?] ?] ?] & _ & H). by apply ok_inj in H as <-.
Qed.

(** When the units run, so does the CSR unit's pop. *)
Lemma execute_csr_reads b a cf s e : run_execute b a cf s = Ok e -> exists q, lockstep.csr_reads cf s = Ok q.
Proof.
  unfold run_execute. intros H.
  apply bind_Ok in H as (a0 & E0 & H). apply bind_Ok in H as (a1 & E1 & H).
  apply bind_Ok in H as (x & E2 & H). apply bind_Ok in H as (c & E3 & _).
  apply alu_csr_input in E0, E1. apply bru_csr_input in E2.
  unfold run_csr in E3. rewrite E2, E1, E0 in E3. unfold lockstep.csr_reads.
  apply bind_Ok in E3 as (h & -> & E3). cbn [mbind outcome_bind].
  apply bind_Ok in E3 as (p & _ & E3). apply bind_Ok in E3 as (y & E3 & _).
  unfold csr_unit.run in E3. apply bind_Ok in E3 as (rh & -> & _). cbn [mbind outcome_bind]. by eexists.
Qed.

(** The next call of two runs of the same stages. *)
Ltac run_step H x :=
  cbv zeta in H; apply bind_Ok in H as (x & -> & H); cbn [mbind outcome_bind].

(** [run_traced] is [run] with two more results. *)
Lemma run_traced_run s x : lockstep.run_traced s = Ok x -> run s = Ok x.2.
Proof.
  unfold lockstep.run_traced, run. intros H.
  run_step H s1.
  run_step H b.
  run_step H a.
  run_step H c.
  run_step H w.
  apply bind_Ok in H as (q & _ & H).
  run_step H e.
  run_step H i.
  run_step H s2.
  run_step H s3.
  by apply ok_inj in H as <-.
Qed.
Lemma run_run_traced s s' : run s = Ok s' -> exists fb q, lockstep.run_traced s = Ok (fb, q, s').
Proof.
  unfold lockstep.run_traced, run. intros H.
  run_step H s1.
  run_step H b.
  run_step H a.
  run_step H c.
  run_step H w.
  cbv zeta in H. apply bind_Ok in H as (e & E & H). destruct (execute_csr_reads _ _ _ _ _ E) as [q ->].
  cbn [mbind outcome_bind]. rewrite E. cbn [mbind outcome_bind]. cbv zeta in H.
  run_step H i.
  run_step H s2.
  run_step H s3.
  apply ok_inj in H as <-. by eexists _, _.
Qed.

(** ** Reading the committed registers after a clock *)
Section committed.
Context (sz A : Z) (s : cycle_model_t) (mr : gmap Z Z).
Context (Hrat : rat_is sz A (retire_rat s) mr) (Hregs : regs_ok sz (phy_regfile s)).

Lemma scan_ext valid1 valid2 mapped1 mapped2 a n i phy cnt :
  (forall i, valid1 i = valid2 i) -> (forall i, mapped1 i = mapped2 i) ->
  rat.scan valid1 mapped1 a n i phy cnt = rat.scan valid2 mapped2 a n i phy cnt.
Proof.
  intros Hv Hm. revert i phy cnt. induction n as [|n IH]; intros i phy cnt; [done |].
  cbn [rat.scan]. rewrite Hv. destruct (valid2 i) as [[] | | |]; cbn; rewrite ?Hm; try done.
  destruct (mapped2 i); cbn; try done. case_match; apply IH.
Qed.

Lemma tget_sync {T} i (l : list (dff_t T)) : tget i (dff.sync <$> l) = tget_new i l.
Proof.
  unfold tget, tget_new, arr_get. destruct (i <? 0); [done |].
  rewrite list_lookup_fmap. by destruct (l !! Z.to_nat i).
Qed.

(** After the clock the consumers see what the producers saw. *)
Lemma customer_sync a x (r : rat_t) :
  rat.customer_get_phy_id a x (rat.sync r) = rat.producer_get_phy_id a x r.
Proof.
  unfold rat.customer_get_phy_id, rat.producer_get_phy_id.
  rewrite (scan_ext _ (λ i, rat.producer_get_valid i r) _ (λ i, tget_new i (rat.phy_map_table r))).
  - by destruct r.
  - intros i. unfold rat.customer_get_valid, rat.producer_get_valid. destruct r as [? ? ? v ?]. cbn.
    by rewrite tget_sync.
  - intros i. destruct r as [? ? t ? ?]. cbn. by rewrite tget_sync.
Qed.

Lemma committed_reg_spec i : 0 < i < A ->
  exists p vb, mr !! i = Some p /\ reg_next (phy_regfile s) p = Some vb /\
    debugger.committed_reg i (clock s) = Ok vb.
Proof.
  intros Hi. destruct (rat_is_dom _ _ _ _ _ Hrat Hi) as [p Hp].
  destruct (rat_is_range _ _ _ _ _ _ Hrat Hp) as [_ Hr]. destruct Hregs as [Hl Hs].
  destruct (arr_get_ok (phy_regfile.regs (phy_regfile s)) p) as [x Hx]; [lia |].
  pose proof (proj1 (arr_get_Some _ _ _) Hx) as [_ Hx'].
  exists p, (dff.get_new (phy_regfile.reg_data x), dff.get_new (phy_regfile.reg_data_valid x)).
  split; [done |]. split; [unfold reg_next; by rewrite Hx' |].
  unfold debugger.committed_reg. change (retire_rat (clock s)) with (rat.sync (retire_rat s)).
  change (phy_regfile (clock s)) with (phy_regfile.sync (phy_regfile s)).
  rewrite customer_sync, (rat_is_get _ _ _ _ _ _ _ Hrat Hp). cbn [mbind outcome_bind fst snd].
  unfold phy_regfile.read, phy_regfile.read_data_valid.
  change (phy_regfile.size (phy_regfile.sync _)) with (phy_regfile.size (phy_regfile s)).
  replace (p <? phy_regfile.size (phy_regfile s)) with true by lia. cbn [verify mbind outcome_bind].
  assert (Hsync : arr_get (phy_regfile.regs (phy_regfile.sync (phy_regfile s))) p
                  = Ok (phy_regfile.sync_reg x)).
  { apply arr_get_Some. split; [lia |].
    change (phy_regfile.regs (phy_regfile.sync _)) with
      (phy_regfile.sync_reg <$> phy_regfile.regs (phy_regfile s)).
    by rewrite list_lookup_fmap, Hx'. }
  by rewrite Hsync.
Qed.
End committed.

(** ** The comparison *)
Section compare.
Import lockstep.
Context (sz : Z) (s : cycle_model_t) (mr : gmap Z Z) (m : isa_model_t).
Context (Hrat : rat_is sz ARCH_REG_NUM (retire_rat s) mr) (Hregs : regs_ok sz (phy_regfile s)).
Context (Hm : isa_wf m).

(** The committed register is valid and has the value of the ISA model's. *)
Definition same_gpr (i : Z) : Prop :=
  exists p, mr !! i = Some p /\
    reg_next (phy_regfile s) p = Some (rv32.reg (arch_of m) i, true).
(** The next value of the CSR, with the character queue as it is. *)
Definition same_csr (a : Z) : Prop :=
  exists v, cycle_csrfile.read_sys a (cycle_csrfile.sync (csr_file s)) = Ok v /\
    csrfile.read_sys a csr_table0 (isa_model.csr_env m) = Ok v.
Definition same_output : Prop :=
  head (cycle_csrfile.send_fifo (csr_file s)) = head (csr_env.send_fifo (isa_model.csr_env m)).

Lemma compare_gpr_exact i : 0 < i < ARCH_REG_NUM ->
  exists l, compare_gpr i (clock s) m = Ok l /\ (l = [] <-> same_gpr i).
Proof using All.
  intros Hi. destruct (committed_reg_spec _ _ _ _ Hrat Hregs i Hi) as (p & [v b] & Hp & Hv & E).
  unfold compare_gpr. rewrite E. cbn [mbind outcome_bind fst snd]. unfold same_gpr. destruct b; cbn [negb].
  - rewrite (regfile_read_arch m i Hm) by (unfold rv32.reg_ok, ARCH_REG_NUM in *; lia).
    cbn [mbind outcome_bind]. eexists. split; [done |].
    destruct (v =? rv32.reg (arch_of m) i) eqn:Ev; cbn [negb]; (split; intros H; [| try done]).
    + exists p. split; [done |]. apply Z.eqb_eq in Ev. by rewrite Hv, Ev.
    + done.
    + destruct H as (q & Hq & Hw). rewrite Hp in Hq. injection Hq as <-. rewrite Hv in Hw.
      injection Hw as ->. by rewrite Z.eqb_refl in Ev.
  - eexists. split; [done |]. split; [done |]. intros (q & Hq & Hw).
    rewrite Hp in Hq. injection Hq as <-. by rewrite Hv in Hw.
Qed.

(** The compared registers exist in the ISA model. *)
Definition compared_ok (a : Z) : Prop :=
  (a <? csrfile.table_size) = true /\ csrfile.enabled a csr_table0 = true /\
  match csrfile.csr_map_table csr_table0 !! a with Some it => is_Some (csr_objs0 !! csrfile.csr it) | None => False end.
Lemma compared_all : Forall compared_ok compare_csr_list.
Proof.
  unfold compare_csr_list.
  repeat (apply Forall_cons; split;
    [split; [vm_compute; reflexivity | split; [vm_compute; reflexivity | vm_compute; eexists; reflexivity]] |]).
  constructor.
Qed.

Lemma compare_csr_exact a :
  compared_ok a -> cycle_csrfile.found a (csr_file s) = true ->
  exists l, compare_csr a (clock s) m = Ok l /\ (l = [] <-> same_csr a).
Proof using Hm.
  intros (Hsz & He & Ho) Hf. unfold compare_csr, same_csr.
  change (csr_file (clock s)) with (cycle_csrfile.sync (csr_file s)).
  destruct Hm as (_ & _ & _ & _ & -> & Hw).
  destruct (csrfile.csr_map_table csr_table0 !! a) as [it|] eqn:Eit; [| done].
  assert (Hisa : exists v2, csrfile.read_sys a csr_table0 (isa_model.csr_env m) = Ok v2).
  { unfold csrfile.read_sys. rewrite Hsz, He. unfold csrfile.item. rewrite Eit. cbn [verify mbind outcome_bind of_option].
    destruct Ho as [o0 Ho]. destruct (csr_wf_lookup _ _ _ Hw Ho) as (o & Eo & _).
    unfold csr_env.read. rewrite Eo. case_match; by eexists. }
  assert (Hcyc : exists v, cycle_csrfile.read_sys a (cycle_csrfile.sync (csr_file s)) = Ok v).
  { unfold cycle_csrfile.found in Hf. apply bool_decide_eq_true in Hf as [c Hc].
    unfold cycle_csrfile.read_sys, cycle_csrfile.found, cycle_csrfile.item.
    assert (Hs : cycle_csrfile.csr_map_table (cycle_csrfile.sync (csr_file s)) !! a
                 = Some (cycle_csrfile.sync_item c)).
    { change (cycle_csrfile.csr_map_table _) with (cycle_csrfile.sync_item <$> cycle_csrfile.csr_map_table (csr_file s)).
      by rewrite lookup_fmap, Hc. }
    rewrite Hs. cbn [of_option]. rewrite bool_decide_eq_true_2 by done. cbn [verify mbind outcome_bind]. by eexists. }
  destruct Hisa as [v2 E2], Hcyc as [v E]. rewrite E, E2. cbn [mbind outcome_bind].
  eexists. split; [done |]. destruct (v =? v2) eqn:Ev; cbn [negb]; (split; intros H; [| try done]).
  - exists v. split; [done |]. apply Z.eqb_eq in Ev. by rewrite Ev.
  - done.
  - destruct H as (w & H1 & H2). injection H1 as <-. injection H2 as ->. by rewrite Z.eqb_refl in Ev.
Qed.

Lemma compare_send_fifo_exact : compare_send_fifo (clock s) m = [] <-> same_output.
Proof.
  unfold compare_send_fifo, same_output.
  change (cycle_csrfile.send_fifo (csr_file (clock s))) with (cycle_csrfile.send_fifo (csr_file s)).
  destruct (cycle_csrfile.send_fifo (csr_file s)) as [|v q], (csr_env.send_fifo _) as [|v2 q2]; cbn; try done.
  destruct (v =? v2) eqn:E; cbn [negb]; (split; intros H; [| try done]).
  - apply Z.eqb_eq in E. by rewrite E.
  - done.
  - injection H as ->. by rewrite Z.eqb_refl in E.
Qed.

Lemma each_exact {X} (f : X -> outcome (list error_t)) (P : X -> Prop) l :
  Forall (λ x, exists r, f x = Ok r /\ (r = [] <-> P x)) l ->
  exists r, each f l = Ok r /\ (r = [] <-> Forall P l).
Proof.
  induction 1 as [|x l (e & Ee & He) _ (r & Er & Hr)]; cbn [each].
  - exists []. split; [done |]. split; [intros; constructor | done].
  - rewrite Ee, Er. cbn [mbind outcome_bind]. exists (e ++ r). split; [done |].
    rewrite Forall_cons, <- He, <- Hr. apply app_nil.
Qed.
End compare.

(** The CSRs that are compared: the machine information, the trap setup, the
    trap handling, the simulator's exit register and the count of the retired
    instructions. *)
Definition compared_csr (a : Z) : Prop :=
  0xf11 <= a <= 0xf15 \/ a ∈ [0x300; 0x301; 0x304; 0x305; 0x306; 0x310] \/
  0x340 <= a <= 0x344 \/ a = 0x804 \/ a = 0xb02 \/ a = 0xb82.
Lemma compared_csr_list a : compared_csr a <-> a ∈ lockstep.compare_csr_list.
Proof.
  unfold compared_csr. change CSR_FINISH with 0x804.
  unfold lockstep.compare_csr_list, CSR_FINISH, lockstep.CSR_MINSTRET, lockstep.CSR_MINSTRETH.
  rewrite !elem_of_cons, !elem_of_nil. lia.
Qed.

(** ** C14
    What the comparison of the two models sees, and what it does not.  With a
    complete retired map, a CSR file that has the compared registers and an ISA
    model in a legal state, the comparison after a clock completes (no failed
    check, no undefined read), and it reports no error if and only if each of
    x1, ..., x31 is valid in the physical register that the retired map gives it
    and has the ISA model's value, each of the nineteen CSRs of [compared_csr]
    (mvendorid to mconfigptr, mstatus, misa, mie, mtvec, mcounteren, mstatush,
    mscratch, mepc, mcause, mtval, mip, finish, minstret and minstreth) reads the
    same in both, and the queues of characters to be sent are both empty or have
    the same first character.  Nothing else is compared: not the pc (which is
    checked instruction by instruction, see [retired_in_step]), not the memory,
    not the other CSRs, not the characters behind the first. *)
Theorem comparison_exact (sz : Z) (s : cycle_model_t) (mr : gmap Z Z) (m : isa_model_t) :
  rat_is sz ARCH_REG_NUM (retire_rat s) mr -> regs_ok sz (phy_regfile s) -> isa_wf m ->
  (forall a, compared_csr a -> cycle_csrfile.found a (csr_file s) = true) ->
  exists l, lockstep.compare (clock s) m = Ok l /\
    (l = [] <-> (forall i, 1 <= i <= 31 -> same_gpr s mr m i) /\
                (forall a, compared_csr a -> same_csr s m a) /\
                same_output s m).
Proof.
  intros Hrat Hregs Hm Hcsr. unfold lockstep.compare.
  destruct (each_exact (λ i, lockstep.compare_gpr i (clock s) m) (same_gpr s mr m)
              (seqZ 1 (ARCH_REG_NUM - 1))) as (g & Eg & Hg).
  { apply Forall_forall. intros i Hi%elem_of_seqZ.
    apply (compare_gpr_exact sz); [done.. | unfold ARCH_REG_NUM in *; lia]. }
  destruct (each_exact (λ a, lockstep.compare_csr a (clock s) m) (same_csr s m) lockstep.compare_csr_list)
    as (c & Ec & Hc).
  { apply Forall_forall. intros a Ha. apply compare_csr_exact; [done | |].
    - by apply (proj1 (Forall_forall _ _) compared_all).
    - by apply Hcsr, compared_csr_list. }
  rewrite Eg, Ec. cbn [mbind outcome_bind]. eexists. split; [done |].
  rewrite !app_nil, Hg, Hc, compare_send_fifo_exact, !Forall_forall.
  split; (intros (H1 & H2 & H3); split_and!; [| intros a Ha; by apply H2, compared_csr_list | done]);
    intros i Hi; apply H1.
  - apply elem_of_seqZ. unfold ARCH_REG_NUM in *. lia.
  - apply elem_of_seqZ in Hi. unfold ARCH_REG_NUM in *. lia.
Qed.

(** ** The retired instructions *)
Section retire.
Import lockstep.
Implicit Types (st : lockstep_t) (item : Z * rob.item_t) (l : list (Z * rob.item_t)).

Definition pcs l : list Z := (λ item, rob.pc item.2) <$> l.

Lemma sync_csr_pc o m m' : sync_csr o m = Ok m' -> isa_model.pc m' = isa_model.pc m.
Proof.
  destruct o as [it|]; cbn; [| by intros [= <-]]. case_match; [| by intros [= <-]].
  intros E. apply bind_Ok in E as (e & _ & E). by apply ok_inj in E as <-.
Qed.

Lemma run_isa_history st st' : run_isa st = Ok st' ->
  isa_model_pc_history st' = isa_model_pc_history st.
Proof. unfold run_isa. intros H. apply bind_Ok in H as (m & _ & H). apply ok_inj in H. by subst. Qed.

Lemma forward_history st : isa_model_pc_history (forward_characters st) = isa_model_pc_history st.
Proof. unfold forward_characters. by destruct (cycle_csrfile.send_fifo _). Qed.

(** One instruction: the flag compares the two models' PCs, and the ISA model's
    goes into the history. *)
Lemma retire_one_spec item st e st' : retire_one item st = Ok (e, st') ->
  e = negb (isa_model.pc (isa_model_inst st) =? rob.pc item.2) /\
  fixed_size_buffer.push (isa_model.pc (isa_model_inst st)) (isa_model_pc_history st)
    = Ok (isa_model_pc_history st').
Proof.
  unfold retire_one. intros H. apply bind_Ok in H as (m & Em & H).
  apply bind_Ok in H as (c & _ & H). apply bind_Ok in H as (h & Eh & H).
  apply bind_Ok in H as (st1 & Er & H). injection H as <- <-.
  apply sync_csr_pc in Em. apply run_isa_history in Er.
  change (isa_model.pc (sync_clint _ _ _ m)) with (isa_model.pc m) in Eh. rewrite Em in *.
  split; [done |]. by rewrite forward_history, Er, Eh.
Qed.

(** Behind an error only CSR reads are dropped. *)
Lemma retire_all_error l st : exists q,
  retire_all true l st = Ok (true, { st with csr_read_queue := q }).
Proof.
  revert st. induction l as [|item l IH]; intros st; cbn [retire_all].
  - exists (csr_read_queue st). by destruct st.
  - destruct (IH { st with csr_read_queue ::= λ q, (take_csr_read item.1 q).2 }) as [q E].
    exists q. rewrite E. by destruct st.
Qed.

Lemma pushes_app {X} (xs ys : list X) b : pushes (xs ++ ys) b = (b ← pushes xs b; pushes ys b).
Proof.
  revert b. induction xs as [|x xs IH]; intros b; [done |]. cbn [app pushes].
  destruct (fixed_size_buffer.push x b); cbn [mbind outcome_bind]; [apply IH | done..].
Qed.

(** ** C15
    Lock step: when the loop over the retired instructions reports no error, the
    ISA model was at each of them in turn, as the history of its PCs records;
    when it reports an error, the instructions before some instruction were
    followed in step, the ISA model was then at another address than this
    instruction, and it executed nothing of what the cycle model retired after
    it. *)
Theorem retired_in_step l st e st' : retire_all false l st = Ok (e, st') ->
  if e then
    exists l1 item l2 st1 st2, l = l1 ++ item :: l2 /\
      retire_all false l1 st = Ok (false, st1) /\ retire_one item st1 = Ok (true, st2) /\
      isa_model.pc (isa_model_inst st1) <> rob.pc item.2 /\
      pushes (pcs l1 ++ [isa_model.pc (isa_model_inst st1)]) (isa_model_pc_history st)
        = Ok (isa_model_pc_history st') /\
      isa_model_inst st' = isa_model_inst st2 /\ cycle_model_inst st' = cycle_model_inst st2
  else pushes (pcs l) (isa_model_pc_history st) = Ok (isa_model_pc_history st').
Proof.
  revert st. induction l as [|item l IH]; intros st; cbn [retire_all].
  { intros [= <- <-]. done. }
  intros H. apply bind_Ok in H as ([d st1] & E1 & H). cbn [fst snd] in H.
  destruct (retire_one_spec item st d st1 E1) as [Hd Hp].
  destruct d.
  - destruct (retire_all_error l st1) as [q Eq]. rewrite Eq in H. injection H as <- <-.
    exists [], item, l, st, st1. split_and!; try done; [by destruct (Z.eqb_spec (isa_model.pc (isa_model_inst st)) (rob.pc item.2)) |].
    cbn [pcs app fmap list_fmap pushes]. by rewrite Hp.
  - assert (Hpc : isa_model.pc (isa_model_inst st) = rob.pc item.2).
    { destruct (Z.eqb_spec (isa_model.pc (isa_model_inst st)) (rob.pc item.2)); done. }
    specialize (IH st1 H). destruct e.
    + destruct IH as (l1 & it & l2 & st2 & st3 & -> & E2 & E3 & Hne & Hh & Hi & Hc).
      exists (item :: l1), it, l2, st2, st3. split_and!; try done.
      * cbn [retire_all]. rewrite E1. exact E2.
      * cbn [pcs app fmap list_fmap pushes]. rewrite <- Hpc, Hp. exact Hh.
    + cbn [pcs fmap list_fmap pushes]. rewrite <- Hpc, Hp. exact IH.
Qed.
End retire.

(** ** Pausing *)
Section pausing.
Import control.
Implicit Types (c : control_t) (k : command_t) (ev : list (bool * bool)).

(** The first of the next turns, with their breakpoints and commits, that pauses. *)
Fixpoint first_pause ev c : option nat :=
  match ev with
  | [] => None
  | bc :: ev => let pc := head bc.1 bc.2 c in if pc.1 : bool then Some O else S <$> first_pause ev pc.2
  end.
(** The first turn with an event. *)
Definition first_turn (p : bool * bool -> bool) ev : option nat := fst <$> list_find (λ bc, Is_true (p bc)) ev.
Definition awaited k (bc : bool * bool) : bool :=
  match k with step => true | stepcommit => bc.1 || bc.2 | _ => bc.1 end.
(** The flags a command leaves when it ends the pause. *)
Definition resumed k : control_t :=
  match k with step => mk false false true false | stepcommit => mk false false true true
             | _ => mk false false false false end.

Lemma handled n k l c : stops k = true ->
  debug_event_handle (replicate n pause ++ k :: l) c =
    Some ({ resumed k with pause_detected := pause_detected c }, l).
Proof.
  intros Hk. revert c. induction n as [|n IH]; intros c; cbn.
  - rewrite Hk. by destruct k, c.
  - rewrite IH. by destruct c.
Qed.

Lemma first_pause_resumed k ev : stops k = true ->
  first_pause ev (resumed k) = first_turn (awaited k) ev.
Proof.
  intros Hk. unfold first_turn. induction ev as [|[b c] ev IH]; [done |].
  cbn [first_pause list_find]. 
  destruct k; try discriminate Hk; destruct b, c; cbn; try done; cbn in IH; rewrite IH;
    by destruct (list_find _ ev) as [[]|].
Qed.

(** ** C35
    The debugger's commands: whatever the flags were, a paused machine serves
    commands until [continue], [step] or [stepcommit], and leaves the pause then;
    from there it pauses again at the first turn with a breakpoint
    ([continue]), at the next turn ([step]), or at the first turn at which an
    instruction has committed or a breakpoint has triggered ([stepcommit]); at
    no turn before. *)
Theorem debugger_resumes c k n l ev :
  pause_state c = true -> stops k = true ->
  exists c', paused 2 (replicate n pause ++ k :: l) c = Some (c', l) /\
    pause_state c' = false /\ first_pause ev c' = first_turn (awaited k) ev.
Proof.
  intros Hc Hk. exists (resumed k). split_and!.
  - cbn [paused]. rewrite Hc, (handled n k l c Hk). by destruct k.
  - by destruct k.
  - by apply first_pause_resumed.
Qed.
End pausing.

Lemma debugger_resumes_witness :
  exists c', control.paused 2 [control.pause; control.stepcommit; control.step]
      (control.mk true true false false) = Some (c', [control.step]) /\
    first_pause [(false, false); (false, false); (false, true); (false, false)] c' = Some 2%nat.
Proof.
  destruct (debugger_resumes (control.mk true true false false) control.stepcommit 1 [control.step]
    [(false, false); (false, false); (false, true); (false, false)]) as (c' & H1 & _ & H2).
  - reflexivity.
  - reflexivity.
  - exists c'. split; [exact H1 | exact H2].
Defined.

(** ** How the loop ends *)
Section ends.
Import main_run.
Implicit Types (r : run_t).

Definition breakpoints_of r : breakpoint_state_t := breakpoints (lockstep.cycle_model_inst (models r)).
(** A breakpoint has triggered. *)
Definition hit r : Prop :=
  let s := lockstep.cycle_model_inst (models r) in
  (breakpoint.breakpoint_check (u32 (cpu_clock_cycle s)) (u32 (committed_instruction_num s))
     (breakpoint_pcs s) (breakpoints s)).1 = true.
(** The program has written CSR_FINISH. *)
Definition wrote_finish r (v : Z) : Prop :=
  breakpoint.breakpoint_csr_finish_found (breakpoints_of r) = true /\
  breakpoint.breakpoint_csr_finish_value (breakpoints_of r) = v.

Lemma check_finish c n p bs :
  breakpoint.breakpoint_csr_finish_found (breakpoint.breakpoint_check c n p bs).2 =
    breakpoint.breakpoint_csr_finish_found bs /\
  breakpoint.breakpoint_csr_finish_value (breakpoint.breakpoint_check c n p bs).2 =
    breakpoint.breakpoint_csr_finish_value bs.
Proof. unfold breakpoint.breakpoint_check. by destruct bs as [? [] ? ?]. Qed.

(** The exit at a breakpoint. *)
Lemma check_breakpoints_exits r code : check_breakpoints r = exits code ->
  hit r /\ no_controller r = true /\
  code = if breakpoint.breakpoint_csr_finish_found (breakpoints_of r)
         then if 0 <? breakpoint.breakpoint_csr_finish_value (breakpoints_of r) then 4 else 5
         else 6.
Proof.
  unfold check_breakpoints, hit, breakpoints_of. set (s := lockstep.cycle_model_inst _).
  pose proof (check_finish (u32 (cpu_clock_cycle s)) (u32 (committed_instruction_num s))
    (breakpoint_pcs s) (breakpoints s)) as [Ef Ev].
  destruct (breakpoint.breakpoint_check _ _ _ _) as [b bs] eqn:Eb. cbn [fst snd] in *.
  destruct b; [| discriminate]. unfold breakpoint.breakpoint_get_finish. rewrite <- Ef, <- Ev.
  intros H.
  assert (Hn : forall bs, no_controller (set_breakpoints bs r) = no_controller r) by (intros; by destruct r).
  rewrite Hn in H. destruct (no_controller r); [| discriminate H]. injection H as <-.
  split; [done | split; [done |]]. by destruct (breakpoint.breakpoint_csr_finish_found bs).
Qed.
Lemma check_breakpoints_goes_on r br : check_breakpoints r = goes_on br ->
  no_controller r = true -> ~ hit r.
Proof.
  unfold check_breakpoints, hit. set (s := lockstep.cycle_model_inst _).
  destruct (breakpoint.breakpoint_check _ _ _ _) as [b bs]. cbn [fst snd]. destruct b; [| done].
  assert (Hn : forall bs, no_controller (set_breakpoints bs r) = no_controller r) by (intros; by destruct r).
  rewrite Hn. intros H Hc. by rewrite Hc in H.
Qed.

(** Behind the pause there is one exit code. *)
Lemma stop_at_code code r c : stop_at code r = exits c -> c = code.
Proof. unfold stop_at. case_match; by intros [= ->]. Qed.
Lemma run_models_exits r code : run_models r = Ok (exits code) -> code = 6.
Proof.
  unfold run_models. intros H. apply bind_Ok in H as ([[e l] st] & _ & H). revert H.
  destruct (if (e : bool) || _ then _ else _) as [c | r1] eqn:E1.
  { intros [= <-]. case_match; [by apply stop_at_code in E1 | discriminate E1]. }
  destruct (if negb _ then _ else _) as [c | r2] eqn:E2.
  { intros [= <-]. case_match; [by apply stop_at_code in E2 | discriminate E2]. }
  intros H. apply ok_inj in H. case_match; [by apply stop_at_code in H | discriminate H].
Qed.

(** ** C32
    The exit status of the simulation: without a controller it is 4
    (EXIT_CODE_CSR_FINISH_OK_DETECTED) if and only if a breakpoint has triggered
    and the program has written a value other than 0 to CSR_FINISH, 5 if and
    only if it has written 0, and 6 in every other case: another breakpoint, a
    mismatch of the two models, a bus error, or no retirement for too long. *)
Theorem exit_status r l code : no_controller r = true -> turn l r = Ok (Some (exits code)) ->
  (code = EXIT_CODE_CSR_FINISH_OK_DETECTED <-> hit r /\ exists v, wrote_finish r v /\ 0 < v) /\
  (code = EXIT_CODE_CSR_FINISH_FAILURE_DETECTED <-> hit r /\ exists v, wrote_finish r v /\ v <= 0) /\
  (code = EXIT_CODE_OTHER_BREAKPOINT_DETECTED <-> (hit r -> forall v, ~ wrote_finish r v)).
Proof.
  intros Hn. unfold turn. destruct (check_breakpoints r) as [c | br] eqn:Eb.
  - intros [= <-]. apply check_breakpoints_exits in Eb as (Hh & _ & ->). unfold wrote_finish.
    unfold EXIT_CODE_CSR_FINISH_OK_DETECTED, EXIT_CODE_CSR_FINISH_FAILURE_DETECTED, EXIT_CODE_OTHER_BREAKPOINT_DETECTED.
    destruct (breakpoint.breakpoint_csr_finish_found (breakpoints_of r)).
    + destruct (Z.ltb_spec 0 (breakpoint.breakpoint_csr_finish_value (breakpoints_of r))); naive_solver lia.
    + naive_solver.
  - pose proof (check_breakpoints_goes_on r br Eb Hn) as Hh.
    destruct (pause_at_head _ _ _) as [rl |]; [| discriminate]. intros H.
    apply bind_Ok in H as (n & E & H). destruct n as [c | r']; [| discriminate H].
    injection H as ->. apply run_models_exits in E as ->. naive_solver.
Qed.

(** The retire timeout: right for the first 2^32 cycles; after that the 32 bit
    [last_retire_cycle] is always too far away. *)
Lemma timed_out_early r (c := cpu_clock_cycle (lockstep.cycle_model_inst (models r))) :
  0 <= last_retire_cycle r <= c -> c < two32 ->
  timed_out r = (RETIRE_TIMEOUT <=? c - last_retire_cycle r).
Proof. intros H Hc. unfold timed_out. fold c. by rewrite u64_small by word_lia. Qed.
Lemma timed_out_late r (c := cpu_clock_cycle (lockstep.cycle_model_inst (models r))) :
  is_u32 (last_retire_cycle r) -> two32 + RETIRE_TIMEOUT <= c < two64 -> timed_out r = true.
Proof.
  intros H Hc. unfold timed_out. fold c. unfold RETIRE_TIMEOUT in *.
  rewrite u64_small by word_lia. word_lia.
Qed.
End ends.

(** ** Concrete states *)
Definition all_csrs : cycle_csrfile_t :=
  match cycle_map_all cycle_csr_map_list (cycle_csrfile.new [] []) with
  | Ok t => t | _ => cycle_csrfile.new [] []
  end.
(** The boot state with 7 in the physical register of x5. *)
Definition compared_regs : phy_regfile.regfile_t :=
  match phy_regfile.write 4 7 true 0 false true boot_regfile with Ok f => f | _ => boot_regfile end.

Lemma created : is_ok (cycle_start.create [] [] [0; 0; 0; 0]) = true.
Proof. vm_cast_no_check (eq_refl true). Qed.

(** A program that has written 1 to CSR_FINISH. *)
Lemma exit_status_witness : exists r,
  main_run.turn [] r = Ok (Some (main_run.exits 4)) /\ hit r /\ exists v, wrote_finish r v /\ 0 < v.
Proof.
  pose proof created as E. destruct (cycle_start.create [] [] [0; 0; 0; 0]) as [s0 | | |]; try discriminate E.
  pose (s := { s0 with breakpoints := breakpoint.breakpoint_csr_trigger CSR_FINISH 1 true breakpoint.init }).
  pose (st := lockstep.mk s (boot [] [] breakpoint.init) [] (fixed_size_buffer.new 10) [] []).
  pose (r := main_run.mk st (control.mk false false false false) 0 true).
  assert (H : main_run.turn [] r = Ok (Some (main_run.exits 4))) by reflexivity.
  destruct (exit_status r [] 4 eq_refl H) as [H4 _].
  exists r. split; [exact H |]. apply H4. reflexivity.
Defined.

Lemma comparison_exact_witness : exists s l,
  lockstep.compare (clock s) (boot [] [] breakpoint.init) = Ok l /\ l <> [].
Proof.
  pose proof created as E. destruct (cycle_start.create [] [] [0; 0; 0; 0]) as [s0 | | |]; try discriminate E.
  pose (s := { s0 with retire_rat := boot_rat; phy_regfile := compared_regs; csr_file := all_csrs }).
  destruct (comparison_exact CycleBoot.PHY_REG_NUM s boot_map (boot [] [] breakpoint.init)) as (l & El & Hl).
  - exact boot_rat_is.
  - split; vm_compute; reflexivity.
  - apply boot_wf.
  - intros a Ha%compared_csr_list. revert a Ha. apply (proj1 (Forall_forall _ _)). vm_compute. repeat constructor.
  - exists s, l. split; [exact El |]. intros ->. destruct Hl as [Hl _].
    destruct (Hl eq_refl) as (Hg & _ & _). destruct (Hg 5) as (p & Hp & Hv); [lia |].
    vm_compute in Hp. injection Hp as <-. vm_compute in Hv. discriminate Hv.
Defined.

(** ** A program *)
Section program.
Import rv32.
Definition csr_word (f3 rd rs1 csr : Z) : Z := csr * 2 ^ 20 + rs1 * 2 ^ 15 + f3 * 2 ^ 12 + rd * 2 ^ 7 + 0x73.
Definition csrrw_word := csr_word 1.
Definition csrrs_word := csr_word 2.

(** A loop with a multiplication, a store that the following loads overlap, a
    division, a branch and a call; then a trap whose handler, at 0x4c, moves
    mepc on and returns. *)
Definition program : list Z :=
  [ encode (Auipc 5 0);             (* 00: x5 = 0x80000000 *)
    encode (OpImm Addi 6 5 0x4c);
    csrrw_word 0 6 0x305;           (* 08: mtvec *)
    encode (OpImm Addi 1 0 2);
    encode (Op Mul 2 5 1);          (* 10: the loop *)
    encode (Store Sw 5 2 0x100);
    encode (Store Sb 5 1 0x101);
    encode (Load Lw 7 5 0x100);
    encode (Op Div 8 7 1);          (* 20 *)
    encode (OpImm Addi 1 1 (-1));
    encode (Branch Bne 1 0 (-0x18));
    encode (Jal 9 0x10);            (* 2c: call 3c *)
    0x73;                           (* 30: ecall *)
    csrrs_word 12 0 0xB00;          (* 34: mcycle *)
    encode (Jal 0 0);               (* 38: the end *)
    encode (Load Lhu 10 5 0x102);   (* 3c *)
    encode (Op Sub 11 7 10);
    encode (Jalr 0 9 0);            (* 44: return *)
    encode (OpImm Addi 0 0 0);
    csrrs_word 20 0 0x341;          (* 4c: the handler *)
    encode (OpImm Addi 20 20 4);
    csrrw_word 0 20 0x341;
    0x30200073 ].                   (* mret *)
Definition word_bytes (w : Z) : list Z := [w mod 256; w / 256 mod 256; w / 65536 mod 256; w / 16777216].
Definition program_image : list Z := concat (word_bytes <$> program).
End program.

(** *** Two retired instructions, of which the ISA model is not at the second *)
Definition demo_items : list (Z * rob.item_t) :=
  (λ ip : Z * Z, (ip.1, { rob.item_init with rob.pc := ip.2 })) <$> [(0, 0x80000000); (1, 0x80000010)].
Definition demo_lockstep : outcome lockstep.lockstep_t := lockstep.start [0; 0; 0; 0] breakpoint.init program_image.
Lemma demo_retired :
  match st ← demo_lockstep; lockstep.retire_all false demo_items st with Ok es => es.1 | _ => false end = true.
Proof. vm_cast_no_check (eq_refl true). Qed.

Lemma retired_in_step_witness   : exists st st' l1 item l2, demo_lockstep = Ok st /\
  lockstep.retire_all false demo_items st = Ok (true, st') /\ demo_items = l1 ++ item :: l2 /\
  exists p, p <> rob.pc item.2 /\
    pushes (pcs l1 ++ [p]) (lockstep.isa_model_pc_history st) = Ok (lockstep.isa_model_pc_history st').
Proof.
  pose proof demo_retired as D. destruct demo_lockstep as [st | | |] eqn:Est; try discriminate D.
  cbn [mbind outcome_bind] in D. destruct (lockstep.retire_all false demo_items st) as [[e st'] | | |] eqn:E; try discriminate D.
  cbn [fst] in D. subst e.
  destruct (retired_in_step demo_items st true st' E) as (l1 & it & l2 & st1 & st2 & H1 & _ & _ & H2 & H3 & _).
  exists st, st', l1, it, l2. split; [reflexivity |]. split; [exact E |]. split; [exact H1 |].
  eexists. split; [exact H2 | exact H3].
Defined.

Definition isa_state_after (n : nat) : outcome (Z * list Z) :=
  st ← demo_lockstep;
  st ← lockstep.agreeing n st;
  Ok (isa_model.pc (lockstep.isa_model_inst st),
      regfile.reg_data (isa_model.arch_regfile (lockstep.isa_model_inst st))).

(** Both models on [program], from construction, reset and loading: in each of
    the first 115 turns of the main loop every instruction the cycle model
    retires is the one the ISA model is at, and after it all compared registers
    agree; the loop with its store forwarding and division, the call and the trap
    have run by then, and the handler has returned behind the ecall. *)
Example models_agree :
  isa_state_after 115 =
  Ok (0x80000034,
      [0; 0; 0x80000000; 0; 0; 0x80000000; 0x8000004c; 0x80000100; 0x80000100; 0x80000030;
       0x8000; 0x7fff8100; 0; 0; 0; 0; 0; 0; 0; 0; 0x80000034; 0; 0; 0; 0; 0; 0; 0; 0; 0; 0; 0]).
Proof. vm_cast_no_check (eq_refl (isa_state_after 115)). Qed.

(** A load from an odd address: the cycle model traps with
    load_address_misaligned, the ISA model stops the simulator. *)
Definition misaligned_program : list Z :=
  concat (word_bytes <$> [rv32.encode (rv32.Auipc 5 0); rv32.encode (rv32.Load rv32.Lhu 6 5 1)]).
Example misaligned_load_aborts :
  (m ← isa_model.load misaligned_program (boot [] [] breakpoint.init);
   m ← isa_model.run m; isa_model.run m) = Abort.
Proof. vm_compute. reflexivity. Qed.
